(* ===== verification/_CoqProject ===== *)
-Q . S2P
Prelude.v
ListHead.v
ItemList.v
AmConfig.v
PcmBuffer.v
PackageList.v
ArmDecode.v
ArmPcm.v
MessagePool.v
Audec.v
Dsp.v
Rely.v
PtsMgt.v
DecoderSelect.v
AdecControl.v
MsgLoop.v
Lifetime.v
Resample.v
ResampleStream.v
ResampleBytes.v
UioRead.v
ThreadPool.v
CodecDev.v
Codec.v
CodecCalls.v
CodecSession.v
CodecLife.v
CodecDriver.v
CodecAudio.v
DtvPatch.v
DtvSession.v
DtvRuns.v
AlsaConv.v
AlsaOut.v
AlsaSession.v
AlsaRuns.v
ArmPts.v
