(* ===== verification/Prelude.v ===== *)
(** * Verification of the Amlogic codec and audio decoder libraries

    This development models the core of the player code of
    platform_hardware_amlogic: the codec library media/amcodec, the audio
    decoder library LibAudio/amadec behind it, and the containers of
    media/amavutils they are built on.

    ** The program

    A player describes a stream in a [codec_para_t] and opens it with the
    codec library (codec_ctrl.c): that opens the stream device and the control
    device, configures the drivers by ioctls of one of two generations
    (codec_h_ctrl.c), and starts the audio (audio_ctrl.c).  Starting the audio
    creates a decoder instance ([audio_decode_init]); the library controls it
    through the functions of adec-external-ctrl.c and destroys it
    ([audio_decode_release]).  A control function does not act on the device:
    it puts a command into the message pool of the instance (adec-message.c).
    The decoder's own thread ([adec_message_loop], adec-internal-mgt.c) opens
    the DSP (feeder.c, dsp/audiodsp-ctl.c), initialises the output, takes the
    commands one by one and drives the output device and the clock
    (adec-pts-mgt.c), which reads and writes sysfs nodes, drops PCM data to
    reach the video and reports the audio pts.  PCM data of the software
    decoders passes through the ring of adec_write.c, packets and other items
    through the linked lists of itemlist.c.  The output takes its samples
    through the resampler (audio_out/aml_resample.c), which adjusts their
    rate to the clock of the stream.  A software decoder has two threads
    (adec-ffmpeg-mgt.c): one takes the compressed stream out of a hardware
    fifo (adec_read.c) and queues packages, the other decodes them and fills
    the ring.  On Linux the output is ALSA (audio_out/alsa-out.c): a thread
    of its own reads PCM data from the decoder, converts it to a rate of the
    device and writes it.  In the builds for television the audio HAL runs the decoder
    itself, through the dtv patch output (audio_out/dtv_patch_out.c), whose
    thread carries the PCM data to the HAL.  The threads of the player are
    created, put to sleep and asked to exit through the thread pool of
    media/amavutils.

    ** The files

    - Prelude.v: machine integers ([u32], [i32], [u64], C's division), the
      state monad with undefined behaviour [CM] and a logic for its total
      correctness, arrays with bounds, samples, record update, string
      comparison, and the tactics of the development.
    - ListHead.v: list.h, a heap of doubly linked nodes.
    - ItemList.v: itemlist.c over that heap, with the allocator as a class.
    - AmConfig.v: amconfigutils.c, the configuration table.
    - PcmBuffer.v: adec_write.c, the ring of PCM bytes.
    - PackageList.v: the queue of packages of adec-ffmpeg-mgt.c, over a heap
      of packages and blocks of bytes; ArmDecode.v: its two threads
      [audio_getpackage_loop] and [audio_decode_loop], with schedules of their
      steps, of the output and of track resets; ArmPcm.v: what becomes of the
      PCM the decoder library returns.
    - MessagePool.v: adec-message.c, the ring of commands and their blocks.
    - Audec.v: the instance [aml_audio_dec_t] (audio-dec.h), the world of the
      decoder's thread, and a weakest-precondition logic for its computations.
    - Dsp.v: audiodsp-ctl.c, feeder.c and the format changes of
      audiodsp_update_format.c.
    - Rely.v: what the decoder's thread relies on ([PlayerEnv]), the life of
      the output device, and the invariant [thread_inv].
    - PtsMgt.v: adec-pts-mgt.c.
    - DecoderSelect.v: [match_types], [set_multichs_prop],
      [set_audio_decoder] and [audiodec_init] of adec-internal-mgt.c.
    - AdecControl.v: adec-external-ctrl.c.
    - MsgLoop.v: the handlers and the loop of adec-internal-mgt.c.
    - Lifetime.v: the creation followed by the thread.
    - Resample.v: audio_out/aml_resample.c over an abstract source of bytes
      ([PcmSource]), and its interpolation; ResampleStream.v: its calls as
      steps on a stream, with the PCM ring as one source; ResampleBytes.v:
      the account of the bytes the source delivers.
    - UioRead.v: adec_read.c over a device that answers register reads.
    - ThreadPool.v: amthreadpool.c, with the item lists as finite maps.
    - CodecDev.v: codec_h_ctrl.c and the error codes, over a class [Kernel]
      that answers the system calls; the world keeps the open descriptors,
      the codecs and the decoder instances.
    - Codec.v: codec_ctrl.c and audio_ctrl.c, over the class [DecoderLib] of
      what the decoder library promises.
    - CodecCalls.v: all calls but those that open and close keep the
      resources.
    - CodecSession.v: opening and closing, sessions of a client with many
      codecs as a step relation, and their invariant.
    - CodecLife.v: the decoder library of AdecControl.v and Lifetime.v as an
      instance of [DecoderLib], and concrete sessions.
    - CodecDriver.v: the two command sets, the errors of drivers, the read
      loop of subtitles; CodecAudio.v: what reaches the decoder instance.
    - DtvPatch.v: dtv_patch_out.c, its calls and its thread, over the same
      class [DecoderLib]; DtvSession.v: the schedules of calls, thread and
      decoder; DtvRuns.v: concrete schedules.
    - AlsaConv.v: the rate conversion of alsa-out.c and its reference filter;
      AlsaOut.v: the setup, the calls and the thread of alsa-out.c;
      AlsaSession.v: their schedules, along the life of the output of
      Rely.v; AlsaRuns.v: concrete schedules.
    - ArmPts.v: the clock of the software decoder ([armdec_get_pts]) over the
      PCM ring, and that of the wifi display ([wfd_dec_get_pts]).

    ** State, effects and time

    The containers are functions on an explicit memory: [None] stands for an
    execution C gives no meaning to (an access outside a block, a double
    free, a signed overflow, a lock taken twice).  The decoder's thread is a
    computation over a world: the instance, the static variables of the
    files and the log of every request to the system.  An oracle answers the
    requests (system calls, ioctls, sysfs, properties, the output device) and
    says what other threads write at each point where they may; the theorems
    hold for every oracle.  A computation ends ([Done]), is stopped in a wait
    ([Waiting], with the world reached) or crashes ([Crash]).  Numbers keep
    their C widths, a [long] has 64 bits, floats are their bits.

    Loops that wait for the outside world take fuel, and a theorem about
    them speaks of every amount of fuel, so of every prefix of an endless
    run.  Loops the code itself bounds have a fixed fuel that is shown to be
    enough: 64 for the wait of the sender (at most 62 sleeps), 102 for the
    wait for the format (it gives up after 100 failures), 52 and 12 for the
    polls before a drop, 41 rounds per byte for a drop, 11 and 101 rounds
    for the polls of the hardware fifo, and for the loops of the resampler the
    number of bytes or samples asked for, as every round moves at least one.
    The loops over lists use the number of nodes, the one over packages 8,
    the most the queue holds.  The threads of the software decoder need no
    fuel: a step is one round of the loop a thread is in.

    ** The theorems

    - Containers: the item list refines a bounded queue that rejects
      duplicates (with extension words that fit an [int]), cleaning frees everything once, insertion keeps the order
      and deletion undoes it; the configuration table refines a finite map
      when no path begins another;
      the PCM ring refines a byte FIFO, also over its whole life; the message
      pool refines a queue that drops its oldest command when full, without
      leaks, and its sender's wait is bounded.
    - Devices: the dsp descriptor is opened, used and closed correctly in
      every sequence of operations that asks an open dsp for its frames; [feeder_init] leaves no descriptor behind
      when it fails; the format and firmware tables are total where they
      should be.
    - Clock: a drop takes exactly the bytes asked for as long as the reads
      do not fail, the latency
      correction and the decision of a track switch are exact on 64-bit
      values, the counted polls end, the report is safe once the rate is
      known, and divides by zero when it is not.
    - Control: each control call posts exactly its command, each getter
      answers the instance's value, and both are steps the decoder's thread
      can rely on; that is the interface [PlayerEnv].
    - Thread: for every oracle and every schedule of control calls the
      message loop does not crash, drives the output through its legal life
      and uses the dsp only while it is open; commands are handled in order,
      and what the output, the control device and the clock see is what the
      commands ask for;
      the creation of an instance establishes what the thread needs.
    - Samples: the fixed point loops of the resampler compute linear
      interpolation; over any sequence of calls, on a source that does not
      fail and delivers whole samples, it is a transducer of the delivered
      bytes that loses and reorders nothing, the identity for type NONE, and
      fills what it is asked for as long as its source does.
    - Input: a read from a fifo whose counters are in range stores the next bytes of the stream, ends
      when they arrive, and a session releases descriptor and mapping.
    - Software decoder: in every schedule its threads stay inside their
      memory, and the bytes read and the PCM the decoder library returns
      are conserved in order from the input through rest, queue and ring to
      the output, as long as a call that makes PCM uses bytes; once asked
      to stop both threads end within a fixed number of rounds and all their
      memory is freed.
    - Thread pool: creation, joining, requests and sleeps refine a registry
      of threads with owner and exit request, a request persists, and all
      memory is freed when the threads are joined children first.
    - Codec library: in every legal session, on any number of codecs and for
      all answers of the drivers, only open descriptors and live instances
      are used, and they are exactly those the open codecs name, so that
      closing gives all back; the old and the new driver commands carry the
      same requests, but for the end of stream and the subtitle information;
      a pause reaches the control device and the queue of the
      decoder's thread; the description of the stream reaches the instance.
    - Dtv patch output: no schedule crashes or leaves anything behind, a stop
      ends the thread within six steps, and the HAL gets the bytes of the
      decoder in order as long as no round is given up halfway.
    - ALSA output: the conversion loops compute a closed half-band filter;
      in every schedule of calls, thread and device answers the state stays
      well formed and every legal step runs; the device plays the converted
      stream, wherever reads, writes and blocks are cut; a stop ends the
      thread and releases what the initialisation took.
    - Clock of the software decoder: on any run over the ring a reported pts
      is that of the byte heard next, up to a frame and a tick and ahead by
      the PCM that waits for room in the ring.
    - Defects the code has, stated as theorems: a leaked list item, a format
      that cannot be recognised, a resumed output that was never started, a
      division by zero, a buffer one byte short, two overruns of the
      resampler, an odd byte it loses, PCM that is dropped, a size cut to an
      [int], failing reads that are not tested, a pool freed before its
      threads, driver errors that are not
      seen while a stream is opened, a subtitle loop that never ends.

    ** Bounds of the model

    The build is the one with the output inside the decoder
    (USE_AOUT_IN_ADEC), but for the dtv patch output, which belongs to the
    build without it; that adds fields to the instance, which [dtv_inst] puts
    around the common ones.  The safety of the message loop is stated for a
    stream whose format does not change (the flag that adec_reset_track reads
    stays 0): with a change while paused it fails, which is a theorem of its
    own.  The output has a mute function, which [stop_adec] calls without a
    test; the creation installs it.  The memory model is sequentially consistent at the points where the
    code reads shared fields, and other threads act between the statements
    of the decoder's thread, not inside them.

    The resampler is taken with one or two channels, a ratio that fits its
    arrays and a source that does not fail; its ghost log [taken] has the raw
    bytes of every read, and [samples] the samples made of them; a call of the thread pool is one step, its locks being taken
    one at a time inside it.  The theorems on the software decoder are for an
    input of less than 2 GB between two starts, as lengths are ints, for
    memory that does not run out, which the code does not check, and for the
    formats other than APE, whose frame sizes come from the stream.  Their
    logs [taken], [eaten], [made], [kept] and [heard] are ghosts: [made]
    grows with every call of the decoder library, before the thread decides
    what it keeps.

    A session of the codec library starts in a process whose descriptor 0 is
    open, so that no device gets it; its client opens no pure subtitle stream
    (one descriptor under two names), passes extradata of 4096 bytes with a
    size from 0 on, closes a codec with audio only when the audio has
    started, releases the audio utilities before it closes, passes a
    threshold whose product with 90 fits an [int], and ends at the first
    opening that fails.  There is memory for commands ([dl_room]), as without
    it a release waits for a thread that was never told to end; and the loops
    that read subtitle data, which need not end, are no calls of a session.  Each of these guards stands for a defect shown
    by an example or noted with the code.  The instance of a codec may be
    changed by its thread before every call, as long as its queue stays
    sound.  The loop that opens a device makes 1000 attempts, as in the code;
    the loop that reads subtitle data takes fuel, and as many rounds as bytes
    are enough when every read delivers one.  The dtv patch output is opened
    with all callbacks before it is started, its thread and its instance can
    be created, its reads do not fail, and no query of the parameters is
    under way when a stop frees the instance; examples show what happens
    otherwise.  [codec_get_audio_cur_delay_ms]
    is modelled but not part of the sessions: its sum may overflow.

    The ALSA output is initialised with one or two channels, by a card whose
    name is in the list of cards, and with hardware that accepts the rate
    and the number of channels, as the code checks neither; an [snd_pcm_]
    call answers what its documentation says, so a write accepts at most the
    frames it is given, and [dsp_read] delivers at most what it is asked for
    and does not fail: with an empty buffer a failure leaves the buffer.
    The stream theorem leaves out a device that cannot be prepared and a
    failing allocation, after which the code plays frames again; examples
    show both kinds.  Its stop takes at most 49156 steps: three for each of
    the 16384 frames of a block, and four.  The device of the model takes the
    volume of the boot player at its default.

    Not modelled: of the codec library the texts of error messages, the video
    position over sysfs and the library registration; of adec-ffmpeg-mgt.c
    the loading of the codecs, the message loop of its main thread (the same
    switch as [adec_message_loop]) and the associated audio; of alsa-out.c
    the float volume of the boot player and the functions only disabled code
    calls; the Android output (C++ over AudioTrack), the floating point
    variant of the resampler ([af_resample_api]), the wifi display loop, which
    resamples in floating point too, the encoders and their closed libraries,
    the codecs (third-party code), the command line players, and the other
    HALs of the repository, which are glue over drivers.  What would extend
    the development next is the second stream of the software decoder
    (associated audio), which has a package list and two threads of its own. *)

From stdpp Require Export base list gmap strings.
From Stdlib Require Export ZArith Lia.

#[export] Set Default Goal Selector "!".
#[global] Open Scope Z_scope.

(** * Machine integers

    A C integer is a [Z]; a conversion to a [w]-bit type is the explicit
    reduction modulo [2^w], into [0 .. 2^w) for the unsigned types and into
    [-2^(w-1) .. 2^(w-1)) for the signed ones. *)

Definition wrapu (w z : Z) : Z := z mod 2 ^ w.
Definition wraps (w z : Z) : Z := (z + 2 ^ (w - 1)) mod 2 ^ w - 2 ^ (w - 1).

Definition u8 := wrapu 8.
Definition u32 := wrapu 32.
Definition u64 := wrapu 64.
Definition i16 := wraps 16.
Definition i32 := wraps 32.
Definition i64 := wraps 64.

Definition INT_MAX : Z := 2 ^ 31 - 1.
Definition INT_MIN : Z := - 2 ^ 31.

(** The value of a signed expression that must not overflow. *)
Definition int_ok (z : Z) : option Z :=
  if (INT_MIN <=? z) && (z <=? INT_MAX) then Some z else None.
Definition int64_ok (z : Z) : option Z :=
  if (- 2 ^ 63 <=? z) && (z <? 2 ^ 63) then Some z else None.

(** The null pointer among the addresses. *)
Definition NULL : Z := 0.

(** C's [/] and [%] truncate towards zero. *)
Definition c_div := Z.quot.
Definition c_rem := Z.rem.

Declare Scope cmodel_scope.
Delimit Scope cmodel_scope with C.
Infix "/c" := c_div (at level 40, left associativity) : cmodel_scope.
Infix "%c" := c_rem (at level 40, left associativity) : cmodel_scope.
#[global] Open Scope cmodel_scope.

(** * A state monad with undefined behaviour

    [CM S A] threads a state [S]; [None] stands for an execution the C
    standard or the runtime does not allow to continue (an access outside
    the live memory, a signed overflow, a mutex locked twice). *)

Definition CM (S A : Type) : Type := S → option (A * S).

#[export] Instance cm_ret {S} : MRet (CM S) := λ A a s, Some (a, s).
#[export] Instance cm_bind {S} : MBind (CM S) := λ A B f m s,
  match m s with Some (a, s') => f a s' | None => None end.

Definition cm_get {S} : CM S S := λ s, Some (s, s).
Definition cm_put {S} (s : S) : CM S unit := λ _, Some (tt, s).
Definition cm_gets {S A} (f : S → A) : CM S A := λ s, Some (f s, s).
Definition cm_modify {S} (f : S → S) : CM S unit := λ s, Some (tt, f s).
Definition cm_fail {S A} : CM S A := λ _, None.
Definition cm_lift {S A} (o : option A) : CM S A := λ s,
  match o with Some a => Some (a, s) | None => None end.

Lemma cm_bind_some {S A B} (m : CM S A) (f : A → CM S B) s a s' :
  m s = Some (a, s') → (m ≫= f) s = f a s'.
Proof. unfold mbind, cm_bind. by intros ->. Qed.

Lemma cm_bind_inv {S A B} (m : CM S A) (f : A → CM S B) s r :
  (m ≫= f) s = Some r → ∃ a s', m s = Some (a, s') ∧ f a s' = Some r.
Proof. unfold mbind, cm_bind. destruct (m s) as [[a s']|]; naive_solver. Qed.

Lemma bind_ret {S A B} (a : A) (f : A → CM S B) s : (mret a ≫= f) s = f a s.
Proof. done. Qed.
Lemma bind_lift {S A B} (o : option A) a (f : A → CM S B) s :
  o = Some a → (cm_lift o ≫= f) s = f a s.
Proof. by intros ->. Qed.
Lemma cm_get_bind {S B} (f : S → CM S B) s : (cm_get ≫= f) s = f s s.
Proof. done. Qed.
Lemma cm_gets_bind {S A B} (g : S → A) (f : A → CM S B) s : (cm_gets g ≫= f) s = f (g s) s.
Proof. done. Qed.
Lemma cm_put_bind {S B} (s1 : S) (f : unit → CM S B) s : (cm_put s1 ≫= f) s = f tt s1.
Proof. done. Qed.
Lemma cm_modify_bind {S B} (g : S → S) (f : unit → CM S B) s : (cm_modify g ≫= f) s = f tt (g s).
Proof. done. Qed.

(** * Automation *)

Create HintDb cmodel.

(** Case analysis on every boolean integer comparison of the goal. *)
Ltac zcase :=
  repeat match goal with
  | |- context [?a =? ?b] => destruct (Z.eqb_spec a b)
  | |- context [?a <? ?b] => destruct (Z.ltb_spec a b)
  | |- context [?a <=? ?b] => destruct (Z.leb_spec a b)
  | |- context [?a >? ?b] => rewrite (Z.gtb_ltb a b)
  | |- context [?a >=? ?b] => rewrite (Z.geb_leb a b)
  end.

(** The same in the hypotheses. *)
Ltac zcase_in :=
  repeat match goal with
  | H : context [?a =? ?b] |- _ => destruct (Z.eqb_spec a b)
  | H : context [?a <? ?b] |- _ => destruct (Z.ltb_spec a b)
  | H : context [?a <=? ?b] |- _ => destruct (Z.leb_spec a b)
  | H : context [?a >? ?b] |- _ => rewrite (Z.gtb_ltb a b) in H
  | H : context [?a >=? ?b] |- _ => rewrite (Z.geb_leb a b) in H
  end.

(** Run a monadic computation one step at a time with known results. *)
Ltac cm_step := first
  [ erewrite cm_bind_some; [| solve [eauto with cmodel]] ]; cbv beta.

(** * Integer lemmas *)

Lemma wrapu_small w z : 0 ≤ z < 2 ^ w → wrapu w z = z.
Proof. intros. by apply Z.mod_small. Qed.

Lemma wrapu_range w z : 0 ≤ w → 0 ≤ wrapu w z < 2 ^ w.
Proof. intros. apply Z.mod_pos_bound. apply Z.pow_pos_nonneg; lia. Qed.

Lemma wraps_small w z : 0 < w → - 2 ^ (w - 1) ≤ z < 2 ^ (w - 1) → wraps w z = z.
Proof.
  intros Hw Hz. unfold wraps. rewrite Z.mod_small; [lia|].
  replace (2 ^ w) with (2 * 2 ^ (w - 1)); [lia|].
  rewrite <- Z.pow_succ_r by lia. f_equal. lia.
Qed.

Lemma wraps_range w z : 0 < w → - 2 ^ (w - 1) ≤ wraps w z < 2 ^ (w - 1).
Proof.
  intros Hw. unfold wraps.
  assert (2 ^ w = 2 * 2 ^ (w - 1)) as Hp
    by (rewrite <- Z.pow_succ_r by lia; f_equal; lia).
  pose proof (Z.mod_pos_bound (z + 2 ^ (w - 1)) (2 ^ w)) as Hb.
  assert (0 < 2 ^ w) by (apply Z.pow_pos_nonneg; lia). lia.
Qed.

Lemma u32_small z : 0 ≤ z < 2 ^ 32 → u32 z = z.
Proof. apply wrapu_small. Qed.
Lemma u64_small z : 0 ≤ z < 2 ^ 64 → u64 z = z.
Proof. apply wrapu_small. Qed.
Lemma i16_small z : - 2 ^ 15 ≤ z < 2 ^ 15 → i16 z = z.
Proof. by apply (wraps_small 16). Qed.
Lemma i32_small z : - 2 ^ 31 ≤ z < 2 ^ 31 → i32 z = z.
Proof. by apply (wraps_small 32). Qed.
Lemma i64_small z : - 2 ^ 63 ≤ z < 2 ^ 63 → i64 z = z.
Proof. by apply (wraps_small 64). Qed.
Lemma i32_range z : - 2 ^ 31 ≤ i32 z < 2 ^ 31.
Proof. by apply (wraps_range 32). Qed.
Lemma i16_range z : - 2 ^ 15 ≤ i16 z < 2 ^ 15.
Proof. by apply (wraps_range 16). Qed.
Lemma u32_range z : 0 ≤ u32 z < 2 ^ 32.
Proof. by apply (wrapu_range 32). Qed.
Lemma u64_range z : 0 ≤ u64 z < 2 ^ 64.
Proof. by apply (wrapu_range 64). Qed.

Lemma int_ok_some z : INT_MIN ≤ z ≤ INT_MAX → int_ok z = Some z.
Proof.
  intros. unfold int_ok. by rewrite !(proj2 (Z.leb_le _ _)) by lia.
Qed.

Lemma int64_ok_some z : - 2 ^ 63 ≤ z < 2 ^ 63 → int64_ok z = Some z.
Proof.
  intros. unfold int64_ok.
  by rewrite (proj2 (Z.leb_le _ _)), (proj2 (Z.ltb_lt _ _)) by lia.
Qed.

(** Rewrites away every conversion whose argument is in range. *)
Ltac csmall :=
  repeat first
    [ rewrite u32_small by lia | rewrite u64_small by lia
    | rewrite i16_small by lia | rewrite i32_small by lia
    | rewrite i64_small by lia ].

(** * Arrays

    A C array of known length is a list; an index is a [Z].  Reading or
    writing outside the array has no result. *)

Definition zlen {A} (l : list A) : Z := Z.of_nat (length l).

Definition aget {A} (l : list A) (i : Z) : option A :=
  if 0 <=? i then l !! Z.to_nat i else None.

Definition aset {A} (l : list A) (i : Z) (x : A) : option (list A) :=
  if (0 <=? i) && (i <? zlen l) then Some (<[Z.to_nat i := x]> l) else None.

(** [slice l i n]: the [n] elements from index [i]; [splice l i xs]: [l]
    with [xs] copied over it from index [i] (memcpy); neither has a result
    when the range leaves the array. *)
Definition slice {A} (l : list A) (i n : Z) : option (list A) :=
  if (0 <=? i) && (0 <=? n) && (i + n <=? zlen l)
  then Some (take (Z.to_nat n) (drop (Z.to_nat i) l)) else None.

Definition splice {A} (l : list A) (i : Z) (xs : list A) : option (list A) :=
  if (0 <=? i) && (i + zlen xs <=? zlen l)
  then Some (take (Z.to_nat i) l ++ xs ++ drop (Z.to_nat i + length xs) l)
  else None.

Section arrays.
Context {A : Type}.
Implicit Types (l xs ys : list A) (i n : Z).

Lemma zlen_nonneg l : 0 ≤ zlen l.
Proof. unfold zlen. lia. Qed.

Lemma zlen_app l xs : zlen (l ++ xs) = zlen l + zlen xs.
Proof. unfold zlen. rewrite length_app. lia. Qed.

Lemma aget_some l i : 0 ≤ i < zlen l → ∃ x, aget l i = Some x.
Proof.
  intros Hi. unfold aget, zlen in *. rewrite (proj2 (Z.leb_le 0 i)) by lia.
  apply lookup_lt_is_Some. lia.
Qed.

Lemma aset_some l i x :
  0 ≤ i < zlen l → aset l i x = Some (<[Z.to_nat i := x]> l).
Proof.
  intros Hi. unfold aset.
  by rewrite (proj2 (Z.leb_le 0 i)), (proj2 (Z.ltb_lt i _)) by lia.
Qed.

Lemma aget_insert_eq l i x : 0 ≤ i < zlen l → aget (<[Z.to_nat i := x]> l) i = Some x.
Proof.
  intros Hi. unfold aget, zlen in *. rewrite (proj2 (Z.leb_le 0 i)) by lia.
  apply list_lookup_insert_eq. lia.
Qed.

Lemma aget_insert_ne l i j x : 0 ≤ i → j ≠ i → aget (<[Z.to_nat i := x]> l) j = aget l j.
Proof.
  intros Hi Hj. unfold aget. destruct (Z.leb_spec 0 j); [|done].
  apply list_lookup_insert_ne. lia.
Qed.

Lemma aget_ext l xs : (∀ i, 0 ≤ i → aget l i = aget xs i) → l = xs.
Proof.
  intros H. apply list_eq. intros i. specialize (H (Z.of_nat i) ltac:(lia)).
  unfold aget in H. by rewrite (proj2 (Z.leb_le 0 _)), Nat2Z.id in H by lia.
Qed.

Lemma slice_some l i n :
  0 ≤ i → 0 ≤ n → i + n ≤ zlen l →
  slice l i n = Some (take (Z.to_nat n) (drop (Z.to_nat i) l)).
Proof. intros. unfold slice. by rewrite !(proj2 (Z.leb_le _ _)) by lia. Qed.

Lemma slice_app l xs ys :
  slice (l ++ xs ++ ys) (zlen l) (zlen xs) = Some xs.
Proof.
  rewrite slice_some; [|apply zlen_nonneg..|].
  - unfold zlen. rewrite !Nat2Z.id, drop_app_length, take_app_length. done.
  - rewrite !zlen_app. pose proof (zlen_nonneg ys). lia.
Qed.

Lemma splice_some l i xs :
  0 ≤ i → i + zlen xs ≤ zlen l →
  splice l i xs =
    Some (take (Z.to_nat i) l ++ xs ++ drop (Z.to_nat i + length xs) l).
Proof. intros. unfold splice. by rewrite !(proj2 (Z.leb_le _ _)) by lia. Qed.

Lemma take_splice l i xs l' (n : nat) :
  splice l i xs = Some l' → n = (Z.to_nat i + length xs)%nat →
  take n l' = take (Z.to_nat i) l ++ xs.
Proof.
  unfold splice. destruct (Z.leb_spec 0 i); [|done].
  destruct (Z.leb_spec (i + zlen xs) (zlen l)); [|done]. intros [= <-] ->.
  rewrite app_assoc. apply take_app_length'. rewrite length_app, length_take. unfold zlen in *. lia.
Qed.

Lemma splice_length l i xs l' : splice l i xs = Some l' → length l' = length l.
Proof.
  unfold splice. destruct (_ && _) eqn:E; [|done]. intros [= <-].
  apply andb_true_iff in E as [H1%Z.leb_le H2%Z.leb_le]. unfold zlen in H2.
  rewrite !length_app, length_take, length_drop. lia.
Qed.

Lemma lookup_splice l i xs l' j :
  splice l i xs = Some l' →
  l' !! j = if decide (Z.to_nat i ≤ j < Z.to_nat i + length xs)%nat
            then xs !! (j - Z.to_nat i)%nat else l !! j.
Proof.
  unfold splice. destruct (_ && _) eqn:E; [|done]. intros [= <-].
  apply andb_true_iff in E as [H1%Z.leb_le H2%Z.leb_le]. unfold zlen in H2.
  case_decide.
  - rewrite lookup_app_r; rewrite length_take, Nat.min_l by lia; [|lia].
    by rewrite lookup_app_l by lia.
  - destruct (decide (j < Z.to_nat i)%nat).
    + rewrite lookup_app_l by (rewrite length_take; lia). by rewrite lookup_take_lt by lia.
    + rewrite lookup_app_r; rewrite length_take, Nat.min_l by lia; [|lia].
      rewrite lookup_app_r by lia. rewrite lookup_drop. f_equal. lia.
Qed.

Lemma aget_splice l i xs l' j :
  splice l i xs = Some l' → 0 ≤ j →
  aget l' j = if (i <=? j) && (j <? i + zlen xs) then aget xs (j - i) else aget l j.
Proof.
  intros Hs Hj. assert (0 ≤ i) as Hi.
  { unfold splice in Hs. destruct (Z.leb_spec 0 i); [done|discriminate]. }
  unfold aget, zlen. rewrite (proj2 (Z.leb_le 0 j)) by lia. rewrite (lookup_splice _ _ _ _ _ Hs).
  destruct (Z.leb_spec i j); destruct (Z.ltb_spec j (i + Z.of_nat (length xs))); simpl.
  - rewrite decide_True, (proj2 (Z.leb_le 0 _)) by lia. f_equal. lia.
  - by rewrite decide_False by lia.
  - by rewrite decide_False by lia.
  - by rewrite decide_False by lia.
Qed.

Lemma aget_slice l i n b j : slice l i n = Some b → 0 ≤ j < n → aget b j = aget l (i + j).
Proof.
  unfold slice, aget. destruct (Z.leb_spec 0 i); [|done].
  destruct (Z.leb_spec 0 n); [|done]. destruct (_ <=? _); [|done]. intros [= <-] Hj.
  rewrite !(proj2 (Z.leb_le 0 _)) by lia.
  rewrite lookup_take_lt by lia. rewrite lookup_drop. f_equal. lia.
Qed.

Lemma splice_app l xs ys zs :
  length xs = length ys →
  splice (l ++ xs ++ zs) (zlen l) ys = Some (l ++ ys ++ zs).
Proof.
  intros Hl. rewrite splice_some; [|apply zlen_nonneg|].
  - unfold zlen. rewrite Nat2Z.id, take_app_length. f_equal. f_equal. f_equal.
    by rewrite <- Hl, <- drop_drop, drop_app_length, drop_app_length.
  - unfold zlen. rewrite !length_app. lia.
Qed.

End arrays.

#[export] Hint Resolve zlen_nonneg : cmodel.

(** Arithmetic on the lengths of lists. *)
Create Rewrite HintDb zlen.
#[export] Hint Rewrite @length_app @length_cons @length_nil @length_fmap @length_take
  @length_drop @length_insert @length_replicate : zlen.

Ltac zlens := unfold zlen in *; autorewrite with zlen in *; lia.

(** [Permutation]-free counting sum used by the accounting components. *)
Definition zsum (l : list Z) : Z := foldr Z.add 0 l.

Lemma zsum_app l1 l2 : zsum (l1 ++ l2) = zsum l1 + zsum l2.
Proof. induction l1; simpl; lia. Qed.

Lemma zsum_nonneg l : Forall (λ z, 0 ≤ z) l → 0 ≤ zsum l.
Proof. induction 1; simpl; lia. Qed.

(** * Ring positions

    Shared by the ring buffers. *)

(** Position [i] places after [p] in a ring of [L] cells ([p], [i] below [L]). *)
Definition ring_at (L p i : nat) : nat := if (p + i <? L)%nat then p + i else p + i - L.

Ltac ring_lia :=
  unfold ring_at, zlen in *; autorewrite with zlen in *;
  repeat match goal with
  | |- context [(?a <? ?b)%nat] => destruct (Nat.ltb_spec a b)
  | H : context [(?a <? ?b)%nat] |- _ => destruct (Nat.ltb_spec a b)
  end; lia.

Lemma ring_at_lt L p i : (p < L)%nat → (i ≤ L)%nat → (ring_at L p i < L)%nat.
Proof. intros. ring_lia. Qed.

Lemma ring_at_add L p n i :
  (p < L)%nat → (n + i ≤ L)%nat → ring_at L (ring_at L p n) i = ring_at L p (n + i).
Proof. intros. ring_lia. Qed.

(** * Record updates

    [r <| f := v |>] is [r] with field [f] set to [v].  A record type gives
    its eta expansion; the setter of a projection is that expansion with the
    projection's occurrence replaced. *)

Class Eta (R : Type) := eta_of : R → R.
Class FieldSetter {R T : Type} (proj : R → T) := set_field : (T → T) → R → R.
#[global] Arguments set_field {_ _} proj {_} _ _ /.

Ltac build_setter proj :=
  match type of proj with
  | ?R → _ =>
      let inst := constr:(_ : Eta R) in
      let e := eval hnf in inst in
      lazymatch e with context [proj] => idtac end;
      let e := eval pattern proj in e in
      match e with ?g _ => exact (λ h, g (λ r, h (proj r))) end
  end.

#[global] Hint Extern 1 (FieldSetter ?proj) => build_setter proj : typeclass_instances.

Notation "r <| f := v |>" := (set_field f (λ _, v) r)
  (at level 12, f at next level, left associativity) : cmodel_scope.

(** * C strings

    A NUL-terminated string is the [string] before its terminator. *)

(** [strncmp(s, t, n) == 0] *)
Fixpoint strncmp_eq (n : nat) (s t : string) : bool :=
  match n with
  | O => true
  | S n =>
      match s, t with
      | EmptyString, EmptyString => true
      | String a s, String b t => Ascii.eqb a b && strncmp_eq n s t
      | _, _ => false
      end
  end.

(** [strcmp(s, t) == 0] *)
Definition strcmp_eq (s t : string) : bool := String.eqb s t.

Lemma strncmp_eq_prefix s t : strncmp_eq (String.length t) s t = String.prefix t s.
Proof.
  revert s. induction t as [|b t IH]; intros s; [by destruct s|].
  destruct s as [|a s]; [done|]. cbn [strncmp_eq String.length String.prefix]. rewrite IH.
  destruct (Ascii.eqb_spec a b); destruct (Ascii.ascii_dec b a); simpl; try done; congruence.
Qed.

(** * Addresses that are not in use *)

Definition map_keys {A} (m : gmap Z A) : list Z := (map_to_list m).*1.

Definition fresh_key (l : list Z) : Z := foldr Z.max 0 l + 1.

Lemma fresh_key_above l x : x ∈ l → x < fresh_key l.
Proof. unfold fresh_key. induction 1; cbn; lia. Qed.

Lemma fresh_key_pos l : fresh_key l ≠ NULL.
Proof.
  assert (0 ≤ foldr Z.max 0 l) by (induction l; cbn; lia). unfold fresh_key, NULL. lia.
Qed.

Lemma fresh_key_none {A} (m : gmap Z A) l : map_keys m ⊆ l → m !! fresh_key l = None.
Proof.
  intros Hl. destruct (m !! fresh_key l) as [x|] eqn:E; [|done]. exfalso.
  assert (fresh_key l ∈ l) as Hin%fresh_key_above; [|lia].
  apply Hl, list_elem_of_fmap. exists (fresh_key l, x). split; [done|]. by apply elem_of_map_to_list.
Qed.

(** * Samples *)

Definition is16 (z : Z) : Prop := - 2 ^ 15 ≤ z < 2 ^ 15.

(** The 16-bit numbers stored in a sequence of bytes. *)
Fixpoint shorts_of (bs : list Z) : list Z :=
  match bs with
  | lo :: hi :: bs => i16 (lo + 256 * hi) :: shorts_of bs
  | _ => []
  end.

Lemma shorts_of_16 bs : Forall is16 (shorts_of bs) ∧ zlen (shorts_of bs) = zlen bs / 2.
Proof.
  assert (∀ n bs, (length bs ≤ n)%nat → Forall is16 (shorts_of bs) ∧
            zlen (shorts_of bs) = zlen bs / 2) as Hall; [|by apply (Hall (length bs))].
  clear bs. induction n as [|n IH]; intros bs Hn.
  { by destruct bs; simpl in Hn; [|lia]. }
  destruct bs as [|lo [|hi bs]]; [done..|]. cbn [shorts_of].
  destruct (IH bs) as [H16 Hl]; [simpl in Hn; lia|]. split.
  - constructor; [apply (wraps_range 16); lia|done].
  - unfold zlen in *. cbn [length]. rewrite !Nat2Z.inj_succ, Hl.
    replace (Z.succ (Z.succ (Z.of_nat (length bs)))) with (Z.of_nat (length bs) + 1 * 2) by lia.
    rewrite Z.div_add by lia. lia.
Qed.

Lemma shorts_of_app xs ys : Nat.Even (length xs) → shorts_of (xs ++ ys) = shorts_of xs ++ shorts_of ys.
Proof.
  intros [n Hn]. revert xs Hn. induction n as [|n IH]; intros xs Hn.
  - by destruct xs; [|cbn in Hn; lia].
  - destruct xs as [|lo [|hi xs]]; cbn in Hn; [lia..|]. cbn. f_equal. apply IH. lia.
Qed.

(** Every other element, from the first on. *)
Fixpoint evens {A} (l : list A) : list A :=
  match l with
  | x :: _ :: l => x :: evens l
  | _ => l
  end.

Lemma evens_lookup {A} (l : list A) i : evens l !! i = l !! (2 * i)%nat.
Proof.
  revert l. induction i as [|i IH]; intros l.
  - by destruct l as [|x [|y l]].
  - replace (2 * S i)%nat with (S (S (2 * i))) by lia. destruct l as [|x [|y l]]; cbn [evens]; [done|done|]. apply IH.
Qed.

Lemma evens_app {A} (l1 l2 : list A) : Nat.Even (length l1) → evens (l1 ++ l2) = evens l1 ++ evens l2.
Proof.
  intros [n Hn]. revert l1 Hn. induction n as [|n IH]; intros l1 Hn.
  - by destruct l1; [|cbn in Hn; lia].
  - destruct l1 as [|x [|y l1]]; cbn in Hn; [lia..|]. cbn. f_equal. apply IH. lia.
Qed.

Lemma evens_length {A} (l : list A) : length (evens l) = ((length l + 1) / 2)%nat.
Proof.
  assert (∀ n (l : list A), (length l ≤ n)%nat → length (evens l) = ((length l + 1) / 2)%nat) as Hall;
    [|by apply (Hall (length l))].
  clear l. induction n as [|n IH]; intros l Hn; [by destruct l; cbn in Hn; [|lia]|].
  destruct l as [|x [|y l]]; [done..|]. cbn [evens length]. rewrite IH by (cbn in Hn; lia).
  replace (S (S (length l)) + 1)%nat with (length l + 1 + 1 * 2)%nat by lia. rewrite Nat.div_add by lia. lia.
Qed.

(** * Total correctness of computations

    [cwp m Q w]: [m] has a result from [w], and it satisfies [Q]. *)

Definition cwp {S A} (m : CM S A) (Q : A → S → Prop) (w : S) : Prop :=
  match m w with Some (a, w') => Q a w' | None => False end.

Section cwp.
Context {S : Type}.
Implicit Types w : S.

Lemma cwp_intro {A} (m : CM S A) Q w a w' : m w = Some (a, w') → Q a w' → cwp m Q w.
Proof. unfold cwp. by intros ->. Qed.

Lemma cwp_elim {A} (m : CM S A) Q w : cwp m Q w → ∃ a w', m w = Some (a, w') ∧ Q a w'.
Proof. unfold cwp. destruct (m w) as [[a w']|]; naive_solver. Qed.

Lemma cwp_bind {A B} (m : CM S A) (f : A → CM S B) Q w :
  cwp m (λ a, cwp (f a) Q) w → cwp (m ≫= f) Q w.
Proof. unfold cwp, mbind, cm_bind. by destruct (m w) as [[a w']|]. Qed.

Lemma cwp_ret {A} (a : A) Q w : Q a w → cwp (mret a) Q w.
Proof. done. Qed.
Lemma cwp_get Q w : Q w w → cwp cm_get Q w.
Proof. done. Qed.
Lemma cwp_gets {A} (f : S → A) Q w : Q (f w) w → cwp (cm_gets f) Q w.
Proof. done. Qed.
Lemma cwp_put s Q w : Q tt s → cwp (cm_put s) Q w.
Proof. done. Qed.
Lemma cwp_modify f Q w : Q tt (f w) → cwp (cm_modify f) Q w.
Proof. done. Qed.
Lemma cwp_lift {A} (o : option A) a Q w : o = Some a → Q a w → cwp (cm_lift o) Q w.
Proof. by intros ->. Qed.

Lemma cwp_mono {A} (m : CM S A) (Q Q' : A → S → Prop) w :
  (∀ a w', Q a w' → Q' a w') → cwp m Q w → cwp m Q' w.
Proof. unfold cwp. destruct (m w) as [[a w']|]; auto. Qed.
End cwp.

(** Linear arithmetic with divisions by numbers. *)
Ltac dlia := Z.to_euclidean_division_equations; lia.

(** One step on the binds, reads and writes at the head. *)
Ltac cwp_step :=
  lazymatch goal with
  | |- cwp (_ ≫= _) _ _ => apply cwp_bind
  | |- cwp (mret _) _ _ => apply cwp_ret
  | |- cwp cm_get _ _ => apply cwp_get
  | |- cwp (cm_gets _) _ _ => apply cwp_gets
  | |- cwp (cm_put _) _ _ => apply cwp_put
  | |- cwp (cm_modify _) _ _ => apply cwp_modify
  end; cbv beta zeta.
Ltac cwp_steps := repeat cwp_step.
