(* ===== verification/ListHead.v ===== *)
(** The intrusive doubly linked list of media/amavutils/include/list.h.

    A [struct list_head] lives at an address of a heap [lheap]; every
    operation is the sequence of loads and stores of the C body, and has no
    result when one of them leaves the heap.  [dlist h head xs] says that the
    circular list anchored at [head] holds the nodes [xs] in order.  The
    lemmas give, for each operation, the list it leaves behind and the cells
    it does not touch; they are what ItemList builds on. *)

From S2P Require Import Prelude.

Record list_head := mk_list_head { next : Z; prev : Z }.

Abbreviation lheap := (gmap Z list_head).

Definition LIST_POISON1 : Z := 0x00100100.
Definition LIST_POISON2 : Z := 0x00200200.

(** ** Loads and stores of the two pointers *)

Definition load_next (p : Z) : CM lheap Z := λ h, (λ n, (next n, h)) <$> h !! p.
Definition load_prev (p : Z) : CM lheap Z := λ h, (λ n, (prev n, h)) <$> h !! p.

Definition store_next (p v : Z) : CM lheap unit := λ h,
  (λ n, (tt, <[p := mk_list_head v (prev n)]> h)) <$> h !! p.
Definition store_prev (p v : Z) : CM lheap unit := λ h,
  (λ n, (tt, <[p := mk_list_head (next n) v]> h)) <$> h !! p.

(** ** The operations of list.h *)

Definition INIT_LIST_HEAD (list : Z) : CM lheap unit :=
  store_next list list;; store_prev list list.

Definition list_add_between (newh prv nxt : Z) : CM lheap unit :=
  store_prev nxt newh;;
  store_next newh nxt;;
  store_prev newh prv;;
  store_next prv newh.

Definition list_del_between (prv nxt : Z) : CM lheap unit :=
  store_prev nxt prv;;
  store_next prv nxt.

Definition list_add (newh head : Z) : CM lheap unit :=
  n ← load_next head;
  list_add_between newh head n.

Definition list_add_tail (newh head : Z) : CM lheap unit :=
  p ← load_prev head;
  list_add_between newh p head.

Definition list_del (entry : Z) : CM lheap unit :=
  p ← load_prev entry;
  n ← load_next entry;
  list_del_between p n;;
  store_next entry LIST_POISON1;;
  store_prev entry LIST_POISON2.

Definition list_del_init (entry : Z) : CM lheap unit :=
  p ← load_prev entry;
  n ← load_next entry;
  list_del_between p n;;
  INIT_LIST_HEAD entry.

Definition list_empty (head : Z) : CM lheap bool :=
  n ← load_next head;
  mret (n =? head).

(** ** The list a heap holds *)

Definition nx (h : lheap) (p : Z) : option Z := next <$> h !! p.
Definition pv (h : lheap) (p : Z) : option Z := prev <$> h !! p.

Definition edge (h : lheap) (a b : Z) : Prop := nx h a = Some b ∧ pv h b = Some a.

Fixpoint path (h : lheap) (a : Z) (l : list Z) : Prop :=
  match l with
  | [] => True
  | b :: l' => edge h a b ∧ path h b l'
  end.

Definition dlist (h : lheap) (head : Z) (xs : list Z) : Prop :=
  NoDup (head :: xs) ∧ path h head (xs ++ [head]).

(** [same_but h h' zs]: the two heaps have the same cells, equal outside [zs]. *)
Definition same_but (zs : list Z) (h h' : lheap) : Prop :=
  dom h' = dom h ∧ ∀ z, z ∉ zs → h' !! z = h !! z.

Lemma path_app h a l1 b l2 :
  path h a (l1 ++ b :: l2) ↔ path h a (l1 ++ [b]) ∧ path h b l2.
Proof.
  revert a; induction l1 as [|c l1 IH]; intros a; simpl; [naive_solver|].
  rewrite IH. naive_solver.
Qed.

Lemma path_frame h h' a l z :
  (∀ x, x ∈ a :: l → nx h' x = nx h x) →
  (∀ x, x ∈ l ++ [z] → pv h' x = pv h x) →
  path h a (l ++ [z]) → path h' a (l ++ [z]).
Proof.
  revert a; induction l as [|b l IH]; intros a Hn Hp; simpl.
  - intros [[E1 E2] _]. split; [|done]. split.
    + rewrite Hn; set_solver.
    + rewrite Hp; set_solver.
  - intros [[E1 E2] HP]. split.
    + split; [rewrite Hn | rewrite Hp]; set_solver.
    + apply IH; [| |done]; intros x Hx; [apply Hn | apply Hp]; set_solver.
Qed.

(** The anchor of a circular list can be any of its nodes. *)
Lemma dlist_rotate h head l1 x l2 :
  dlist h head (l1 ++ x :: l2) ↔ dlist h x (l2 ++ head :: l1).
Proof.
  unfold dlist. rewrite <- !(assoc_L app) , <- !app_comm_cons.
  rewrite path_app, (path_app h x l2 head (l1 ++ [x])).
  assert (head :: l1 ++ x :: l2 ≡ₚ x :: l2 ++ head :: l1) as Hperm by solve_Permutation.
  rewrite Hperm. naive_solver.
Qed.

Lemma dlist_nx h head xs : dlist h head xs → nx h head = Some (hd head xs).
Proof. intros [_ HP]. destruct xs; simpl in HP; apply HP. Qed.

Lemma dlist_pv h head xs : dlist h head xs → pv h head = Some (List.last xs head).
Proof.
  intros [_ HP]. destruct xs as [|x xs _] using rev_ind; [apply HP|].
  rewrite last_last. rewrite <- (assoc_L app) in HP. simpl in HP.
  apply path_app in HP as [_ HP]. apply HP.
Qed.

Lemma dlist_dom h head xs x : dlist h head xs → x ∈ head :: xs → is_Some (h !! x).
Proof.
  intros Hd [->|Hx]%elem_of_cons.
  - apply dlist_nx in Hd. unfold nx in Hd. destruct (h !! head); naive_solver.
  - apply list_elem_of_split in Hx as (l1 & l2 & ->).
    apply dlist_rotate, dlist_nx in Hd. unfold nx in Hd.
    destruct (h !! x); naive_solver.
Qed.

Lemma dlist_NoDup h head xs : dlist h head xs → NoDup (head :: xs).
Proof. by intros [? _]. Qed.

Lemma dlist_frame h h' head xs :
  (∀ z, z ∈ head :: xs → h' !! z = h !! z) → dlist h head xs → dlist h' head xs.
Proof.
  intros Hz [HN HP]. split; [done|]. eapply path_frame; [..|exact HP];
    intros x Hx; unfold nx, pv; rewrite Hz; set_solver.
Qed.

(** ** What the pointer stores change *)

(** The heap after a straight-line sequence of stores to live cells: its
    domain, the cells it leaves alone, and its two pointer fields. *)
Ltac stores_done :=
  eexists; split; [done|]; split_and!; [split| |];
  [ apply set_eq; intros z; rewrite !elem_of_dom, !lookup_insert;
    repeat case_decide; simplify_eq; naive_solver
  | intros ? ?; rewrite !lookup_insert_ne by set_solver; done
  | intros ?; unfold nx; rewrite !lookup_insert; repeat case_decide; by simplify_map_eq
  | intros ?; unfold pv; rewrite !lookup_insert; repeat case_decide; by simplify_map_eq ].

Lemma list_add_between_spec h newh p q :
  newh ≠ p → newh ≠ q →
  is_Some (h !! newh) → is_Some (h !! p) → is_Some (h !! q) →
  ∃ h', list_add_between newh p q h = Some (tt, h') ∧
    same_but [newh; p; q] h h' ∧
    (∀ z, nx h' z = if decide (z = p) then Some newh
                    else if decide (z = newh) then Some q else nx h z) ∧
    (∀ z, pv h' z = if decide (z = q) then Some newh
                    else if decide (z = newh) then Some p else pv h z).
Proof.
  intros Hp Hq [n Hn] [np Hnp] [nq Hnq].
  unfold list_add_between, mbind, cm_bind, store_prev, store_next.
  rewrite Hnq. simpl. rewrite lookup_insert_ne, Hn by done. simpl.
  rewrite lookup_insert_eq. simpl.
  destruct (decide (p = q)) as [->|Hpq].
  - rewrite !lookup_insert_ne, lookup_insert_eq by done. simpl. stores_done.
  - rewrite !lookup_insert_ne, Hnp by done. simpl. stores_done.
Qed.

Lemma list_del_between_spec h p q :
  is_Some (h !! p) → is_Some (h !! q) →
  ∃ h', list_del_between p q h = Some (tt, h') ∧
    same_but [p; q] h h' ∧
    (∀ z, nx h' z = if decide (z = p) then Some q else nx h z) ∧
    (∀ z, pv h' z = if decide (z = q) then Some p else pv h z).
Proof.
  intros [np Hnp] [nq Hnq].
  unfold list_del_between, mbind, cm_bind, store_prev, store_next.
  rewrite Hnq. simpl.
  destruct (decide (p = q)) as [->|Hpq].
  - rewrite lookup_insert_eq. simpl. stores_done.
  - rewrite lookup_insert_ne, Hnp by done. simpl. stores_done.
Qed.

Lemma same_but_mono zs zs' h h' :
  (∀ z, z ∈ zs → z ∈ zs') → same_but zs h h' → same_but zs' h h'.
Proof. intros Hs [? Hz]. split; [done|]. intros z ?. apply Hz. naive_solver. Qed.

Lemma same_but_trans zs h1 h2 h3 :
  same_but zs h1 h2 → same_but zs h2 h3 → same_but zs h1 h3.
Proof. intros [? H1] [? H2]. split; [congruence|]. intros z ?. by rewrite H2, H1. Qed.

Lemma same_but_is_Some zs h h' z :
  same_but zs h h' → is_Some (h !! z) → is_Some (h' !! z).
Proof. intros [Hd _]. by rewrite <- !elem_of_dom, Hd. Qed.

Lemma load_next_nx h p v : nx h p = Some v → load_next p h = Some (v, h).
Proof. unfold nx, load_next. destruct (h !! p); naive_solver. Qed.

Lemma load_prev_pv h p v : pv h p = Some v → load_prev p h = Some (v, h).
Proof. unfold pv, load_prev. destruct (h !! p); naive_solver. Qed.

#[export] Hint Resolve load_next_nx load_prev_pv dlist_nx dlist_pv : cmodel.

Lemma last_in (xs : list Z) d : List.last xs d ∈ d :: xs.
Proof.
  destruct xs as [|x xs _] using rev_ind; [set_solver|].
  rewrite last_last. set_solver.
Qed.

Lemma hd_in (xs : list Z) d : hd d xs ∈ d :: xs.
Proof. destruct xs; set_solver. Qed.

(** Linking a cell between the last node and the anchor. *)
Lemma list_add_between_dlist h head xs newh :
  dlist h head xs → newh ∉ head :: xs → is_Some (h !! newh) →
  ∃ h', list_add_between newh (List.last xs head) head h = Some (tt, h') ∧
    dlist h' head (xs ++ [newh]) ∧ same_but (newh :: head :: xs) h h'.
Proof.
  intros Hd Hnew Hn. pose proof (last_in xs head) as Hl.
  destruct (list_add_between_spec h newh (List.last xs head) head)
    as (h' & -> & Hsb & Hnx & Hpv); [set_solver|set_solver|done|..].
  1-2: eapply dlist_dom; [done|set_solver].
  exists h'. split; [done|]. split; cycle 1.
  { eapply same_but_mono; [|done]. set_solver. }
  destruct Hd as [HN HP]. split.
  { rewrite app_comm_cons, NoDup_app. set_solver by eauto using NoDup_singleton. }
  rewrite <- (assoc_L app). simpl. rewrite path_app. split.
  - destruct xs as [|p xs _] using rev_ind; simpl.
    + split; [|done]. split; [rewrite Hnx | rewrite Hpv]; simpl;
        repeat case_decide; naive_solver.
    + rewrite last_last in *. rewrite <- (assoc_L app) in *. simpl in *.
      apply path_app in HP as [HP _]. rewrite path_app. split.
      * eapply path_frame; [..|exact HP]; intros x Hx.
        -- rewrite Hnx, !decide_False; [done|set_solver|].
           rewrite app_comm_cons, NoDup_app in HN. set_solver.
        -- rewrite Hpv, !decide_False; [done|set_solver|].
           rewrite NoDup_cons in HN. set_solver.
      * split; [|done]. split; [rewrite Hnx | rewrite Hpv];
          repeat case_decide; set_solver.
  - split; [|done]. split; [rewrite Hnx | rewrite Hpv];
      repeat case_decide; set_solver.
Qed.

Lemma list_add_tail_dlist h head xs newh :
  dlist h head xs → newh ∉ head :: xs → is_Some (h !! newh) →
  ∃ h', list_add_tail newh head h = Some (tt, h') ∧
    dlist h' head (xs ++ [newh]) ∧ same_but (newh :: head :: xs) h h'.
Proof.
  intros Hd ??. unfold list_add_tail. erewrite cm_bind_some; [|eauto with cmodel].
  by apply list_add_between_dlist.
Qed.

Lemma list_add_dlist h head xs newh :
  dlist h head xs → newh ∉ head :: xs → is_Some (h !! newh) →
  ∃ h', list_add newh head h = Some (tt, h') ∧
    dlist h' head (newh :: xs) ∧ same_but (newh :: head :: xs) h h'.
Proof.
  intros Hd Hnew Hn. unfold list_add. erewrite cm_bind_some; [|eauto with cmodel].
  destruct xs as [|x xs]; [by apply (list_add_between_dlist h head [])|]. simpl.
  destruct (list_add_between_dlist h x (xs ++ [head]) newh) as (h' & He & Hd' & Hsb);
    [by apply (dlist_rotate h head [] x xs)|set_solver|done|].
  rewrite last_last in He. exists h'. split_and!; [done| |].
  - rewrite <- (assoc_L app) in Hd'. apply (dlist_rotate h' x xs head [newh]) in Hd'. done.
  - eapply same_but_mono; [|done]. set_solver.
Qed.

(** Unlinking the anchor of a circular list that has another node. *)
Lemma list_del_between_dlist h x y ys :
  dlist h x (y :: ys) →
  ∃ h', list_del_between (List.last (y :: ys) x) y h = Some (tt, h') ∧
    dlist h' y ys ∧ same_but (y :: ys) h h'.
Proof.
  intros Hd. pose proof (last_in ys y) as Hl.
  assert (List.last (y :: ys) x = List.last ys y) as ->.
  { destruct ys as [|? ? _] using rev_ind; [done|].
    by rewrite app_comm_cons, !last_last. }
  destruct (list_del_between_spec h (List.last ys y) y)
    as (h' & -> & Hsb & Hnx & Hpv).
  1-2: eapply dlist_dom; [done|set_solver].
  exists h'. split; [done|]. split; cycle 1.
  { eapply same_but_mono; [|done]. set_solver. }
  destruct Hd as [[Hx HN]%NoDup_cons HP]. split; [done|]. simpl in HP.
  destruct HP as [_ HP]. destruct ys as [|z ys _] using rev_ind; simpl.
  - split; [|done]. split; [rewrite Hnx | rewrite Hpv]; by rewrite decide_True.
  - rewrite last_last in *. rewrite <- (assoc_L app) in *. simpl in *.
    apply path_app in HP as [HP _]. rewrite path_app. split.
    + eapply path_frame; [..|exact HP]; intros w Hw.
      * rewrite Hnx, decide_False; [done|].
        rewrite app_comm_cons, NoDup_app in HN. set_solver.
      * rewrite Hpv, decide_False; [done|]. rewrite NoDup_cons in HN. set_solver.
    + split; [|done]. split; [rewrite Hnx | rewrite Hpv]; by rewrite decide_True.
Qed.

Lemma list_del_dlist h head l1 x l2 :
  dlist h head (l1 ++ x :: l2) →
  ∃ h', list_del x h = Some (tt, h') ∧
    dlist h' head (l1 ++ l2) ∧ same_but (x :: head :: l1 ++ l2) h h'.
Proof.
  intros Hd. pose proof (proj1 (dlist_rotate _ _ _ _ _) Hd) as Hr.
  assert (∃ y ys, l2 ++ head :: l1 = y :: ys ∧
    ∀ h', dlist h' y ys → dlist h' head (l1 ++ l2)) as (y & ys & Hys & Hback).
  { destruct l2 as [|y l2]; simpl; eexists _, _; (split; [done|]); intros h' Hh'.
    - by rewrite app_nil_r.
    - by apply dlist_rotate. }
  rewrite Hys in Hr. pose proof (dlist_NoDup _ _ _ Hr) as HN.
  unfold list_del. do 2 (erewrite cm_bind_some; [|eauto with cmodel]).
  destruct (list_del_between_dlist _ _ _ _ Hr) as (h1 & He & Hd1 & Hsb1).
  erewrite cm_bind_some; [|exact He]. apply NoDup_cons in HN as [Hx _].
  destruct (same_but_is_Some _ _ _ x Hsb1) as [c Hc].
  { eapply dlist_dom; [exact Hr|set_solver]. }
  unfold mbind, cm_bind, store_next, store_prev. rewrite Hc. simpl.
  rewrite lookup_insert_eq. simpl. eexists; split; [done|]. split.
  - apply Hback. eapply dlist_frame; [|exact Hd1]. intros z Hz.
    rewrite !lookup_insert_ne; set_solver.
  - eapply same_but_trans.
    + eapply same_but_mono; [|exact Hsb1]. rewrite <- Hys. set_solver.
    + split.
      * rewrite !dom_insert_lookup_L; simplify_map_eq; eauto.
      * intros z Hz. rewrite !lookup_insert_ne; set_solver.
Qed.

Lemma list_empty_dlist h head xs :
  dlist h head xs → list_empty head h = Some (bool_decide (xs = []), h).
Proof.
  intros Hd. unfold list_empty. erewrite cm_bind_some; [|eauto with cmodel].
  destruct xs as [|x xs]; simpl; unfold mret, cm_ret.
  - by rewrite Z.eqb_refl.
  - destruct (Z.eqb_spec x head) as [->|]; [|done].
    apply dlist_NoDup, NoDup_cons in Hd. set_solver.
Qed.

Lemma INIT_LIST_HEAD_dlist h head :
  is_Some (h !! head) →
  ∃ h', INIT_LIST_HEAD head h = Some (tt, h') ∧ dlist h' head [] ∧ same_but [head] h h'.
Proof.
  intros [n Hn]. unfold INIT_LIST_HEAD, mbind, cm_bind, store_next, store_prev.
  rewrite Hn. simpl. rewrite lookup_insert_eq. simpl. eexists; split; [done|].
  split_and!; [split|split].
  - apply NoDup_singleton.
  - simpl. split; [|done]. by split; unfold nx, pv; simplify_map_eq.
  - rewrite !dom_insert_lookup_L; simplify_map_eq; eauto.
  - intros z Hz. rewrite !lookup_insert_ne; set_solver.
Qed.

Lemma dlist_nx_at h head l1 x l2 :
  dlist h head (l1 ++ x :: l2) → nx h x = Some (hd head l2).
Proof. intros Hd%dlist_rotate%dlist_nx. by destruct l2. Qed.

Lemma dlist_size h head xs : dlist h head xs → (length xs < size h)%nat.
Proof.
  intros Hd. pose proof (dlist_NoDup _ _ _ Hd) as HN.
  rewrite <- (size_dom h).
  assert (size (list_to_set (head :: xs) : gset Z) ≤ size (dom h))%nat as Hs.
  { apply subseteq_size. intros z Hz%elem_of_list_to_set.
    apply elem_of_dom. by eapply dlist_dom. }
  rewrite size_list_to_set in Hs by done. simpl in Hs. lia.
Qed.
