(* ===== verification/ItemList.v ===== *)
(** The item FIFO of media/amavutils/itemlist.c.

    The memory holds the [struct list_head] cells (see ListHead), the payload
    of every allocated [struct item] and the fields of every
    [struct itemlist]; both structs start with their [list] member, so an
    item and its node have the same address and NULL is 0.  [malloc] is an
    interface ([Allocator]): it may fail, and what it returns is a block that
    was not live.  The mutex of a list is held or free; locking a held mutex
    has no result, so every theorem about a result also says that the
    operation neither deadlocks nor unlocks twice.

    [itemlist_rep] relates the memory to the sequence of items a list holds,
    [ilist_step] is the queue the file promises, and the refinement theorem
    says that every sequence of calls returns and does what the queue does. *)

From S2P Require Import Prelude ListHead.

(** ** Data *)

Record item := mk_item { item_data : Z; extdata : list Z }.

Record itemlist := mk_itemlist {
  list_mutex : bool;
  multi_threads_access : Z;
  item_count : Z;
  max_items : Z;
  item_ext_buf_size : Z;
  reject_same_item_data : Z
}.

Record imem := mk_imem {
  links : lheap;
  items : gmap Z item;
  lists : gmap Z itemlist
}.

Definition with_links (m : imem) (h : lheap) : imem := mk_imem h (items m) (lists m).
Definition with_items (m : imem) (i : gmap Z item) : imem := mk_imem (links m) i (lists m).
Definition with_lists (m : imem) (s : gmap Z itemlist) : imem := mk_imem (links m) (items m) s.

Definition with_mutex (b : bool) (s : itemlist) : itemlist :=
  mk_itemlist b (multi_threads_access s) (item_count s) (max_items s)
    (item_ext_buf_size s) (reject_same_item_data s).
Definition with_count (c : Z) (s : itemlist) : itemlist :=
  mk_itemlist (list_mutex s) (multi_threads_access s) c (max_items s)
    (item_ext_buf_size s) (reject_same_item_data s).

Definition sizeof_long : Z := 8.

(** The heap allocator: [malloc m n] is the block it hands out, or nothing;
    [junk] is the content of memory that was not written yet. *)
Class Allocator := {
  malloc : imem → Z → option Z;
  junk : Z;
  malloc_fresh : ∀ m n p, malloc m n = Some p →
    p ≠ NULL ∧ links m !! p = None ∧ items m !! p = None ∧ lists m !! p = None
}.

(** ** Memory accesses *)

Definition on_links {A} (c : CM lheap A) : CM imem A := λ m,
  match c (links m) with Some (a, h) => Some (a, with_links m h) | None => None end.

Definition get_list (l : Z) : CM imem itemlist := λ m, (λ s, (s, m)) <$> lists m !! l.
Definition set_list (l : Z) (f : itemlist → itemlist) : CM imem unit := λ m,
  (λ s, (tt, with_lists m (<[l := f s]> (lists m)))) <$> lists m !! l.
Definition get_item (p : Z) : CM imem item := λ m, (λ i, (i, m)) <$> items m !! p.
Definition set_item (p : Z) (i : item) : CM imem unit := λ m,
  (λ _, (tt, with_items m (<[p := i]> (items m)))) <$> items m !! p.

(** [itemlist->item_count += d]: signed overflow has no result. *)
Definition add_count (l d : Z) : CM imem unit :=
  s ← get_list l;
  let c := item_count s + d in
  if (INT_MIN <=? c) && (c <=? INT_MAX) then set_list l (with_count c) else cm_fail.

(** ** The lock macros of itemlist.h *)

Definition ITEM_LOCK (l : Z) : CM imem unit :=
  s ← get_list l;
  if multi_threads_access s =? 0 then mret tt
  else if list_mutex s then cm_fail else set_list l (with_mutex true).

Definition ITEM_UNLOCK (l : Z) : CM imem unit :=
  s ← get_list l;
  if multi_threads_access s =? 0 then mret tt
  else if list_mutex s then set_list l (with_mutex false) else cm_fail.

Definition ITEM_LOCK_INIT (l : Z) : CM imem unit :=
  s ← get_list l;
  if multi_threads_access s =? 0 then mret tt else set_list l (with_mutex false).

Definition ITEM_LOCK_DESTROY (l : Z) : CM imem unit :=
  s ← get_list l;
  if multi_threads_access s =? 0 then mret tt
  else if list_mutex s then cm_fail else mret tt.

(** ** The operations of itemlist.c *)

Definition itemlist_init (l : Z) : CM imem Z :=
  set_list l (with_count 0);;
  on_links (INIT_LIST_HEAD l);;
  ITEM_LOCK_INIT l;;
  mret 0.

Definition itemlist_deinit (l : Z) : CM imem Z :=
  ITEM_LOCK_DESTROY l;; mret 0.

(** [ext] is an [int]; a negative one makes the block shorter than an item. *)
Definition item_alloc `{Allocator} (ext : Z) : CM imem Z := λ m,
  match malloc m (u64 (32 + ext)) with
  | None => Some (NULL, m)
  | Some p =>
      let it := mk_item junk (replicate (Z.to_nat (1 + ext /c sizeof_long)) junk) in
      Some (p, mk_imem (<[p := mk_list_head junk junk]> (links m))
                       (<[p := it]> (items m)) (lists m))
  end.

Definition item_free (p : Z) : CM imem unit := λ m,
  if p =? NULL then Some (tt, m)
  else match items m !! p with
       | Some _ => Some (tt, mk_imem (delete p (links m)) (delete p (items m)) (lists m))
       | None => None
       end.

Definition itemlist_add_tail (l it : Z) : CM imem Z :=
  ITEM_LOCK l;;
  s ← get_list l;
  if (0 <? max_items s) && (max_items s <=? item_count s) then
    ITEM_UNLOCK l;; mret (-1)
  else
    on_links (list_add_tail it l);;
    add_count l 1;;
    ITEM_UNLOCK l;;
    mret 0.

Definition itemlist_get_head (l : Z) : CM imem Z :=
  ITEM_LOCK l;;
  e ← on_links (list_empty l);
  it ← (if (e : bool) then mret NULL else
          n ← on_links (load_next l);
          on_links (list_del n);;
          add_count l (-1);;
          mret n);
  ITEM_UNLOCK l;;
  mret it.

Definition itemlist_get_tail (l : Z) : CM imem Z :=
  ITEM_LOCK l;;
  e ← on_links (list_empty l);
  it ← (if (e : bool) then mret NULL else
          n ← on_links (load_prev l);
          on_links (list_del n);;
          add_count l (-1);;
          mret n);
  ITEM_UNLOCK l;;
  mret it.

Definition itemlist_peek_head (l : Z) : CM imem Z :=
  ITEM_LOCK l;;
  e ← on_links (list_empty l);
  it ← (if (e : bool) then mret NULL else on_links (load_next l));
  ITEM_UNLOCK l;;
  mret it.

Definition itemlist_peek_tail (l : Z) : CM imem Z :=
  ITEM_LOCK l;;
  e ← on_links (list_empty l);
  it ← (if (e : bool) then mret NULL else on_links (load_prev l));
  ITEM_UNLOCK l;;
  mret it.

Definition itemlist_del_item_locked (l it : Z) : CM imem Z :=
  on_links (list_del it);;
  add_count l (-1);;
  mret 0.

Definition itemlist_del_item (l it : Z) : CM imem Z :=
  ITEM_LOCK l;;
  itemlist_del_item_locked l it;;
  ITEM_UNLOCK l;;
  mret 0.

(** [list_for_each_safe (pos, n, head)] with a body that looks for an item
    and breaks: [pos] and [n] are the loop's two cursors. *)
Fixpoint find_loop (fuel : nat) (l data pos n : Z) : CM imem Z :=
  match fuel with
  | O => cm_fail
  | S fuel =>
      if pos =? l then mret NULL else
      it ← get_item pos;
      if item_data it =? data then mret pos else
      n' ← on_links (load_next n);
      find_loop fuel l data n n'
  end.

Definition for_each_find (l data : Z) : CM imem Z :=
  fuel ← cm_gets (λ m, size (links m));
  pos ← on_links (load_next l);
  n ← on_links (load_next pos);
  find_loop fuel l data pos n.

Definition itemlist_get_match_item (l data : Z) : CM imem Z :=
  ITEM_LOCK l;;
  finditem ← for_each_find l data;
  (if finditem =? NULL then mret tt else
     on_links (list_del finditem);; add_count l (-1));;
  ITEM_UNLOCK l;;
  mret finditem.

Definition itemlist_find_match_item (l data : Z) : CM imem Z :=
  ITEM_LOCK l;;
  finditem ← for_each_find l data;
  ITEM_UNLOCK l;;
  mret finditem.

(** The search of the body is commented out: the arguments are not used. *)
Definition itemlist_find_match_item_ex (l tomatch : Z) (mtch : Z → Z → Z) (rev : Z)
    : CM imem Z :=
  ITEM_LOCK l;;
  ITEM_UNLOCK l;;
  mret NULL.

Definition itemlist_have_match_data (l data : Z) : CM imem Z :=
  it ← itemlist_find_match_item l data;
  mret (if it =? NULL then 0 else 1).

(** The body of [list_for_each_safe] in [itemlist_clean]; it returns the
    data the free function was called with, in order. *)
Fixpoint clean_loop (fuel : nat) (l : Z) (free_fun : bool) (pos n : Z) : CM imem (list Z) :=
  match fuel with
  | O => cm_fail
  | S fuel =>
      if pos =? l then mret [] else
      it ← get_item pos;
      let freed := if free_fun && negb (item_data it =? 0) then [item_data it] else [] in
      on_links (list_del pos);;
      item_free pos;;
      add_count l (-1);;
      n' ← on_links (load_next n);
      rest ← clean_loop fuel l free_fun n n';
      mret (freed ++ rest)
  end.

Definition itemlist_clean (l : Z) (free_fun : bool) : CM imem (Z * list Z) :=
  ITEM_LOCK l;;
  fuel ← cm_gets (λ m, size (links m));
  pos ← on_links (load_next l);
  n ← on_links (load_next pos);
  freed ← clean_loop fuel l free_fun pos n;
  ITEM_UNLOCK l;;
  mret (0, freed).

(** [for (i = 0; i < extnum; i++) item->extdata[i] = extdata[i];] *)
Fixpoint copy_ext (p i : Z) (ext : list Z) : CM imem unit :=
  match ext with
  | [] => mret tt
  | e :: ext =>
      it ← get_item p;
      x ← cm_lift (aset (extdata it) i e);
      set_item p (mk_item (item_data it) x);;
      copy_ext p (i + 1) ext
  end.

(** The product of [extnum] and the size of a long is cut to the [int] that
    [item_alloc] takes. *)
Definition itemlist_add_tail_data_ext `{Allocator} (l data : Z) (ext : list Z) : CM imem Z :=
  s ← get_list l;
  have ← (if reject_same_item_data s =? 0 then mret 0 else itemlist_have_match_data l data);
  if negb (have =? 0) then mret 0 else
  it ← item_alloc (i32 (zlen ext * sizeof_long));
  if it =? NULL then mret (-12) else
  i ← get_item it;
  set_item it (mk_item data (extdata i));;
  copy_ext it 0 ext;;
  r ← itemlist_add_tail l it;
  if r =? 0 then mret 0 else item_free it;; mret (-1).

Definition itemlist_add_tail_data `{Allocator} (l data : Z) : CM imem Z :=
  itemlist_add_tail_data_ext l data [].

(** [*data = item->item_data] of a call that found an item; the second
    component is what was stored through [data]. *)
Definition itemlist_get_head_data (l : Z) : CM imem (Z * option Z) :=
  it ← itemlist_get_head l;
  if it =? NULL then mret (-1, None) else
  i ← get_item it;
  item_free it;;
  mret (0, Some (item_data i)).

Definition itemlist_get_tail_data (l : Z) : CM imem (Z * option Z) :=
  it ← itemlist_get_tail l;
  if it =? NULL then mret (-1, None) else
  i ← get_item it;
  mret (0, Some (item_data i)).

Definition itemlist_peek_head_data (l : Z) : CM imem (Z * option Z) :=
  it ← itemlist_peek_head l;
  if it =? NULL then mret (-1, None) else
  i ← get_item it;
  mret (0, Some (item_data i)).

Definition itemlist_peek_tail_data (l : Z) : CM imem (Z * option Z) :=
  it ← itemlist_peek_tail l;
  if it =? NULL then mret (-1, None) else
  i ← get_item it;
  mret (0, Some (item_data i)).

Definition itemlist_clean_data (l : Z) (free_fun : bool) : CM imem (Z * list Z) :=
  itemlist_clean l free_fun.

Definition itemlist_del_match_data_item (l data : Z) : CM imem Z :=
  it ← itemlist_get_match_item l data;
  if it =? NULL then mret (-1) else item_free it;; mret 0.

Definition itemlist_item_insert (l position newitem flags : Z) : CM imem Z :=
  ITEM_LOCK l;;
  s ← get_list l;
  if negb (flags =? 3) && (0 <? max_items s) && (max_items s <=? item_count s) then
    ITEM_UNLOCK l;; mret (-1)
  else
    (if flags =? 1 then on_links (list_add_tail newitem position)
     else on_links (list_add newitem position));;
    (if flags =? 3 then on_links (list_del position) else add_count l 1);;
    ITEM_UNLOCK l;;
    mret 0.

Fixpoint print_loop (fuel : nat) (l pos n : Z) : CM imem (list Z) :=
  match fuel with
  | O => cm_fail
  | S fuel =>
      if pos =? l then mret [] else
      n' ← on_links (load_next n);
      rest ← print_loop fuel l n n';
      mret (pos :: rest)
  end.

(** The items [print] was called with, in order. *)
Definition itemlist_print (l : Z) : CM imem (Z * list Z) :=
  ITEM_LOCK l;;
  fuel ← cm_gets (λ m, size (links m));
  pos ← on_links (load_next l);
  n ← on_links (load_next pos);
  ps ← print_loop fuel l pos n;
  ITEM_UNLOCK l;;
  mret (0, ps).

(** ** The items a list holds *)

(** The fields of a list that holds [xs], with the configuration of [c]. *)
Definition strct (c : itemlist) (b : bool) (xs : list (Z * item)) : itemlist :=
  mk_itemlist b (multi_threads_access c) (zlen xs) (max_items c)
    (item_ext_buf_size c) (reject_same_item_data c).

(** [ilrep b m l c xs]: the list at [l] holds the items [xs] (with their
    addresses) in order; its mutex is held iff [b]. *)
Record ilrep (b : bool) (m : imem) (l : Z) (c : itemlist) (xs : list (Z * item)) : Prop := {
  rep_strct : lists m !! l = Some (strct c b xs);
  rep_bound : zlen xs ≤ INT_MAX;
  rep_links : dlist (links m) l xs.*1;
  rep_items : ∀ p i, (p, i) ∈ xs → items m !! p = Some i;
  rep_null : NULL ∉ xs.*1
}.

Definition itemlist_rep := ilrep false.

(** Whether the mutex is held inside a critical section. *)
Definition hold (c : itemlist) : bool := negb (multi_threads_access c =? 0).

(** Nothing but the fields of lists changed. *)
Definition same_blocks (m m' : imem) : Prop := links m' = links m ∧ items m' = items m.

Lemma get_list_rep b m l c xs :
  ilrep b m l c xs → get_list l m = Some (strct c b xs, m).
Proof. intros []. unfold get_list. by rewrite rep_strct0. Qed.

#[export] Hint Resolve get_list_rep : cmodel.

Lemma set_list_rep b b' m l c xs ys f :
  ilrep b m l c xs → f (strct c b xs) = strct c b' ys →
  ∃ m', set_list l f m = Some (tt, m') ∧ lists m' !! l = Some (strct c b' ys) ∧
    same_blocks m m'.
Proof.
  intros [] Hf. unfold set_list. rewrite rep_strct0. simpl. eexists; split; [done|].
  rewrite Hf. simpl. by rewrite lookup_insert_eq.
Qed.

Lemma ilrep_retag b b' m m' l c xs :
  ilrep b m l c xs → lists m' !! l = Some (strct c b' xs) → same_blocks m m' →
  ilrep b' m' l c xs.
Proof. intros [] Hs [Hl Hi]. by split; rewrite ?Hl, ?Hi. Qed.

Lemma ITEM_LOCK_rep m l c xs :
  itemlist_rep m l c xs →
  ∃ m', ITEM_LOCK l m = Some (tt, m') ∧ ilrep (hold c) m' l c xs ∧ same_blocks m m'.
Proof.
  intros Hr. unfold ITEM_LOCK. erewrite cm_bind_some; [|eauto with cmodel]. simpl.
  unfold hold. destruct (Z.eqb_spec (multi_threads_access c) 0); [by exists m|].
  destruct (set_list_rep false true m l c xs xs (with_mutex true)) as (m' & ? & ? & ?);
    [done..|]. exists m'. split_and!; eauto using ilrep_retag.
Qed.

Lemma ITEM_UNLOCK_rep m l c xs :
  ilrep (hold c) m l c xs →
  ∃ m', ITEM_UNLOCK l m = Some (tt, m') ∧ itemlist_rep m' l c xs ∧ same_blocks m m'.
Proof.
  intros Hr. unfold ITEM_UNLOCK. erewrite cm_bind_some; [|eauto with cmodel]. simpl.
  unfold hold in *. destruct (Z.eqb_spec (multi_threads_access c) 0); [by exists m|].
  simpl in *.
  destruct (set_list_rep true false m l c xs xs (with_mutex false)) as (m' & ? & ? & ?);
    [done..|]. exists m'. split_and!; [done|by eapply ilrep_retag|done].
Qed.

Lemma add_count_strct b m l c xs d ys :
  lists m !! l = Some (strct c b xs) → zlen ys = zlen xs + d → zlen ys ≤ INT_MAX →
  ∃ m', add_count l d m = Some (tt, m') ∧
    lists m' !! l = Some (strct c b ys) ∧ same_blocks m m'.
Proof.
  intros Hs Hd Hm. pose proof (zlen_nonneg ys).
  unfold add_count, get_list, set_list, mbind, cm_bind. rewrite Hs. simpl.
  rewrite !(proj2 (Z.leb_le _ _)) by (unfold INT_MIN; lia). simpl. rewrite Hs. simpl.
  eexists; split; [done|]. simpl. rewrite lookup_insert_eq. split; [|done].
  unfold with_count, strct. simpl. by rewrite Hd.
Qed.

Lemma zlen_map {A B} (f : A → B) l : zlen (f <$> l) = zlen l.
Proof. unfold zlen. by rewrite length_fmap. Qed.

Lemma rep_elem b m l c xs p i : ilrep b m l c xs → (p, i) ∈ xs → p ≠ l ∧ p ≠ NULL.
Proof.
  intros Hr Hp. assert (p ∈ xs.*1) as Hp1 by (apply list_elem_of_fmap; by exists (p, i)).
  split.
  - intros ->. by apply (rep_links _ _ _ _ _) in Hr as [[? _]%NoDup_cons _].
  - intros ->. by apply (rep_null _ _ _ _ _ Hr).
Qed.

(** Unlinking an item and decrementing the counter, inside a critical section. *)
Lemma del_rep b m l c xs1 p i xs2 :
  ilrep b m l c (xs1 ++ (p, i) :: xs2) →
  ∃ m', (on_links (list_del p);; add_count l (-1)) m = Some (tt, m') ∧
    ilrep b m' l c (xs1 ++ xs2) ∧ items m' = items m.
Proof.
  intros Hr. pose proof Hr as [Hs Hb Hl Hi Hn].
  rewrite fmap_app, fmap_cons in Hl. simpl in Hl.
  destruct (list_del_dlist _ _ _ _ _ Hl) as (h' & He & Hd & Hsb).
  erewrite cm_bind_some; [|unfold on_links; by rewrite He].
  destruct (add_count_strct b (with_links m h') l c (xs1 ++ (p, i) :: xs2) (-1)
    (xs1 ++ xs2)) as (m' & -> & Hs' & [Hl' Hi']); [done|..].
  1-2: zlens.
  exists m'. split; [done|]. split; [|done]. split; rewrite ?Hl', ?Hi'; simpl.
  - done.
  - zlens.
  - by rewrite fmap_app.
  - intros q j Hq. apply Hi. set_solver.
  - rewrite fmap_app in *. set_solver.
Qed.

(** Linking an item at the end and incrementing the counter. *)
Lemma add_rep b m l c xs p i :
  ilrep b m l c xs → zlen xs < INT_MAX →
  p ≠ NULL → p ≠ l → p ∉ xs.*1 → is_Some (links m !! p) → items m !! p = Some i →
  ∃ m', (on_links (list_add_tail p l);; add_count l 1) m = Some (tt, m') ∧
    ilrep b m' l c (xs ++ [(p, i)]) ∧ items m' = items m.
Proof.
  intros Hr Hb Hp0 Hpl Hpx Hpk Hpi. pose proof Hr as [Hs _ Hl Hi Hn].
  destruct (list_add_tail_dlist (links m) l xs.*1 p) as (h' & He & Hd & Hsb);
    [done|set_solver|done|].
  erewrite cm_bind_some; [|unfold on_links; by rewrite He].
  destruct (add_count_strct b (with_links m h') l c xs 1 (xs ++ [(p, i)]))
    as (m' & -> & Hs' & [Hl' Hi']); [done|..].
  1-2: zlens.
  exists m'. split; [done|]. split; [|done]. split; rewrite ?Hl', ?Hi'; simpl.
  - done.
  - zlens.
  - by rewrite fmap_app.
  - intros q j [Hq|Hq]%elem_of_app; [by apply Hi|].
    apply list_elem_of_singleton in Hq as [= -> ->]. done.
  - rewrite fmap_app. set_solver.
Qed.

Lemma item_free_rep b m l c xs p :
  ilrep b m l c xs → p ≠ l → p ∉ xs.*1 → is_Some (items m !! p) →
  ∃ m', item_free p m = Some (tt, m') ∧ ilrep b m' l c xs ∧
    (p ≠ NULL → items m' = delete p (items m)).
Proof.
  intros [Hs Hb Hl Hi Hn] Hpl Hpx [i Hpi]. unfold item_free.
  destruct (Z.eqb_spec p NULL); [by exists m|]. rewrite Hpi.
  eexists; split; [done|]. split; [|done]. split; simpl; try done.
  - eapply dlist_frame; [|done]. intros z Hz. rewrite lookup_delete_ne; set_solver.
  - intros q j Hq. rewrite lookup_delete_ne; [by apply Hi|].
    intros ->. apply Hpx, list_elem_of_fmap. by exists (q, j).
Qed.

(** ** The critical sections *)

Definition has_data (d : Z) (x : Z * item) : bool := item_data x.2 =? d.

Definition addr_of (o : option (Z * item)) : Z :=
  match o with Some x => x.1 | None => NULL end.

Lemma find_split {A} (f : A → bool) l x :
  find f l = Some x → ∃ l1 l2, l = l1 ++ x :: l2 ∧ f x = true ∧ find f l1 = None.
Proof.
  induction l as [|y l IH]; simpl; [done|]. destruct (f y) eqn:E.
  - intros [= ->]. by exists [], l.
  - intros (l1 & l2 & -> & ? & ?)%IH. exists (y :: l1), l2. simpl. by rewrite E.
Qed.

Lemma load_next_rep b m l c xs p :
  ilrep b m l c xs → p ∈ l :: xs.*1 →
  ∃ n, on_links (load_next p) m = Some (n, m) ∧ nx (links m) p = Some n.
Proof.
  intros Hr Hp. destruct (dlist_dom _ _ _ _ (rep_links _ _ _ _ _ Hr) Hp) as [x Hx].
  exists (next x). unfold on_links, load_next, nx. rewrite Hx. simpl. split; [|done].
  by destruct m.
Qed.

Lemma find_loop_rep b m l c d xs1 ys fuel n :
  ilrep b m l c (xs1 ++ ys) → nx (links m) (hd l ys.*1) = Some n →
  (length ys < fuel)%nat →
  find_loop fuel l d (hd l ys.*1) n m = Some (addr_of (find (has_data d) ys), m).
Proof.
  revert xs1 fuel n. induction ys as [|[p i] ys IH]; intros xs1 fuel n Hr Hn Hf;
    (destruct fuel as [|fuel]; [simpl in Hf; lia|]); simpl.
  { by rewrite Z.eqb_refl. }
  assert ((p, i) ∈ xs1 ++ (p, i) :: ys) as Hin by set_solver.
  destruct (rep_elem _ _ _ _ _ _ _ Hr Hin) as [Hpl _].
  rewrite (proj2 (Z.eqb_neq p l)) by done.
  erewrite cm_bind_some by (unfold get_item; by rewrite (rep_items _ _ _ _ _ Hr _ _ Hin)).
  unfold has_data at 1. simpl. destruct (item_data i =? d); [done|].
  pose proof (rep_links _ _ _ _ _ Hr) as Hl. rewrite fmap_app, fmap_cons in Hl.
  pose proof (dlist_nx_at _ _ _ _ _ Hl : nx (links m) p = _) as Hnx. simpl in Hn.
  assert (n = hd l ys.*1) as -> by congruence.
  destruct (load_next_rep b m l c (xs1 ++ (p, i) :: ys) (hd l ys.*1)) as (n' & He & Hn');
    [done| |].
  { rewrite fmap_app, fmap_cons. pose proof (hd_in ys.*1 l). set_solver. }
  erewrite cm_bind_some; [|exact He].
  apply (IH (xs1 ++ [(p, i)])); [by rewrite <- (assoc_L app)|done|simpl in Hf; lia].
Qed.

Lemma for_each_find_rep b m l c d xs :
  ilrep b m l c xs → for_each_find l d m = Some (addr_of (find (has_data d) xs), m).
Proof.
  intros Hr. unfold for_each_find. erewrite cm_bind_some by done.
  pose proof (dlist_nx _ _ _ (rep_links _ _ _ _ _ Hr)) as Hn.
  destruct (load_next_rep b m l c xs l) as (p & He & Hp); [done|set_solver|].
  assert (p = hd l xs.*1) as -> by congruence.
  erewrite cm_bind_some; [|exact He].
  destruct (load_next_rep b m l c xs (hd l xs.*1)) as (n & He' & Hn'); [done|apply hd_in|].
  erewrite cm_bind_some; [|exact He'].
  apply (find_loop_rep b m l c d []); [done..|].
  pose proof (dlist_size _ _ _ (rep_links _ _ _ _ _ Hr)) as Hs. by rewrite length_fmap in Hs.
Qed.

Lemma list_empty_rep b m l c xs :
  ilrep b m l c xs → on_links (list_empty l) m = Some (bool_decide (xs = []), m).
Proof.
  intros Hr. unfold on_links.
  rewrite (list_empty_dlist _ _ _ (rep_links _ _ _ _ _ Hr)).
  f_equal. f_equal; [|by destruct m]. apply bool_decide_ext. by destruct xs.
Qed.

(** Runs an operation: lock, body, unlock. *)
Ltac lock_step Hr m1 Hr1 Hb1 :=
  destruct (ITEM_LOCK_rep _ _ _ _ Hr) as (m1 & ?He & Hr1 & Hb1);
  erewrite cm_bind_some by eassumption.
Ltac unlock_step Hr m1 Hr1 Hb1 :=
  destruct (ITEM_UNLOCK_rep _ _ _ _ Hr) as (m1 & ?He & Hr1 & Hb1);
  erewrite cm_bind_some by eassumption.

Lemma same_blocks_items m1 m2 m3 : same_blocks m1 m2 → same_blocks m2 m3 → items m3 = items m1.
Proof. intros [_ H1] [_ H2]. congruence. Qed.

(** Unlinking an item and going on with [k]. *)
Lemma del_then_rep b m l c xs1 p i xs2 {A} (k : CM imem A) :
  ilrep b m l c (xs1 ++ (p, i) :: xs2) →
  ∃ m', (on_links (list_del p);; add_count l (-1);; k) m = k m' ∧
    ilrep b m' l c (xs1 ++ xs2) ∧ items m' = items m.
Proof.
  intros Hr. destruct (del_rep _ _ _ _ _ _ _ _ Hr) as (m1 & He & Hr1 & Hi1).
  apply cm_bind_inv in He as ([] & m0 & He0 & He1).
  erewrite cm_bind_some by exact He0. erewrite cm_bind_some by exact He1.
  by exists m1.
Qed.

Lemma itemlist_get_head_rep m l c xs :
  itemlist_rep m l c xs →
  ∃ m', itemlist_get_head l m = Some (addr_of (head xs), m') ∧
    itemlist_rep m' l c (tail xs) ∧ items m' = items m.
Proof.
  intros Hr. unfold itemlist_get_head. lock_step Hr m1 Hr1 Hb1.
  erewrite cm_bind_some by (by eapply list_empty_rep).
  destruct xs as [|[p i] xs]; simpl.
  - erewrite cm_bind_some by done. unlock_step Hr1 m2 Hr2 Hb2.
    exists m2. split_and!; eauto using same_blocks_items.
  - destruct (load_next_rep (hold c) m1 l c ((p, i) :: xs) l) as (n & He1 & Hn);
      [done|set_solver|].
    pose proof (dlist_nx _ _ _ (rep_links _ _ _ _ _ Hr1)) as Hn'. simpl in Hn'.
    assert (n = p) as -> by congruence.
    destruct (del_then_rep (hold c) m1 l c [] p i xs (mret p)) as (m2 & Hk & Hr2 & Hi2);
      [done|].
    erewrite cm_bind_some; [|erewrite cm_bind_some by exact He1; exact Hk].
    unlock_step Hr2 m3 Hr3 Hb3. exists m3. split_and!; [done..|].
    destruct Hb1 as [_ Hi1], Hb3 as [_ Hi3]. congruence.
Qed.

Lemma load_prev_rep b m l c xs :
  ilrep b m l c xs →
  on_links (load_prev l) m = Some (List.last xs.*1 l, m).
Proof.
  intros Hr. unfold on_links.
  by rewrite (load_prev_pv _ _ _ (dlist_pv _ _ _ (rep_links _ _ _ _ _ Hr))); destruct m.
Qed.

(** The list without its last item. *)
Definition but_last {A} (xs : list A) : list A := take (length xs - 1) xs.

Lemma but_last_snoc {A} (xs : list A) x : but_last (xs ++ [x]) = xs.
Proof.
  unfold but_last. rewrite length_app. simpl.
  replace (length xs + 1 - 1)%nat with (length xs) by lia. by rewrite take_app_length.
Qed.

Lemma itemlist_get_tail_rep m l c xs :
  itemlist_rep m l c xs →
  ∃ m', itemlist_get_tail l m = Some (addr_of (last xs), m') ∧
    itemlist_rep m' l c (but_last xs) ∧ items m' = items m.
Proof.
  intros Hr. unfold itemlist_get_tail. lock_step Hr m1 Hr1 Hb1.
  erewrite cm_bind_some by (by eapply list_empty_rep).
  destruct xs as [|[p i] xs _] using rev_ind; simpl.
  - erewrite cm_bind_some by done. unlock_step Hr1 m2 Hr2 Hb2.
    exists m2. split_and!; eauto using same_blocks_items.
  - rewrite bool_decide_false by (by destruct xs). rewrite last_snoc, but_last_snoc. simpl.
    pose proof (load_prev_rep _ _ _ _ _ Hr1) as He1. rewrite fmap_app in He1. simpl in He1.
    rewrite last_last in He1.
    destruct (del_then_rep (hold c) m1 l c xs p i [] (mret p)) as (m2 & Hk & Hr2 & Hi2);
      [done|]. rewrite app_nil_r in Hr2.
    erewrite cm_bind_some; [|erewrite cm_bind_some by exact He1; exact Hk].
    unlock_step Hr2 m3 Hr3 Hb3. exists m3. split_and!; [done..|].
    destruct Hb1 as [_ Hi1], Hb3 as [_ Hi3]. congruence.
Qed.

Lemma itemlist_peek_head_rep m l c xs :
  itemlist_rep m l c xs →
  ∃ m', itemlist_peek_head l m = Some (addr_of (head xs), m') ∧
    itemlist_rep m' l c xs ∧ items m' = items m.
Proof.
  intros Hr. unfold itemlist_peek_head. lock_step Hr m1 Hr1 Hb1.
  erewrite cm_bind_some by (by eapply list_empty_rep).
  destruct (load_next_rep (hold c) m1 l c xs l) as (n & He1 & Hn); [done|set_solver|].
  pose proof (dlist_nx _ _ _ (rep_links _ _ _ _ _ Hr1)) as Hn'.
  erewrite (cm_bind_some _ _ m1 (addr_of (head xs)) m1).
  - unlock_step Hr1 m2 Hr2 Hb2. exists m2. split_and!; eauto using same_blocks_items.
  - destruct xs as [|[p i] xs]; [done|]. simpl in *. rewrite He1. congruence.
Qed.

Lemma itemlist_peek_tail_rep m l c xs :
  itemlist_rep m l c xs →
  ∃ m', itemlist_peek_tail l m = Some (addr_of (last xs), m') ∧
    itemlist_rep m' l c xs ∧ items m' = items m.
Proof.
  intros Hr. unfold itemlist_peek_tail. lock_step Hr m1 Hr1 Hb1.
  erewrite cm_bind_some by (by eapply list_empty_rep).
  erewrite (cm_bind_some _ _ m1 (addr_of (last xs)) m1).
  - unlock_step Hr1 m2 Hr2 Hb2. exists m2. split_and!; eauto using same_blocks_items.
  - pose proof (load_prev_rep _ _ _ _ _ Hr1) as He1.
    destruct xs as [|[p i] xs _] using rev_ind; [done|].
    rewrite bool_decide_false by (by destruct xs). rewrite last_snoc.
    rewrite fmap_app in He1. simpl in He1. by rewrite last_last in He1.
Qed.

Lemma itemlist_find_match_item_rep m l c xs d :
  itemlist_rep m l c xs →
  ∃ m', itemlist_find_match_item l d m = Some (addr_of (find (has_data d) xs), m') ∧
    itemlist_rep m' l c xs ∧ same_blocks m m'.
Proof.
  intros Hr. unfold itemlist_find_match_item. lock_step Hr m1 Hr1 Hb1.
  erewrite cm_bind_some by (by eapply for_each_find_rep).
  unlock_step Hr1 m2 Hr2 Hb2. exists m2. split_and!; [done..|].
  unfold same_blocks in *. destruct_and!. split; congruence.
Qed.

(** [xs] without the first item whose data is [d]. *)
Fixpoint remove_data (d : Z) (xs : list (Z * item)) : list (Z * item) :=
  match xs with
  | [] => []
  | x :: xs => if has_data d x then xs else x :: remove_data d xs
  end.

Lemma remove_data_split d xs1 x xs2 :
  find (has_data d) xs1 = None → has_data d x = true →
  remove_data d (xs1 ++ x :: xs2) = xs1 ++ xs2.
Proof.
  intros Hn Hx. induction xs1 as [|y xs1 IH]; simpl in *; [by rewrite Hx|].
  destruct (has_data d y); [done|]. by rewrite IH.
Qed.

Lemma remove_data_id d xs : find (has_data d) xs = None → remove_data d xs = xs.
Proof.
  induction xs as [|y xs IH]; simpl; [done|]. destruct (has_data d y); [done|].
  intros. by rewrite IH.
Qed.

Lemma itemlist_get_match_item_rep m l c xs d :
  itemlist_rep m l c xs →
  ∃ m', itemlist_get_match_item l d m = Some (addr_of (find (has_data d) xs), m') ∧
    itemlist_rep m' l c (remove_data d xs) ∧ items m' = items m.
Proof.
  intros Hr. unfold itemlist_get_match_item. lock_step Hr m1 Hr1 Hb1.
  erewrite cm_bind_some by (by eapply for_each_find_rep).
  destruct (find (has_data d) xs) as [[p i]|] eqn:E; simpl.
  - apply find_split in E as (l1 & l2 & -> & Hp & Hn).
    assert ((p, i) ∈ l1 ++ (p, i) :: l2) as Hin by set_solver.
    destruct (rep_elem _ _ _ _ _ _ _ Hr Hin) as [_ Hp0].
    rewrite (proj2 (Z.eqb_neq p NULL)), remove_data_split by done.
    destruct (del_rep (hold c) m1 l c l1 p i l2) as (m2 & Hk & Hr2 & Hi2); [done|].
    erewrite cm_bind_some by exact Hk. unlock_step Hr2 m3 Hr3 Hb3.
    exists m3. split_and!; [done..|]. destruct Hb1 as [_ Hi1], Hb3 as [_ Hi3]. congruence.
  - rewrite remove_data_id by done. erewrite cm_bind_some by done.
    unlock_step Hr1 m2 Hr2 Hb2. exists m2. split_and!; eauto using same_blocks_items.
Qed.

(** [max_items > 0 && max_items <= item_count] *)
Definition is_full (c : itemlist) (n : Z) : bool := (0 <? max_items c) && (max_items c <=? n).

Lemma itemlist_add_tail_rep m l c xs p i :
  itemlist_rep m l c xs → zlen xs < INT_MAX →
  p ≠ NULL → p ∉ l :: xs.*1 → is_Some (links m !! p) → items m !! p = Some i →
  ∃ m', itemlist_add_tail l p m = Some (if is_full c (zlen xs) then -1 else 0, m') ∧
    itemlist_rep m' l c (if is_full c (zlen xs) then xs else xs ++ [(p, i)]) ∧
    items m' = items m.
Proof.
  intros Hr Hb Hp0 Hp Hpl Hpi. unfold itemlist_add_tail. lock_step Hr m1 Hr1 Hb1.
  pose proof Hb1 as [Hl1 Hi1]. erewrite cm_bind_some by eauto with cmodel.
  change ((0 <? max_items (strct c (hold c) xs)) &&
    (max_items (strct c (hold c) xs) <=? item_count (strct c (hold c) xs)))
    with (is_full c (zlen xs)).
  destruct (is_full c (zlen xs)).
  - unlock_step Hr1 m2 Hr2 Hb2. exists m2. split_and!; eauto using same_blocks_items.
  - destruct (add_rep (hold c) m1 l c xs p i) as (m2 & He2 & Hr2 & Hi2);
      try (done || set_solver || by rewrite ?Hl1, ?Hi1).
    apply cm_bind_inv in He2 as ([] & m0 & He0 & He1).
    erewrite cm_bind_some by exact He0. erewrite cm_bind_some by exact He1.
    unlock_step Hr2 m3 Hr3 Hb3. exists m3. split_and!; [done..|].
    destruct Hb3 as [_ Hi3]. congruence.
Qed.

(** Writing a block that is not in the list does not change the list. *)
Lemma ilrep_other b m m' l c xs :
  ilrep b m l c xs → lists m' = lists m →
  (∀ z, z ∈ l :: xs.*1 → links m' !! z = links m !! z ∧ items m' !! z = items m !! z) →
  ilrep b m' l c xs.
Proof.
  intros [Hs Hb Hl Hi Hn] Hs' Ho. split; rewrite ?Hs'; try done.
  - eapply dlist_frame; [|done]. intros z Hz. by apply Ho.
  - intros p i Hp. assert (p ∈ l :: xs.*1) as Hpx.
    { apply elem_of_cons. right. apply list_elem_of_fmap. by exists (p, i). }
    destruct (Ho p Hpx) as [_ ->]. by apply Hi.
Qed.

Lemma aset_app {A} (l1 : list A) y l2 x :
  aset (l1 ++ y :: l2) (zlen l1) x = Some (l1 ++ x :: l2).
Proof.
  rewrite aset_some by zlens. f_equal. unfold zlen. rewrite Nat2Z.id.
  by rewrite insert_app_r_alt, Nat.sub_diag by lia.
Qed.

Lemma copy_ext_spec m p d pre old ext :
  items m !! p = Some (mk_item d (pre ++ old)) → (length ext ≤ length old)%nat →
  copy_ext p (zlen pre) ext m =
    Some (tt, with_items m
      (<[p := mk_item d (pre ++ ext ++ drop (length ext) old)]> (items m))).
Proof.
  revert m pre old. induction ext as [|e ext IH]; intros m pre old Hp Hl; simpl.
  - rewrite drop_0, insert_id by done. by destruct m.
  - destruct old as [|o old]; [simpl in Hl; lia|].
    erewrite cm_bind_some by (unfold get_item; by rewrite Hp). simpl.
    rewrite aset_app. erewrite cm_bind_some by done.
    erewrite cm_bind_some by (unfold set_item; by rewrite Hp).
    replace (zlen pre + 1) with (zlen (pre ++ [e])) by zlens.
    rewrite (IH _ _ old); [|simpl; rewrite lookup_insert_eq, <- (assoc_L app); done
      |simpl in Hl; lia].
    unfold with_items. simpl. by rewrite insert_insert_eq, <- (assoc_L app).
Qed.

Lemma item_alloc_spec `{Allocator} ext m p :
  malloc m (u64 (32 + ext)) = Some p →
  item_alloc ext m = Some (p,
    mk_imem (<[p := mk_list_head junk junk]> (links m))
      (<[p := mk_item junk (replicate (Z.to_nat (1 + ext /c sizeof_long)) junk)]> (items m))
      (lists m)).
Proof. intros Hm. unfold item_alloc. by rewrite Hm. Qed.

(** ** The queue the file promises *)

Inductive ilist_op :=
  | AddTailData (data : Z) (ext : list Z)
  | GetHeadData
  | GetTailData
  | PeekHeadData
  | PeekTailData
  | HaveMatchData (data : Z)
  | DelMatchData (data : Z).

Definition run_op `{Allocator} (l : Z) (op : ilist_op) : CM imem (Z * option Z) :=
  match op with
  | AddTailData d ext => r ← itemlist_add_tail_data_ext l d ext; mret (r, None)
  | GetHeadData => itemlist_get_head_data l
  | GetTailData => itemlist_get_tail_data l
  | PeekHeadData => itemlist_peek_head_data l
  | PeekTailData => itemlist_peek_tail_data l
  | HaveMatchData d => r ← itemlist_have_match_data l d; mret (r, None)
  | DelMatchData d => r ← itemlist_del_match_data_item l d; mret (r, None)
  end.

Fixpoint run_ops `{Allocator} (l : Z) (ops : list ilist_op) : CM imem (list (Z * option Z)) :=
  match ops with
  | [] => mret []
  | op :: ops => r ← run_op l op; rs ← run_ops l ops; mret (r :: rs)
  end.

Definition found (o : option item) : Z * option Z :=
  match o with Some i => (0, Some (item_data i)) | None => (-1, None) end.

Definition have (d : Z) (q : list item) : bool := existsb (λ i, item_data i =? d) q.

(** [q] without its first item with data [d]. *)
Fixpoint drop_data (d : Z) (q : list item) : list item :=
  match q with
  | [] => []
  | i :: q => if item_data i =? d then q else i :: drop_data d q
  end.

(** One call on a bounded, optionally duplicate-free queue [q]: adding
    reports a duplicate as success, out of memory (-12) or a full queue
    (-1); taking and peeking report an empty queue as -1. *)
Inductive ilist_step `{Allocator} (c : itemlist) :
    list item → ilist_op → Z * option Z → list item → Prop :=
  | step_add_duplicate q d ext :
      reject_same_item_data c ≠ 0 → have d q = true →
      ilist_step c q (AddTailData d ext) (0, None) q
  | step_add_nomem q d ext :
      (reject_same_item_data c = 0 ∨ have d q = false) →
      ilist_step c q (AddTailData d ext) (-12, None) q
  | step_add_full q d ext :
      (reject_same_item_data c = 0 ∨ have d q = false) → is_full c (zlen q) = true →
      ilist_step c q (AddTailData d ext) (-1, None) q
  | step_add q d ext :
      (reject_same_item_data c = 0 ∨ have d q = false) → is_full c (zlen q) = false →
      ilist_step c q (AddTailData d ext) (0, None) (q ++ [mk_item d (ext ++ [junk])])
  | step_get_head q : ilist_step c q GetHeadData (found (head q)) (tail q)
  | step_get_tail q : ilist_step c q GetTailData (found (last q)) (but_last q)
  | step_peek_head q : ilist_step c q PeekHeadData (found (head q)) q
  | step_peek_tail q : ilist_step c q PeekTailData (found (last q)) q
  | step_have q d : ilist_step c q (HaveMatchData d) (if have d q then 1 else 0, None) q
  | step_del q d :
      ilist_step c q (DelMatchData d) (if have d q then 0 else -1, None) (drop_data d q).

Inductive ilist_trace `{Allocator} (c : itemlist) :
    list item → list ilist_op → list (Z * option Z) → list item → Prop :=
  | trace_nil q : ilist_trace c q [] [] q
  | trace_cons q op r q' ops rs q'' :
      ilist_step c q op r q' → ilist_trace c q' ops rs q'' →
      ilist_trace c q (op :: ops) (r :: rs) q''.

#[export] Hint Constructors ilist_step ilist_trace : cmodel.

Section refinement.
Context `{Allocator}.

Lemma find_have b m l c xs d :
  ilrep b m l c xs → (addr_of (find (has_data d) xs) =? NULL) = negb (have d xs.*2).
Proof.
  intros Hr. destruct (find (has_data d) xs) as [[p i]|] eqn:E.
  - apply find_split in E as (l1 & l2 & -> & Hp & _).
    destruct (rep_elem _ _ _ _ _ p i Hr) as [_ Hp0]; [set_solver|]. simpl.
    rewrite (proj2 (Z.eqb_neq p NULL)) by done. symmetry. apply negb_false_iff, existsb_exists.
    exists i. split; [|done]. rewrite fmap_app, fmap_cons. apply list_elem_of_In. set_solver.
  - simpl. clear Hr. induction xs as [|[p i] xs IH]; simpl in *; [done|].
    unfold has_data in E at 1. simpl in E. destruct (item_data i =? d); [done|].
    rewrite (IH E). done.
Qed.

Lemma remove_data_items d xs : (remove_data d xs).*2 = drop_data d xs.*2.
Proof.
  induction xs as [|[p i] xs IH]; csimpl; [done|]. unfold has_data at 1. csimpl.
  destruct (item_data i =? d); [done|]. csimpl. by rewrite IH.
Qed.

Lemma itemlist_have_match_data_rep m l c xs d :
  itemlist_rep m l c xs →
  ∃ m', itemlist_have_match_data l d m = Some (if have d xs.*2 then 1 else 0, m') ∧
    itemlist_rep m' l c xs ∧ same_blocks m m'.
Proof.
  intros Hr. destruct (itemlist_find_match_item_rep m l c xs d Hr) as (m' & He & Hr' & Hb).
  unfold itemlist_have_match_data. erewrite cm_bind_some by exact He.
  exists m'. split_and!; [|done..]. rewrite (find_have _ _ _ _ _ _ Hr).
  by destruct (have d xs.*2).
Qed.

(** A block taken out of the list can be freed. *)
Lemma free_taken m l c xs1 p i xs2 :
  itemlist_rep m l c (xs1 ++ xs2) → NoDup (l :: (xs1 ++ (p, i) :: xs2).*1) →
  items m !! p = Some i →
  ∃ m', item_free p m = Some (tt, m') ∧ itemlist_rep m' l c (xs1 ++ xs2).
Proof.
  intros Hr HN Hi. rewrite fmap_app, fmap_cons in HN. simpl in HN.
  destruct (item_free_rep false m l c (xs1 ++ xs2) p) as (m' & He & Hr' & _); eauto.
  - intros ->. apply NoDup_cons in HN. set_solver.
  - rewrite fmap_app. apply NoDup_cons in HN as [_ HN]. rewrite NoDup_app, NoDup_cons in HN.
    set_solver.
Qed.

(** Allocating an item, writing its data and its extension words, going on. *)
Lemma alloc_fill m p d ext {A} (e : CM imem A) (k : Z → CM imem A) :
  malloc m (u64 (32 + zlen ext * sizeof_long)) = Some p →
  (it ← item_alloc (zlen ext * sizeof_long);
   if it =? NULL then e else
   i ← get_item it; set_item it (mk_item d (extdata i));; copy_ext it 0 ext;; k it) m
  = k p (mk_imem (<[p := mk_list_head junk junk]> (links m))
           (<[p := mk_item d (ext ++ [junk])]> (items m)) (lists m)).
Proof.
  intros Hm. destruct (malloc_fresh _ _ _ Hm) as (Hp0 & _).
  erewrite cm_bind_some by (by apply item_alloc_spec).
  rewrite (proj2 (Z.eqb_neq p NULL)) by done.
  erewrite cm_bind_some by (unfold get_item; simpl; by rewrite lookup_insert_eq).
  erewrite cm_bind_some by (unfold set_item; simpl; by rewrite lookup_insert_eq).
  assert (replicate (Z.to_nat (1 + (zlen ext * sizeof_long) /c sizeof_long)) junk
      = [] ++ replicate (length ext) junk ++ [junk]) as Hrep.
  { unfold c_div, sizeof_long. rewrite Z.quot_mul by lia. simpl.
    rewrite <- replicate_S_end. f_equal. zlens. }
  erewrite cm_bind_some; cycle 1.
  { apply (copy_ext_spec _ _ d [] (replicate (length ext) junk ++ [junk])).
    - unfold with_items. simpl. by rewrite lookup_insert_eq, Hrep.
    - rewrite length_app, length_replicate. lia. }
  unfold with_items. simpl. rewrite !insert_insert_eq.
  by rewrite drop_app_length' by (by rewrite length_replicate).
Qed.

(** Adding a fresh item, and freeing it again when the list is full. *)
Lemma add_or_free m l c xs p it :
  itemlist_rep m l c xs → zlen xs < INT_MAX →
  p ≠ NULL → p ∉ l :: xs.*1 → is_Some (links m !! p) → items m !! p = Some it →
  ∃ m', (r ← itemlist_add_tail l p;
         if r =? 0 then mret 0 else item_free p;; mret (-1)) m
      = Some (if is_full c (zlen xs) then -1 else 0, m') ∧
    itemlist_rep m' l c (if is_full c (zlen xs) then xs else xs ++ [(p, it)]).
Proof.
  intros Hr Hb Hp0 Hpx Hpl Hpi.
  destruct (itemlist_add_tail_rep m l c xs p it) as (m3 & He3 & Hr3 & Hi3); [done..|].
  erewrite cm_bind_some by exact He3.
  destruct (is_full c (zlen xs)); simpl; [|by exists m3].
  destruct (free_taken m3 l c xs p it []) as (m4 & He4 & Hr4).
  - by rewrite app_nil_r.
  - rewrite fmap_app. simpl. rewrite app_comm_cons, NoDup_app.
    pose proof (dlist_NoDup _ _ _ (rep_links _ _ _ _ _ Hr)).
    split_and!; [done|set_solver|apply NoDup_singleton].
  - by rewrite Hi3.
  - exists m4. rewrite app_nil_r in Hr4. by erewrite cm_bind_some by exact He4.
Qed.

Lemma reject_check m l c xs d :
  itemlist_rep m l c xs →
  ∃ m', (if reject_same_item_data (strct c false xs) =? 0 then mret 0
         else itemlist_have_match_data l d) m
      = Some (if negb (reject_same_item_data c =? 0) && have d xs.*2 then 1 else 0, m') ∧
    itemlist_rep m' l c xs.
Proof.
  intros Hr. simpl. destruct (reject_same_item_data c =? 0); [by exists m|].
  destruct (itemlist_have_match_data_rep m l c xs d Hr) as (m1 & He & Hr1 & _).
  by exists m1.
Qed.

(** The extension words of an item fit an [int] of bytes. *)
Definition op_ok (op : ilist_op) : Prop :=
  match op with AddTailData _ ext => zlen ext * sizeof_long ≤ INT_MAX | _ => True end.

Lemma itemlist_add_tail_data_ext_rep m l c xs d ext :
  itemlist_rep m l c xs → zlen xs < INT_MAX → op_ok (AddTailData d ext) →
  ∃ r m' xs', itemlist_add_tail_data_ext l d ext m = Some (r, m') ∧
    itemlist_rep m' l c xs' ∧
    ilist_step c xs.*2 (AddTailData d ext) (r, None) xs'.*2 ∧ zlen xs' ≤ zlen xs + 1.
Proof.
  intros Hr Hb Hok. unfold itemlist_add_tail_data_ext. cbn [op_ok] in Hok.
  rewrite i32_small by (pose proof (zlen_nonneg ext); unfold sizeof_long, INT_MAX in *; lia).
  erewrite cm_bind_some by eauto with cmodel.
  destruct (reject_check m l c xs d Hr) as (m1 & He1 & Hr1).
  erewrite cm_bind_some by exact He1.
  destruct (negb (reject_same_item_data c =? 0) && have d xs.*2) eqn:Hdup; simpl.
  { apply andb_true_iff in Hdup as [Hz%negb_true_iff%Z.eqb_neq ?].
    exists 0, m1, xs. split_and!; [done|done|by constructor|lia]. }
  assert (reject_same_item_data c = 0 ∨ have d xs.*2 = false) as Hnd.
  { apply andb_false_iff in Hdup as [?%negb_false_iff%Z.eqb_eq|?]; eauto. }
  destruct (malloc m1 (u64 (32 + zlen ext * sizeof_long))) as [p|] eqn:Hm; cycle 1.
  { exists (-12), m1, xs. split_and!; [|done|by constructor|lia].
    by erewrite cm_bind_some by (unfold item_alloc; by rewrite Hm). }
  rewrite (alloc_fill m1 p) by done.
  destruct (malloc_fresh _ _ _ Hm) as (Hp0 & Hpl & _).
  assert (p ∉ l :: xs.*1) as Hpx.
  { intros Hin. destruct (dlist_dom _ _ _ _ (rep_links _ _ _ _ _ Hr1) Hin). congruence. }
  edestruct add_or_free as (m4 & He4 & Hr4); [|exact Hb|exact Hp0|exact Hpx|..|].
  4: { eexists _, m4, _. split_and!; [exact He4|exact Hr4|..].
    - rewrite <- (zlen_map snd xs). destruct (is_full c (zlen xs.*2)) eqn:Hf;
        [by constructor|]. rewrite fmap_app. by constructor.
    - destruct (is_full _ _); zlens. }
  - eapply ilrep_other; [exact Hr1|done|]. intros z Hz. simpl.
    rewrite !lookup_insert_ne by set_solver. done.
  - simpl. rewrite lookup_insert_eq. eauto.
  - simpl. by rewrite lookup_insert_eq.
Qed.

Lemma get_head_data_rep m l c xs :
  itemlist_rep m l c xs →
  ∃ m', itemlist_get_head_data l m = Some (found (head xs.*2), m') ∧
    itemlist_rep m' l c (tail xs).
Proof.
  intros Hr. unfold itemlist_get_head_data.
  destruct (itemlist_get_head_rep m l c xs Hr) as (m1 & He & Hr1 & Hi1).
  erewrite cm_bind_some by exact He. destruct xs as [|[p i] xs]; simpl; [by exists m1|].
  destruct (rep_elem _ _ _ _ _ p i Hr) as [_ Hp0]; [set_solver|].
  rewrite (proj2 (Z.eqb_neq p NULL)) by done.
  assert (items m1 !! p = Some i) as Hp
    by (rewrite Hi1; apply (rep_items _ _ _ _ _ Hr); set_solver).
  erewrite cm_bind_some by (unfold get_item; by rewrite Hp).
  destruct (free_taken m1 l c [] p i xs) as (m2 & He2 & Hr2); [done| |done|].
  { apply (dlist_NoDup _ _ _ (rep_links _ _ _ _ _ Hr)). }
  exists m2. by erewrite cm_bind_some by exact He2.
Qed.

Lemma get_tail_data_rep m l c xs :
  itemlist_rep m l c xs →
  ∃ m', itemlist_get_tail_data l m = Some (found (last xs.*2), m') ∧
    itemlist_rep m' l c (but_last xs) ∧ items m' = items m.
Proof.
  intros Hr. unfold itemlist_get_tail_data.
  destruct (itemlist_get_tail_rep m l c xs Hr) as (m1 & He & Hr1 & Hi1).
  erewrite cm_bind_some by exact He. exists m1. rewrite fmap_last.
  destruct (last xs) as [[p i]|] eqn:E; simpl; [|done].
  assert ((p, i) ∈ xs) as Hin by (by apply last_Some_elem_of).
  destruct (rep_elem _ _ _ _ _ p i Hr) as [_ Hp0]; [done|].
  rewrite (proj2 (Z.eqb_neq p NULL)) by done.
  erewrite cm_bind_some; [done|]. unfold get_item.
  by rewrite Hi1, (rep_items _ _ _ _ _ Hr _ _ Hin).
Qed.

Lemma peek_head_data_rep m l c xs :
  itemlist_rep m l c xs →
  ∃ m', itemlist_peek_head_data l m = Some (found (head xs.*2), m') ∧
    itemlist_rep m' l c xs.
Proof.
  intros Hr. unfold itemlist_peek_head_data.
  destruct (itemlist_peek_head_rep m l c xs Hr) as (m1 & He & Hr1 & Hi1).
  erewrite cm_bind_some by exact He. exists m1.
  destruct xs as [|[p i] xs]; simpl; [done|].
  destruct (rep_elem _ _ _ _ _ p i Hr) as [_ Hp0]; [set_solver|].
  rewrite (proj2 (Z.eqb_neq p NULL)) by done.
  erewrite cm_bind_some; [done|]. unfold get_item.
  rewrite (rep_items _ _ _ _ _ Hr1 p i); [done|set_solver].
Qed.

Lemma peek_tail_data_rep m l c xs :
  itemlist_rep m l c xs →
  ∃ m', itemlist_peek_tail_data l m = Some (found (last xs.*2), m') ∧
    itemlist_rep m' l c xs.
Proof.
  intros Hr. unfold itemlist_peek_tail_data.
  destruct (itemlist_peek_tail_rep m l c xs Hr) as (m1 & He & Hr1 & Hi1).
  erewrite cm_bind_some by exact He. exists m1. rewrite fmap_last.
  destruct (last xs) as [[p i]|] eqn:E; simpl; [|done].
  assert ((p, i) ∈ xs) as Hin by (by apply last_Some_elem_of).
  destruct (rep_elem _ _ _ _ _ p i Hr) as [_ Hp0]; [done|].
  rewrite (proj2 (Z.eqb_neq p NULL)) by done.
  erewrite cm_bind_some; [done|]. unfold get_item.
  by rewrite Hi1, (rep_items _ _ _ _ _ Hr _ _ Hin).
Qed.

Lemma del_match_data_rep m l c xs d :
  itemlist_rep m l c xs →
  ∃ m', itemlist_del_match_data_item l d m = Some (if have d xs.*2 then 0 else -1, m') ∧
    itemlist_rep m' l c (remove_data d xs).
Proof.
  intros Hr. unfold itemlist_del_match_data_item.
  destruct (itemlist_get_match_item_rep m l c xs d Hr) as (m1 & He & Hr1 & Hi1).
  erewrite cm_bind_some by exact He. rewrite (find_have _ _ _ _ _ _ Hr).
  destruct (have d xs.*2) eqn:Hh; simpl; [|by exists m1].
  destruct (find (has_data d) xs) as [[p i]|] eqn:E; cycle 1.
  { pose proof (find_have _ _ _ _ _ d Hr) as Hf. rewrite E, Hh in Hf. done. }
  apply find_split in E as (l1 & l2 & -> & Hp & Hn).
  rewrite remove_data_split in * by done.
  destruct (free_taken m1 l c l1 p i l2) as (m2 & He2 & Hr2); [done|..].
  - apply (dlist_NoDup _ _ _ (rep_links _ _ _ _ _ Hr)).
  - rewrite Hi1. apply (rep_items _ _ _ _ _ Hr). set_solver.
  - exists m2. by erewrite cm_bind_some by exact He2.
Qed.

Lemma fmap_tail_snd (xs : list (Z * item)) : (tail xs).*2 = tail xs.*2.
Proof. by destruct xs. Qed.

Lemma fmap_but_last (xs : list (Z * item)) : (but_last xs).*2 = but_last xs.*2.
Proof. unfold but_last. by rewrite fmap_take, length_fmap. Qed.

Lemma but_last_len {A} (xs : list A) : zlen (but_last xs) ≤ zlen xs.
Proof. unfold but_last. zlens. Qed.

Lemma remove_data_len d xs : zlen (remove_data d xs) ≤ zlen xs.
Proof. induction xs as [|x xs IH]; simpl; [done|]. destruct (has_data d x); zlens. Qed.

(** Every call on a represented list returns, and is a step of the queue. *)
Lemma run_op_sim m l c xs op :
  itemlist_rep m l c xs → zlen xs < INT_MAX → op_ok op →
  ∃ r m' xs', run_op l op m = Some (r, m') ∧ itemlist_rep m' l c xs' ∧
    ilist_step c xs.*2 op r xs'.*2 ∧ zlen xs' ≤ zlen xs + 1.
Proof.
  intros Hr Hb Hok. destruct op; simpl.
  - destruct (itemlist_add_tail_data_ext_rep m l c xs data ext Hr Hb Hok)
      as (r & m' & xs' & He & ? & ? & ?).
    exists (r, None), m', xs'. by erewrite cm_bind_some by exact He.
  - destruct (get_head_data_rep m l c xs Hr) as (m' & ? & ?).
    eexists _, m', (tail xs). rewrite fmap_tail_snd. split_and!; eauto with cmodel.
    destruct xs; simpl; zlens.
  - destruct (get_tail_data_rep m l c xs Hr) as (m' & ? & ? & _).
    eexists _, m', (but_last xs). rewrite fmap_but_last. split_and!; eauto with cmodel.
    pose proof (but_last_len xs). lia.
  - destruct (peek_head_data_rep m l c xs Hr) as (m' & ? & ?).
    eexists _, m', xs. split_and!; eauto with cmodel. lia.
  - destruct (peek_tail_data_rep m l c xs Hr) as (m' & ? & ?).
    eexists _, m', xs. split_and!; eauto with cmodel. lia.
  - destruct (itemlist_have_match_data_rep m l c xs data Hr) as (m' & He & ? & _).
    eexists _, m', xs. erewrite cm_bind_some by exact He.
    split_and!; [done|done|constructor|lia].
  - destruct (del_match_data_rep m l c xs data Hr) as (m' & He & ?).
    eexists _, m', (remove_data data xs). erewrite cm_bind_some by exact He.
    rewrite remove_data_items. split_and!; [done|done|constructor|].
    pose proof (remove_data_len data xs). lia.
Qed.

(** [C3] Refinement: from a memory in which the list holds the items [xs],
    every sequence of calls of the data interface of itemlist.c (with any
    allocator, failing or not, with at most INT_MAX bytes of extension words
    in an item and at most INT_MAX items in all) terminates without an invalid access, a
    deadlock or a signed overflow, leaves the mutex free, returns what the
    bounded duplicate-rejecting queue [ilist_step] returns call by call, and
    leaves the list holding exactly the items the queue holds. *)
Theorem itemlist_refines_queue m l c xs ops :
  itemlist_rep m l c xs → zlen xs + zlen ops ≤ INT_MAX → Forall op_ok ops →
  ∃ rs m' xs', run_ops l ops m = Some (rs, m') ∧ itemlist_rep m' l c xs' ∧
    ilist_trace c xs.*2 ops rs xs'.*2.
Proof.
  revert m xs. induction ops as [|op ops IH]; intros m xs Hr Hb Hok; simpl.
  { eexists [], m, xs. split_and!; eauto with cmodel. }
  apply Forall_cons in Hok as [Hop Hok].
  assert (zlen (op :: ops) = 1 + zlen ops) as Hl by zlens.
  pose proof (zlen_nonneg ops).
  destruct (run_op_sim m l c xs op Hr) as (r & m1 & xs1 & He & Hr1 & Hs & Hn); [lia|done|].
  destruct (IH m1 xs1 Hr1) as (rs & m2 & xs2 & He2 & Hr2 & Ht); [lia|done|].
  exists (r :: rs), m2, xs2. erewrite cm_bind_some by exact He.
  erewrite cm_bind_some by exact He2. split_and!; eauto with cmodel.
Qed.

(** Without the bound on the extension words the size wraps: 2^29 words ask for
    a block with room for one, and the second is written behind it. *)
Lemma copy_ext_overruns m p d x e1 e2 ext :
  items m !! p = Some (mk_item d [x]) → copy_ext p 0 (e1 :: e2 :: ext) m = None.
Proof.
  intros Hp. cbn [copy_ext].
  erewrite cm_bind_some by (unfold get_item; by rewrite Hp).
  erewrite cm_bind_some by (by change (aset (extdata (mk_item d [x])) 0 e1) with (Some [e1])).
  erewrite cm_bind_some by (unfold set_item; by rewrite Hp).
  erewrite cm_bind_some by (unfold get_item; cbn; by rewrite lookup_insert_eq). done.
Qed.

Lemma ext_size_wraps m l c xs d e1 e2 ext p :
  itemlist_rep m l c xs → reject_same_item_data c = 0 → zlen (e1 :: e2 :: ext) = 2 ^ 29 →
  malloc m (u64 (32 + 0)) = Some p →
  itemlist_add_tail_data_ext l d (e1 :: e2 :: ext) m = None.
Proof.
  intros Hr Hc Hz Hm. unfold itemlist_add_tail_data_ext. rewrite Hz.
  erewrite cm_bind_some by eauto with cmodel. cbn [reject_same_item_data strct]. rewrite Hc.
  change (i32 (2 ^ 29 * sizeof_long)) with 0. erewrite cm_bind_some by done. cbn [Z.eqb negb].
  erewrite cm_bind_some by (by apply item_alloc_spec).
  destruct (malloc_fresh _ _ _ Hm) as (Hp0 & _). rewrite (proj2 (Z.eqb_neq p NULL)) by done.
  erewrite cm_bind_some by (unfold get_item; cbn; by rewrite lookup_insert_eq).
  erewrite cm_bind_some by (unfold set_item; cbn; by rewrite lookup_insert_eq).
  unfold mbind at 1, cm_bind at 1. erewrite copy_ext_overruns; [done|].
  cbn [items with_items]. rewrite lookup_insert_eq. reflexivity.
Qed.
End refinement.

(** ** An allocator and a concrete list *)

(** Blocks are handed out at increasing addresses until [limit] is reached. *)
Definition top_addr {A} (h : gmap Z A) : Z := map_fold (λ k _ acc, Z.max k acc) 0 h.

Definition bump_next (m : imem) : Z :=
  1 + Z.max (top_addr (links m)) (Z.max (top_addr (items m)) (top_addr (lists m))).

Lemma top_addr_ge {A} (h : gmap Z A) k : is_Some (h !! k) → k ≤ top_addr h.
Proof.
  unfold top_addr. revert k. induction h as [|i x h Hi Hfst IH] using map_first_key_ind.
  { intros k [v Hv]. by rewrite lookup_empty in Hv. }
  intros k Hk. rewrite map_fold_insert_L; [|intros; lia|done].
  destruct (decide (i = k)) as [->|Hne]; [lia|].
  rewrite lookup_insert_ne in Hk by done. specialize (IH k Hk). lia.
Qed.

Lemma top_addr_nonneg {A} (h : gmap Z A) : 0 ≤ top_addr h.
Proof.
  unfold top_addr. apply (map_fold_weak_ind (λ r _, 0 ≤ r)); intros; lia.
Qed.

Program Definition bump_allocator (limit : Z) : Allocator := {|
  malloc m n := if bump_next m <=? limit then Some (bump_next m) else None;
  junk := 0xA5
|}.
Next Obligation.
  intros limit m n p Hp. simpl in Hp. destruct (bump_next m <=? limit); [|done].
  injection Hp as <-.
  assert (∀ A (h : gmap Z A), top_addr h < bump_next m → h !! bump_next m = None) as Hf.
  { intros A h Ht. apply eq_None_not_Some. intros Hs%top_addr_ge. lia. }
  pose proof (top_addr_nonneg (links m)). unfold bump_next, NULL in *.
  split; [lia|]. split_and!; apply Hf; lia.
Qed.

Definition demo_list : itemlist := mk_itemlist false 1 0 2 0 1.
Definition demo_mem : imem :=
  mk_imem {[ 1 := mk_list_head 1 1 ]} ∅ {[ 1 := demo_list ]}.

Lemma demo_rep : itemlist_rep demo_mem 1 demo_list [].
Proof.
  split; try done.
  - split; [apply NoDup_singleton|]. done.
  - by intros p i ?%elem_of_nil.
  - by intros ?%elem_of_nil.
Qed.

(** A duplicate is accepted without being stored, the third item does not
    fit, and the two ends are read and taken in FIFO order. *)
Example demo_itemlist_run :
  fst <$> (@run_ops (bump_allocator 10) 1
    [AddTailData 7 [70]; AddTailData 7 [71]; AddTailData 8 []; AddTailData 9 [];
     PeekTailData; GetHeadData; HaveMatchData 7; DelMatchData 8; GetHeadData] demo_mem)
  = Some [(0, None); (0, None); (0, None); (-1, None);
          (0, Some 8); (0, Some 7); (0, None); (0, None); (-1, None)].
Proof. vm_compute. reflexivity. Qed.

Lemma itemlist_refines_queue_witness :
  ∃ rs m' xs',
    @run_ops (bump_allocator 10) 1 [AddTailData 7 [70]; AddTailData 8 []; GetHeadData] demo_mem
      = Some (rs, m') ∧ itemlist_rep m' 1 demo_list xs' ∧
    @ilist_trace (bump_allocator 10) demo_list []
      [AddTailData 7 [70]; AddTailData 8 []; GetHeadData] rs xs'.*2.
Proof.
  apply (@itemlist_refines_queue (bump_allocator 10) demo_mem 1 demo_list []
    [AddTailData 7 [70]; AddTailData 8 []; GetHeadData]).
  - exact demo_rep.
  - vm_compute. discriminate.
  - repeat constructor; vm_compute; discriminate.
Defined.

(** ** Emptying a list *)

(** The data [itemlist_clean] hands to the free function. *)
Definition freed_data (free_fun : bool) (xs : list (Z * item)) : list Z :=
  if free_fun then filter (λ d, d ≠ 0) (item_data <$> xs.*2) else [].

Lemma freed_data_cons ff p i xs :
  freed_data ff ((p, i) :: xs) =
    (if ff && negb (item_data i =? 0) then [item_data i] else []) ++ freed_data ff xs.
Proof.
  unfold freed_data. destruct ff; csimpl; [|done]. rewrite filter_cons.
  destruct (Z.eqb_spec (item_data i) 0); case_decide; done.
Qed.

(** The loop body: unlink the first item, free it, decrement the counter. *)
Lemma del_free_rep b m l c p i xs :
  ilrep b m l c ((p, i) :: xs) →
  ∃ m', (∀ A (k : CM imem A),
      (on_links (list_del p);; item_free p;; add_count l (-1);; k) m = k m') ∧
    ilrep b m' l c xs ∧ items m' = delete p (items m).
Proof.
  intros Hr. destruct (rep_elem _ _ _ _ _ p i Hr) as [Hpl Hp0]; [set_solver|].
  pose proof Hr as [Hs Hb Hl Hi Hn].
  assert (p ∉ xs.*1) as Hpx
    by (apply dlist_NoDup, NoDup_cons in Hl as [_ [? _]%NoDup_cons]; done).
  destruct (list_del_dlist _ _ [] p xs.*1 Hl) as (h' & He & Hd & Hsb).
  destruct (add_count_strct b (mk_imem (delete p h') (delete p (items m)) (lists m))
    l c ((p, i) :: xs) (-1) xs) as (m' & He' & Hs' & [Hl' Hi']); [done|zlens|zlens|].
  exists m'. split.
  { intros A k. erewrite cm_bind_some; [|unfold on_links; by rewrite He].
    erewrite cm_bind_some; cycle 1.
    { unfold item_free. simpl. rewrite (proj2 (Z.eqb_neq p NULL)) by done.
      by rewrite (Hi p i) by set_solver. }
    by erewrite cm_bind_some by exact He'. }
  split; [|by rewrite Hi']. split; rewrite ?Hl', ?Hi'; simpl.
  - exact Hs'.
  - zlens.
  - eapply dlist_frame; [|exact Hd]. intros z Hz. rewrite lookup_delete_ne; set_solver.
  - intros q j Hq. rewrite lookup_delete_ne; [apply Hi; set_solver|].
    intros ->. apply Hpx, list_elem_of_fmap. by exists (q, j).
  - set_solver.
Qed.

Lemma clean_loop_rep b m l c ff xs fuel n :
  ilrep b m l c xs → nx (links m) (hd l xs.*1) = Some n → (length xs < fuel)%nat →
  ∃ m', clean_loop fuel l ff (hd l xs.*1) n m = Some (freed_data ff xs, m') ∧
    ilrep b m' l c [] ∧ (∀ q, q ∈ xs.*1 → items m' !! q = None) ∧
    (∀ q, q ∉ xs.*1 → items m' !! q = items m !! q).
Proof.
  revert fuel n m. induction xs as [|[p i] xs IH]; intros fuel n m Hr Hn Hf;
    (destruct fuel as [|fuel]; [simpl in Hf; lia|]); simpl.
  { rewrite Z.eqb_refl. exists m. split_and!; [by destruct ff|done| |done].
    by intros q ?%elem_of_nil. }
  destruct (rep_elem _ _ _ _ _ p i Hr) as [Hpl Hp0]; [set_solver|].
  pose proof (rep_items _ _ _ _ _ Hr p i) as Hpi.
  assert (p ∉ xs.*1) as Hpx.
  { by apply (rep_links _ _ _ _ _), dlist_NoDup, NoDup_cons in Hr as [_ [? _]%NoDup_cons]. }
  pose proof (dlist_nx_at _ _ [] p xs.*1 (rep_links _ _ _ _ _ Hr)) as Hnx. simpl in Hn.
  assert (n = hd l xs.*1) as -> by congruence.
  rewrite (proj2 (Z.eqb_neq p l)) by done.
  erewrite cm_bind_some by (unfold get_item; by rewrite Hpi by set_solver). cbv zeta.
  destruct (del_free_rep b m l c p i xs) as (m1 & He1 & Hr1 & Hi1); [done|]. rewrite He1.
  destruct (load_next_rep b m1 l c xs (hd l xs.*1)) as (n' & He' & Hn'); [done|apply hd_in|].
  erewrite cm_bind_some by exact He'.
  destruct (IH fuel n' m1) as (m2 & He2 & Hr2 & Hd2 & Ho2); [done..|simpl in Hf; lia|].
  erewrite cm_bind_some by exact He2. exists m2. rewrite freed_data_cons.
  split_and!; [done|done|..].
  - intros q [->|Hq]%elem_of_cons; [|by apply Hd2].
    rewrite Ho2 by done. rewrite Hi1. apply lookup_delete_eq.
  - intros q Hq. csimpl in Hq. rewrite Ho2, Hi1, lookup_delete_ne; set_solver.
Qed.

(** Emptying a list: [itemlist_clean] terminates, calls the free
    function on the non-zero data of every item, in list order and only when
    one was given, frees every item of the list and no other block, and
    leaves an empty list with a zero counter and a free mutex. *)
Theorem itemlist_clean_frees_all m l c xs free_fun :
  itemlist_rep m l c xs →
  ∃ m', itemlist_clean_data l free_fun m = Some ((0, freed_data free_fun xs), m') ∧
    itemlist_rep m' l c [] ∧ (∀ p, p ∈ xs.*1 → items m' !! p = None) ∧
    (∀ p, p ∉ xs.*1 → items m' !! p = items m !! p).
Proof.
  intros Hr. unfold itemlist_clean_data, itemlist_clean. lock_step Hr m1 Hr1 Hb1.
  pose proof Hb1 as [_ Hi1]. erewrite cm_bind_some by done.
  pose proof (dlist_nx _ _ _ (rep_links _ _ _ _ _ Hr1)) as Hn.
  destruct (load_next_rep (hold c) m1 l c xs l) as (p & He1 & Hp); [done|set_solver|].
  assert (p = hd l xs.*1) as -> by congruence. erewrite cm_bind_some by exact He1.
  destruct (load_next_rep (hold c) m1 l c xs (hd l xs.*1)) as (n & He' & Hn');
    [done|apply hd_in|]. erewrite cm_bind_some by exact He'.
  pose proof (dlist_size _ _ _ (rep_links _ _ _ _ _ Hr1)) as Hs. rewrite length_fmap in Hs.
  destruct (clean_loop_rep (hold c) m1 l c free_fun xs _ n Hr1 Hn' Hs)
    as (m2 & He2 & Hr2 & Hd2 & Ho2).
  erewrite cm_bind_some by exact He2. unlock_step Hr2 m3 Hr3 Hb3. destruct Hb3 as [_ Hi3].
  exists m3. rewrite Hi3, <- Hi1. split_and!; done.
Qed.

Definition demo_full : imem :=
  mk_imem (<[2 := mk_list_head 1 1]> {[ 1 := mk_list_head 2 2 ]})
    {[ 2 := mk_item 7 [0] ]} {[ 1 := strct demo_list false [(2, mk_item 7 [0])] ]}.

Lemma demo_full_rep : itemlist_rep demo_full 1 demo_list [(2, mk_item 7 [0])].
Proof.
  split; try (by vm_compute).
  - split; [|by vm_compute]. apply NoDup_cons; split; [set_solver|apply NoDup_singleton].
  - intros p i [= -> ->]%list_elem_of_singleton. done.
  - by intros ?%list_elem_of_singleton.
Qed.

Lemma itemlist_clean_frees_all_witness :
  ∃ m', itemlist_clean_data 1 true demo_full = Some ((0, [7]), m') ∧
    itemlist_rep m' 1 demo_list [] ∧ (∀ p, p ∈ [2] → items m' !! p = None) ∧
    (∀ p, p ∉ [2] → items m' !! p = items demo_full !! p).
Proof.
  exact (itemlist_clean_frees_all demo_full 1 demo_list [(2, mk_item 7 [0])] true demo_full_rep).
Defined.

(** [itemlist_get_tail_data] returns the data of the last item and takes
    it out of the list, but does not free the item: the block stays allocated
    while no list holds it ([itemlist_get_head_data] frees it). *)
Theorem itemlist_get_tail_data_leaks m l c xs p i :
  itemlist_rep m l c (xs ++ [(p, i)]) →
  ∃ m', itemlist_get_tail_data l m = Some ((0, Some (item_data i)), m') ∧
    itemlist_rep m' l c xs ∧ (p ∉ xs.*1) ∧ items m' !! p = Some i.
Proof.
  intros Hr. destruct (get_tail_data_rep m l c _ Hr) as (m' & He & Hr' & Hi).
  exists m'. rewrite fmap_last, last_snoc in He. rewrite but_last_snoc in Hr'.
  split_and!; [done|done|..].
  - pose proof (dlist_NoDup _ _ _ (rep_links _ _ _ _ _ Hr)) as [_ HN]%NoDup_cons.
    rewrite fmap_app, NoDup_app in HN. set_solver.
  - rewrite Hi. apply (rep_items _ _ _ _ _ Hr). set_solver.
Qed.

Lemma itemlist_get_tail_data_leaks_witness :
  ∃ m', itemlist_get_tail_data 1 demo_full = Some ((0, Some 7), m') ∧
    itemlist_rep m' 1 demo_list [] ∧ (2 ∉ ([] : list (Z * item)).*1) ∧
    items m' !! 2 = Some (mk_item 7 [0]).
Proof.
  exact (itemlist_get_tail_data_leaks demo_full 1 demo_list [] 2 (mk_item 7 [0]) demo_full_rep).
Defined.

(** ** Inserting at a position *)

(** The list after [itemlist_item_insert]: flags 1 inserts before, 3
    replaces, everything else inserts after the position. *)
Definition inserted (flags : Z) (xs1 : list (Z * item)) (x y : Z * item)
    (xs2 : list (Z * item)) : list (Z * item) :=
  if flags =? 1 then xs1 ++ y :: x :: xs2
  else if flags =? 3 then xs1 ++ y :: xs2
  else xs1 ++ x :: y :: xs2.

Lemma list_insert_dlist h l l1 p l2 q flags :
  dlist h l (l1 ++ p :: l2) → q ∉ l :: l1 ++ p :: l2 → is_Some (h !! q) →
  ∃ h', (if flags =? 1 then list_add_tail q p else list_add q p) h = Some (tt, h') ∧
    dlist h' l (if flags =? 1 then l1 ++ q :: p :: l2 else l1 ++ p :: q :: l2).
Proof.
  intros Hd Hq Hs. apply dlist_rotate in Hd. destruct (flags =? 1).
  - destruct (list_add_tail_dlist h p (l2 ++ l :: l1) q) as (h' & He & Hd' & _);
      [done|set_solver|done|]. exists h'. split; [done|].
    rewrite <- (assoc_L app), <- app_comm_cons in Hd'. apply dlist_rotate in Hd'.
    by rewrite <- (assoc_L app) in Hd'.
  - destruct (list_add_dlist h p (l2 ++ l :: l1) q) as (h' & He & Hd' & _);
      [done|set_solver|done|]. exists h'. split; [done|].
    rewrite app_comm_cons in Hd'. by apply dlist_rotate in Hd'.
Qed.

Lemma insert_links_rep b m l c xs1 p i xs2 q j flags :
  ilrep b m l c (xs1 ++ (p, i) :: xs2) → zlen (xs1 ++ (p, i) :: xs2) < INT_MAX →
  q ≠ NULL → q ∉ l :: (xs1 ++ (p, i) :: xs2).*1 →
  is_Some (links m !! q) → items m !! q = Some j →
  ∃ m', (∀ A (k : CM imem A),
      ((if flags =? 1 then on_links (list_add_tail q p) else on_links (list_add q p));;
       (if flags =? 3 then on_links (list_del p) else add_count l 1);; k) m = k m') ∧
    ilrep b m' l c (inserted flags xs1 (p, i) (q, j) xs2).
Proof.
  intros [Hs Hb Hl Hi Hn] Hlt Hq0 Hq Hqs Hqj. rewrite fmap_app, fmap_cons in *.
  change ((p, i).1) with p in *.
  destruct (list_insert_dlist _ _ _ _ _ q flags Hl Hq Hqs) as (h1 & He1 & Hd1).
  assert ((if flags =? 1 then on_links (list_add_tail q p) else on_links (list_add q p)) m
    = Some (tt, with_links m h1)) as He1'.
  { unfold on_links. destruct (flags =? 1); by rewrite He1. }
  assert (∀ ys : list (Z * item), (∀ r k, (r, k) ∈ ys → (r, k) = (q, j) ∨ (r, k) ∈ xs1 ++ (p, i) :: xs2) →
    ∀ r k, (r, k) ∈ ys → items m !! r = Some k) as Hitems.
  { intros ys Hys r k [[= -> ->]|Hin]%Hys; [done|by apply Hi]. }
  unfold inserted. destruct (Z.eqb_spec flags 3) as [->|H3]; simpl in *.
  - destruct (list_del_dlist h1 l xs1.*1 p (q :: xs2.*1) Hd1) as (h2 & He2 & Hd2 & _).
    exists (with_links m h2). split.
    + intros A k. erewrite cm_bind_some by exact He1'.
      erewrite cm_bind_some; [done|]. unfold on_links. simpl. by rewrite He2.
    + split; simpl; [|zlens|by rewrite fmap_app, fmap_cons| |].
      * rewrite Hs. f_equal. unfold strct. f_equal. zlens.
      * apply Hitems. set_solver.
      * rewrite fmap_app, fmap_cons. set_solver.
  - destruct (add_count_strct b (with_links m h1) l c (xs1 ++ (p, i) :: xs2) 1
      (inserted flags xs1 (p, i) (q, j) xs2)) as (m2 & He2 & Hs2 & [Hl2 Hi2]);
      [done|..]; unfold inserted in *; rewrite (proj2 (Z.eqb_neq flags 3)) in * by done.
    1-2: destruct (flags =? 1); zlens.
    exists m2. split.
    + intros A k. erewrite cm_bind_some by exact He1'. by erewrite cm_bind_some by exact He2.
    + split; rewrite ?Hl2, ?Hi2; [done|..]; destruct (flags =? 1);
        rewrite ?fmap_app, ?fmap_cons; simpl; try done; try zlens; try set_solver;
        apply Hitems; set_solver.
Qed.

Lemma item_insert_rep m l c xs1 p i xs2 q j flags :
  itemlist_rep m l c (xs1 ++ (p, i) :: xs2) → zlen (xs1 ++ (p, i) :: xs2) < INT_MAX →
  q ≠ NULL → q ∉ l :: (xs1 ++ (p, i) :: xs2).*1 →
  is_Some (links m !! q) → items m !! q = Some j →
  let rejected := negb (flags =? 3) && is_full c (zlen (xs1 ++ (p, i) :: xs2)) in
  ∃ m', itemlist_item_insert l p q flags m = Some (if rejected then -1 else 0, m') ∧
    itemlist_rep m' l c
      (if rejected then xs1 ++ (p, i) :: xs2 else inserted flags xs1 (p, i) (q, j) xs2).
Proof.
  intros Hr Hlt Hq0 Hq Hqs Hqj. cbv zeta. unfold itemlist_item_insert.
  lock_step Hr m1 Hr1 Hb1. pose proof Hb1 as [Hl1 Hi1].
  erewrite cm_bind_some by eauto with cmodel. simpl. rewrite <- andb_assoc.
  fold (is_full c (zlen (xs1 ++ (p, i) :: xs2))).
  destruct (negb (flags =? 3) && is_full c _).
  - unlock_step Hr1 m2 Hr2 Hb2. by exists m2.
  - destruct (insert_links_rep (hold c) m1 l c xs1 p i xs2 q j flags) as (m2 & He2 & Hr2);
      [done..|by rewrite Hl1|by rewrite Hi1|].
    rewrite He2. unlock_step Hr2 m3 Hr3 Hb3. by exists m3.
Qed.

(** [itemlist_item_insert] with a position that is in the list and a
    new item that is in no list: unless the item is to replace the position
    (flags 3), a full list is left unchanged and -1 returned; otherwise the
    item is inserted before the position (flags 1), in its place (flags 3) or
    after it, and the counter is the number of items. *)
Theorem itemlist_item_insert_spec m l c xs1 p i xs2 q j flags :
  itemlist_rep m l c (xs1 ++ (p, i) :: xs2) → zlen (xs1 ++ (p, i) :: xs2) < INT_MAX →
  q ≠ NULL → q ∉ l :: (xs1 ++ (p, i) :: xs2).*1 →
  is_Some (links m !! q) → items m !! q = Some j →
  let rejected := negb (flags =? 3) && is_full c (zlen (xs1 ++ (p, i) :: xs2)) in
  ∃ m', itemlist_item_insert l p q flags m = Some (if rejected then -1 else 0, m') ∧
    itemlist_rep m' l c
      (if rejected then xs1 ++ (p, i) :: xs2 else inserted flags xs1 (p, i) (q, j) xs2).
Proof. apply item_insert_rep. Qed.

Definition demo_insert : imem :=
  mk_imem (<[3 := mk_list_head 0 0]> (links demo_full))
    (<[3 := mk_item 8 [0]]> (items demo_full)) (lists demo_full).

Lemma itemlist_item_insert_spec_witness :
  ∃ m', itemlist_item_insert 1 2 3 1 demo_insert = Some (0, m') ∧
    itemlist_rep m' 1 demo_list [(3, mk_item 8 [0]); (2, mk_item 7 [0])].
Proof.
  apply (itemlist_item_insert_spec demo_insert 1 demo_list [] 2 (mk_item 7 [0]) [] 3
    (mk_item 8 [0]) 1).
  - eapply ilrep_other; [exact demo_full_rep|done|].
    intros z [->|[->|[]%elem_of_nil]%elem_of_cons]%elem_of_cons; done.
  - vm_compute. reflexivity.
  - discriminate.
  - set_solver.
  - eexists. reflexivity.
  - reflexivity.
Defined.

Lemma itemlist_del_item_rep m l c xs1 p i xs2 :
  itemlist_rep m l c (xs1 ++ (p, i) :: xs2) →
  ∃ m', itemlist_del_item l p m = Some (0, m') ∧ itemlist_rep m' l c (xs1 ++ xs2) ∧
    items m' = items m.
Proof.
  intros Hr. unfold itemlist_del_item, itemlist_del_item_locked. lock_step Hr m1 Hr1 Hb1.
  destruct (del_rep _ _ _ _ _ _ _ _ Hr1) as (m2 & He2 & Hr2 & Hi2).
  apply cm_bind_inv in He2 as ([] & m0 & He0 & He1).
  erewrite cm_bind_some; [|erewrite cm_bind_some by exact He0;
    erewrite cm_bind_some by exact He1; reflexivity].
  unlock_step Hr2 m3 Hr3 Hb3. exists m3. split_and!; [done|done|].
  destruct Hb1 as [_ Hb1], Hb3 as [_ Hb3]. congruence.
Qed.

(** [C33] Inserting and deleting an item are inverse: on a list with room,
    an item inserted before or after a position and then deleted with
    [itemlist_del_item] leaves the list as it was, counter included, and the
    item's block allocated and unchanged for its owner. *)
Theorem insert_delete_roundtrip m l c xs1 p i xs2 q j flags :
  itemlist_rep m l c (xs1 ++ (p, i) :: xs2) → zlen (xs1 ++ (p, i) :: xs2) < INT_MAX →
  q ≠ NULL → q ∉ l :: (xs1 ++ (p, i) :: xs2).*1 →
  is_Some (links m !! q) → items m !! q = Some j →
  flags ≠ 3 → is_full c (zlen (xs1 ++ (p, i) :: xs2)) = false →
  ∃ m', (r ← itemlist_item_insert l p q flags; r' ← itemlist_del_item l q; mret (r, r')) m
      = Some ((0, 0), m') ∧
    itemlist_rep m' l c (xs1 ++ (p, i) :: xs2) ∧ items m' !! q = Some j.
Proof.
  intros Hr Hlt Hq0 Hq Hqs Hqj Hf Hfull.
  destruct (item_insert_rep m l c xs1 p i xs2 q j flags) as (m1 & He1 & Hr1); [done..|].
  rewrite (proj2 (Z.eqb_neq flags 3)), Hfull in * by done. simpl in *.
  erewrite cm_bind_some by exact He1.
  assert (∃ ys1 ys2, inserted flags xs1 (p, i) (q, j) xs2 = ys1 ++ (q, j) :: ys2 ∧
    ys1 ++ ys2 = xs1 ++ (p, i) :: xs2) as (ys1 & ys2 & Hy & Hxs).
  { unfold inserted. rewrite (proj2 (Z.eqb_neq flags 3)) by done. destruct (flags =? 1).
    - by exists xs1, ((p, i) :: xs2).
    - exists (xs1 ++ [(p, i)]), xs2. by rewrite <- !(assoc_L app). }
  rewrite Hy in Hr1. destruct (itemlist_del_item_rep _ _ _ _ _ _ _ Hr1) as (m2 & He2 & Hr2 & Hi2).
  erewrite cm_bind_some by exact He2. rewrite Hxs in Hr2.
  exists m2. split_and!; [done|done|]. rewrite Hi2.
  apply (rep_items _ _ _ _ _ Hr1). set_solver.
Qed.

Lemma insert_delete_roundtrip_witness :
  ∃ m', (r ← itemlist_item_insert 1 2 3 1; r' ← itemlist_del_item 1 3; mret (r, r')) demo_insert
      = Some ((0, 0), m') ∧
    itemlist_rep m' 1 demo_list [(2, mk_item 7 [0])] ∧ items m' !! 3 = Some (mk_item 8 [0]).
Proof.
  apply (insert_delete_roundtrip demo_insert 1 demo_list [] 2 (mk_item 7 [0]) [] 3
    (mk_item 8 [0]) 1).
  - eapply ilrep_other; [exact demo_full_rep|done|].
    intros z [->|[->|[]%elem_of_nil]%elem_of_cons]%elem_of_cons; done.
  - vm_compute. reflexivity.
  - discriminate.
  - set_solver.
  - eexists. reflexivity.
  - reflexivity.
  - discriminate.
  - reflexivity.
Defined.
