(* ===== verification/AmConfig.v ===== *)
(** The configuration table of media/amavutils/amconfigutils.c.

    The table has 128 slots; an item is a block of 132 bytes with the path at
    offset 0 and the value at offset 36, kept here as the two strings, with
    the two copies checked against the room they have.  A call runs under
    [config_lock], so it is one step.  [property_get] of Android is a
    parameter, as are the conversions of floats; [cap] is the size of the
    buffer the caller of [am_getconfig] provides.

    The lookup compares only as many characters as the path asked for has,
    so the table is a map as long as no path in use begins another one; that
    is the theorem.  The second theorem is about the size of the buffers. *)

From S2P Require Import Prelude.

Definition MAX_CONFIG : nat := 128.
Definition CONFIG_PATH_MAX : nat := 32.
Definition CONFIG_VALUE_MAX : nat := 92.
Definition CONFIG_VALUE_OFF : nat := 36.

Record config := mk_config {
  amconfigs : list (option (string * string));
  amconfig_inited : Z
}.

#[export] Instance config_eta : Eta config := λ r, mk_config (amconfigs r) (amconfig_inited r).

(** The size of a block of [malloc_config_item]. *)
Definition ITEM_SIZE : nat := CONFIG_PATH_MAX + CONFIG_VALUE_MAX + 8.

(** The two [strcpy] into an item. *)
Definition fill_item (path val : string) : option (string * string) :=
  if (String.length path <? CONFIG_VALUE_OFF)%nat
     && (String.length val <? ITEM_SIZE - CONFIG_VALUE_OFF)%nat
  then Some (path, val) else None.

(** The first slot that satisfies [f], from slot [i] on. *)
Fixpoint find_slot (f : option (string * string) → bool) (i : Z)
    (l : list (option (string * string))) : option Z :=
  match l with
  | [] => None
  | x :: l => if f x then Some i else find_slot f (i + 1) l
  end.

Definition slot_matches (path : string) (x : option (string * string)) : bool :=
  match x with
  | Some (ppath, _) => strncmp_eq (String.length path) path ppath
  | None => false
  end.

Definition get_matched_index (path : string) (c : config) : Z :=
  if (CONFIG_PATH_MAX <=? String.length path)%nat then -40
  else default (-10) (find_slot (slot_matches path) 0 (amconfigs c)).

Definition get_unused_index (c : config) : Z :=
  default (-20) (find_slot (λ x, match x with None => true | Some _ => false end) 0
    (amconfigs c)).

Definition am_config_init : CM config Z := λ _, Some (0, mk_config (replicate MAX_CONFIG None) 1).

(** [if (!amconfig_inited) am_config_init();] *)
Definition ensure_init : CM config unit :=
  c ← cm_get; if amconfig_inited c =? 0 then am_config_init;; mret tt else mret tt.

Definition get_slot (i : Z) : CM config (string * string) :=
  c ← cm_get; cm_lift (aget (amconfigs c) i ≫= id).

Definition set_slot (i : Z) (x : option (string * string)) : CM config unit :=
  c ← cm_get; l ← cm_lift (aset (amconfigs c) i x); cm_put (c <| amconfigs := l |>).

(** [strcpy] into a buffer of [cap] bytes. *)
Definition fits (cap : nat) (s : string) : CM config string :=
  if (String.length s <? cap)%nat then mret s else cm_fail.

(** The first [n] characters. *)
Definition cut (n : nat) (s : string) : string := String.substring 0 n s.

Section config.
Context (property_get : string → option string → string).
Context (print_float : Z → string) (scan_float : string → option Z).

(** The text left in the caller's buffer; the result is its length. *)
Definition am_getconfig (cap : nat) (path : string) (def : option string) : CM config string :=
  ensure_init;;
  c ← cm_get;
  let i := get_matched_index path c in
  if 0 <=? i then
    x ← get_slot i; fits cap x.2
  else
    (match def with Some d => fits cap d | None => mret EmptyString end);;
    fits cap (property_get path def).

(** [dup_ok], [item_ok]: whether [strdup] and [malloc] found memory; the
    code uses the copy unchecked. *)
Definition am_setconfig (dup_ok item_ok : bool) (path : string) (val : option string)
    : CM config Z :=
  ensure_init;;
  if (CONFIG_PATH_MAX <? String.length path)%nat then mret (-1) else
  setval ← (match val with
            | None => mret None
            | Some v => if dup_ok then mret (Some (cut CONFIG_VALUE_MAX v)) else cm_fail
            end);
  c ← cm_get;
  let i := get_matched_index path c in
  let nothing := match setval with None => true | Some v => String.eqb v EmptyString end in
  if 0 <=? i then
    if (nothing : bool) then set_slot i None;; mret 1
    else x ← cm_lift (fill_item path (default EmptyString setval)); set_slot i (Some x);; mret 0
  else
    let j := get_unused_index c in
    if j <? 0 then mret j else
    if (nothing : bool) then mret 1 else
    if negb item_ok then mret (-4) else
    x ← cm_lift (fill_item path (default EmptyString setval)); set_slot j (Some x);; mret 0.

(** The lines printed: slot, path, value. *)
Definition am_dumpallconfigs : CM config (Z * list (Z * string * string)) :=
  c ← cm_get;
  mret (0, omap (λ p, (λ x, (Z.of_nat p.1, x.1, x.2)) <$> p.2) (imap pair (amconfigs c))).

(** [snprintf] with a size of 91, then a terminator at the length it would
    have needed. *)
Definition am_setconfig_float (dup_ok item_ok : bool) (path : string) (value : Z) : CM config Z :=
  let s := print_float value in
  if (String.length s <? CONFIG_VALUE_MAX)%nat
  then am_setconfig dup_ok item_ok path (Some (cut (CONFIG_VALUE_MAX - 2) s))
  else cm_fail.

(** (result, the value); -1.0 is the value before the call. *)
Definition am_getconfig_float (path : string) : CM config (Z * Z) :=
  buf ← am_getconfig CONFIG_VALUE_MAX path None;
  match (if String.eqb buf EmptyString then None else scan_float buf) with
  | Some v => mret (0, v)
  | None => mret (-2, 0xbf800000)
  end.

Definition am_getconfig_float_def (path : string) (defvalue : Z) : CM config Z :=
  buf ← am_getconfig CONFIG_VALUE_MAX path None;
  mret (default defvalue (if String.eqb buf EmptyString then None else scan_float buf)).

Definition is_digit (c : Ascii.ascii) : bool :=
  let n := Ascii.nat_of_ascii c in (48 <=? n)%nat && (n <=? 57)%nat.
Definition is_space (c : Ascii.ascii) : bool :=
  let n := Ascii.nat_of_ascii c in (n =? 32)%nat || ((9 <=? n)%nat && (n <=? 13)%nat).

(** The value of the leading digits. *)
Fixpoint digits (s : string) (acc : option Z) : option Z :=
  match s with
  | String c s =>
      if is_digit c
      then digits s (Some (default 0 acc * 10 + (Z.of_nat (Ascii.nat_of_ascii c) - 48)))
      else acc
  | EmptyString => acc
  end.

Fixpoint skip_space (s : string) : string :=
  match s with
  | String c s' => if is_space c then skip_space s' else s
  | EmptyString => EmptyString
  end.

(** [sscanf(s, "%d", &value)]: spaces, a sign, digits; a number outside of
    [long] saturates and is then truncated. *)
Definition scan_int (s : string) : option Z :=
  let sat z := i32 (Z.max (- 2 ^ 63) (Z.min z (2 ^ 63 - 1))) in
  match skip_space s with
  | String c s' =>
      if Ascii.eqb c (Ascii.ascii_of_nat 45) then (λ z, sat (- z)) <$> digits s' None
      else if Ascii.eqb c (Ascii.ascii_of_nat 43) then sat <$> digits s' None
      else sat <$> digits (String c s') None
  | EmptyString => None
  end.

Definition am_getconfig_int_def (path : string) (def : Z) : CM config Z :=
  buf ← am_getconfig CONFIG_VALUE_MAX path None;
  mret (default def (if String.eqb buf EmptyString then None else scan_int buf)).

Definition lower (c : Ascii.ascii) : Ascii.ascii :=
  let n := Ascii.nat_of_ascii c in
  if (65 <=? n)%nat && (n <=? 90)%nat then Ascii.ascii_of_nat (n + 32) else c.

Fixpoint lower_string (s : string) : string :=
  match s with String c s => String (lower c) (lower_string s) | EmptyString => EmptyString end.

(** [strcasecmp(buf, "true") == 0 || strcmp(buf, "1") == 0] *)
Definition is_true_text (buf : string) : bool :=
  strcmp_eq (lower_string buf) "true" || strcmp_eq buf "1".

Definition am_getconfig_bool_def (path : string) (def : Z) : CM config Z :=
  buf ← am_getconfig CONFIG_VALUE_MAX path None;
  mret (if String.eqb buf EmptyString then def else if is_true_text buf then 1 else 0).

Definition am_getconfig_bool (path : string) : CM config Z :=
  buf ← am_getconfig CONFIG_VALUE_MAX path None;
  mret (if negb (String.eqb buf EmptyString) && is_true_text buf then 1 else 0).

End config.

(** ** Slots and entries *)

Definition entries (c : config) : list (string * string) := omap id (amconfigs c).

Lemma find_slot_some f i l j :
  find_slot f i l = Some j → i ≤ j ∧ ∃ x, l !! Z.to_nat (j - i) = Some x ∧ f x = true.
Proof.
  revert i. induction l as [|x l IH]; intros i; simpl; [done|].
  destruct (f x) eqn:E.
  - intros [= ->]. split; [lia|]. rewrite Z.sub_diag. by exists x.
  - intros (Hj & y & Hy & Hf)%IH. split; [lia|]. exists y. split; [|done].
    by replace (Z.to_nat (j - i)) with (S (Z.to_nat (j - (i + 1)))) by lia.
Qed.

Lemma find_slot_none f i l : find_slot f i l = None → ∀ x, x ∈ l → f x = false.
Proof.
  revert i. induction l as [|x l IH]; intros i; simpl; [set_solver|].
  destruct (f x) eqn:E; [done|]. intros H y [->|Hy]%elem_of_cons; [done|]. by eapply IH.
Qed.

Lemma strncmp_eq_comm n s t : strncmp_eq n s t = strncmp_eq n t s.
Proof.
  revert s t. induction n as [|n IH]; intros [|a s] [|b t]; simpl; try done.
  by rewrite Ascii.eqb_sym, IH.
Qed.

(** Writing a slot exchanges at most one entry. *)
Lemma entries_slot (l : list (option (string * string))) j x :
  l !! j = Some x → ∃ rest, omap id l ≡ₚ option_list x ++ rest ∧
    ∀ y, omap id (<[j := y]> l) ≡ₚ option_list y ++ rest.
Proof.
  intros Hj. exists (omap id (take j l) ++ omap id (drop (S j) l)). split.
  - rewrite <- (take_drop_middle l j x Hj) at 1. rewrite omap_app.
    destruct x as [x|]; simpl; [|done]. apply Permutation_sym, Permutation_middle.
  - intros y. pose proof (lookup_lt_Some _ _ _ Hj).
    rewrite insert_take_drop, omap_app by done.
    destruct y as [y|]; simpl; [|done]. apply Permutation_sym, Permutation_middle.
Qed.

(** ** The table as a map *)

Section rep.
Context (P : string → Prop) (vmax : nat).

Record config_rep (c : config) (m : gmap string string) : Prop := {
  cr_inited : amconfig_inited c ≠ 0;
  cr_length : length (amconfigs c) = MAX_CONFIG;
  cr_nodup : NoDup (entries c).*1;
  cr_map : m = list_to_map (entries c);
  cr_keys : ∀ k v, (k, v) ∈ entries c → P k ∧ (String.length v ≤ vmax)%nat
}.

(** The paths in use: short, and none begins another. *)
Definition prefix_free : Prop :=
  (∀ k, P k → (String.length k < CONFIG_PATH_MAX)%nat) ∧
  ∀ k k', P k → P k' → String.prefix k k' = true → k = k'.

Lemma entry_slot c k v : (k, v) ∈ entries c ↔ Some (k, v) ∈ amconfigs c.
Proof.
  unfold entries. rewrite list_elem_of_omap. split.
  - by intros ([x|] & Hx & He); simplify_eq/=.
  - intros H. by exists (Some (k, v)).
Qed.

Lemma matched_some c m k v :
  prefix_free → config_rep c m → P k → m !! k = Some v →
  ∃ j, get_matched_index k c = Z.of_nat j ∧ amconfigs c !! j = Some (Some (k, v)).
Proof.
  intros [Hlen Hpf] [Hin Hl Hnd -> Hk] HP Hm%elem_of_list_to_map_2.
  unfold get_matched_index. rewrite (proj2 (Nat.leb_gt _ _)) by auto.
  destruct (find_slot _ _ _) as [j|] eqn:E; simpl.
  - apply find_slot_some in E as (Hj & [[k' v']|] & Hx & Hf); [|done]. simpl in Hf.
    rewrite Z.sub_0_r in Hx. rewrite strncmp_eq_comm, strncmp_eq_prefix in Hf.
    assert ((k', v') ∈ entries c) as Hin' by (by apply entry_slot, (list_elem_of_lookup_2 _ _ _ Hx)).
    destruct (Hk _ _ Hin') as [HP' _]. apply Hpf in Hf as <-; [|done..].
    exists (Z.to_nat j). split; [lia|]. rewrite Hx. do 2 f_equal.
    pose proof (proj1 (elem_of_list_to_map (M:=gmap string) _ _ _ Hnd) Hin') as H1.
    pose proof (proj1 (elem_of_list_to_map (M:=gmap string) _ _ _ Hnd) Hm) as H2. congruence.
  - exfalso. apply entry_slot in Hm. pose proof (find_slot_none _ _ _ E _ Hm) as Hf. simpl in Hf.
    rewrite strncmp_eq_prefix in Hf.
    clear -Hf. induction k as [|a k IH]; [done|]. simpl in Hf.
    destruct (Ascii.ascii_dec a a); auto.
Qed.

Lemma matched_none c m k :
  prefix_free → config_rep c m → P k → m !! k = None → get_matched_index k c = -10.
Proof.
  intros [Hlen Hpf] [Hin Hl Hnd -> Hk] HP Hm. unfold get_matched_index.
  rewrite (proj2 (Nat.leb_gt _ _)) by auto.
  destruct (find_slot _ _ _) as [j|] eqn:E; [|done]. exfalso.
  apply find_slot_some in E as (Hj & [[k' v']|] & Hx & Hf); [|done]. simpl in Hf.
  rewrite strncmp_eq_comm, strncmp_eq_prefix in Hf.
  assert ((k', v') ∈ entries c) as Hin' by (by apply entry_slot, (list_elem_of_lookup_2 _ _ _ Hx)).
  destruct (Hk _ _ Hin') as [HP' _]. apply Hpf in Hf as <-; [|done..].
  apply (elem_of_list_to_map (M:=gmap string)) in Hin'; [|done]. congruence.
Qed.

Lemma omap_id_length {A} (l : list (option A)) :
  (length (omap id l) ≤ length l)%nat ∧ (None ∈ l ↔ length (omap id l) ≠ length l).
Proof.
  unfold omap. induction l as [|[x|] l [IH1 IH2]]; simpl; (split; [lia|]).
  - set_solver.
  - rewrite elem_of_cons, IH2. split; [intros [?|?]; [done|lia]|intros ?; right; lia].
  - split; [lia|]. intros _. by left.
Qed.

(** The table is full exactly when the map has 128 entries. *)
Lemma unused_index c m :
  config_rep c m →
  if decide (size m = MAX_CONFIG) then get_unused_index c = -20
  else ∃ j, get_unused_index c = Z.of_nat j ∧ amconfigs c !! j = Some None.
Proof.
  intros [Hin Hl Hnd -> Hk]. rewrite map_size_list_to_map by done.
  destruct (omap_id_length (amconfigs c)) as [_ Hn]. rewrite Hl in Hn. fold (entries c) in Hn.
  unfold get_unused_index. destruct (find_slot _ _ _) as [j|] eqn:E; simpl.
  - apply find_slot_some in E as (Hj & [x|] & Hx & Hf); [done|]. rewrite Z.sub_0_r in Hx.
    destruct (decide _) as [Hs|_]; [|exists (Z.to_nat j); split; [lia|done]].
    apply list_elem_of_lookup_2, Hn in Hx. done.
  - destruct (decide _) as [_|Hs]; [done|]. apply Hn in Hs.
    by apply (find_slot_none _ _ _ E) in Hs.
Qed.

(** A new content [y] for the slot [j] of [k], its own or a free one. *)
Lemma rep_slot c m j k y :
  config_rep c m → P k → amconfigs c !! j = Some (pair k <$> m !! k) →
  (∀ v, y = Some v → (String.length v ≤ vmax)%nat) →
  aset (amconfigs c) (Z.of_nat j) (pair k <$> y) =
    Some (<[j := pair k <$> y]> (amconfigs c)) ∧
  config_rep (c <| amconfigs := <[j := pair k <$> y]> (amconfigs c) |>)
    (partial_alter (λ _, y) k m).
Proof.
  intros [Hin Hl Hnd Hm Hk] HP Hj Hy. pose proof (lookup_lt_Some _ _ _ Hj) as Hlt. split.
  { rewrite aset_some by zlens. by rewrite Nat2Z.id. }
  destruct (entries_slot _ _ _ Hj) as (rest & Hp1 & Hp2). specialize (Hp2 (pair k <$> y)).
  fold (entries c) in Hp1.
  assert ((k ∉ rest.*1) ∧ NoDup rest.*1) as [Hkr Hndr].
  { assert (NoDup (option_list (pair k <$> m !! k) ++ rest).*1) as Hnd1 by (by rewrite <- Hp1).
    destruct (m !! k) as [v|] eqn:E; simpl in *; [by apply NoDup_cons in Hnd1|].
    split; [|done]. rewrite Hm in E. apply not_elem_of_list_to_map in E. by rewrite Hp1 in E. }
  assert (NoDup (option_list (pair k <$> y) ++ rest).*1) as Hnd2
    by (destruct y; simpl; [by constructor|done]).
  assert (NoDup (omap id (<[j := pair k <$> y]> (amconfigs c))).*1) as Hnd3 by (by rewrite Hp2).
  split; simpl.
  - done.
  - by rewrite length_insert.
  - done.
  - assert (m = partial_alter (λ _, m !! k) k (list_to_map rest)) as He.
    { rewrite Hm at 1. rewrite (list_to_map_proper _ _ Hnd Hp1).
      destruct (m !! k) as [v|]; simpl; [done|]. symmetry.
      change (delete k (list_to_map rest : gmap string string) = list_to_map rest).
      apply delete_id. by apply not_elem_of_list_to_map. }
    unfold entries. simpl. rewrite (list_to_map_proper _ _ Hnd3 Hp2).
    rewrite He. apply map_eq. intros k'. destruct (decide (k' = k)) as [->|Hne].
    + rewrite lookup_partial_alter_eq. symmetry. destruct y as [v|]; simpl.
      * by rewrite lookup_insert_eq.
      * by apply not_elem_of_list_to_map.
    + rewrite !lookup_partial_alter_ne by done.
      destruct y as [v|]; simpl; [by rewrite lookup_insert_ne|done].
  - intros k' v'. unfold entries. simpl. rewrite Hp2, elem_of_app. intros [Hin'|Hin'].
    + destruct y as [v|]; simpl in Hin'; [|set_solver].
      apply list_elem_of_singleton in Hin' as [= -> ->]. auto.
    + apply Hk. rewrite Hp1. apply elem_of_app. by right.
Qed.

(** ** The map the table promises *)

Context (property_get : string → option string → string).

Inductive cfg_op :=
  | CfgSet (item_ok : bool) (path : string) (val : option string)
  | CfgGet (cap : nat) (path : string) (def : option string)
  | CfgBool (path : string).

Inductive cfg_res := CfgRet (r : Z) | CfgText (s : string).

Definition cfg_run (op : cfg_op) : CM config cfg_res :=
  match op with
  | CfgSet item_ok path val => r ← am_setconfig true item_ok path val; mret (CfgRet r)
  | CfgGet cap path def => s ← am_getconfig property_get cap path def; mret (CfgText s)
  | CfgBool path => r ← am_getconfig_bool property_get path; mret (CfgRet r)
  end.

(** An unset or empty value deletes. *)
Definition wanted (val : option string) : option string :=
  match val with
  | Some v => if String.eqb v EmptyString then None else Some (cut CONFIG_VALUE_MAX v)
  | None => None
  end.

Definition value_of (m : gmap string string) (path : string) (def : option string) : string :=
  default (property_get path def) (m !! path).

Definition cfg_spec (m : gmap string string) (op : cfg_op) : cfg_res * gmap string string :=
  match op with
  | CfgSet item_ok path val =>
      match m !! path, wanted val with
      | Some _, Some v => (CfgRet 0, <[path := v]> m)
      | Some _, None => (CfgRet 1, delete path m)
      | None, Some v =>
          if decide (size m = MAX_CONFIG) then (CfgRet (-20), m)
          else if item_ok then (CfgRet 0, <[path := v]> m) else (CfgRet (-4), m)
      | None, None =>
          (CfgRet (if decide (size m = MAX_CONFIG) then -20 else 1), m)
      end
  | CfgGet cap path def => (CfgText (value_of m path def), m)
  | CfgBool path => (CfgRet (if is_true_text (value_of m path None) then 1 else 0), m)
  end.

(** The paths are those of the program, the values set and the buffers given
    leave room for each other, and what Android answers fits as well. *)
Definition cfg_valid (op : cfg_op) : Prop :=
  match op with
  | CfgSet _ path val => P path ∧ ∀ v, wanted val = Some v → (String.length v ≤ vmax)%nat
  | CfgGet cap path def =>
      P path ∧ (vmax < cap)%nat ∧ (String.length (property_get path def) < cap)%nat ∧
      ∀ d, def = Some d → (String.length d < cap)%nat
  | CfgBool path =>
      P path ∧ (vmax < CONFIG_VALUE_MAX)%nat ∧
      (String.length (property_get path None) < CONFIG_VALUE_MAX)%nat
  end.

Fixpoint cfg_runs (ops : list cfg_op) : CM config (list cfg_res) :=
  match ops with
  | [] => mret []
  | op :: ops => r ← cfg_run op; rs ← cfg_runs ops; mret (r :: rs)
  end.

Fixpoint cfg_specs (m : gmap string string) (ops : list cfg_op)
    : list cfg_res * gmap string string :=
  match ops with
  | [] => ([], m)
  | op :: ops =>
      let (r, m1) := cfg_spec m op in
      let (rs, m2) := cfg_specs m1 ops in (r :: rs, m2)
  end.

Lemma ensure_init_rep c m : config_rep c m → ensure_init c = Some (tt, c).
Proof.
  intros []. unfold ensure_init, mbind, cm_bind, cm_get. by rewrite (proj2 (Z.eqb_neq _ 0)).
Qed.

Lemma getconfig_rep c m cap path def :
  prefix_free → config_rep c m → cfg_valid (CfgGet cap path def) →
  am_getconfig property_get cap path def c = Some (value_of m path def, c).
Proof.
  intros Hpf Hr (HP & Hcap & Hprop & Hdef). unfold am_getconfig, value_of.
  rewrite (cm_bind_some _ _ _ _ _ (ensure_init_rep _ _ Hr)).
  unfold mbind at 1, cm_bind at 1, cm_get at 1. cbv beta iota zeta.
  destruct (m !! path) as [v|] eqn:E.
  - destruct (matched_some _ _ _ _ Hpf Hr HP E) as (j & -> & Hj).
    rewrite (proj2 (Z.leb_le 0 _)) by lia.
    assert (get_slot (Z.of_nat j) c = Some ((path, v), c)) as Hs.
    { unfold get_slot, mbind, cm_bind, cm_get, cm_lift, aget. rewrite Nat2Z.id, Hj.
      by rewrite (proj2 (Z.leb_le 0 _)) by lia. }
    rewrite (cm_bind_some _ _ _ _ _ Hs). unfold fits. simpl.
    destruct (cr_keys _ _ Hr path v) as [_ Hv].
    { apply entry_slot. by eapply list_elem_of_lookup_2. }
    by rewrite (proj2 (Nat.ltb_lt _ _)) by lia.
  - rewrite (matched_none _ _ _ Hpf Hr HP E). simpl. unfold mbind, cm_bind.
    destruct def as [d|]; unfold fits; simpl.
    + rewrite (proj2 (Nat.ltb_lt (String.length d) _)) by auto. simpl.
      by rewrite (proj2 (Nat.ltb_lt _ _)).
    + by rewrite (proj2 (Nat.ltb_lt _ _)).
Qed.

Lemma cut_length n s : String.length (cut n s) = Nat.min n (String.length s).
Proof.
  unfold cut. revert n. induction s as [|a s IH]; intros [|n]; simpl; [done..|]. by rewrite IH.
Qed.

Lemma set_slot_rep c m j path y :
  config_rep c m → P path → amconfigs c !! j = Some (pair path <$> m !! path) →
  (∀ v, y = Some v → (String.length v ≤ vmax)%nat) →
  ∃ c', set_slot (Z.of_nat j) (pair path <$> y) c = Some (tt, c') ∧
    config_rep c' (partial_alter (λ _, y) path m).
Proof.
  intros Hr HP Hj Hy. destruct (rep_slot c m j path y Hr HP Hj Hy) as [Hs Hr'].
  eexists. split; [|exact Hr']. unfold set_slot, mbind, cm_bind, cm_get, cm_lift. by rewrite Hs.
Qed.

Lemma fill_item_fits path v :
  prefix_free → P path → fill_item path (cut CONFIG_VALUE_MAX v) = Some (path, cut CONFIG_VALUE_MAX v).
Proof.
  intros [Hlen _] HP%Hlen. unfold fill_item. rewrite cut_length.
  unfold CONFIG_PATH_MAX in HP.
  rewrite (proj2 (Nat.ltb_lt (String.length path) _)) by (unfold CONFIG_VALUE_OFF; lia).
  rewrite (proj2 (Nat.ltb_lt _ _)); [done|].
  unfold ITEM_SIZE, CONFIG_PATH_MAX, CONFIG_VALUE_MAX, CONFIG_VALUE_OFF. lia.
Qed.

(** The test on the copied value is the one on the value. *)
Lemma nothing_wanted val :
  let setval := cut CONFIG_VALUE_MAX <$> val in
  match setval with None => true | Some v => String.eqb v EmptyString end =
    match wanted val with None => true | Some _ => false end ∧
  (wanted val ≠ None → wanted val = setval).
Proof.
  destruct val as [v|]; simpl; [|done].
  assert (String.eqb (cut CONFIG_VALUE_MAX v) EmptyString = String.eqb v EmptyString) as ->
    by (by destruct v).
  by destruct (String.eqb v EmptyString).
Qed.

(** [am_setconfig] after the table is known to be initialised and the path
    to be short. *)
Lemma setconfig_unfold c m item_ok path val :
  prefix_free → config_rep c m → P path →
  am_setconfig true item_ok path val c =
  (let i := get_matched_index path c in
   if 0 <=? i then
     match wanted val with
     | None => set_slot i None;; mret 1
     | Some v => set_slot i (Some (path, v));; mret 0
     end
   else
     let j := get_unused_index c in
     if j <? 0 then mret j else
     match wanted val with
     | None => mret 1
     | Some v => if negb item_ok then mret (-4) else set_slot j (Some (path, v));; mret 0
     end) c.
Proof.
  intros Hpf Hr HP. unfold am_setconfig. rewrite (cm_bind_some _ _ _ _ _ (ensure_init_rep _ _ Hr)).
  destruct Hpf as [Hlen Hpf]. pose proof (Hlen _ HP) as Hl.
  rewrite (proj2 (Nat.ltb_ge CONFIG_PATH_MAX _)) by lia.
  destruct (nothing_wanted val) as [Hno Hwant].
  erewrite (cm_bind_some _ _ c (cut CONFIG_VALUE_MAX <$> val) c) by (by destruct val).
  unfold mbind at 1, cm_bind at 1, cm_get at 1. cbv beta iota zeta. rewrite Hno.
  destruct (wanted val) as [v|] eqn:E.
  - assert (val ≠ None) by (by intros ->). destruct val as [v0|]; [|done].
    simpl in Hwant. specialize (Hwant ltac:(done)). injection Hwant as ->. simpl.
    rewrite (fill_item_fits path v0 (conj Hlen Hpf) HP).
    destruct (0 <=? _); [done|]. destruct (_ <? 0); [done|]. by destruct item_ok.
  - destruct (0 <=? _); [done|]. by destruct (_ <? 0).
Qed.

Lemma cfg_step_sim c m op :
  prefix_free → config_rep c m → cfg_valid op →
  ∃ c', cfg_run op c = Some ((cfg_spec m op).1, c') ∧ config_rep c' (cfg_spec m op).2.
Proof.
  intros Hpf Hr Hv. destruct op as [item_ok path val|cap path def|path]; simpl.
  - destruct Hv as [HP Hval]. unfold mbind at 1, cm_bind at 1.
    rewrite (setconfig_unfold c m item_ok path val Hpf Hr HP). cbv zeta.
    destruct (m !! path) as [old|] eqn:E.
    + destruct (matched_some _ _ _ _ Hpf Hr HP E) as (j & -> & Hj).
      rewrite (proj2 (Z.leb_le 0 _)) by lia.
      destruct (set_slot_rep c m j path (wanted val) Hr HP) as (c' & Hs & Hr');
        [by rewrite E|done|].
      exists c'. unfold mbind, cm_bind. destruct (wanted val); simpl in Hs; by rewrite Hs.
    + rewrite (matched_none _ _ _ Hpf Hr HP E). simpl.
      pose proof (unused_index c m Hr) as Hu.
      destruct (decide (size m = MAX_CONFIG)).
      { rewrite Hu. exists c. by destruct (wanted val). }
      destruct Hu as (j & -> & Hj). rewrite (proj2 (Z.ltb_ge _ 0)) by lia.
      destruct (wanted val) as [v|] eqn:Ev; [|by exists c].
      destruct item_ok; simpl; [|by exists c].
      destruct (set_slot_rep c m j path (Some v) Hr HP) as (c' & Hs & Hr');
        [by rewrite E|by intros ? [= <-]; apply Hval|].
      exists c'. unfold mbind, cm_bind. simpl in Hs. by rewrite Hs.
  - exists c. unfold mbind, cm_bind. by rewrite (getconfig_rep c m cap path def Hpf Hr Hv).
  - exists c. split; [|done]. unfold am_getconfig_bool, mbind, cm_bind.
    destruct Hv as (HP & Hv1 & Hv2).
    rewrite (getconfig_rep c m CONFIG_VALUE_MAX path None Hpf Hr) by (by split_and!).
    cbv beta iota. unfold mret, cm_ret. do 4 f_equal.
    by destruct (String.eqb_spec (value_of m path None) EmptyString) as [->|].
Qed.

Lemma init_rep c : ∃ c', am_config_init c = Some (0, c') ∧ config_rep c' ∅.
Proof.
  eexists. split; [done|]. split; simpl; try done.
  - by constructor.
  - intros k v. unfold entries. simpl. set_solver.
Qed.

End rep.

(** [C32] The configuration table is a map: with paths of fewer than 32
    characters of which none begins another, any sequence of sets, gets and
    boolean gets from a table that represents [m] stays inside its blocks and
    buffers and gives the answers of a finite map of at most 128 entries: a
    set stores the first 92 characters of the value, an empty value deletes,
    a full table answers -20, and a path that is not set is answered by the
    system's property. *)
Theorem config_refines_map (P : string → Prop) (vmax : nat)
    (property_get : string → option string → string) (ops : list cfg_op)
    (c : config) (m : gmap string string) :
  prefix_free P → config_rep P vmax c m → Forall (cfg_valid P vmax property_get) ops →
  ∃ c', cfg_runs property_get ops c = Some ((cfg_specs property_get m ops).1, c') ∧
    config_rep P vmax c' (cfg_specs property_get m ops).2.
Proof.
  intros Hpf Hr Hv. revert c m Hr. induction Hv as [|op ops Hop Hops IH]; intros c m Hr; simpl.
  { by exists c. }
  destruct (cfg_step_sim P vmax property_get c m op Hpf Hr Hop) as (c1 & Hs & Hr1).
  destruct (cfg_spec property_get m op) as [r m1]; simpl in *.
  destruct (IH c1 m1 Hr1) as (c2 & Hs2 & Hr2).
  destruct (cfg_specs property_get m1 ops) as [rs m2]; simpl in *.
  exists c2. split; [|done]. unfold mbind, cm_bind. by rewrite Hs, Hs2.
Qed.

Definition demo_props (path : string) (def : option string) : string := default "off" def.

Definition demo_paths (k : string) : Prop := k ∈ ["media.wfd"; "media.drop"]%string.

Lemma demo_paths_free : prefix_free demo_paths.
Proof.
  unfold demo_paths. split; [intros k Hk|intros k k' Hk Hk' Hp]; set_unfold in Hk.
  - destruct Hk as [-> | [-> |[]]]; unfold CONFIG_PATH_MAX; simpl; lia.
  - set_unfold in Hk'. by destruct Hk as [-> | [-> |[]]], Hk' as [-> | [-> |[]]].
Qed.

Definition demo_ops : list cfg_op :=
  [CfgBool "media.wfd"; CfgSet true "media.wfd" (Some "True"); CfgBool "media.wfd";
   CfgSet true "media.drop" (Some "20"); CfgSet true "media.wfd" None;
   CfgGet 92 "media.wfd" None; CfgGet 92 "media.drop" (Some "0")]%string.

Lemma config_refines_map_witness :
  ∃ c', cfg_runs demo_props demo_ops (mk_config (replicate MAX_CONFIG None) 1) =
      Some ([CfgRet 0; CfgRet 0; CfgRet 1; CfgRet 0; CfgRet 1; CfgText "off"; CfgText "20"], c') ∧
    config_rep demo_paths 91 c' (cfg_specs demo_props ∅ demo_ops).2.
Proof.
  assert ((cfg_specs demo_props ∅ demo_ops).1 =
    [CfgRet 0; CfgRet 0; CfgRet 1; CfgRet 0; CfgRet 1; CfgText "off"; CfgText "20"]) as <-
    by (by vm_compute).
  apply (config_refines_map demo_paths 91 demo_props demo_ops _ ∅).
  - apply demo_paths_free.
  - by destruct (init_rep demo_paths 91 (mk_config [] 0)) as (c' & [= <-] & Hr).
  - repeat (apply Forall_cons; split); [..|by apply Forall_nil];
      (split; [repeat constructor|]);
      try (intros ? H; vm_compute in H; injection H as <-);
      try (split; [by vm_compute; lia|]); try (split; [by vm_compute; lia|]);
      try (intros ? [= <-]); by vm_compute; lia.
Defined.

(** The buffers of the readers are one byte short: after a value of 92
    characters or more was stored on a path, reading it as a boolean (or
    through any other reader with its buffer of 92 bytes) writes behind the
    buffer, whatever else the table holds. *)
Theorem long_value_overruns (P : string → Prop)
    (property_get : string → option string → string) (c : config) (m : gmap string string)
    (path v : string) :
  prefix_free P → config_rep P CONFIG_VALUE_MAX c m → P path →
  (CONFIG_VALUE_MAX ≤ String.length v)%nat → (is_Some (m !! path) ∨ size m ≠ MAX_CONFIG) →
  ∃ c', am_setconfig true true path (Some v) c = Some (0, c') ∧
    am_getconfig_bool property_get path c' = None ∧
    am_getconfig property_get (S CONFIG_VALUE_MAX) path None c' =
      Some (cut CONFIG_VALUE_MAX v, c').
Proof.
  intros Hpf Hr HP Hv Hroom.
  assert (wanted (Some v) = Some (cut CONFIG_VALUE_MAX v)) as Hw 
    by (destruct v; [unfold CONFIG_VALUE_MAX in Hv; simpl in Hv; lia|done]).
  assert (cfg_spec property_get m (CfgSet true path (Some v)) =
    (CfgRet 0, <[path := cut CONFIG_VALUE_MAX v]> m)) as Hspec.
  { cbn [cfg_spec]. rewrite Hw. destruct (m !! path); [done|].
    destruct Hroom as [[? ?]|Hs]; [done|]. by destruct (decide _). }
  destruct (cfg_step_sim P CONFIG_VALUE_MAX property_get c m (CfgSet true path (Some v)) Hpf Hr)
    as (c' & Hs & Hr').
  { split; [done|]. rewrite Hw. intros ? [= <-]. rewrite cut_length. lia. }
  rewrite Hspec in Hs, Hr'. apply cm_bind_inv in Hs as (r & c1 & Hs & [= -> ->]).
  exists c'. split; [done|].
  destruct (matched_some P CONFIG_VALUE_MAX c' _ path (cut CONFIG_VALUE_MAX v) Hpf Hr' HP)
    as (j & Hj & Hslot); [apply lookup_insert_eq|].
  assert (∀ cap, am_getconfig property_get cap path None c' =
    fits cap (cut CONFIG_VALUE_MAX v) c') as Hget.
  { intros cap. unfold am_getconfig. rewrite (cm_bind_some _ _ _ _ _ (ensure_init_rep _ _ _ _ Hr')).
    unfold mbind at 1, cm_bind at 1, cm_get at 1. cbv beta iota zeta. rewrite Hj.
    rewrite (proj2 (Z.leb_le 0 _)) by lia. rewrite (cm_bind_some _ _ c' (path, cut CONFIG_VALUE_MAX v) c'); [done|].
    unfold get_slot, mbind, cm_bind, cm_get, cm_lift, aget. rewrite Nat2Z.id, Hslot.
    by rewrite (proj2 (Z.leb_le 0 _)) by lia. }
  unfold am_getconfig_bool, mbind, cm_bind. rewrite !Hget. unfold fits. rewrite cut_length.
  rewrite Nat.min_l by done. by split.
Qed.

Definition long_value : string :=
  "0123456789012345678901234567890123456789012345678901234567890123456789012345678901234567890123456789".

Lemma long_value_overruns_witness :
  ∃ c', am_setconfig true true "media.wfd" (Some long_value)
      (mk_config (replicate MAX_CONFIG None) 1) = Some (0, c') ∧
    am_getconfig_bool demo_props "media.wfd" c' = None ∧
    am_getconfig demo_props (S CONFIG_VALUE_MAX) "media.wfd" None c' =
      Some (cut CONFIG_VALUE_MAX long_value, c').
Proof.
  apply (long_value_overruns demo_paths demo_props _ ∅).
  - apply demo_paths_free.
  - by destruct (init_rep demo_paths CONFIG_VALUE_MAX (mk_config [] 0)) as (c' & [= <-] & Hr).
  - repeat constructor.
  - by vm_compute; lia.
  - by right.
Defined.

(** A path that begins another one takes its entry, and a path of 32
    characters is stored but never found again. *)
Example prefix_aliases :
  (am_setconfig true true "media.wfd.on" (Some "1"%string);;
   am_getconfig demo_props 92 "media.wfd" None) (mk_config (replicate 2 None) 1) =
    Some ("1"%string, mk_config [Some ("media.wfd.on", "1"); None]%string 1) ∧
  (am_setconfig true true "01234567890123456789012345678901" (Some "1"%string);;
   am_setconfig true true "01234567890123456789012345678901" (Some "1"%string))
    (mk_config (replicate 2 None) 1) =
    Some (0, mk_config [Some ("01234567890123456789012345678901", "1");
                        Some ("01234567890123456789012345678901", "1")]%string 1).
Proof. by vm_compute. Qed.
