(* ===== verification/PcmBuffer.v ===== *)
(** The PCM ring buffer of LibAudio/amadec/adec_write.c.

    [buffer_stream_t] keeps its storage, a read and a write position in it
    (the C pointers, as offsets from [data]) and a fill level.  The sizes are
    C's: [buf_level] is an unsigned 64-bit number, [buf_length] and the
    requested size are ints, so the comparisons that choose the number of
    bytes are made after a conversion to 64 unsigned bits.  A copy outside
    the storage, or from beyond the end of the caller's buffer, has no
    result.  [ring_rep] relates a stream to the bytes it holds and the
    theorem says that any sequence of reads and writes is a byte FIFO. *)

From S2P Require Import Prelude.

Record buffer_stream_t := mk_bs {
  buf_length : Z;
  buf_level : Z;
  data : option (list Z);
  rd_ptr : Z;
  wr_ptr : Z;
  bInited : Z;
  nMutex : Z;
  data_width : Z;
  channels : Z;
  samplerate : Z;
  format : Z
}.

Definition set_ptrs (bs : buffer_stream_t) (d : option (list Z)) (level rd wr : Z)
    : buffer_stream_t :=
  mk_bs (buf_length bs) level d rd wr (bInited bs) (nMutex bs) (data_width bs)
    (channels bs) (samplerate bs) (format bs).

(** [buffer] is what [aml_audio_malloc(length)] returned. *)
Definition init_buff (bs : buffer_stream_t) (length : Z) (buffer : option (list Z))
    : Z * buffer_stream_t :=
  match buffer with
  | None => (-1, set_ptrs bs None (buf_level bs) (rd_ptr bs) (wr_ptr bs))
  | Some b => (1, mk_bs length 0 (Some b) 0 0 1 1 (data_width bs) (channels bs)
                    (samplerate bs) (format bs))
  end.

Definition reset_buffer (bs : buffer_stream_t) : Z * buffer_stream_t :=
  if bInited bs =? 0 then (-1, bs)
  else (0, mk_bs (buf_length bs) 0 (data bs) 0 0 (bInited bs) 1 (data_width bs)
             (channels bs) (samplerate bs) (format bs)).

(** The blocks [release_buffer] frees, in order. *)
Inductive bs_block := StorageBlock (d : list Z) | StreamBlock.

Definition release_buffer (bs : buffer_stream_t) : Z * list bs_block :=
  (1, match data bs with Some d => [StorageBlock d] | None => [] end ++ [StreamBlock]).

(** 1 empty, 0 not empty, -1 not inited *)
Definition is_buffer_empty (bs : buffer_stream_t) : Z :=
  if bInited bs =? 0 then -1 else if buf_level bs =? 0 then 1 else 0.

(** 1 full, 0 not full, -1 not inited; the comparison is unsigned. *)
Definition is_buffer_full (bs : buffer_stream_t) : Z :=
  if bInited bs =? 0 then -1 else if buf_level bs =? u64 (buf_length bs) then 1 else 0.

Definition get_buffer_length (bs : buffer_stream_t) : Z :=
  if bInited bs =? 0 then -1 else i32 (buf_level bs).

(** [if (p == data + buf_length) p = data;] *)
Definition wrap_ptr (bs : buffer_stream_t) (p : Z) : Z :=
  if p =? buf_length bs then 0 else p.

(** Returns the result and the bytes copied to [out]. *)
Definition read_data (size : Z) : CM buffer_stream_t (Z * list Z) := λ bs,
  if bInited bs =? 0 then Some ((-1, []), bs) else
  if is_buffer_empty bs =? 1 then Some ((0, []), bs) else
  let len := i32 (if buf_level bs >? u64 size then u64 size else buf_level bs) in
  d ← data bs;
  if wr_ptr bs >? rd_ptr bs then
    out ← slice d (rd_ptr bs) len;
    Some ((len, out), set_ptrs bs (data bs) (u64 (buf_level bs - len))
                        (wrap_ptr bs (rd_ptr bs + len)) (wr_ptr bs))
  else if len <? buf_length bs - rd_ptr bs then
    out ← slice d (rd_ptr bs) len;
    Some ((len, out), set_ptrs bs (data bs) (u64 (buf_level bs - len))
                        (wrap_ptr bs (rd_ptr bs + len)) (wr_ptr bs))
  else
    let tail_len := i32 (buf_length bs - rd_ptr bs) in
    out1 ← slice d (rd_ptr bs) tail_len;
    out2 ← slice d 0 (len - tail_len);
    Some ((len, out1 ++ out2), set_ptrs bs (data bs) (u64 (buf_level bs - len))
                                 (wrap_ptr bs (len - tail_len)) (wr_ptr bs)).

Definition write_data (inb : list Z) (size : Z) : CM buffer_stream_t Z := λ bs,
  if bInited bs =? 0 then Some (-1, bs) else
  if is_buffer_full bs =? 1 then Some (0, bs) else
  let free := u64 (buf_length bs - buf_level bs) in
  let len := i32 (if free <? u64 size then free else u64 size) in
  d ← data bs;
  if wr_ptr bs <? rd_ptr bs then
    src ← slice inb 0 len;
    d' ← splice d (wr_ptr bs) src;
    Some (len, set_ptrs bs (Some d') (u64 (buf_level bs + len)) (rd_ptr bs)
                 (wrap_ptr bs (wr_ptr bs + len)))
  else if len <? buf_length bs - wr_ptr bs then
    src ← slice inb 0 len;
    d' ← splice d (wr_ptr bs) src;
    Some (len, set_ptrs bs (Some d') (u64 (buf_level bs + len)) (rd_ptr bs)
                 (wrap_ptr bs (wr_ptr bs + len)))
  else
    let tail_len := i32 (buf_length bs - wr_ptr bs) in
    src1 ← slice inb 0 tail_len;
    d1 ← splice d (wr_ptr bs) src1;
    src2 ← slice inb tail_len (len - tail_len);
    d' ← splice d1 0 src2;
    Some (len, set_ptrs bs (Some d') (u64 (buf_level bs + len)) (rd_ptr bs)
                 (wrap_ptr bs (len - tail_len))).

(** The two entry points run the body with [nMutex1] held: a call is one
    step of the stream, and calls of different threads do not interleave. *)
Definition read_pcm_buffer (size : Z) : CM buffer_stream_t (Z * list Z) := read_data size.
Definition write_pcm_buffer (inb : list Z) (size : Z) : CM buffer_stream_t Z :=
  write_data inb size.

(** ** The bytes a stream holds *)

Record ring_rep (bs : buffer_stream_t) (L : nat) (q : list Z) : Prop := {
  rr_inited : bInited bs ≠ 0;
  rr_length : buf_length bs = Z.of_nat L;
  rr_bound : 0 < Z.of_nat L ≤ INT_MAX;
  rr_level : buf_level bs = zlen q;
  rr_fits : (length q ≤ L)%nat;
  rr_rd : 0 ≤ rd_ptr bs < Z.of_nat L;
  rr_wr : wr_ptr bs = Z.of_nat (ring_at L (Z.to_nat (rd_ptr bs)) (length q));
  rr_data : ∃ d, data bs = Some d ∧ length d = L ∧
    ∀ i, (i < length q)%nat → q !! i = d !! ring_at L (Z.to_nat (rd_ptr bs)) i
}.

(** ** The FIFO the buffer promises *)

Inductive pcm_op :=
  | PcmWrite (inb : list Z) (size : Z) | PcmRead (size : Z)
  | PcmReset | PcmEmpty | PcmFull | PcmLevel.

(** The number of bytes a call moves: its size argument, seen as an unsigned
    number, or what the buffer can give or take. *)
Definition moved (size avail : Z) : nat := Z.to_nat (Z.min (u64 size) avail).

Definition fifo_step (L : nat) (q : list Z) (op : pcm_op) : (Z * list Z) * list Z :=
  match op with
  | PcmWrite inb size =>
      let n := moved size (Z.of_nat L - zlen q) in
      ((Z.of_nat n, []), q ++ take n inb)
  | PcmRead size =>
      let n := moved size (zlen q) in
      ((Z.of_nat n, take n q), drop n q)
  | PcmReset => ((0, []), [])
  | PcmEmpty => ((Z.b2z (length q =? 0)%nat, []), q)
  | PcmFull => ((Z.b2z (length q =? L)%nat, []), q)
  | PcmLevel => ((zlen q, []), q)
  end.

Fixpoint fifo_run (L : nat) (q : list Z) (ops : list pcm_op) : list (Z * list Z) * list Z :=
  match ops with
  | [] => ([], q)
  | op :: ops =>
      let (r, q1) := fifo_step L q op in
      let (rs, q2) := fifo_run L q1 ops in
      (r :: rs, q2)
  end.

Definition pcm_step (op : pcm_op) : CM buffer_stream_t (Z * list Z) :=
  match op with
  | PcmWrite inb size => r ← write_pcm_buffer inb size; mret (r, [])
  | PcmRead size => read_pcm_buffer size
  | PcmReset => λ bs, let (r, bs') := reset_buffer bs in Some ((r, []), bs')
  | PcmEmpty => λ bs, Some ((is_buffer_empty bs, []), bs)
  | PcmFull => λ bs, Some ((is_buffer_full bs, []), bs)
  | PcmLevel => λ bs, Some ((get_buffer_length bs, []), bs)
  end.

Fixpoint pcm_run (ops : list pcm_op) : CM buffer_stream_t (list (Z * list Z)) :=
  match ops with
  | [] => mret []
  | op :: ops => r ← pcm_step op; rs ← pcm_run ops; mret (r :: rs)
  end.

(** The caller owns as many bytes as it announces. *)
Definition op_valid (op : pcm_op) : Prop :=
  match op with PcmWrite inb size => 0 ≤ size ≤ zlen inb | _ => True end.

(** ** The cells of the storage *)

(** The cells read from position [p] on, in one or in two pieces. *)
Definition ring_cells (d : list Z) (p n : nat) : list Z :=
  take n (drop p d ++ take p d).

Lemma lookup_ring_cells d p n i :
  (p < length d)%nat → (n ≤ length d)%nat → (i < n)%nat →
  ring_cells d p n !! i = d !! ring_at (length d) p i.
Proof.
  intros Hp Hn Hi. unfold ring_cells. rewrite lookup_take_lt by done.
  unfold ring_at. destruct (Nat.ltb_spec (p + i) (length d)).
  - rewrite lookup_app_l by (rewrite length_drop; lia). by rewrite lookup_drop.
  - rewrite lookup_app_r by (rewrite length_drop; lia). rewrite length_drop.
    rewrite lookup_take_lt by lia. f_equal. lia.
Qed.

Lemma ring_cells_one d p n :
  (p + n ≤ length d)%nat → take n (drop p d) = ring_cells d p n.
Proof. intros. unfold ring_cells. rewrite take_app_le; [done|]. rewrite length_drop. lia. Qed.

Lemma ring_cells_two d p n :
  (p ≤ length d)%nat → (length d - p ≤ n)%nat → (n ≤ length d)%nat →
  drop p d ++ take (n - (length d - p)) d = ring_cells d p n.
Proof.
  intros. unfold ring_cells. rewrite take_app_ge by (rewrite length_drop; lia).
  rewrite length_drop, take_take. do 2 f_equal. lia.
Qed.

Lemma ring_cells_length d p n :
  (p ≤ length d)%nat → (n ≤ length d)%nat → length (ring_cells d p n) = n.
Proof.
  intros. unfold ring_cells. rewrite length_take, length_app, length_drop, length_take. lia.
Qed.

Lemma rep_cells bs L q d :
  ring_rep bs L q → data bs = Some d → q = ring_cells d (Z.to_nat (rd_ptr bs)) (length q).
Proof.
  intros [] Hd. destruct rr_data0 as (d' & Hd' & Hl & Hq). assert (d' = d) as -> by congruence.
  apply list_eq_same_length with (length q); [by apply ring_cells_length; lia|done|].
  intros i x y Hi Hx Hy. rewrite lookup_ring_cells, Hl in Hy by lia.
  rewrite Hq in Hx by done. congruence.
Qed.

Lemma take_ring_cells d p n m : (n ≤ m)%nat → take n (ring_cells d p m) = ring_cells d p n.
Proof. intros. unfold ring_cells. rewrite take_take. f_equal. lia. Qed.

(** ** Reading *)

(** The stream after [n] bytes were taken out. *)
Lemma ring_rep_drop bs L q n :
  ring_rep bs L q → (n ≤ length q)%nat →
  ring_rep (set_ptrs bs (data bs) (zlen q - Z.of_nat n)
    (Z.of_nat (ring_at L (Z.to_nat (rd_ptr bs)) n)) (wr_ptr bs)) L (drop n q).
Proof.
  intros [] Hn. split; simpl; try done.
  - zlens.
  - rewrite length_drop. lia.
  - pose proof (ring_at_lt L (Z.to_nat (rd_ptr bs)) n). lia.
  - rewrite rr_wr0, length_drop, Nat2Z.id, ring_at_add by lia. do 2 f_equal. lia.
  - destruct rr_data0 as (d & Hd & Hl & Hq). exists d. split_and!; [done..|].
    intros i Hi. rewrite length_drop in Hi.
    rewrite lookup_drop, Nat2Z.id, ring_at_add by lia. apply Hq. lia.
Qed.

Lemma read_len bs L q size :
  ring_rep bs L q →
  i32 (if buf_level bs >? u64 size then u64 size else buf_level bs)
    = Z.of_nat (moved size (zlen q)) ∧ (moved size (zlen q) ≤ length q)%nat.
Proof.
  intros []. unfold moved. pose proof (u64_range size). unfold INT_MAX in *.
  rewrite rr_level0. split; [|zlens]. rewrite Z.gtb_ltb. unfold zlen in *.
  destruct (Z.ltb_spec (u64 size) (Z.of_nat (length q))); rewrite i32_small; lia.
Qed.

Lemma read_sim bs L q size :
  ring_rep bs L q →
  let n := moved size (zlen q) in
  ∃ bs', read_pcm_buffer size bs = Some ((Z.of_nat n, take n q), bs') ∧
    ring_rep bs' L (drop n q).
Proof.
  intros Hr n. pose proof (read_len bs L q size Hr) as [Hlen Hn]. fold n in Hlen, Hn.
  pose proof Hr as []. destruct rr_data0 as (d & Hd & Hl & Hq).
  pose proof (rep_cells _ _ _ d Hr Hd) as Hcells.
  unfold read_pcm_buffer, read_data. rewrite (proj2 (Z.eqb_neq _ 0)) by done.
  unfold is_buffer_empty. rewrite (proj2 (Z.eqb_neq _ 0)) by done.
  destruct (Z.eqb_spec (buf_level bs) 0) as [H0|H0]; simpl.
  { assert (n = 0%nat) as -> by zlens. exists bs. by rewrite take_0, drop_0. }
  rewrite Hlen, Hd. simpl. unfold INT_MAX in *.
  pose proof (ring_rep_drop bs L q n Hr Hn) as Hr'.
  assert (∃ rd, rd_ptr bs = Z.of_nat rd) as [rd Hrd] by (exists (Z.to_nat (rd_ptr bs)); lia).
  rewrite Hrd, Nat2Z.id in *.
  assert (take n q = ring_cells d rd n) as ->
    by (rewrite Hcells, take_ring_cells by done; done).
  assert (∀ p, p = Z.of_nat (ring_at L rd n) →
    ∃ bs', Some ((Z.of_nat n, ring_cells d rd n),
      set_ptrs bs (data bs) (u64 (buf_level bs - Z.of_nat n)) p (wr_ptr bs))
      = Some ((Z.of_nat n, ring_cells d rd n), bs') ∧ ring_rep bs' L (drop n q)) as Hdone.
  { intros p ->. eexists; split; [done|]. rewrite u64_small by zlens. by rewrite rr_level0. }
  rewrite <- Hd. unfold wrap_ptr. rewrite rr_length0. rewrite !Z.gtb_ltb.
  destruct (Z.ltb_spec (Z.of_nat rd) (wr_ptr bs));
    [|destruct (Z.ltb_spec (Z.of_nat n) (Z.of_nat L - Z.of_nat rd))].
  1-2: rewrite slice_some by ring_lia; simpl; rewrite !Nat2Z.id, ring_cells_one by ring_lia;
    apply Hdone; destruct (Z.eqb_spec (Z.of_nat rd + Z.of_nat n) (Z.of_nat L)); ring_lia.
  rewrite i32_small by lia. rewrite !slice_some by zlens. simpl. rewrite Nat2Z.id.
  replace (Z.to_nat (Z.of_nat L - Z.of_nat rd)) with (length (drop rd d)) by (rewrite length_drop; lia).
  rewrite firstn_all, drop_0.
  replace (Z.to_nat (Z.of_nat n - (Z.of_nat L - Z.of_nat rd))) with (n - (length d - rd))%nat by lia.
  rewrite ring_cells_two by lia. apply Hdone.
  destruct (Z.eqb_spec (Z.of_nat n - (Z.of_nat L - Z.of_nat rd)) (Z.of_nat L)); ring_lia.
Qed.

(** ** Writing *)

(** [d'] is [d] with [src] written from position [p] on. *)
Definition ring_written (d d' : list Z) (p : nat) (src : list Z) : Prop :=
  length d' = length d ∧
  ∀ j, (j < length d)%nat →
    (∃ i, (i < length src)%nat ∧ j = ring_at (length d) p i ∧ d' !! j = src !! i) ∨
    ((∀ i, (i < length src)%nat → j ≠ ring_at (length d) p i) ∧ d' !! j = d !! j).

Lemma ring_written_one d p src d' :
  (p + length src ≤ length d)%nat → splice d (Z.of_nat p) src = Some d' →
  ring_written d d' p src.
Proof.
  intros Hp Hs. split; [by eapply splice_length|]. intros j Hj.
  rewrite (lookup_splice _ _ _ _ j Hs), Nat2Z.id. case_decide; [left|right].
  - exists (j - p)%nat. split_and!; [lia|ring_lia|done].
  - split; [|done]. intros i Hi. ring_lia.
Qed.

Lemma ring_written_two d p src n d1 d' :
  (p < length d)%nat → n = (length d - p)%nat → (n ≤ length src)%nat →
  (length src ≤ length d)%nat →
  splice d (Z.of_nat p) (take n src) = Some d1 → splice d1 0 (drop n src) = Some d' →
  ring_written d d' p src.
Proof.
  intros Hp -> Hn Hl H1 H2. apply splice_length in H1 as Hl1, H2 as Hl2.
  split; [congruence|]. intros j Hj.
  rewrite (lookup_splice _ _ _ _ j H2), (lookup_splice _ _ _ _ j H1), Nat2Z.id.
  rewrite length_drop, length_take.
  repeat case_decide; rewrite ?lookup_drop, ?lookup_take_lt by lia.
  1-2: left; eexists; split_and!; cycle 2; [f_equal|..]; ring_lia.
  right. split; [|done]. intros i Hi. ring_lia.
Qed.

(** The stream after [src] was appended. *)
Lemma ring_rep_app bs L q src d d' :
  ring_rep bs L q → data bs = Some d → (length q + length src ≤ L)%nat →
  ring_written d d' (Z.to_nat (wr_ptr bs)) src →
  ring_rep (set_ptrs bs (Some d') (zlen q + zlen src) (rd_ptr bs)
    (Z.of_nat (ring_at L (Z.to_nat (wr_ptr bs)) (length src)))) L (q ++ src).
Proof.
  intros [] Hd Hfit [Hl' Hw]. destruct rr_data0 as (d0 & Hd0 & Hl & Hq).
  assert (d0 = d) as -> by congruence. rewrite Hl in *.
  rewrite rr_wr0, Nat2Z.id in *. set (rd := Z.to_nat (rd_ptr bs)) in *.
  assert (rd < L)%nat by lia.
  split; simpl; try done; try zlens; fold rd.
  { rewrite length_app, ring_at_add by lia. done. }
  exists d'. split_and!; [done|done|]. intros i Hi. rewrite length_app in Hi.
  destruct (Hw (ring_at L rd i)) as [(k & Hk & Hj & ->)|[Hne ->]];
    [apply ring_at_lt; lia|..].
  - rewrite ring_at_add in Hj by lia. assert (i = length q + k)%nat as -> by ring_lia.
    rewrite lookup_app_r by lia. f_equal. lia.
  - destruct (decide (i < length q)%nat) as [Hiq|Hiq].
    + rewrite lookup_app_l by done. by apply Hq.
    + destruct (Hne (i - length q)%nat); [lia|].
      rewrite ring_at_add by lia. f_equal. lia.
Qed.

Lemma write_len bs L q size :
  ring_rep bs L q → zlen q < Z.of_nat L →
  let free := u64 (buf_length bs - buf_level bs) in
  let n := moved size (Z.of_nat L - zlen q) in
  i32 (if free <? u64 size then free else u64 size) = Z.of_nat n ∧
  (length q + n ≤ L)%nat.
Proof.
  intros [] Hlt. cbv zeta. unfold moved. pose proof (u64_range size). unfold INT_MAX in *.
  rewrite rr_level0, rr_length0. pose proof (zlen_nonneg q).
  rewrite (u64_small (Z.of_nat L - zlen q)) by lia. split; [|zlens].
  destruct (Z.ltb_spec (Z.of_nat L - zlen q) (u64 size)); rewrite i32_small; lia.
Qed.

Lemma is_buffer_full_rep bs L q :
  ring_rep bs L q → (is_buffer_full bs =? 1) = (zlen q =? Z.of_nat L).
Proof.
  intros []. unfold is_buffer_full, INT_MAX in *. rewrite (proj2 (Z.eqb_neq _ 0)) by done.
  rewrite rr_level0, rr_length0, u64_small by lia. by destruct (_ =? Z.of_nat L).
Qed.

Lemma take_0_drop (l : list Z) n : take n (drop (Z.to_nat 0) l) = take n l.
Proof. by rewrite drop_0. Qed.

(** The copy in two pieces, over the end of the storage. *)
Lemma copy_two d inb wr n :
  (wr < length d)%nat → (length d - wr ≤ n)%nat → (n ≤ length d)%nat → (n ≤ length inb)%nat →
  let tail_len := Z.of_nat (length d) - Z.of_nat wr in
  ∃ src1 d1 src2 d', slice inb 0 tail_len = Some src1 ∧
    splice d (Z.of_nat wr) src1 = Some d1 ∧
    slice inb tail_len (Z.of_nat n - tail_len) = Some src2 ∧ splice d1 0 src2 = Some d' ∧
    ring_written d d' wr (take n inb).
Proof.
  intros Hwr Htl Hn Hni tail_len. unfold tail_len.
  rewrite (slice_some inb 0) by zlens. rewrite take_0_drop.
  set (t := Z.to_nat (Z.of_nat (length d) - Z.of_nat wr)).
  assert (length (take t inb) = t) as Ht by (rewrite length_take; unfold t; lia).
  destruct (splice d (Z.of_nat wr) (take t inb)) as [d1|] eqn:E1;
    [|rewrite splice_some in E1; [done|lia|unfold zlen; rewrite Ht; unfold t; lia]].
  rewrite slice_some by zlens. pose proof (splice_length _ _ _ _ E1) as Hl1.
  assert (take (Z.to_nat (Z.of_nat n - (Z.of_nat (length d) - Z.of_nat wr))) (drop t inb) =
    drop t (take n inb)) as He.
  { rewrite skipn_firstn_comm. f_equal. unfold t. lia. }
  fold t. rewrite He.
  destruct (splice d1 0 (drop t (take n inb))) as [d'|] eqn:E2;
    [|rewrite splice_some in E2; [done|lia|unfold t in *; zlens]].
  exists (take t inb), d1, (drop t (take n inb)), d'. split_and!; try done.
  eapply (ring_written_two d wr _ t d1 d'); rewrite ?length_take; try (unfold t; lia); try done.
  rewrite take_take, Nat.min_l by (unfold t; lia). done.
Qed.

Lemma write_sim bs L q inb size :
  ring_rep bs L q → 0 ≤ size ≤ zlen inb →
  let n := moved size (Z.of_nat L - zlen q) in
  ∃ bs', write_pcm_buffer inb size bs = Some (Z.of_nat n, bs') ∧
    ring_rep bs' L (q ++ take n inb).
Proof.
  intros Hr Hin n. pose proof Hr as []. destruct rr_data0 as (d & Hd & Hl & Hq).
  unfold write_pcm_buffer, write_data. rewrite (is_buffer_full_rep _ _ _ Hr).
  unfold INT_MAX in *. rewrite (proj2 (Z.eqb_neq (bInited bs) 0)) by done.
  destruct (Z.eqb_spec (zlen q) (Z.of_nat L)) as [HL|HL]; simpl.
  { assert (n = 0%nat) as -> by (unfold n, moved; lia).
    exists bs. by rewrite take_0, app_nil_r. }
  destruct (write_len bs L q size Hr) as [Hlen Hn]; [zlens|]. fold n in Hlen, Hn.
  rewrite Hlen, Hd. simpl.
  assert (n ≤ length inb)%nat as Hni.
  { unfold n, moved. pose proof (u64_range size). destruct (decide (size < 2 ^ 64)).
    - rewrite u64_small by lia. zlens.
    - zlens. }
  assert (length (take n inb) = n) as Hlt by (rewrite length_take; lia).
  assert (Z.to_nat (wr_ptr bs) < L)%nat as Hwr
    by (rewrite rr_wr0, Nat2Z.id; apply ring_at_lt; lia).
  assert (∀ d' p, ring_written d d' (Z.to_nat (wr_ptr bs)) (take n inb) →
    p = Z.of_nat (ring_at L (Z.to_nat (wr_ptr bs)) n) →
    ∃ bs', Some (Z.of_nat n, set_ptrs bs (Some d') (u64 (buf_level bs + Z.of_nat n))
        (rd_ptr bs) p) = Some (Z.of_nat n, bs') ∧ ring_rep bs' L (q ++ take n inb)) as Hdone.
  { intros d' p Hw ->. eexists; split; [done|]. rewrite rr_level0, u64_small by zlens.
    pose proof (ring_rep_app bs L q (take n inb) d d' Hr Hd) as Ha.
    rewrite Hlt in Ha. unfold zlen in Ha at 2. rewrite Hlt in Ha. by apply Ha. }
  unfold wrap_ptr. rewrite rr_length0.
  assert (∃ wr, wr_ptr bs = Z.of_nat wr) as [wr Hwre] by (exists (Z.to_nat (wr_ptr bs)); lia).
  rewrite Hwre, ?Nat2Z.id in *.
  destruct (Z.ltb_spec (Z.of_nat wr) (rd_ptr bs));
    [|destruct (Z.ltb_spec (Z.of_nat n) (Z.of_nat L - Z.of_nat wr))].
  1-2: rewrite slice_some by zlens; simpl; rewrite take_0_drop, Nat2Z.id;
    rewrite splice_some by (rewrite ?Hlt; ring_lia); simpl;
    apply Hdone;
    [eapply ring_written_one; [rewrite Hlt; ring_lia|
       rewrite splice_some by (rewrite ?Hlt; ring_lia); done]
    |destruct (Z.eqb_spec (Z.of_nat wr + Z.of_nat n) (Z.of_nat L)); ring_lia].
  rewrite i32_small by lia.
  destruct (copy_two d inb wr n) as (src1 & d1 & src2 & d' & H1 & H2 & H3 & H4 & Hw); [lia..|].
  rewrite Hl in H1, H3. rewrite H1. simpl. rewrite H2. simpl. rewrite H3. simpl.
  rewrite H4. simpl. apply Hdone; [done|].
  destruct (Z.eqb_spec (Z.of_nat n - (Z.of_nat L - Z.of_nat wr)) (Z.of_nat L)); ring_lia.
Qed.

(** ** Refinement *)

Lemma reset_sim bs L q :
  ring_rep bs L q → (reset_buffer bs).1 = 0 ∧ ring_rep (reset_buffer bs).2 L [].
Proof.
  intros []. unfold reset_buffer. rewrite (proj2 (Z.eqb_neq _ 0)) by done. split; [done|].
  split; simpl; try done; try lia.
  - unfold ring_at. destruct (Nat.ltb_spec (Z.to_nat 0 + 0) L); lia.
  - destruct rr_data0 as (d & Hd & Hl & _). exists d. split_and!; [done..|]. intros i Hi. lia.
Qed.

(** The three queries answer from the fill level alone. *)
Lemma queries_sim bs L q :
  ring_rep bs L q →
  is_buffer_empty bs = Z.b2z (length q =? 0)%nat ∧
  is_buffer_full bs = Z.b2z (length q =? L)%nat ∧ get_buffer_length bs = zlen q.
Proof.
  intros []. unfold is_buffer_empty, is_buffer_full, get_buffer_length.
  rewrite (proj2 (Z.eqb_neq _ 0)) by done. rewrite rr_level0, rr_length0.
  rewrite u64_small by (unfold INT_MAX in *; lia). rewrite i32_small by (unfold zlen, INT_MAX in *; lia). unfold zlen.
  split_and!; [| |done].
  - destruct (Z.eqb_spec (Z.of_nat (length q)) 0), (Nat.eqb_spec (length q) 0); simpl; lia.
  - destruct (Z.eqb_spec (Z.of_nat (length q)) (Z.of_nat L)),
      (Nat.eqb_spec (length q) L); simpl; lia.
Qed.

Lemma pcm_step_sim bs L q op :
  ring_rep bs L q → op_valid op →
  ∃ bs', pcm_step op bs = Some ((fifo_step L q op).1, bs') ∧
    ring_rep bs' L (fifo_step L q op).2.
Proof.
  intros Hr Hv. destruct (queries_sim bs L q Hr) as (He & Hf & Hg).
  destruct op as [inb size|size| | | |]; simpl in *; rewrite ?He, ?Hf, ?Hg; try by exists bs.
  - destruct (write_sim bs L q inb size Hr Hv) as (bs' & Hw & Hr').
    exists bs'. split; [|done]. unfold mbind, cm_bind. by rewrite Hw.
  - apply (read_sim bs L q size Hr).
  - destruct (reset_sim bs L q Hr) as [H0 H1]. destruct (reset_buffer bs) as [r bs'].
    simpl in H0. subst r. by exists bs'.
Qed.

Lemma init_buff_rep bs L b :
  length b = L → 0 < Z.of_nat L ≤ INT_MAX →
  (init_buff bs (Z.of_nat L) (Some b)).1 = 1 ∧
  ring_rep (init_buff bs (Z.of_nat L) (Some b)).2 L [].
Proof.
  intros Hl HL. split; [done|]. split; simpl; try done; try lia.
  - unfold ring_at. destruct (Nat.ltb_spec (Z.to_nat 0 + 0) L); lia.
  - exists b. split_and!; [done..|]. intros i Hi. lia.
Qed.

Lemma pcm_run_sim ops bs L q :
  ring_rep bs L q → Forall op_valid ops →
  ∃ bs', pcm_run ops bs = Some ((fifo_run L q ops).1, bs') ∧
    ring_rep bs' L (fifo_run L q ops).2.
Proof.
  revert bs q. induction ops as [|op ops IH]; intros bs q Hr Hv; simpl.
  { by exists bs. }
  apply Forall_cons in Hv as [Hv Hvs].
  destruct (pcm_step_sim bs L q op Hr Hv) as (bs1 & Hs & Hr1).
  destruct (fifo_step L q op) as [r q1] eqn:E; simpl in *.
  destruct (IH bs1 q1 Hr1 Hvs) as (bs2 & Hs2 & Hr2).
  destruct (fifo_run L q1 ops) as [rs q2] eqn:E2; simpl in *.
  exists bs2. split; [|done]. unfold mbind, cm_bind. by rewrite Hs, Hs2.
Qed.

(** [C4] The PCM ring buffer is a byte FIFO: on a stream that holds the bytes
    [q] in a storage of [L] bytes, any sequence of [read_pcm_buffer],
    [write_pcm_buffer], [reset_buffer] and the three queries stays inside the
    storage, returns exactly the counts and bytes of a bounded queue (a write
    appends as much of its input as fits, a read takes from the front what is
    there, whatever the wrap of the two pointers, a reset drops everything,
    the queries report emptiness, fullness and the number of bytes), and
    leaves the stream representing the final queue. *)
Theorem pcm_ring_refines_fifo (ops : list pcm_op) (bs : buffer_stream_t) (L : nat) (q : list Z) :
  ring_rep bs L q → Forall op_valid ops →
  ∃ bs', pcm_run ops bs = Some ((fifo_run L q ops).1, bs') ∧
    ring_rep bs' L (fifo_run L q ops).2.
Proof. apply pcm_run_sim. Qed.

Definition fresh_stream : buffer_stream_t := mk_bs 0 0 None 0 0 0 0 16 2 48000 0.

(** A stream of 4 bytes that wraps in both directions and overflows. *)
Lemma pcm_ring_refines_fifo_witness :
  ∃ bs', pcm_run [PcmWrite [1;2;3] 3; PcmRead 2; PcmWrite [4;5;6;7] 4; PcmRead 100]
           (init_buff fresh_stream 4 (Some [0;0;0;0])).2
         = Some ([(3, []); (2, [1;2]); (3, []); (4, [3;4;5;6])], bs') ∧ ring_rep bs' 4 [].
Proof.
  apply (pcm_ring_refines_fifo
    [PcmWrite [1;2;3] 3; PcmRead 2; PcmWrite [4;5;6;7] 4; PcmRead 100] _ 4 []).
  - apply (init_buff_rep fresh_stream 4 [0;0;0;0]); [done|unfold INT_MAX; lia].
  - repeat constructor; vm_compute; congruence.
Defined.

Lemma uninited_run ops bs :
  bInited bs = 0 → pcm_run ops bs = Some (replicate (length ops) (-1, []), bs).
Proof.
  intros H0. induction ops as [|op ops IH]; [done|]. simpl. unfold mbind, cm_bind.
  assert (pcm_step op bs = Some ((-1, []), bs)) as ->; [|by rewrite IH].
  destruct op; simpl; unfold mbind, cm_bind, write_pcm_buffer, read_pcm_buffer, write_data,
    read_data, reset_buffer, is_buffer_empty, is_buffer_full, get_buffer_length; by rewrite H0.
Qed.

(** The life of a stream.  When [init_buff] obtained its [L] bytes, every
    sequence of calls that follows behaves as a queue that starts empty, and
    the [release_buffer] that ends it frees one storage block of [L] bytes and
    the stream, each once.  When the allocation failed on a stream that was
    not in use, every call answers -1, copies nothing and changes nothing, and
    the release frees the stream alone. *)
Theorem pcm_stream_lifecycle (ops : list pcm_op) (bs : buffer_stream_t) (b : list Z) :
  0 < zlen b ≤ INT_MAX → Forall op_valid ops →
  (∃ bs' d, pcm_run ops (init_buff bs (zlen b) (Some b)).2 =
      Some ((fifo_run (length b) [] ops).1, bs') ∧
    release_buffer bs' = (1, [StorageBlock d; StreamBlock]) ∧ length d = length b) ∧
  (bInited bs = 0 → (init_buff bs (zlen b) None).1 = -1 ∧
    ∃ bs', pcm_run ops (init_buff bs (zlen b) None).2 =
      Some (replicate (length ops) (-1, []), bs') ∧
    release_buffer bs' = (1, [StreamBlock])).
Proof.
  intros Hb Hv. split.
  - destruct (init_buff_rep bs (length b) b) as [_ Hr]; [done|exact Hb|].
    destruct (pcm_run_sim ops _ _ _ Hr Hv) as (bs' & He & Hr').
    destruct (rr_data _ _ _ Hr') as (d & Hd & Hl & _).
    exists bs', d. split_and!; [exact He| |done]. unfold release_buffer. by rewrite Hd.
  - intros H0. split; [done|]. eexists. split; [by apply uninited_run|done].
Qed.

Lemma pcm_stream_lifecycle_witness :
  (∃ bs' d, pcm_run [PcmWrite [7;8;9] 3; PcmFull; PcmReset; PcmRead 1]
      (init_buff fresh_stream 2 (Some [0;0])).2 =
      Some ([(2, []); (1, []); (0, []); (0, [])], bs') ∧
    release_buffer bs' = (1, [StorageBlock d; StreamBlock]) ∧ length d = 2%nat) ∧
  (bInited fresh_stream = 0 → (init_buff fresh_stream 2 None).1 = -1 ∧
    ∃ bs', pcm_run [PcmWrite [7;8;9] 3; PcmFull; PcmReset; PcmRead 1]
        (init_buff fresh_stream 2 None).2 =
      Some ([(-1, []); (-1, []); (-1, []); (-1, [])], bs') ∧
    release_buffer bs' = (1, [StreamBlock])).
Proof.
  apply (pcm_stream_lifecycle [PcmWrite [7;8;9] 3; PcmFull; PcmReset; PcmRead 1] fresh_stream [0;0]).
  - unfold zlen, INT_MAX. simpl. lia.
  - repeat constructor; vm_compute; congruence.
Defined.
