(* ===== verification/PackageList.v ===== *)
(** The list of packages of LibAudio/amadec/adec-ffmpeg-mgt.c.

    The thread that reads the compressed stream hands blocks of bytes to the
    thread that decodes them through a list of at most 8 packages, linked
    through their [next] fields.  Here: the blocks of memory the two threads
    use, the operations of the list, and that it is a queue.  Each operation
    runs under the lock of the list and is one step.

    [None] is an access to a block that is not live or outside it. *)

From S2P Require Import Prelude.

(** ** Heaps

    A heap of blocks is described by the list of its blocks, in any order. *)

Definition heap {A} (m : gmap Z A) (l : list (Z * A)) : Prop := map_to_list m ≡ₚ l.

Section heaps.
Context {A : Type}.
Implicit Types (m : gmap Z A) (l : list (Z * A)).

Lemma heap_perm m l l' : heap m l → l ≡ₚ l' → heap m l'.
Proof. unfold heap. by intros -> ->. Qed.

Lemma heap_empty : heap (∅ : gmap Z A) [].
Proof. unfold heap. by rewrite map_to_list_empty. Qed.

Lemma heap_nil m : heap m [] → m = ∅.
Proof. intros H%Permutation_nil_r. by apply map_to_list_empty_iff. Qed.

Lemma heap_elem m l a x : heap m l → (a, x) ∈ l → m !! a = Some x.
Proof. intros H Hin. rewrite <- H in Hin. by apply elem_of_map_to_list. Qed.

Lemma heap_lookup m l a x : heap m ((a, x) :: l) → m !! a = Some x.
Proof. intros H. eapply heap_elem; [done|left]. Qed.

Lemma heap_insert m l a x : heap m l → m !! a = None → heap (<[a := x]> m) ((a, x) :: l).
Proof. unfold heap. intros H Ha. by rewrite map_to_list_insert, H. Qed.

Lemma heap_delete m l a x : heap m ((a, x) :: l) → heap (delete a m) l.
Proof.
  intros H. pose proof (heap_lookup _ _ _ _ H) as Ha. unfold heap in *.
  apply (Permutation_cons_inv (a := (a, x))). rewrite <- H.
  by rewrite <- (map_to_list_delete m a x).
Qed.

Lemma heap_update m l a x y : heap m ((a, x) :: l) → heap (<[a := y]> m) ((a, y) :: l).
Proof.
  intros H. pose proof (heap_delete _ _ _ _ H) as Hd. rewrite <- insert_delete_eq.
  apply heap_insert; [done|]. by rewrite lookup_delete_eq.
Qed.

End heaps.

(** ** Data *)

(** [p_next] is [None] as long as the field was not written. *)
Record package := mk_package { p_data : Z; p_size : Z; p_next : option Z; p_pts : Z }.

Record Package_List := mk_plist { first : Z; pack_num : Z; current : Z }.

Record pk_world := mk_pk {
  pack_list : Package_List;
  packages : gmap Z package;
  blocks : gmap Z (list Z)
}.

#[export] Instance pk_world_eta : Eta pk_world := λ r,
  mk_pk (pack_list r) (packages r) (blocks r).

(** What [aml_audio_malloc] promises. *)
Class PkAlloc := {
  pk_malloc : pk_world → Z → option Z;
  pk_malloc_fresh w n p :
    pk_malloc w n = Some p → p ≠ NULL ∧ packages w !! p = None ∧ blocks w !! p = None
}.

Definition sizeof_package : Z := 32.

Section ops.
Context `{PkAlloc}.

Definition get_package (p : Z) : CM pk_world package := λ w, (λ x, (x, w)) <$> packages w !! p.
Definition set_package (p : Z) (x : package) : CM pk_world unit := λ w,
  match packages w !! p with
  | Some _ => Some (tt, w <| packages := <[p := x]> (packages w) |>)
  | None => None
  end.
Definition free_package (p : Z) : CM pk_world unit := λ w,
  match packages w !! p with
  | Some _ => Some (tt, w <| packages := delete p (packages w) |>)
  | None => None
  end.

(** A new block of [n] bytes, NULL when there is none. *)
Definition alloc_bytes (n : Z) : CM pk_world Z := λ w,
  match pk_malloc w n with
  | Some p => Some (p, w <| blocks := <[p := replicate (Z.to_nat n) 0]> (blocks w) |>)
  | None => Some (NULL, w)
  end.
Definition free_bytes (a : Z) : CM pk_world unit := λ w,
  if a =? NULL then Some (tt, w) else
  match blocks w !! a with
  | Some _ => Some (tt, w <| blocks := delete a (blocks w) |>)
  | None => None
  end.
(** [memcpy] from and to a block. *)
Definition load_bytes (a off n : Z) : CM pk_world (list Z) := λ w,
  b ← blocks w !! a; xs ← slice b off n; Some (xs, w).
Definition store_bytes (a off : Z) (xs : list Z) : CM pk_world unit := λ w,
  b ← blocks w !! a; b ← splice b off xs; Some (tt, w <| blocks := <[a := b]> (blocks w) |>).

Definition set_list (l : Package_List) : CM pk_world unit := cm_modify (λ w, w <| pack_list := l |>).

Definition package_list_init : CM pk_world Z := set_list (mk_plist NULL 0 NULL);; mret 0.

Definition package_add (data size pts : Z) : CM pk_world Z :=
  l ← cm_gets pack_list;
  if pack_num l =? 8 then mret (-2) else
  w ← cm_get;
  match pk_malloc w sizeof_package with
  | None => mret (-1)
  | Some p =>
      cm_put (w <| packages := <[p := mk_package data size None pts]> (packages w) |>);;
      if pack_num l =? 0 then set_list (mk_plist p 1 p);; mret 0
      else
        c ← get_package (current l);
        set_package (current l) (mk_package (p_data c) (p_size c) (Some p) (p_pts c));;
        set_list (mk_plist (first l) (pack_num l + 1) p);;
        mret 0
  end.

Definition package_get : CM pk_world Z :=
  l ← cm_gets pack_list;
  if pack_num l =? 0 then mret NULL else
  let p := first l in
  if pack_num l =? 1 then set_list (mk_plist NULL 0 NULL);; mret p
  else if pack_num l >? 1 then
    x ← get_package p;
    next ← cm_lift (p_next x);
    set_list (mk_plist next (pack_num l - 1) (current l));;
    mret p
  else mret p.

(** [while (pack_num)]: the [next] of the last package is read before it was
    written, and not used; it reads as NULL here. *)
Fixpoint free_loop (fuel : nat) : CM pk_world unit :=
  l ← cm_gets pack_list;
  if pack_num l =? 0 then mret tt else
  match fuel with
  | O => cm_fail
  | S fuel =>
      x ← get_package (first l);
      set_list (mk_plist (default NULL (p_next x)) (pack_num l) (current l));;
      free_bytes (p_data x);;
      free_package (first l);;
      l ← cm_gets pack_list;
      set_list (mk_plist (first l) (pack_num l - 1) (current l));;
      free_loop fuel
  end.

(** The list never has more than 8 packages. *)
Definition package_list_free : CM pk_world Z := free_loop 8;; mret 0.

End ops.

(** ** The queue

    [q] lists the packages of the list in order with their addresses, [held]
    the packages taken from it and not freed yet. *)

Fixpoint linked (q : list (Z * package)) : Prop :=
  match q with
  | x :: q => match q with y :: _ => p_next x.2 = Some y.1 | [] => True end ∧ linked q
  | [] => True
  end.

Record list_rep (w : pk_world) (held q : list (Z * package)) : Prop := {
  lr_heap : heap (packages w) (held ++ q);
  lr_linked : linked q;
  lr_live : Forall (λ x, x.1 ≠ NULL) q;
  lr_num : pack_num (pack_list w) = zlen q;
  lr_max : (length q ≤ 8)%nat;
  lr_first x : head q = Some x → first (pack_list w) = x.1;
  lr_last x : last q = Some x → current (pack_list w) = x.1
}.

Definition fields (x : Z * package) : Z * Z * Z := (p_data x.2, p_size x.2, p_pts x.2).

Lemma linked_snoc q c x x' y :
  linked (q ++ [(c, x)]) → p_next x' = Some y.1 → linked (q ++ [(c, x'); y]).
Proof.
  intros Hl Hn. induction q as [|z q IH]; [by cbn|].
  destruct Hl as [Hz Hl]. split; [by destruct q|by apply IH].
Qed.

Section queue.
Context `{PkAlloc}.

(** Memory does not run out. *)
Definition pk_roomy : Prop := ∀ w n, 0 < n → pk_malloc w n ≠ None.

Lemma init_sim w held :
  heap (packages w) held →
  ∃ w', package_list_init w = Some (0, w') ∧ list_rep w' held [] ∧ blocks w' = blocks w.
Proof.
  intros Hh. eexists. split; [reflexivity|]. split; [|done]. split; cbn; try done; try lia.
  by rewrite app_nil_r.
Qed.

Lemma add_full w held q d s t :
  list_rep w held q → length q = 8%nat → package_add d s t w = Some (-2, w).
Proof.
  intros Hr Hl. unfold package_add, cm_gets, mbind, cm_bind.
  by rewrite (lr_num w held q Hr), (proj2 (Z.eqb_eq _ 8)) by (unfold zlen; lia).
Qed.

Lemma add_sim w held q d s t :
  pk_roomy → list_rep w held q → (length q < 8)%nat →
  ∃ w' q', package_add d s t w = Some (0, w') ∧ list_rep w' held q' ∧ blocks w' = blocks w ∧
    fields <$> q' = (fields <$> q) ++ [(d, s, t)].
Proof.
  intros Hroom Hr Hlen. destruct (pk_malloc w sizeof_package) as [p|] eqn:E; [|by apply Hroom in E].
  destruct (pk_malloc_fresh _ _ _ E) as (Hpn & Hp & _). destruct Hr as [Hh Hl Hlv Hn Hm Hf Hc].
  unfold package_add, cm_gets, cm_get, cm_put, set_list, cm_modify, mbind, cm_bind.
  rewrite Hn, (proj2 (Z.eqb_neq _ 8)), E by (unfold zlen; lia).
  pose proof (heap_insert _ _ p (mk_package d s None t) Hh Hp) as Hh'.
  destruct q as [|y q _] using rev_ind.
  - rewrite (proj2 (Z.eqb_eq _ 0)) by done. cbn. eexists _, [(p, mk_package d s None t)].
    split; [reflexivity|]. split; [|done]. split; cbn; try done; try lia.
    + eapply heap_perm; [exact Hh'|]. rewrite app_nil_r. apply Permutation_cons_append.
    + by constructor.
    + by intros x [= <-].
    + by intros x [= <-].
  - destruct y as [c x]. rewrite last_snoc in Hc. specialize (Hc _ eq_refl). cbn in Hc. rewrite Hc.
    rewrite (proj2 (Z.eqb_neq _ 0)) by (unfold zlen; rewrite length_app; cbn; lia).
    set (m := <[p := mk_package d s None t]> (packages w)) in *.
    assert (heap m ((c, x) :: (p, mk_package d s None t) :: held ++ q)) as Hh2.
    { eapply heap_perm; [exact Hh'|]. rewrite app_assoc, <- Permutation_cons_append. apply perm_swap. }
    pose proof (heap_lookup _ _ _ _ Hh2) as Hx. unfold get_package, set_package. cbn. fold m.
    rewrite Hx. cbn. rewrite Hx. set (x' := mk_package (p_data x) (p_size x) (Some p) (p_pts x)).
    eexists _, (q ++ [(c, x'); (p, mk_package d s None t)]). split; [reflexivity|].
    split; [|split; [done|by rewrite !fmap_app, <- app_assoc]]. split; cbn.
    + eapply heap_perm; [apply (heap_update _ _ _ _ x' Hh2)|].
      rewrite app_assoc. apply (Permutation_app_comm [(c, x'); (p, mk_package d s None t)]).
    + by apply linked_snoc with x.
    + apply Forall_app in Hlv as [Hlv Hcx]. apply Forall_cons in Hcx as [Hcx _].
      apply Forall_app. split; [done|]. constructor; [done|by constructor].
    + unfold zlen. rewrite !length_app. cbn. lia.
    + rewrite length_app in *. cbn in *. lia.
    + intros y Hy. destruct q as [|z q]; cbn in *; injection Hy as <-; exact (Hf _ eq_refl).
    + intros y. rewrite last_app. cbn. by intros [= <-].
Qed.

Lemma get_empty w held : list_rep w held [] → package_get w = Some (NULL, w).
Proof. intros Hr. unfold package_get, cm_gets, mbind, cm_bind. by rewrite (lr_num w held [] Hr). Qed.

Lemma get_sim w held x q :
  list_rep w held (x :: q) →
  ∃ w', package_get w = Some (x.1, w') ∧ list_rep w' (x :: held) q ∧ blocks w' = blocks w ∧
    packages w' = packages w.
Proof.
  intros [Hh Hl Hlv Hn Hm Hf Hc]. specialize (Hf x eq_refl). apply Forall_cons in Hlv as [_ Hlv].
  assert (heap (packages w) ((x :: held) ++ q)) as Hh'.
  { eapply heap_perm; [exact Hh|]. by rewrite <- Permutation_middle. }
  assert (packages w !! x.1 = Some x.2) as Hx by (destruct x; by apply (heap_lookup _ (held ++ q))).
  unfold package_get, cm_gets, mbind, cm_bind. rewrite Hn, (proj2 (Z.eqb_neq _ 0)) by done.
  destruct q as [|y q].
  - rewrite (proj2 (Z.eqb_eq _ 1)) by done. cbn. rewrite Hf. eexists. split; [reflexivity|].
    split; [|done]. split; cbn; try done; lia.
  - rewrite (proj2 (Z.eqb_neq _ 1)), Z.gtb_ltb, (proj2 (Z.ltb_lt 1 _)) by (unfold zlen; cbn; lia).
    destruct Hl as [Hy Hl]. unfold get_package. rewrite Hf, Hx. cbn. rewrite Hy. cbn.
    eexists. split; [reflexivity|]. split; [|done]. split; cbn; try done.
    + unfold zlen in *. cbn in *. lia.
    + cbn in *. lia.
    + by intros z [= <-].
Qed.

(** Every queued package owns its data. *)
Definition owns (x : Z * package) (b : Z * list Z) : Prop := p_data x.2 = b.1 ∧ b.1 ≠ NULL.

Lemma free_bytes_sim w a b l :
  heap (blocks w) ((a, b) :: l) → a ≠ NULL →
  ∃ w', free_bytes a w = Some (tt, w') ∧ heap (blocks w') l ∧ pack_list w' = pack_list w ∧
    packages w' = packages w.
Proof.
  intros Hh Hn%Z.eqb_neq. unfold free_bytes. rewrite Hn, (heap_lookup _ _ _ _ Hh).
  eexists. split; [reflexivity|]. split; [by apply heap_delete in Hh|done].
Qed.

Lemma free_package_sim w held x q l :
  list_rep w (x :: held) q → heap (blocks w) l →
  ∃ w', free_package x.1 w = Some (tt, w') ∧ list_rep w' held q ∧ heap (blocks w') l ∧
    blocks w' = blocks w.
Proof.
  intros [Hh Hl Hlv Hn Hm Hf Hc] Hb. destruct x as [a x]. unfold free_package. cbn in Hh |- *.
  rewrite (heap_lookup _ _ _ _ Hh). eexists. split; [reflexivity|].
  split; [|done]. split; cbn; try done. by apply heap_delete in Hh.
Qed.

Lemma free_loop_sim q : ∀ fuel bs l w,
  list_rep w [] q → Forall2 owns q bs → heap (blocks w) (bs ++ l) → (length q ≤ fuel)%nat →
  ∃ w', free_loop fuel w = Some (tt, w') ∧ list_rep w' [] [] ∧ heap (blocks w') l.
Proof.
  induction q as [|x q IH]; intros fuel bs l w Hr Hb Hh Hf.
  { apply Forall2_nil_inv_l in Hb as ->. exists w. split; [|done].
    destruct fuel; cbn; unfold mbind, cm_bind, cm_gets; by rewrite (lr_num _ _ _ Hr). }
  apply Forall2_cons_inv_l in Hb as ([a b] & bs' & [Hx Hna] & Hb & ->).
  destruct fuel as [|fuel]; [cbn in Hf; lia|]. cbn [free_loop].
  unfold cm_gets, set_list, cm_modify, mbind, cm_bind.
  rewrite (lr_num _ _ _ Hr), (proj2 (Z.eqb_neq _ 0)) by done. rewrite (lr_first _ _ _ Hr x eq_refl).
  assert (packages w !! x.1 = Some x.2) as Hl
    by (destruct x; by apply (heap_lookup _ q), (lr_heap _ _ _ Hr)).
  unfold get_package. rewrite Hl. cbn. rewrite Hx. cbn.
  set (w1 := mk_pk _ _ _).
  destruct (free_bytes_sim w1 a b (bs' ++ l) Hh Hna) as (w2 & -> & Hh2 & El & Ep).
  unfold free_package. rewrite Ep. cbn [w1 packages]. rewrite Hl. cbn. rewrite El. cbn [w1 pack_list packages first pack_num current].
  apply (IH fuel bs'); [|done|done|cbn in Hf; lia].
  destruct Hr as [Hp [Hnx Hlk] Hlv Hn Hm Hfi Hc]. apply Forall_cons in Hlv as [_ Hlv]. split; cbn.
  - cbn in Hp. destruct x. by apply heap_delete in Hp.
  - done.
  - done.
  - unfold zlen. cbn. lia.
  - cbn in Hm. lia.
  - intros y Hy. destruct q; [done|]. injection Hy as <-. by rewrite Hnx.
  - intros y Hy. apply Hc. by destruct q.
Qed.

Lemma free_sim w q bs l :
  list_rep w [] q → Forall2 owns q bs → heap (blocks w) (bs ++ l) →
  ∃ w', package_list_free w = Some (0, w') ∧ list_rep w' [] [] ∧ heap (blocks w') l.
Proof.
  intros Hr Hb Hh. destruct (free_loop_sim q 8 bs l w Hr Hb Hh (lr_max _ _ _ Hr)) as (w' & E & ? & ?).
  exists w'. split; [|done]. unfold package_list_free, mbind, cm_bind. by rewrite E.
Qed.

(** ** Blocks of bytes *)

Lemma alloc_sim w n l held q :
  pk_roomy → 0 < n → heap (blocks w) l → list_rep w held q →
  ∃ a w', alloc_bytes n w = Some (a, w') ∧ a ≠ NULL ∧
    heap (blocks w') ((a, replicate (Z.to_nat n) 0) :: l) ∧ list_rep w' held q.
Proof.
  intros Hroom Hn Hh Hr. unfold alloc_bytes.
  destruct (pk_malloc w n) as [a|] eqn:E; [|by apply Hroom in E].
  destruct (pk_malloc_fresh _ _ _ E) as (Ha & _ & Hb). eexists _, _. split; [reflexivity|].
  split_and!; [done|by apply heap_insert|by destruct Hr].
Qed.

Lemma store_sim w a b l off xs b' held q :
  heap (blocks w) ((a, b) :: l) → splice b off xs = Some b' → list_rep w held q →
  ∃ w', store_bytes a off xs w = Some (tt, w') ∧ heap (blocks w') ((a, b') :: l) ∧
    list_rep w' held q.
Proof.
  intros Hh Hs Hr. unfold store_bytes. rewrite (heap_lookup _ _ _ _ Hh). cbn. rewrite Hs.
  eexists. split; [reflexivity|]. split; [by apply (heap_update _ _ _ b)|by destruct Hr].
Qed.

Lemma load_sim w a b l off n xs :
  heap (blocks w) ((a, b) :: l) → slice b off n = Some xs → load_bytes a off n w = Some (xs, w).
Proof. intros Hh Hs. unfold load_bytes. rewrite (heap_lookup _ _ _ _ Hh). cbn. by rewrite Hs. Qed.

Lemma release_sim w a b l held q :
  heap (blocks w) ((a, b) :: l) → a ≠ NULL → list_rep w held q →
  ∃ w', free_bytes a w = Some (tt, w') ∧ heap (blocks w') l ∧ list_rep w' held q.
Proof.
  intros Hh Ha Hr. destruct (free_bytes_sim w a b l Hh Ha) as (w' & E & Hh' & El & Ep).
  exists w'. split_and!; [done|done|]. destruct Hr. by split; rewrite ?El, ?Ep.
Qed.

End queue.
