(* ===== verification/ArmDecode.v ===== *)
(** The two threads of the software decoder, LibAudio/amadec/adec-ffmpeg-mgt.c
    in the build with the output inside the decoder: [audio_getpackage_loop]
    reads the compressed stream and queues packages, [audio_decode_loop] takes
    them, decodes them and writes the PCM ring, from which the output reads.

    A step of a thread is one round of the loop it is in: a step ends where
    the code looks at what other threads write or sleeps.  A schedule is any
    sequence of steps of the two threads, of the output, of the thread that
    resets the track and of the one that asks them to stop.

    [anchor] and the dumps to files are left out: only the other build reads
    the former.  [None] is an access outside the live memory, a division by
    zero or a signed overflow; [latencys], which this build computes and never
    reads, wraps.

    Ghost logs: [taken] and [eaten], the bytes read from the stream and those
    the decoder used; [made], the PCM the decoder library returned, [kept],
    the part of it the thread goes on to write, and [heard], what the output
    took. *)

From S2P Require Import Prelude PcmBuffer PackageList.

(** ** Data *)

Definition ACODEC_FMT_AAC : Z := 2.
Definition ACODEC_FMT_AC3 : Z := 3.
Definition ACODEC_FMT_DTS : Z := 6.
Definition ACODEC_FMT_COOK : Z := 9.
Definition ACODEC_FMT_AMR : Z := 12.
Definition ACODEC_FMT_RAAC : Z := 13.
Definition ACODEC_FMT_AAC_LATM : Z := 19.
Definition ACODEC_FMT_APE : Z := 20.
Definition ACODEC_FMT_EAC3 : Z := 21.
Definition ACODEC_FMT_TRUEHD : Z := 25.
Definition ACODEC_FMT_AC4 : Z := 29.

Definition is_dolby_format (audio_format : Z) : bool :=
  (audio_format =? ACODEC_FMT_AC3) || (audio_format =? ACODEC_FMT_EAC3)
  || (audio_format =? ACODEC_FMT_AC4) || (audio_format =? ACODEC_FMT_TRUEHD).

Definition AVCODEC_MAX_AUDIO_FRAME_SIZE : Z := 500 * 1024.

Definition SYNC_WORD_NOT_GET : Z := 0.
Definition SYNC_WORD_START_FIND : Z := 1.
Definition SYNC_WORD_FOUND : Z := 2.
Definition FRAME_SIZE_FOUND : Z := 3.

(** [char] is unsigned, as on ARM. *)
Record StartCode := mk_sc { sc_buff : list Z; sc_size : Z; sc_status : Z }.

(** The format of the stream, the fields of the decoder library that do not
    change, the configuration wfd and the flag of the instance. *)
Record arm_config := mk_cfg {
  cfg_format : Z;
  nInBufSize : Z;
  bps : Z;
  cfg_wfd : bool;
  use_sw_check_apts : Z
}.

(** What is outside: the answer to question [k].  [rd] is [read_buffer],
    the bytes it stored and reported; [decode] is the decoder library, the
    bytes it used and the PCM it made; [getinfo] gives channels and sample
    rate, [dec_pts] the position RAAC and COOK decoders report. *)
Class ArmEnv := {
  rd : nat → Z → list Z;
  decode : nat → list Z → Z * list Z;
  getinfo : nat → Z * Z;
  dec_pts : nat → Z
}.

Record arm_world := mk_aw {
  pk : pk_world;
  g_bst : buffer_stream_t;
  a_channels : Z;
  a_samplerate : Z;
  format_changed_flag : Z;
  exit_decode_thread : Z;
  exit_decode_thread_success : Z;
  start_code : StartCode;
  nDecodeErrCount : Z;
  decode_offset : Z;
  decode_pcm_offset : Z;
  out_len_after_last_valid_pts : Z;
  calls : nat;
  taken : list Z;
  eaten : list Z;
  kept : list Z;
  made : list Z;
  heard : list Z
}.

#[export] Instance arm_world_eta : Eta arm_world := λ r,
  mk_aw (pk r) (g_bst r) (a_channels r) (a_samplerate r) (format_changed_flag r)
    (exit_decode_thread r) (exit_decode_thread_success r) (start_code r) (nDecodeErrCount r)
    (decode_offset r) (decode_pcm_offset r) (out_len_after_last_valid_pts r) (calls r)
    (taken r) (eaten r) (kept r) (made r) (heard r).

Definition set_format (ch sr : Z) (bs : buffer_stream_t) : buffer_stream_t :=
  mk_bs (buf_length bs) (buf_level bs) (data bs) (rd_ptr bs) (wr_ptr bs) (bInited bs)
    (nMutex bs) (data_width bs) ch sr (format bs).

Section threads.
Context `{PkAlloc} `{ArmEnv} (c : arm_config).

Definition on_pk {A} (m : CM pk_world A) : CM arm_world A := λ w,
  match m (pk w) with Some (a, p) => Some (a, w <| pk := p |>) | None => None end.

Definition quitting : CM arm_world bool := cm_gets (λ w, negb (exit_decode_thread w =? 0)).

(** The next question and its number. *)
Definition question : CM arm_world nat := λ w, Some (calls w, w <| calls := S (calls w) |>).

Definition read_buffer (n : Z) : CM arm_world (list Z) := k ← question; mret (rd k n).

Definition free_if (a : Z) : CM arm_world unit :=
  if negb (a =? NULL) then on_pk (free_bytes a) else mret tt.

(** ** The frames of an APE stream *)

Definition set_sc (s : StartCode) : CM arm_world unit := cm_modify (λ w, w <| start_code := s |>).

(** Bytes read into [buff] from [off]; false when there were none. *)
Definition read_code (off n : Z) : CM arm_world bool :=
  bs ← read_buffer n;
  s ← cm_gets start_code;
  if zlen bs <=? 0 then mret false else
  b ← cm_lift (splice (sc_buff s) off bs);
  set_sc (mk_sc b 4 (sc_status s));;
  mret true.

Definition frame_size_found : CM arm_world Z :=
  ok ← read_code 0 4;
  if negb ok then mret 0 else
  s ← cm_gets start_code;
  b0 ← cm_lift (aget (sc_buff s) 0); b1 ← cm_lift (aget (sc_buff s) 1);
  b2 ← cm_lift (aget (sc_buff s) 2); b3 ← cm_lift (aget (sc_buff s) 3);
  let frame_size := i32 (Z.lor (Z.lor (Z.lor (Z.shiftl b3 24) (Z.shiftl b2 16)) (Z.shiftl b1 8))
                           (b0 + 8)) in
  set_sc (mk_sc (sc_buff s) 4 FRAME_SIZE_FOUND);;
  mret (i32 (Z.land (frame_size + 3) (Z.lnot 3))).

(** The four bytes are the sync word, or are shifted by one. *)
Definition sync_word : CM arm_world Z :=
  s ← cm_gets start_code;
  word ← cm_lift (slice (sc_buff s) 0 4);
  if bool_decide (word = [65; 80; 84; 83]) then
    set_sc (mk_sc (sc_buff s) 0 SYNC_WORD_FOUND);; frame_size_found
  else
    b ← cm_lift (splice (sc_buff s) 0 (drop 1 word));
    set_sc (mk_sc b 3 (sc_status s));;
    mret 0.

Definition get_frame_size : CM arm_world Z :=
  s ← cm_gets start_code;
  (if (sc_status s =? SYNC_WORD_NOT_GET) || (sc_status s =? FRAME_SIZE_FOUND)
   then set_sc (mk_sc (replicate 10 0) 0 0) else mret tt);;
  if negb (cfg_format c =? ACODEC_FMT_APE) then mret (-1) else
  s ← cm_gets start_code;
  if sc_status s =? SYNC_WORD_FOUND then frame_size_found else
  ok ← (if sc_status s =? SYNC_WORD_NOT_GET then
          ok ← read_code 0 4;
          (if ok : bool then
             s ← cm_gets start_code;
             set_sc (mk_sc (sc_buff s) (sc_size s) SYNC_WORD_START_FIND)
           else mret tt);;
          mret ok
        else if sc_size s <? 4 then read_code (sc_size s) (4 - sc_size s)
        else mret true);
  if ok : bool then sync_word else mret 0.

(** ** [audio_getpackage_loop]

    Where the thread is, with its local variables: at the top of the loop, in
    the loop that reads a package, in the loop that queues it, or ended. *)

Inductive gstate :=
| GTop (inbuf : Z)
| GRead (inbuf rlen nNextReadSize nReadSizePerTime : Z)
| GAdd (inbuf rlen : Z)
| GEnd.

Definition package_size (n : Z) : Z :=
  if n =? -1 then
    if is_dolby_format (cfg_format c) || (cfg_format c =? ACODEC_FMT_DTS) then 512 else nInBufSize c
  else n.

Definition g_top (inbuf : Z) : CM arm_world gstate :=
  q ← quitting;
  if q : bool then free_if inbuf;; on_pk package_list_free;; mret GEnd else
  n ← get_frame_size;
  if n =? 0 then mret (GTop inbuf) else
  let nInBufferSize := package_size n in
  free_if inbuf;;
  inbuf ← on_pk (alloc_bytes nInBufferSize);
  mret (if use_sw_check_apts c =? 0 then GRead inbuf 0 nInBufferSize 512 else GTop inbuf).

Definition g_read (inbuf rlen next per : Z) : CM arm_world gstate :=
  q ← quitting;
  if (next >? 0) && negb q then
    let per := if next <=? per then next else per in
    bs ← read_buffer per;
    if zlen bs <=? 0 then mret (GRead inbuf rlen next per) else
    on_pk (store_bytes inbuf rlen bs);;
    cm_modify (λ w, w <| taken := taken w ++ bs |>);;
    let rlen := rlen + zlen bs in
    mret (if cfg_wfd c && (cfg_format c =? ACODEC_FMT_AAC) && (rlen >? 300) then GAdd inbuf rlen
          else GRead inbuf rlen (next - zlen bs) per)
  else mret (GAdd inbuf rlen).

Definition g_add (inbuf rlen : Z) : CM arm_world gstate :=
  ret ← on_pk (package_add inbuf rlen 0);
  q ← quitting;
  if ret =? 0 then mret (GTop NULL)
  else if negb q then mret (GAdd inbuf rlen)
  else on_pk (free_bytes inbuf);; mret (GTop NULL).

Definition audio_getpackage_loop (g : gstate) : CM arm_world gstate :=
  match g with
  | GTop inbuf => g_top inbuf
  | GRead inbuf rlen next per => g_read inbuf rlen next per
  | GAdd inbuf rlen => g_add inbuf rlen
  | GEnd => mret GEnd
  end.

(** ** [audio_decode_loop]

    [outbuf] stands for the first [outlen] bytes of the output buffer. *)

Record dlocals := mk_dl {
  inbuf : Z;
  pRestData : Z;
  inlen : Z;
  needdata : Z;
  declen : Z;
  rlen : Z;
  dlen : Z;
  outbuf : list Z;
  latencys : Z
}.

#[export] Instance dlocals_eta : Eta dlocals := λ r,
  mk_dl (inbuf r) (pRestData r) (inlen r) (needdata r) (declen r) (rlen r) (dlen r) (outbuf r)
    (latencys r).

(** At the top, in the loop over one package, waiting in
    [check_audio_info_changed] for the buffer to drain to a level, behind it,
    in the loop that writes the PCM, or ended. *)
Inductive dpc :=
| DTop | DLoop | DInfo (channels samplerate BufLevelAllowDoFmtChg : Z) | DAfter | DWrite | DEnd.

(** COOK, RAAC and AMR decoders ask for more data. *)
Definition starving : bool :=
  (cfg_format c =? ACODEC_FMT_COOK) || (cfg_format c =? ACODEC_FMT_RAAC)
  || (cfg_format c =? ACODEC_FMT_AMR).
Definition passthrough : bool :=
  is_dolby_format (cfg_format c) || (cfg_format c =? ACODEC_FMT_DTS).
Definition is_aac : bool :=
  (cfg_format c =? ACODEC_FMT_AAC_LATM) || (cfg_format c =? ACODEC_FMT_AAC).

(** The package behind the rest of the last one, in one block. *)
Definition join_rest (l : dlocals) (x : package) : CM arm_world dlocals :=
  n ← cm_lift (int_ok (p_size x + inlen l));
  a ← on_pk (alloc_bytes n);
  rest ← on_pk (load_bytes (pRestData l) 0 (inlen l));
  on_pk (store_bytes a 0 rest);;
  new ← on_pk (load_bytes (p_data x) 0 (p_size x));
  on_pk (store_bytes a (inlen l) new);;
  on_pk (free_bytes (pRestData l));;
  on_pk (free_bytes (p_data x));;
  mret (l <| inbuf := a |> <| pRestData := NULL |> <| rlen := n |>).

Definition d_top (l : dlocals) : CM arm_world (dpc * dlocals) :=
  q ← quitting;
  if q : bool then
    free_if (inbuf l);;
    free_if (pRestData l);;
    cm_modify (λ w, w <| exit_decode_thread_success := 1 |>);;
    mret (DEnd, l <| inbuf := NULL |> <| pRestData := NULL |>)
  else
  p ← on_pk package_get;
  if p =? NULL then mret (DTop, l) else
  free_if (inbuf l);;
  x ← on_pk (get_package p);
  l ← (if negb (inlen l =? 0) && negb (pRestData l =? NULL) then join_rest l x
       else mret (l <| rlen := p_size x |> <| inbuf := p_data x |>));
  on_pk (free_package p);;
  let l := l <| inlen := rlen l |> <| declen := 0 |> <| latencys := 0 |> in
  mret (if rlen l >? 0 then (DLoop, l) else (DTop, l)).

(** [pRestData] takes what is left. *)
Definition save_rest (l : dlocals) : CM arm_world dlocals :=
  a ← on_pk (alloc_bytes (inlen l));
  (if negb (a =? NULL) then
     rest ← on_pk (load_bytes (inbuf l) (declen l) (inlen l));
     on_pk (store_bytes a 0 rest)
   else mret tt);;
  mret (l <| pRestData := a |>).

(** Up to the wait for the output to drain. *)
Definition check_audio_info_changed : CM arm_world dpc :=
  k ← question;
  w ← cm_get;
  let (ch, sr) := getinfo k in
  if negb (ch =? 0) && negb (sr =? 0)
     && (negb (ch =? channels (g_bst w)) || negb (sr =? samplerate (g_bst w))) then
    if (a_channels w =? 0) || (a_samplerate w =? 0) then
      cm_put (w <| g_bst := set_format ch sr (g_bst w) |> <| a_channels := ch |>
                <| a_samplerate := sr |>);;
      mret DAfter
    else
      x ← cm_lift (int_ok (a_samplerate w * a_channels w));
      x ← cm_lift (int_ok (x * Z.shiftr (bps c) 3));
      mret (DInfo ch sr (x /c 5))
  else mret DAfter.

(** The wait and what follows it; the pause of an active output is a
    request to the output. *)
Definition d_info (ch sr level : Z) : CM arm_world dpc :=
  w ← cm_get;
  if (negb (format_changed_flag w =? 0) || (u64 level <? buf_level (g_bst w)))
     && (exit_decode_thread w =? 0) then mret (DInfo ch sr level)
  else
    (if exit_decode_thread w =? 0 then
       cm_put (w <| g_bst := set_format ch sr (g_bst w) |> <| format_changed_flag := 1 |>)
     else mret tt);;
    mret DAfter.

Definition d_loop (l : dlocals) : CM arm_world (dpc * dlocals) :=
  q ← quitting;
  if (declen l <? rlen l) && negb q then
    if starving && (needdata l >? 0) then
      l ← save_rest l; mret (DTop, l <| needdata := 0 |>)
    else if passthrough then
      xs ← on_pk (load_bytes (inbuf l) 0 (inlen l));
      if AVCODEC_MAX_AUDIO_FRAME_SIZE <? inlen l then cm_fail else
      cm_modify (λ w, w <| made := made w ++ xs |>);;
      mret (DAfter, l <| dlen := inlen l |> <| outbuf := xs |>)
    else
      xs ← on_pk (load_bytes (inbuf l) (declen l) (inlen l));
      k ← question;
      let (dl, out) := decode k xs in
      cm_modify (λ w, w <| made := made w ++ out |>);;
      let l := l <| dlen := dl |> <| outbuf := out |> in
      if zlen out >? 0 then pc ← check_audio_info_changed; mret (pc, l) else mret (DAfter, l)
  else mret (DTop, l).

Definition add_latency (l : dlocals) : CM arm_world dlocals :=
  if (zlen (outbuf l) >? 0) && negb passthrough && negb (cfg_format c =? ACODEC_FMT_AAC_LATM) then
    w ← cm_get;
    let d := i32 (i32 (a_samplerate w * a_channels w) * 2) in
    if d =? 0 then cm_fail else
    mret (l <| latencys := i32 (latencys l + i32 (zlen (outbuf l) * 90000) /c d) |>)
  else mret l.

(** What was used and made is accounted for. *)
Definition d_account (l : dlocals) : CM arm_world (dpc * dlocals) :=
  if dlen l <=? 0 then
    l ← (if cfg_format c =? ACODEC_FMT_APE then mret (l <| inlen := 0 |>)
         else if inlen l >? 0 then save_rest l else mret l);
    cm_modify (λ w, w <| nDecodeErrCount := i32 (nDecodeErrCount w + 1) |>);;
    mret (DTop, l <| needdata := 0 |>)
  else
    used ← on_pk (load_bytes (inbuf l) (declen l) (dlen l));
    cm_modify (λ w, w <| nDecodeErrCount := 0 |> <| eaten := eaten w ++ used |>);;
    let l := l <| declen := declen l + dlen l |> <| inlen := inlen l - dlen l |> in
    let l := if starving && (inlen l <=? declen l) then l <| needdata := needdata l + 1 |> else l in
    if negb starving && is_aac && (zlen (outbuf l) =? 0) && negb (inlen l =? 0) then
      l ← save_rest l;
      cm_modify (λ w, w <| decode_offset := u64 (decode_offset w + dlen l) |>);;
      mret (DTop, l)
    else
      k ← question;
      cm_modify (λ w, w
        <| decode_offset := if (cfg_format c =? ACODEC_FMT_RAAC) || (cfg_format c =? ACODEC_FMT_COOK)
                            then dec_pts k else u64 (decode_offset w + dlen l) |>
        <| decode_pcm_offset := i64 (decode_pcm_offset w + zlen (outbuf l)) |>
        <| kept := kept w ++ outbuf l |>);;
      mret (DWrite, l).

(** After a call of the decoder. *)
Definition d_after (l : dlocals) : CM arm_world (dpc * dlocals) :=
  l ← add_latency l; d_account l.

(** [while (outlen && !exit_decode_thread)]: the comparison is unsigned. *)
Definition d_write (l : dlocals) : CM arm_world (dpc * dlocals) :=
  w ← cm_get;
  if negb (zlen (outbuf l) =? 0) && (exit_decode_thread w =? 0) then
    if u64 (buf_length (g_bst w) - buf_level (g_bst w)) <? zlen (outbuf l) then mret (DWrite, l)
    else
      match write_pcm_buffer (outbuf l) (zlen (outbuf l)) (g_bst w) with
      | Some (wlen, b) =>
          if wlen <? 0 then cm_fail else
          cm_put (w <| g_bst := b |>);;
          mret (DWrite, l <| outbuf := take (length (outbuf l) - Z.to_nat wlen) (outbuf l) |>)
      | None => cm_fail
      end
  else mret (DLoop, l).

Definition audio_decode_loop (pc : dpc) (l : dlocals) : CM arm_world (dpc * dlocals) :=
  match pc with
  | DTop => d_top l
  | DLoop => d_loop l
  | DInfo ch sr level => pc ← d_info ch sr level; mret (pc, l)
  | DAfter => d_after l
  | DWrite => d_write l
  | DEnd => mret (DEnd, l)
  end.

(** ** Schedules *)

(** The output takes PCM: [armdec_stream_read]. *)
Definition armdec_stream_read (size : Z) : CM arm_world Z :=
  w ← cm_get;
  match read_pcm_buffer size (g_bst w) with
  | Some ((r, bs), b) =>
      cm_put (w <| g_bst := b |> <| heard := heard w ++ bs |>
                <| out_len_after_last_valid_pts := i32 (out_len_after_last_valid_pts w + r) |>);;
      mret r
  | None => cm_fail
  end.

(** What [adec_reset_track] does to the shared fields. *)
Definition reset_track : CM arm_world unit :=
  cm_modify (λ w, if format_changed_flag w =? 0 then w else
    w <| a_channels := channels (g_bst w) |> <| a_samplerate := samplerate (g_bst w) |>
      <| format_changed_flag := 0 |>).

Inductive label := Fetch | Decode | ReadPcm (size : Z) | ResetTrack | Quit.

Record pstate := mk_ps { pg : gstate; pd : dpc; pl : dlocals }.

Definition pipe_step (x : label) (s : pstate) : CM arm_world pstate :=
  match x with
  | Fetch => g ← audio_getpackage_loop (pg s); mret (mk_ps g (pd s) (pl s))
  | Decode => '(pc, l) ← audio_decode_loop (pd s) (pl s); mret (mk_ps (pg s) pc l)
  | ReadPcm n => armdec_stream_read n;; mret s
  | ResetTrack => reset_track;; mret s
  | Quit => cm_modify (λ w, w <| exit_decode_thread := 1 |>);; mret s
  end.

Fixpoint pipe_run (xs : list label) (s : pstate) : CM arm_world pstate :=
  match xs with
  | [] => mret s
  | x :: xs => s ← pipe_step x s; pipe_run xs s
  end.

(** The package list is initialised before the threads start. *)
Definition pipe_start : pstate := mk_ps (GTop NULL) DTop (mk_dl NULL NULL 0 0 0 0 0 [] 0).

Definition pipeline (xs : list label) : CM arm_world pstate :=
  on_pk package_list_init;; pipe_run xs pipe_start.

End threads.

(** ** What the threads keep *)

(** A pointer that is NULL or owns a block. *)
Definition opt_block (a : Z) (o : list (Z * list Z)) : Prop :=
  (a = NULL ∧ o = []) ∨ (a ≠ NULL ∧ ∃ b, o = [(a, b)]).

(** The packages with their data, and the bytes they carry. *)
Definition carries (f : Z * Z * Z) (b : Z * list Z) : Prop :=
  f.1.1 = b.1 ∧ b.1 ≠ NULL ∧ 0 ≤ f.1.2 ≤ zlen b.2.
Definition cargo (f : Z * Z * Z) (b : Z * list Z) : list Z := take (Z.to_nat f.1.2) b.2.
Definition queued (fs : list (Z * Z * Z)) (bs : list (Z * list Z)) (xs : list Z) : Prop :=
  Forall2 carries fs bs ∧ xs = concat (zip_with cargo fs bs).

Lemma queued_snoc fs bs xs f b :
  queued fs bs xs → carries f b → queued (fs ++ [f]) (bs ++ [b]) (xs ++ cargo f b).
Proof.
  intros [Hf ->] Hb. split; [apply Forall2_app; [done|by constructor]|].
  rewrite zip_with_app by (by apply Forall2_length in Hf).
  rewrite concat_app. cbn. by rewrite app_nil_r.
Qed.

Lemma queued_owns q bs xs : queued (fields <$> q) bs xs → Forall2 owns q bs.
Proof.
  intros [Hf _]. rewrite Forall2_fmap_l in Hf. eapply Forall2_impl; [exact Hf|].
  intros x b (? & ? & _). by split.
Qed.

(** Channels and sample rate. *)
Definition in_range (ch sr : Z) : Prop := 0 ≤ ch ≤ 16 ∧ 0 ≤ sr ≤ 2 ^ 20.
Definition known (ch sr : Z) : Prop := ch ≠ 0 ∧ sr ≠ 0.

Section invariant.
Context `{PkAlloc} `{ArmEnv} (c : arm_config) (L : nat).

(** The decoder uses no more than it is given and fits the output buffer, and
    rates are rates. *)
Record env_ok : Prop := {
  ok_rd k n : 0 ≤ n → zlen (rd k n) ≤ n;
  ok_used k xs : (decode k xs).1 ≤ zlen xs;
  ok_out k xs : zlen (decode k xs).2 ≤ AVCODEC_MAX_AUDIO_FRAME_SIZE;
  ok_info k : in_range (getinfo k).1 (getinfo k).2
}.

Record cfg_ok : Prop := {
  ok_format : cfg_format c ≠ ACODEC_FMT_APE;
  ok_size : 0 < nInBufSize c < 2 ^ 31;
  ok_bps : 0 ≤ bps c ≤ 64
}.

Definition g_rep (g : gstate) (o : list (Z * list Z)) (xs : list Z) : Prop :=
  match g with
  | GTop a => opt_block a o ∧ xs = []
  | GRead a r n per => ∃ b, o = [(a, b)] ∧ a ≠ NULL ∧ 0 ≤ r ∧ 0 ≤ n ∧ r + n ≤ zlen b ∧
      0 < per ≤ 512 ∧ xs = take (Z.to_nat r) b ∧ (passthrough c → r + n ≤ 512)
  | GAdd a r => ∃ b, o = [(a, b)] ∧ a ≠ NULL ∧ 0 ≤ r ≤ zlen b ∧ xs = take (Z.to_nat r) b ∧
      (passthrough c → r ≤ 512)
  | GEnd => o = [] ∧ xs = []
  end.

(** Inside a package: [xs] is what the decoder has not used yet. *)
Record in_package (l : dlocals) (od orr : list (Z * list Z)) (xs : list Z) : Prop := {
  ip_block : ∃ b, od = [(inbuf l, b)] ∧ rlen l ≤ zlen b ∧
    xs = take (Z.to_nat (inlen l)) (drop (Z.to_nat (declen l)) b);
  ip_live : inbuf l ≠ NULL;
  ip_rest : pRestData l = NULL ∧ orr = [];
  ip_len : 0 ≤ declen l ∧ 0 ≤ inlen l ∧ declen l + inlen l = rlen l;
  ip_small : passthrough c → rlen l ≤ 512
}.

(** After a call of the decoder that used [dlen] bytes. *)
Definition after_call (l : dlocals) (od orr : list (Z * list Z)) (xs out : list Z) : Prop :=
  in_package l od orr xs ∧ out = [] ∧ 0 < inlen l ∧ dlen l ≤ inlen l ∧
  (passthrough c → dlen l = inlen l).

Definition d_rep (pc : dpc) (l : dlocals) (od orr : list (Z * list Z)) (xs out : list Z) : Prop :=
  match pc with
  | DTop => opt_block (inbuf l) od ∧ out = [] ∧
      (pRestData l = NULL ∧ orr = [] ∧ xs = [] ∨
       pRestData l ≠ NULL ∧ orr = [(pRestData l, xs)] ∧ zlen xs = inlen l ∧ 0 < inlen l ∧
         passthrough c = false)
  | DEnd => od = [] ∧ orr = [] ∧ xs = [] ∧ out = []
  | DLoop => in_package l od orr xs ∧ out = []
  | DInfo ch sr _ => after_call l od orr xs out ∧ in_range ch sr ∧ known ch sr
  | DAfter => after_call l od orr xs out
  | DWrite => in_package l od orr xs ∧ out = outbuf l
  end.

Definition busy (pc : dpc) : Prop :=
  match pc with DInfo _ _ _ | DAfter | DWrite => True | _ => False end.

Record view := mk_view {
  v_q : list (Z * package);
  v_bs : list (Z * list Z);
  v_g : list (Z * list Z);
  v_d : list (Z * list Z);
  v_r : list (Z * list Z);
  b_g : list Z;
  b_q : list Z;
  b_d : list Z;
  v_out : list Z;
  v_ring : list Z
}.

(** Channels and rate of the track and of the buffer are in range, and known
    or the same and the decoder knows them. *)
Definition rates_ok (w : arm_world) : Prop :=
  (in_range (a_channels w) (a_samplerate w) ∧ in_range (channels (g_bst w)) (samplerate (g_bst w))) ∧
  (known (a_channels w) (a_samplerate w) ∧ known (channels (g_bst w)) (samplerate (g_bst w)) ∨
   (a_channels w = channels (g_bst w) ∧ a_samplerate w = samplerate (g_bst w)) ∧
     ∀ k, known (getinfo k).1 (getinfo k).2).

(** They are known when the latency is computed. *)
Definition latent (pc : dpc) (l : dlocals) : Prop :=
  match pc with
  | DInfo _ _ _ => True
  | DAfter => outbuf l ≠ [] ∧ passthrough c = false
  | _ => False
  end.
Definition rates_inv (pc : dpc) (l : dlocals) (w : arm_world) : Prop :=
  rates_ok w ∧ (latent pc l → known (a_channels w) (a_samplerate w)).

(** The invariant of the two threads; [B] rounds of the reading thread were
    run. *)
Record pinv (B : Z) (s : pstate) (w : arm_world) (v : view) : Prop := {
  iv_list : list_rep (pk w) [] (v_q v);
  iv_heap : heap (blocks (pk w)) (v_g v ++ v_bs v ++ v_d v ++ v_r v);
  iv_g : g_rep (pg s) (v_g v) (b_g v);
  iv_gend : pg s = GEnd → v_q v = [];
  iv_q : queued (fields <$> v_q v) (v_bs v) (b_q v);
  iv_qsmall : passthrough c → Forall (λ f, f.1.2 ≤ 512) (fields <$> v_q v);
  iv_d : d_rep (pd s) (pl s) (v_d v) (v_r v) (b_d v) (v_out v);
  iv_ring : ring_rep (g_bst w) L (v_ring v);
  iv_taken : ∃ x, taken w = eaten w ++ b_d v ++ x ∧
    (exit_decode_thread w = 0 → x = b_q v ++ b_g v);
  iv_kept : ∃ y, kept w = heard w ++ v_ring v ++ v_out v ++ y ∧
    (exit_decode_thread w = 0 ∨ busy (pd s) → y = []);
  iv_rates : rates_inv (pd s) (pl s) w;
  iv_budget : zlen (taken w) ≤ 512 * B
}.

Lemma rates_same pc l w pc' l' w' :
  rates_inv pc l w → a_channels w' = a_channels w → a_samplerate w' = a_samplerate w →
  channels (g_bst w') = channels (g_bst w) → samplerate (g_bst w') = samplerate (g_bst w) →
  (latent pc' l' → latent pc l) → rates_inv pc' l' w'.
Proof. unfold rates_inv, rates_ok. intros [Hr Hk] -> -> -> -> Hl. auto. Qed.

(** ** The steps of the reading thread *)

Lemma on_pk_ok {A} (m : CM pk_world A) w a p :
  m (pk w) = Some (a, p) → on_pk m w = Some (a, w <| pk := p |>).
Proof. unfold on_pk. by intros ->. Qed.

Lemma get_frame_size_other w :
  cfg_format c ≠ ACODEC_FMT_APE →
  ∃ sc, get_frame_size c w = Some (-1, w <| start_code := sc |>).
Proof.
  intros Hf%Z.eqb_neq. unfold get_frame_size, cm_gets, set_sc, cm_modify, mbind, cm_bind.
  exists (if (sc_status (start_code w) =? SYNC_WORD_NOT_GET)
             || (sc_status (start_code w) =? FRAME_SIZE_FOUND)
          then mk_sc (replicate 10 0) 0 0 else start_code w).
  destruct (_ || _); cbn; rewrite Hf; [done|]. by destruct w.
Qed.

Lemma package_size_ok : cfg_ok → 0 < package_size c (-1) < 2 ^ 31 ∧
  (passthrough c → package_size c (-1) ≤ 512).
Proof.
  intros [_ ? _]. unfold package_size, passthrough. cbn.
  destruct (_ || _); cbn; [lia|]. split; [lia|done].
Qed.

(** The next step of a computation has a known result. *)
Ltac bind_with E := erewrite cm_bind_some; [|exact E]; cbv beta.

Lemma on_pk_at {A} (m : CM pk_world A) w p0 a p :
  m p0 = Some (a, p) → pk w = p0 → on_pk m w = Some (a, w <| pk := p |>).
Proof. intros E <-. by apply on_pk_ok. Qed.
Ltac pk_with E :=
  erewrite cm_bind_some; [|apply (on_pk_at _ _ _ _ _ E); reflexivity]; cbv beta.

Lemma free_if_sim w a o l held q :
  opt_block a o → heap (blocks (pk w)) (o ++ l) → list_rep (pk w) held q →
  ∃ p, free_if a w = Some (tt, w <| pk := p |>) ∧ heap (blocks p) l ∧ list_rep p held q.
Proof.
  intros [[-> ->]|[Ha (b & ->)]] Hh Hr; unfold free_if.
  - exists (pk w). split; [by destruct w|done].
  - destruct (release_sim (pk w) a b l held q Hh Ha Hr) as (p & E & ? & ?).
    rewrite (proj2 (Z.eqb_neq a NULL)) by done. exists p. split; [|done]. by apply on_pk_ok.
Qed.

Lemma quitting_eq w : quitting w = Some (negb (exit_decode_thread w =? 0), w).
Proof. done. Qed.

Lemma g_top_quit B s w v a :
  pinv B s w v → pg s = GTop a → exit_decode_thread w ≠ 0 →
  ∃ w' v', g_top c a w = Some (GEnd, w') ∧ pinv (B + 1) (mk_ps GEnd (pd s) (pl s)) w' v' ∧
    exit_decode_thread w' = exit_decode_thread w.
Proof.
  intros [Hl Hh Hg _ Hq Hs Hd Hrg Ht Hm Hra Hb] Es He%Z.eqb_neq. rewrite Es in Hg. destruct Hg as [Hg Hbg].
  destruct (free_if_sim w a _ _ _ _ Hg Hh Hl) as (p & E1 & Hh1 & Hl1).
  destruct (free_sim p _ _ _ Hl1 (queued_owns _ _ _ Hq) Hh1) as (p2 & E2 & Hl2 & Hh2).
  eexists _, (mk_view [] [] [] (v_d v) (v_r v) [] [] (b_d v) (v_out v) (v_ring v)).
  unfold g_top. bind_with (quitting_eq w). rewrite He. cbn [negb].
  bind_with E1. pk_with E2.
  split; [reflexivity|]. split; [|done]. split; cbn; try done.
  - destruct Ht as (x & ? & _). exists x. split; [done|]. apply Z.eqb_neq in He. done.
  - lia.
Qed.

Lemma g_top_next B s w v a :
  pk_roomy → cfg_ok → pinv B s w v → pg s = GTop a → exit_decode_thread w = 0 →
  ∃ g' w' v', g_top c a w = Some (g', w') ∧ pinv (B + 1) (mk_ps g' (pd s) (pl s)) w' v' ∧
    exit_decode_thread w' = exit_decode_thread w.
Proof.
  intros Hroom Hc [Hl Hh Hg Hge Hq Hs Hd Hrg Ht Hm Hra Hb] Es He%Z.eqb_eq. rewrite Es in *.
  destruct Hg as [Hg Hbg]. destruct (package_size_ok Hc) as [HN HN2].
  destruct (get_frame_size_other w (ok_format Hc)) as (sc & E0).
  pose (w1 := w <| start_code := sc |>).
  destruct (free_if_sim w1 a _ _ _ _ Hg Hh Hl) as (p & E1 & Hh1 & Hl1).
  destruct (alloc_sim p (package_size c (-1)) _ _ _ Hroom (proj1 HN) Hh1 Hl1)
    as (a' & p2 & E2 & Ha' & Hh2 & Hl2).
  unfold g_top. bind_with (quitting_eq w). rewrite He. cbn [negb].
  bind_with E0. change (-1 =? 0) with false. cbv zeta iota. bind_with E1.
  pk_with E2.
  remember (package_size c (-1)) as N eqn:EN. clear EN.
  set (b := replicate _ 0) in Hh2.
  eexists _, _, (mk_view (v_q v) (v_bs v) [(a', b)] (v_d v) (v_r v) [] (b_q v) (b_d v) (v_out v) (v_ring v)).
  split; [reflexivity|]. split; [|done]. split; cbn; try done.
  - destruct (use_sw_check_apts c =? 0); cbn; [|split; [right; by eauto|done]].
    exists b. split_and!; try done; try lia.
    unfold zlen, b. rewrite length_replicate. lia.
  - by destruct (use_sw_check_apts c =? 0).
  - by rewrite <- Hbg.
  - lia.
Qed.

Lemma g_read_inv B s w v a r n per :
  env_ok → pinv B s w v → pg s = GRead a r n per →
  ∃ g' w' v', g_read c a r n per w = Some (g', w') ∧ pinv (B + 1) (mk_ps g' (pd s) (pl s)) w' v' ∧
    exit_decode_thread w' = exit_decode_thread w.
Proof.
  intros He [Hl Hh Hg Hge Hq Hs Hd Hrg Ht Hm Hra Hb] Es. rewrite Es in *.
  destruct Hg as (b & Eg & Ha & Hr & Hn & Hrn & Hper & Hbg & Hsm). rewrite Eg in Hh.
  unfold g_read. bind_with (quitting_eq w). rewrite Z.gtb_ltb.
  destruct ((0 <? n) && negb (negb (exit_decode_thread w =? 0))) eqn:Eq; last first.
  { eexists _, _, v. split; [reflexivity|]. split; [|done]. split; cbn; try done.
    - by rewrite Eg.
    - exists b. split_and!; try done; try lia. intros Hp%Hsm. lia.
    - lia. }
  apply andb_true_iff in Eq as [Hn0%Z.ltb_lt Hq0]. rewrite negb_involutive in Hq0. apply Z.eqb_eq in Hq0.
  set (per' := if n <=? per then n else per).
  assert (0 < per' ≤ n ∧ per' ≤ per) as Hp' by (unfold per'; zcase; lia).
  cbv zeta. fold per'. unfold read_buffer at 1.
  pose (bs := rd (calls w) per'). pose (w1 := w <| calls := S (calls w) |>).
  bind_with (eq_refl : (k ← question; mret (rd k per')) w = Some (bs, w1)).
  assert (zlen bs ≤ per') as Hbs by (apply (ok_rd He); lia).
  destruct (Z.leb_spec (zlen bs) 0).
  { eexists _, _, v. split; [reflexivity|]. split; [|done]. split; cbn; try done.
    - by rewrite Eg.
    - exists b. by split_and!; try done; try lia.
    - lia. }
  destruct (splice b r bs) as [b'|] eqn:Esp; [|rewrite splice_some in Esp by lia; done].
  destruct (store_sim (pk w) a b _ r bs b' _ _ Hh Esp Hl) as (p & E & Hh' & Hl').
  pk_with E. rewrite cm_modify_bind.
  pose proof (splice_length _ _ _ _ Esp) as Hlen. pose proof (take_splice _ _ _ _ (Z.to_nat (r + zlen bs)) Esp ltac:(unfold zlen; lia)) as Htk.
  eexists _, _, (mk_view (v_q v) (v_bs v) [(a, b')] (v_d v) (v_r v) (b_g v ++ bs) (b_q v) (b_d v)
    (v_out v) (v_ring v)).
  split; [reflexivity|]. split; [|done]. unfold zlen in Hlen, Hrn. split; cbn; try done.
  - rewrite Hbg. destruct (_ && _); exists b'; unfold zlen in *.
    + split_and!; try done; try lia. intros Hp%Hsm. lia.
    + split_and!; try done; try lia. intros Hp%Hsm. lia.
  - by destruct (_ && _).
  - destruct Ht as (x & -> & Hx). exists (x ++ bs). rewrite (Hx Hq0), <- !app_assoc. done.
  - rewrite zlen_app. lia.
Qed.

Lemma g_add_inv B s w v a r :
  pk_roomy → pinv B s w v → pg s = GAdd a r →
  ∃ g' w' v', g_add a r w = Some (g', w') ∧ pinv (B + 1) (mk_ps g' (pd s) (pl s)) w' v' ∧
    exit_decode_thread w' = exit_decode_thread w.
Proof.
  intros Hroom [Hl Hh Hg Hge Hq Hs Hd Hrg Ht Hm Hra Hb] Es. rewrite Es in *.
  destruct Hg as (b & Eg & Ha & Hr & Hbg & Hsm). rewrite Eg in Hh. unfold g_add.
  destruct (decide (length (v_q v) = 8%nat)) as [H8|H8].
  - pk_with (add_full (pk w) [] (v_q v) a r 0 Hl H8).
    pose (w1 := w <| pk := pk w |>). bind_with (quitting_eq w1). change (-2 =? 0) with false. cbv iota.
    change (exit_decode_thread w1) with (exit_decode_thread w).
    destruct (Z.eqb_spec (exit_decode_thread w) 0) as [E0|E0]; cbn [negb].
    + eexists _, _, v. split; [reflexivity|]. split; [|done].
      split; cbn; try done; [by rewrite Eg|by exists b|lia].
    + destruct (release_sim (pk w) a b _ _ _ Hh Ha Hl) as (p & E & Hh' & Hl').
      pk_with E.
      eexists _, _, (mk_view (v_q v) (v_bs v) [] (v_d v) (v_r v) [] (b_q v) (b_d v) (v_out v) (v_ring v)).
      split; [reflexivity|]. split; [|done]. split; cbn; try done.
      * split; [by left|done].
      * destruct Ht as (x & ? & _). by exists x.
      * lia.
  - destruct (add_sim (pk w) [] (v_q v) a r 0 Hroom Hl) as (p & q' & E & Hl' & Hbl & Ef).
    { pose proof (lr_max _ _ _ Hl). lia. }
    pk_with E. pose (w1 := w <| pk := p |>). bind_with (quitting_eq w1). cbv iota.
    pose proof (queued_snoc _ _ _ (a, r, 0) (a, b) Hq (conj eq_refl (conj Ha Hr))) as Hq'.
    eexists _, _, (mk_view q' (v_bs v ++ [(a, b)]) [] (v_d v) (v_r v) [] (b_q v ++ b_g v) (b_d v)
      (v_out v) (v_ring v)).
    split; [reflexivity|]. split; [|done]. split; cbn; try done.
    + rewrite Hbl. eapply heap_perm; [exact Hh|]. rewrite <- app_assoc.
      apply (Permutation_middle (v_bs v) (v_d v ++ v_r v) (a, b)).
    + split; [by left|done].
    + rewrite Ef, Hbg. exact Hq'.
    + intros Hp. rewrite Ef. apply Forall_app. split; [by apply Hs|]. constructor; [by apply Hsm|done].
    + destruct Ht as (x & ? & Hx). exists x. rewrite app_nil_r. done.
    + lia.
Qed.

Lemma fetch_inv B s w v :
  pk_roomy → env_ok → cfg_ok → pinv B s w v →
  ∃ s' w' v', pipe_step c Fetch s w = Some (s', w') ∧ pinv (B + 1) s' w' v' ∧
    exit_decode_thread w' = exit_decode_thread w.
Proof.
  intros Hroom He Hc Hi. cbn [pipe_step].
  assert (∃ g' w' v', audio_getpackage_loop c (pg s) w = Some (g', w') ∧
    pinv (B + 1) (mk_ps g' (pd s) (pl s)) w' v' ∧ exit_decode_thread w' = exit_decode_thread w)
    as (g' & w' & v' & E & Hi' & Hx).
  { destruct (pg s) as [a|a r n per|a r|] eqn:Es; cbn [audio_getpackage_loop].
    - destruct (decide (exit_decode_thread w = 0)); [by eapply g_top_next|].
      destruct (g_top_quit B s w v a Hi Es) as (w' & v' & ? & ? & ?); [done|]. by eexists _, _, _.
    - by eapply g_read_inv.
    - by eapply g_add_inv.
    - exists GEnd, w, v. split; [done|]. split; [|done]. destruct Hi. rewrite Es in *.
      split; try done. lia. }
  eexists _, _, _. split; [by bind_with E|done].
Qed.

(** ** The steps of the decoding thread *)

Lemma heap_rot {A} (m : gmap Z A) a b d r : heap m (a ++ b ++ d ++ r) ↔ heap m (d ++ r ++ a ++ b).
Proof.
  assert (a ++ b ++ d ++ r ≡ₚ d ++ r ++ a ++ b) as E.
  { rewrite (app_assoc a b), (app_assoc d r). apply Permutation_app_comm. }
  split; intros Hh; (eapply heap_perm; [exact Hh|]); by rewrite E.
Qed.

Lemma splice_first (xs : list Z) n :
  zlen xs ≤ n →
  splice (replicate (Z.to_nat n) 0) 0 xs = Some (xs ++ replicate (Z.to_nat (n - zlen xs)) 0).
Proof.
  intros Hn. pose proof (zlen_nonneg xs). unfold zlen in *.
  rewrite splice_some by (unfold zlen; rewrite ?length_replicate; lia).
  rewrite drop_replicate. change (Z.to_nat 0) with 0%nat. rewrite take_0, Nat.add_0_l. cbn.
  by replace (Z.to_nat n - length xs)%nat with (Z.to_nat (n - Z.of_nat (length xs))) by lia.
Qed.

Lemma splice_second (xs ys : list Z) :
  splice (xs ++ replicate (length ys) 0) (zlen xs) ys = Some (xs ++ ys).
Proof.
  rewrite splice_some by (unfold zlen; rewrite ?length_app, ?length_replicate; lia).
  unfold zlen. rewrite Nat2Z.id, take_app_length, drop_ge, app_nil_r; [done|].
  rewrite length_app, length_replicate. lia.
Qed.

Lemma join_rest_sim w l x rest b0 rs held q :
  pk_roomy → heap (blocks (pk w)) ((pRestData l, rest) :: (p_data x, b0) :: rs) →
  list_rep (pk w) held q → pRestData l ≠ NULL → p_data x ≠ NULL →
  zlen rest = inlen l → 0 < inlen l → 0 ≤ p_size x ≤ zlen b0 → p_size x + inlen l < 2 ^ 31 →
  ∃ a p, join_rest l x w = Some (l <| inbuf := a |> <| pRestData := NULL |>
      <| rlen := p_size x + inlen l |>, w <| pk := p |>) ∧ a ≠ NULL ∧
    heap (blocks p) ((a, rest ++ take (Z.to_nat (p_size x)) b0) :: rs) ∧ list_rep p held q.
Proof.
  intros Hroom Hh Hl Hr Hd Hrest Hpos Hs Hn. unfold join_rest.
  rewrite (bind_lift _ _ _ _ (int_ok_some (p_size x + inlen l) ltac:(unfold INT_MIN, INT_MAX; lia))).
  destruct (alloc_sim (pk w) (p_size x + inlen l) _ _ _ Hroom ltac:(lia) Hh Hl)
    as (a & p1 & E1 & Ha & Hh1 & Hl1). pk_with E1.
  set (new := take (Z.to_nat (p_size x)) b0). set (blk := replicate _ 0) in Hh1.
  assert (zlen new = p_size x) as Hnew by (unfold new, zlen in *; rewrite length_take; lia).
  assert (heap (blocks p1) ((pRestData l, rest) :: (a, blk) :: (p_data x, b0) :: rs)) as Hh1'
    by (eapply heap_perm; [exact Hh1|apply perm_swap]).
  assert (slice rest 0 (inlen l) = Some rest) as S1.
  { rewrite slice_some, take_0_drop by lia. by rewrite take_ge by (unfold zlen in *; lia). }
  pk_with (load_sim p1 _ _ _ 0 (inlen l) _ Hh1' S1).
  assert (splice blk 0 rest = Some (rest ++ replicate (length new) 0)) as S2.
  { unfold blk. rewrite splice_first by lia. 
    by replace (Z.to_nat (p_size x + inlen l - zlen rest)) with (length new) by (unfold zlen in *; lia). }
  destruct (store_sim p1 a blk _ 0 rest _ _ _ Hh1 S2 Hl1) as (p2 & E2 & Hh2 & Hl2). pk_with E2.
  assert (slice b0 0 (p_size x) = Some new) as S3 by (rewrite slice_some by lia; done).
  eassert (heap (blocks p2) ((p_data x, b0) :: _)) as Hh2'.
  { eapply heap_perm; [exact Hh2|].
    symmetry. apply (Permutation_middle [_; _] rs (p_data x, b0)). }
  pk_with (load_sim p2 _ _ _ 0 (p_size x) _ Hh2' S3).
  assert (splice (rest ++ replicate (length new) 0) (inlen l) new = Some (rest ++ new)) as S4
    by (rewrite <- Hrest; apply splice_second).
  destruct (store_sim p2 a _ _ (inlen l) new _ _ _ Hh2 S4 Hl2) as (p3 & E3 & Hh3 & Hl3). pk_with E3.
  eassert (heap (blocks p3) ((pRestData l, rest) :: _)) as Hh3'
    by (eapply heap_perm; [exact Hh3|apply perm_swap]).
  destruct (release_sim p3 _ _ _ _ _ Hh3' Hr Hl3) as (p4 & E4 & Hh4 & Hl4). pk_with E4.
  eassert (heap (blocks p4) ((p_data x, b0) :: _)) as Hh4'
    by (eapply heap_perm; [exact Hh4|apply perm_swap]).
  destruct (release_sim p4 _ _ _ _ _ Hh4' Hd Hl4) as (p5 & E5 & Hh5 & Hl5). pk_with E5.
  by exists a, p5.
Qed.

Lemma d_top_quit B s w v :
  pinv B s w v → pd s = DTop → exit_decode_thread w ≠ 0 →
  ∃ l' w' v', d_top (pl s) w = Some ((DEnd, l'), w') ∧ pinv B (mk_ps (pg s) DEnd l') w' v' ∧
    exit_decode_thread w' = exit_decode_thread w.
Proof.
  intros [Hl Hh Hg Hge Hq Hs Hd Hrg Ht Hm Hra Hb] Es He%Z.eqb_neq. rewrite Es in Hd.
  destruct Hd as (Hin & Hout & Hrest). apply heap_rot in Hh.
  destruct (free_if_sim w _ _ _ _ _ Hin Hh Hl) as (p & E1 & Hh1 & Hl1).
  assert (opt_block (pRestData (pl s)) (v_r v)) as Hor.
  { destruct Hrest as [(? & ? & _)|(? & ? & _)]; [by left|right; by eauto]. }
  pose (w1 := w <| pk := p |>).
  destruct (free_if_sim w1 _ _ _ _ _ Hor Hh1 Hl1) as (p2 & E2 & Hh2 & Hl2).
  unfold d_top. bind_with (quitting_eq w). rewrite He. cbn [negb].
  bind_with E1. bind_with E2. rewrite cm_modify_bind.
  eexists _, _, (mk_view (v_q v) (v_bs v) (v_g v) [] [] (b_g v) (b_q v) [] [] (v_ring v)).
  apply Z.eqb_neq in He.
  split; [reflexivity|]. split; [|done]. split; cbn; try done.
  - by rewrite app_nil_r.
  - destruct Ht as (x & ? & _). by exists (b_d v ++ x).
  - destruct Hm as (y & ? & _). exists (v_out v ++ y). split; [done|]. by intros [?|?].
  - by apply (rates_same _ _ _ _ _ _ Hra).
Qed.

(** Taking the first package of a queue. *)
Lemma queued_cons x q bs xs :
  queued (fields <$> x :: q) bs xs →
  ∃ b bs' ys, bs = b :: bs' ∧ p_data x.2 = b.1 ∧ b.1 ≠ NULL ∧ 0 ≤ p_size x.2 ≤ zlen b.2 ∧
    xs = take (Z.to_nat (p_size x.2)) b.2 ++ ys ∧ queued (fields <$> q) bs' ys.
Proof.
  intros [Hf ->]. rewrite fmap_cons in Hf.
  apply Forall2_cons_inv_l in Hf as (b & bs' & (H1 & H2 & H3) & Hf & ->).
  exists b, bs', (concat (zip_with cargo (fields <$> q) bs')). by split_and!; try done; cbn in *; lia.
Qed.

(** The block the package becomes, behind the rest of the last one. *)
Lemma fill_inbuf w l x b0 orr rs held q xs :
  pk_roomy → heap (blocks (pk w)) (orr ++ b0 :: rs) → list_rep (pk w) held q →
  p_data x = b0.1 → b0.1 ≠ NULL → 0 ≤ p_size x ≤ zlen b0.2 →
  (pRestData l = NULL ∧ orr = [] ∧ xs = [] ∨
   pRestData l ≠ NULL ∧ orr = [(pRestData l, xs)] ∧ zlen xs = inlen l ∧ 0 < inlen l ∧
     passthrough c = false) →
  p_size x + zlen xs < 2 ^ 31 →
  ∃ l' p b, (if negb (inlen l =? 0) && negb (pRestData l =? NULL) then join_rest l x
     else mret (l <| rlen := p_size x |> <| inbuf := p_data x |>)) w = Some (l', w <| pk := p |>) ∧
    heap (blocks p) ((inbuf l', b) :: rs) ∧ list_rep p held q ∧ inbuf l' ≠ NULL ∧
    pRestData l' = NULL ∧ rlen l' = p_size x + zlen xs ∧ rlen l' ≤ zlen b ∧
    take (Z.to_nat (rlen l')) b = xs ++ take (Z.to_nat (p_size x)) b0.2.
Proof.
  intros Hroom Hh Hl Hd Hn Hs Hrest Hlen. destruct b0 as [a0 b0]. cbn in *.
  destruct Hrest as [(Hr & -> & ->)|(Hr & -> & Hx & Hpos & _)].
  - rewrite Hr, andb_false_r. eexists _, (pk w), b0. split; [by destruct w|].
    cbn in *. rewrite Hd. unfold zlen in *. cbn. by split_and!; try done; try lia.
  - rewrite (proj2 (Z.eqb_neq (inlen l) 0)), (proj2 (Z.eqb_neq _ NULL)) by (done || lia). cbn [negb andb].
    destruct (join_rest_sim w l x xs b0 rs held q) as (a & p & E & Ha & Hh' & Hl');
      try done; try congruence; try lia.
    { by rewrite Hd. }
    eexists _, p, _. split; [exact E|]. cbn. split_and!; try done; try lia.
    + unfold zlen in *. rewrite length_app, length_take. lia.
    + apply take_ge. unfold zlen in *. rewrite length_app, length_take. lia.
Qed.

(** The locals after a package was taken. *)
Lemma in_new_package l b :
  inbuf l ≠ NULL → pRestData l = NULL → 0 ≤ rlen l → rlen l ≤ zlen b →
  (passthrough c → rlen l ≤ 512) →
  d_rep (if rlen l >? 0 then DLoop else DTop) (l <| inlen := rlen l |> <| declen := 0 |> <| latencys := 0 |>)
    [(inbuf l, b)] [] (take (Z.to_nat (rlen l)) b) [].
Proof.
  intros Hin Hr H0' Hb Hs. rewrite Z.gtb_ltb. destruct (Z.ltb_spec 0 (rlen l)); cbn.
  - split; [|done]. split; cbn; try done. exists b. by rewrite drop_0.
  - split; [right; by eauto|]. split; [done|]. left. split_and!; try done.
    by replace (Z.to_nat (rlen l)) with 0%nat by lia.
Qed.

Lemma small_package x q l orr (xs : list Z) :
  (passthrough c → Forall (λ f, f.1.2 ≤ 512) (fields <$> x :: q)) →
  (pRestData l = NULL ∧ orr = [] ∧ xs = [] ∨
   pRestData l ≠ NULL ∧ orr = [(pRestData l, xs)] ∧ zlen xs = inlen l ∧ 0 < inlen l ∧
     passthrough c = false) →
  passthrough c → p_size x.2 + zlen xs ≤ 512.
Proof.
  intros Hs Hrest Hp. pose proof (Hs Hp) as [Hx512 _]%Forall_cons. cbn in Hx512.
  destruct Hrest as [(_ & _ & ->)|(_ & _ & _ & _ & Hf)]; [|by rewrite Hf in Hp].
  unfold zlen. cbn. lia.
Qed.

Lemma d_top_get B s w v :
  pk_roomy → pinv B s w v → 512 * B < 2 ^ 31 → pd s = DTop → exit_decode_thread w = 0 →
  ∃ pc l' w' v', d_top (pl s) w = Some ((pc, l'), w') ∧ pinv B (mk_ps (pg s) pc l') w' v' ∧
    exit_decode_thread w' = exit_decode_thread w.
Proof.
  intros Hroom Hi HB Es He. pose proof Hi as [Hl Hh Hg Hge Hq Hs Hd Hrg Ht Hm Hra Hb]. rewrite Es in Hd.
  destruct Hd as (Hin & Hout & Hrest). unfold d_top. bind_with (quitting_eq w).
  rewrite (proj2 (Z.eqb_eq _ _) He). cbn [negb].
  destruct (v_q v) as [|x q] eqn:Eq.
  { pk_with (get_empty (pk w) [] Hl). cbn. eexists _, _, _, v. split; [reflexivity|]. split; [|done].
    destruct Hi. split; cbn; try done. all: by rewrite Es in *. }
  destruct (get_sim (pk w) [] x q Hl) as (p & E1 & Hl1 & Hbl & Hpk). pk_with E1.
  destruct (queued_cons _ _ _ _ Hq) as (b0 & bs' & ys & Ebs & Hdat & Hnn & Hsz & Ebq & Hq').
  pose proof (lr_live _ _ _ Hl) as [Hx1%Z.eqb_neq _]%Forall_cons. rewrite Hx1.
  apply heap_rot in Hh. rewrite Ebs in Hh. rewrite <- Hbl in Hh. pose (w1 := w <| pk := p |>).
  destruct (free_if_sim w1 _ _ _ _ _ Hin Hh Hl1) as (p2 & E2 & Hh2 & Hl2). bind_with E2.
  assert (heap (blocks p2) (v_r v ++ b0 :: (v_g v ++ bs'))) as Hh2'.
  { eapply heap_perm; [exact Hh2|]. apply Permutation_app_head. symmetry. apply Permutation_middle. }
  assert (packages p2 !! x.1 = Some x.2) as Hx2.
  { pose proof (lr_heap _ _ _ Hl2) as Hph2. destruct x. by apply (heap_lookup _ _ _ _ Hph2). }
  assert (get_package x.1 p2 = Some (x.2, p2)) as E3 by (unfold get_package; by rewrite Hx2).
  pk_with E3. destruct Ht as (z & Htk & Hz). rewrite (Hz He), Ebq, <- app_assoc in Htk.
  assert (p_size x.2 + zlen (b_d v) < 2 ^ 31) as Hlen.
  { apply (f_equal zlen) in Htk. rewrite !zlen_app in Htk. unfold zlen in *.
    rewrite length_take in Htk. lia. }
  pose (w2 := w1 <| pk := p2 |>).
  destruct (fill_inbuf w2 (pl s) x.2 b0 _ _ _ _ _ Hroom Hh2' Hl2 Hdat Hnn Hsz Hrest Hlen)
    as (l' & p3 & b & E4 & Hh3 & Hl3 & Hin' & Hr' & Hrl & Hrb & Htake). bind_with E4.
  destruct (free_package_sim p3 [] x q _ Hl3 Hh3) as (p4 & E5 & Hl4 & Hh4 & Hbl4). pk_with E5.
  assert (0 ≤ rlen l') as Hr0 by (pose proof (zlen_nonneg (b_d v)); lia).
  assert (passthrough c → rlen l' ≤ 512) as Hsm by (rewrite Hrl; by eapply small_package).
  pose (v' := mk_view q bs' (v_g v) [(inbuf l', b)] [] (b_g v) ys (take (Z.to_nat (rlen l')) b) [] (v_ring v)).
  pose proof (in_new_package l' b Hin' Hr' Hr0 Hrb Hsm) as Hd'.
  change (rlen (l' <| inlen := rlen l' |> <| declen := 0 |> <| latencys := 0 |>)) with (rlen l').
  exists (if rlen l' >? 0 then DLoop else DTop), (l' <| inlen := rlen l' |> <| declen := 0 |> <| latencys := 0 |>).
  eexists _, v'. split; [destruct (rlen l' >? 0); reflexivity|]. split; [|done]. split; cbn; try done.
  - exact (proj2 (heap_rot (blocks p4) (v_g v) bs' [(inbuf l', b)] []) Hh4).
  - intros Hge'. by apply Hge in Hge'.
  - intros Hp. by apply Hs in Hp as [_ ?]%Forall_cons.
  - exists (ys ++ b_g v). split; [|done]. by rewrite Htake, <- !app_assoc.
  - destruct Hm as (y & Hy & Hy0). rewrite Hout in Hy. exists y. split; [done|]. auto.
  - apply (rates_same _ _ _ _ _ _ Hra); try done. by destruct (rlen l' >? 0).
Qed.

Lemma save_rest_sim w l orr xs b rs held q :
  pk_roomy → in_package l [(inbuf l, b)] orr xs → 0 < inlen l →
  heap (blocks (pk w)) ((inbuf l, b) :: rs) → list_rep (pk w) held q →
  ∃ a p, save_rest l w = Some (l <| pRestData := a |>, w <| pk := p |>) ∧ a ≠ NULL ∧
    heap (blocks p) ((inbuf l, b) :: (a, xs) :: rs) ∧ list_rep p held q ∧ zlen xs = inlen l.
Proof.
  intros Hroom [(b' & [= <-] & Hb & ->) _ _ (Hd0 & _ & Hlen) _] Hpos Hh Hl. unfold save_rest.
  destruct (alloc_sim (pk w) (inlen l) _ _ _ Hroom Hpos Hh Hl) as (a & p & E & Ha & Hh1 & Hl1). pk_with E.
  set (xs := take (Z.to_nat (inlen l)) (drop (Z.to_nat (declen l)) b)).
  assert (zlen xs = inlen l) as Hx by (unfold xs, zlen in *; rewrite length_take, length_drop; lia).
  rewrite (proj2 (Z.eqb_neq _ NULL)) by done. cbn [negb].
  eassert (heap (blocks p) ((inbuf l, b) :: _)) as Hh1' by (eapply heap_perm; [exact Hh1|apply perm_swap]).
  assert (slice b (declen l) (inlen l) = Some xs) as S1 by (apply slice_some; lia).
  assert (splice (replicate (Z.to_nat (inlen l)) 0) 0 xs = Some xs) as S2.
  { rewrite splice_first by lia. rewrite Hx, Z.sub_diag. cbn. by rewrite app_nil_r. }
  destruct (store_sim p a _ _ 0 xs _ _ _ Hh1 S2 Hl1) as (p2 & E2 & Hh2 & Hl2).
  erewrite cm_bind_some; [|pk_with (load_sim p _ _ _ _ _ _ Hh1' S1); apply (on_pk_at _ _ _ _ _ E2); reflexivity].
  exists a, p2. split_and!; try done. eapply heap_perm; [exact Hh2|apply perm_swap].
Qed.

(** Leaving a package with its rest saved. *)
Lemma rested B s w v l xs b w1 :
  pk_roomy → pinv B s w v → in_package l [(inbuf l, b)] [] xs → 0 < inlen l → passthrough c = false →
  v_d v = [(inbuf l, b)] → v_r v = [] → b_d v = xs → v_out v = [] → pk w1 = pk w →
  ∃ a p v', save_rest l w1 = Some (l <| pRestData := a |>, w1 <| pk := p |>) ∧
    (∀ s' w', pg s' = pg s → pd s' = DTop → pl s' = l <| pRestData := a |> <| needdata := needdata (pl s') |> →
      pk w' = p → g_bst w' = g_bst w → a_channels w' = a_channels w → a_samplerate w' = a_samplerate w →
      exit_decode_thread w' = exit_decode_thread w → taken w' = taken w → eaten w' = eaten w →
      kept w' = kept w → heard w' = heard w → pinv B s' w' v').
Proof.
  intros Hroom [Hl Hh Hg Hge Hq Hs _ Hrg Ht Hm Hra Hb] Hip Hpos Hp Evd Evr Ebd Eo Epk.
  apply heap_rot in Hh. rewrite Evd, Evr in Hh. rewrite <- Epk in Hh, Hl.
  destruct (save_rest_sim w1 l [] xs b _ _ _ Hroom Hip Hpos Hh Hl) as (a & p & E & Ha & Hh1 & Hl1 & Hx).
  exists a, p, (mk_view (v_q v) (v_bs v) (v_g v) [(inbuf l, b)] [(a, xs)] (b_g v) (b_q v) xs [] (v_ring v)).
  split; [done|]. intros s' w' E1 E2 E3 E4 E5 E6 E7 E8 E9 E10 E11 E12. split; cbn.
  - by rewrite E4.
  - rewrite E4. exact (proj2 (heap_rot (blocks p) (v_g v) (v_bs v) [(inbuf l, b)] [(a, xs)]) Hh1).
  - by rewrite E1.
  - by rewrite E1.
  - done.
  - done.
  - rewrite E2, E3. cbn. split; [right; by destruct Hip as [_ ? _ _ _]; eauto|]. split; [done|]. by right.
  - by rewrite E5.
  - rewrite E9, E10, E8, <- Ebd. exact Ht.
  - rewrite E11, E12, E8, E2. destruct Hm as (y & Hy & Hy0). rewrite Eo in Hy. exists y. split; [done|].
    intros [?|?]; [auto|done].
  - apply (rates_same _ _ _ _ _ _ Hra); [done|done|by rewrite E5..|by rewrite E2].
  - by rewrite E9.
Qed.

Lemma starving_not_pass : starving c = true → passthrough c = false.
Proof.
  unfold starving, passthrough, is_dolby_format. rewrite !orb_true_iff, !orb_false_iff, !Z.eqb_eq, !Z.eqb_neq.
  unfold ACODEC_FMT_COOK, ACODEC_FMT_RAAC, ACODEC_FMT_AMR, ACODEC_FMT_AC3, ACODEC_FMT_EAC3, ACODEC_FMT_AC4,
    ACODEC_FMT_TRUEHD, ACODEC_FMT_DTS. lia.
Qed.

(** Leaving a package with nothing left, or to quit. *)
Lemma left_package B s w v l :
  pinv B s w v → d_rep DLoop l (v_d v) (v_r v) (b_d v) (v_out v) →
  inlen l = 0 ∨ exit_decode_thread w ≠ 0 →
  ∃ v', pinv B (mk_ps (pg s) DTop l) w v'.
Proof.
  intros [Hl Hh Hg Hge Hq Hs _ Hrg Ht Hm Hra Hb] [[(b & Evd & _ & Ebd) Hn [Hr Evr] _ _] Eo] Hend.
  exists (mk_view (v_q v) (v_bs v) (v_g v) (v_d v) (v_r v) (b_g v) (b_q v) [] [] (v_ring v)).
  split; cbn; try done.
  - split; [right; by eauto|]. split; [done|]. by left.
  - destruct Ht as (x & Hx & Hx0). exists (b_d v ++ x). split; [done|]. intros He.
    destruct Hend as [Hi|?]; [|done]. rewrite Ebd, Hi. cbn. auto.
  - destruct Hm as (y & Hy & Hy0). rewrite Eo in Hy. exists y. split; [done|]. intros [?|?]; [auto|done].
  - by apply (rates_same _ _ _ _ _ _ Hra).
Qed.

Lemma ring_format bs q ch sr : ring_rep bs L q → ring_rep (set_format ch sr bs) L q.
Proof. intros []. by split. Qed.

(** Behind a call of the decoder. *)
Definition called (pc : dpc) : Prop :=
  match pc with
  | DInfo ch sr _ => in_range ch sr ∧ known ch sr
  | DAfter => True
  | _ => False
  end.

Lemma bps_bytes : cfg_ok → 0 ≤ Z.shiftr (bps c) 3 ≤ 8.
Proof.
  intros [_ _ ?]. rewrite Z.shiftr_div_pow2 by lia. change (2 ^ 3) with 8.
  pose proof (Z.div_le_mono (bps c) 64 8). pose proof (Z.div_pos (bps c) 8).
  change (64 / 8) with 8 in *. lia.
Qed.

(** The state behind a call of the decoder. *)
Lemma called_inv B g l w v pc w' :
  pinv B (mk_ps g DLoop l) w v → exit_decode_thread w = 0 →
  after_call l (v_d v) (v_r v) (b_d v) (v_out v) → called pc →
  pk w' = pk w → ring_rep (g_bst w') L (v_ring v) → rates_inv pc l w' →
  exit_decode_thread w' = exit_decode_thread w → taken w' = taken w → eaten w' = eaten w →
  kept w' = kept w → heard w' = heard w → pinv B (mk_ps g pc l) w' v.
Proof.
  intros [Hl Hh Hg Hge Hq Hs _ _ Ht Hm _ Hb] Hex Hd Hpc E1 E2 E3 E4 E5 E6 E7 E8.
  split; cbn; rewrite ?E1, ?E4, ?E5, ?E6, ?E7, ?E8; try done; [by destruct pc|].
  destruct Hm as (y & Hy & Hy0). exists y. split; [done|]. auto.
Qed.

(** Only the results of the call change. *)
Lemma call_result B s w v dl out :
  pinv B s w v → pd s = DLoop → 0 < inlen (pl s) → dl ≤ inlen (pl s) →
  (passthrough c → dl = inlen (pl s)) →
  let l := pl s <| dlen := dl |> <| outbuf := out |> in
  pinv B (mk_ps (pg s) DLoop l) w v ∧ after_call l (v_d v) (v_r v) (b_d v) (v_out v).
Proof.
  intros [Hl Hh Hg Hge Hq Hs Hd Hrg Ht Hm Hra Hb] Es Hpos Hdl Hp. cbv zeta.
  rewrite Es in Hd, Hm. destruct Hd as [Hip Ho].
  assert (in_package (pl s <| dlen := dl |> <| outbuf := out |>) (v_d v) (v_r v) (b_d v)) as Hip'
    by (by destruct Hip).
  split; [|by split_and!]. split; cbn; try done. by apply (rates_same _ _ _ _ _ _ Hra).
Qed.

Lemma same_rates_known ch sr ch' sr' :
  known ch sr → negb (ch =? 0) && negb (sr =? 0) && (negb (ch =? ch') || negb (sr =? sr')) = false →
  known ch' sr'.
Proof.
  intros [Hch%Z.eqb_neq Hsr%Z.eqb_neq]. rewrite Hch, Hsr. cbn.
  intros [Hc%negb_false_iff%Z.eqb_eq Hs%negb_false_iff%Z.eqb_eq]%orb_false_iff. subst.
  split; by apply Z.eqb_neq.
Qed.

(** The check at the end of a call that made PCM. *)
Lemma check_info_inv B g l w v :
  env_ok → cfg_ok → pinv B (mk_ps g DLoop l) w v → exit_decode_thread w = 0 →
  after_call l (v_d v) (v_r v) (b_d v) (v_out v) →
  ∃ pc w', check_audio_info_changed c w = Some (pc, w') ∧
    pinv B (mk_ps g pc l) w' v ∧ exit_decode_thread w' = exit_decode_thread w.
Proof.
  intros He Hc Hi Hex Hd. pose proof (iv_ring _ _ _ _ Hi) as Hrg.
  pose proof (iv_rates _ _ _ _ Hi) as [Hra _].
  pose proof (λ pc w', called_inv B g l w v pc w' Hi Hex Hd) as Hkeep.
  unfold check_audio_info_changed. rewrite (cm_bind_some _ _ _ _ _ (eq_refl : question w = Some _)), cm_get_bind.
  pose proof (ok_info He (calls w)) as Hinfo. pose proof Hra as [[Ha Hg'] Hkn].
  assert (known (a_channels w) (a_samplerate w) ∨
    known (getinfo (calls w)).1 (getinfo (calls w)).2 ∧ a_channels w = channels (g_bst w) ∧
      a_samplerate w = samplerate (g_bst w)) as Hk by naive_solver.
  destruct (getinfo (calls w)) as [ch sr]. cbn in Hinfo, Hk.
  pose (w1 := w <| calls := S (calls w) |>). change (w <| calls := _ |>) with w1.
  change (g_bst w1) with (g_bst w). destruct (_ && _) eqn:Ec.
  2: { eexists _, _. split; [reflexivity|]. split; [|done]. apply Hkeep; try done. split; [done|].
       intros _. destruct Hk as [?|(Hkn' & Ea & Es)]; [done|]. cbn. rewrite Ea, Es.
       by apply (same_rates_known ch sr). }
  apply andb_true_iff in Ec as [[Hch%negb_true_iff%Z.eqb_neq Hsr%negb_true_iff%Z.eqb_neq]%andb_true_iff _].
  destruct ((a_channels w1 =? 0) || (a_samplerate w1 =? 0)) eqn:Ez.
  { rewrite cm_put_bind. eexists _, _. split; [reflexivity|]. split; [|done].
    apply Hkeep; try done; [by apply ring_format|]. split; [|done]. split; [done|]. by left. }
  pose proof (bps_bytes Hc) as Hsh. destruct Ha as [Hac Has].
  change (a_samplerate w1) with (a_samplerate w) in *. change (a_channels w1) with (a_channels w) in *.
  set (m := a_samplerate w * a_channels w). assert (0 ≤ m ≤ 2 ^ 20 * 16) as Hmm by (unfold m; nia).
  assert (0 ≤ m * Z.shiftr (bps c) 3 ≤ 2 ^ 20 * 16 * 8) as Hmm2 by nia.
  rewrite (bind_lift _ _ _ _ (int_ok_some m ltac:(unfold INT_MIN, INT_MAX; lia))).
  rewrite (bind_lift _ _ _ _ (int_ok_some (m * Z.shiftr (bps c) 3) ltac:(unfold INT_MIN, INT_MAX; lia))).
  eexists _, _. split; [reflexivity|]. split; [|done].
  apply orb_false_iff in Ez as [?%Z.eqb_neq ?%Z.eqb_neq]. by apply Hkeep.
Qed.

Lemma d_info_inv B s w v ch sr level :
  pinv B s w v → pd s = DInfo ch sr level →
  ∃ pc w', d_info ch sr level w = Some (pc, w') ∧ 
    pinv B (mk_ps (pg s) pc (pl s)) w' v ∧ exit_decode_thread w' = exit_decode_thread w.
Proof.
  intros [Hl Hh Hg Hge Hq Hs Hd Hrg Ht Hm Hra Hb] Es. rewrite Es in *.
  pose proof Hd as [Hd1 [Hin Hkn]].
  unfold d_info. rewrite cm_get_bind. destruct (_ && _).
  - eexists _, _. split; [reflexivity|]. by split.
  - destruct (exit_decode_thread w =? 0).
    + rewrite cm_put_bind. eexists _, _. split; [reflexivity|]. split; [|done].
      split; cbn; try done; [by apply ring_format|].
      destruct Hra as [[[Ha _] _] Hk]. specialize (Hk I). split; [|done]. split; [done|]. by left.
    + rewrite bind_ret. eexists _, _. split; [reflexivity|]. split; [|done]. split; try done.
      apply (rates_same _ _ _ _ _ _ Hra); done.
Qed.

Lemma pinv_calls B s w v n xs :
  pinv B s w v → pinv B s (w <| pk := pk w |> <| calls := n |> <| made := xs |>) v.
Proof. intros []. by split. Qed.

(** A call after which the rates are not looked at. *)
Lemma silent_call B s w v dl out :
  pinv B s w v → pd s = DLoop → exit_decode_thread w = 0 → 0 < inlen (pl s) → dl ≤ inlen (pl s) →
  (passthrough c → dl = inlen (pl s)) →
  (latent DAfter (pl s <| dlen := dl |> <| outbuf := out |>) → False) →
  pinv B (mk_ps (pg s) DAfter (pl s <| dlen := dl |> <| outbuf := out |>)) w v.
Proof.
  intros Hi Es Hex Hpos Hdl Hp Hlat. destruct (call_result B s w v dl out) as [Hi2 Hac]; try done.
  apply (called_inv B _ _ _ _ _ _ Hi2 Hex Hac); try done; [apply Hi|].
  split; [apply Hi|]. by intros ?%Hlat.
Qed.

Lemma d_loop_inv B s w v :
  pk_roomy → env_ok → cfg_ok → pinv B s w v → pd s = DLoop →
  ∃ pc l' w' v', d_loop c (pl s) w = Some ((pc, l'), w') ∧ pinv B (mk_ps (pg s) pc l') w' v' ∧
    exit_decode_thread w' = exit_decode_thread w.
Proof.
  intros Hroom He Hc Hi Es. pose proof (iv_d _ _ _ _ Hi) as Hd. rewrite Es in Hd.
  pose proof Hd as [Hip Ho]. pose proof Hip as [(b & Evd & Hrb & Ebd) Hn [Hr Evr] (Hd0 & Hi0 & Hlen) Hsm].
  unfold d_loop. bind_with (quitting_eq w).
  destruct ((declen (pl s) <? rlen (pl s)) && negb (negb (exit_decode_thread w =? 0))) eqn:Eg; last first.
  { destruct (left_package B s w v (pl s) Hi Hd) as (v' & Hi').
    { apply andb_false_iff in Eg as [Hlt%Z.ltb_ge|Hq]; [left; lia|right].
      rewrite negb_involutive in Hq. by apply Z.eqb_neq. }
    by eexists _, _, _, v'. }
  apply andb_true_iff in Eg as [Hlt%Z.ltb_lt Hex]. rewrite negb_involutive in Hex. apply Z.eqb_eq in Hex.
  rewrite Evd, Evr, Ebd in Hip. destruct (starving c && (needdata (pl s) >? 0)) eqn:Est.
  { apply andb_true_iff in Est as [Hst _]. pose proof (starving_not_pass Hst) as Hp.
    destruct (rested B s w v (pl s) _ b w Hroom Hi Hip ltac:(lia) Hp Evd Evr Ebd Ho eq_refl)
      as (a & p & v' & E & Hi'). bind_with E.
    eexists _, _, _, v'. split; [reflexivity|]. split; [|done]. by apply Hi'. }
  pose proof (iv_heap _ _ _ _ Hi) as Hh. apply heap_rot in Hh. rewrite Evd in Hh. cbn in Hh.
  destruct (passthrough c) eqn:Hp.
  - assert (slice b 0 (inlen (pl s)) = Some (take (Z.to_nat (inlen (pl s))) (drop (Z.to_nat 0) b))) as S1
      by (apply slice_some; lia).
    pk_with (load_sim (pk w) _ _ _ _ _ _ Hh S1).
    rewrite (proj2 (Z.ltb_ge AVCODEC_MAX_AUDIO_FRAME_SIZE _))
      by (specialize (Hsm I); unfold AVCODEC_MAX_AUDIO_FRAME_SIZE; lia).
    rewrite cm_modify_bind. eexists _, _, _, v. split; [reflexivity|]. split; [|done].
    apply silent_call; try done; try lia; [by destruct Hi|]. intros [_ ?]. congruence.
  - assert (slice b (declen (pl s)) (inlen (pl s)) = Some (b_d v)) as S1
      by (rewrite Ebd; apply slice_some; lia).
    pk_with (load_sim (pk w) _ _ _ _ _ _ Hh S1). pose (w1 := w <| calls := S (calls w) |>).
    rewrite (cm_bind_some _ _ _ (calls w) (w1 <| pk := pk w |>)) by done.
    pose proof (ok_used He (calls w) (b_d v)) as Hu. destruct (decode (calls w) (b_d v)) as [dl out].
    assert (zlen (b_d v) = inlen (pl s)) as Hbd
      by (rewrite Ebd; unfold zlen in *; rewrite length_take, length_drop; lia).
    destruct (call_result B s w v dl out) as [Hi2 Hac]; try done; [lia|cbn in Hu; lia|by rewrite Hp|].
    apply (pinv_calls _ _ _ _ (S (calls w)) (made w ++ out)) in Hi2. rewrite cm_modify_bind.
    pose (w2 := w1 <| pk := pk w |> <| made := made w ++ out |>).
    change (pinv B (mk_ps (pg s) DLoop (pl s <| dlen := dl |> <| outbuf := out |>)) w2 v) in Hi2.
    change (w1 <| pk := pk w |> <| made := _ |>) with w2. destruct (zlen out >? 0) eqn:Eo.
    + destruct (check_info_inv B _ _ w2 v He Hc Hi2 Hex Hac) as (pc & w3 & E2 & Hi3 & Hx). bind_with E2.
      eexists _, _, _, v. split; [reflexivity|]. split; [done|by rewrite Hx].
    + eexists _, _, _, v. split; [reflexivity|]. split; [|done].
      apply (called_inv B _ _ _ _ _ _ Hi2 Hex Hac); try done; [apply Hi|]. split; [apply Hi|].
      intros [Hne _]. destruct out; [done|]. by rewrite Z.gtb_ltb, Z.ltb_ge in Eo.
Qed.

(** The decoder used [dlen] bytes. *)
Lemma eat B s w v b :
  pinv B s w v → after_call (pl s) (v_d v) (v_r v) (b_d v) (v_out v) → busy (pd s) →
  v_d v = [(inbuf (pl s), b)] → 0 < dlen (pl s) →
  ∃ used v', slice b (declen (pl s)) (dlen (pl s)) = Some used ∧
    (∀ w1 l1, pk w1 = pk w → g_bst w1 = g_bst w → a_channels w1 = a_channels w →
      a_samplerate w1 = a_samplerate w → exit_decode_thread w1 = exit_decode_thread w →
      taken w1 = taken w → eaten w1 = eaten w ++ used → kept w1 = kept w → heard w1 = heard w →
      l1 = pl s <| declen := declen (pl s) + dlen (pl s) |> <| inlen := inlen (pl s) - dlen (pl s) |>
             <| needdata := needdata l1 |> <| outbuf := [] |> →
      pinv B (mk_ps (pg s) DWrite l1) w1 v') ∧
    v_d v' = v_d v ∧ v_r v' = [] ∧ v_out v' = [] ∧
    b_d v' = take (Z.to_nat (inlen (pl s) - dlen (pl s))) (drop (Z.to_nat (declen (pl s) + dlen (pl s))) b).
Proof.
  intros [Hl Hh Hg Hge Hq Hs _ Hrg Ht Hm Hra Hb] (Hip & Ho & Hpos & Hdl & Hp) Hbz Evd Hd0.
  destruct Hip as [(b' & Evd' & Hrb & Ebd) Hn [Hr Evr] (Hdc & Hin & Hlen) Hsm].
  rewrite Evd in Evd'. injection Evd' as <-.
  set (used := take (Z.to_nat (dlen (pl s))) (drop (Z.to_nat (declen (pl s))) b)).
  set (rest := take (Z.to_nat (inlen (pl s) - dlen (pl s)))
                 (drop (Z.to_nat (declen (pl s) + dlen (pl s))) b)).
  assert (b_d v = used ++ rest) as Eur.
  { rewrite Ebd. unfold used, rest. rewrite !Z2Nat.inj_add, <- drop_drop by lia.
    rewrite (Z2Nat.inj_sub (inlen (pl s))) by lia.
    rewrite take_take_drop. f_equal. lia. }
  exists used, (mk_view (v_q v) (v_bs v) (v_g v) (v_d v) [] (b_g v) (b_q v) rest [] (v_ring v)).
  split; [apply slice_some; lia|]. split; [|by split_and!].
  intros w1 l1 E1 E2 E3 E4 E5 E6 E7 E8 E9 ->. split; cbn; rewrite ?E1, ?E2, ?E5, ?E6, ?E7, ?E8, ?E9; try done.
  - by rewrite Evr in Hh.
  - split; [|done]. split; cbn; try done; [|lia]. exists b. by split_and!.
  - destruct Ht as (x & Hx & Hx0). exists x. split; [|done]. by rewrite Hx, Eur, <- !app_assoc.
  - destruct Hm as (y & Hy & Hy0). rewrite Ho in Hy. exists y. split; [done|]. intros _. apply Hy0. by right.
  - apply (rates_same _ _ _ _ _ _ Hra); [done|done|by rewrite E2..|done].
Qed.

Lemma no_pass_rest B s w v :
  pinv B s w v → pd s = DAfter → dlen (pl s) < inlen (pl s) → passthrough c = false.
Proof.
  intros Hi Es Hlt. pose proof (iv_d _ _ _ _ Hi) as Hd. rewrite Es in Hd.
  destruct Hd as (_ & _ & _ & _ & Hp). destruct (passthrough c); [|done]. specialize (Hp I). lia.
Qed.

Lemma d_account_error B s w v :
  pk_roomy → cfg_ok → pinv B s w v → pd s = DAfter → dlen (pl s) ≤ 0 →
  ∃ l' w' v', d_account c (pl s) w = Some ((DTop, l'), w') ∧ pinv B (mk_ps (pg s) DTop l') w' v' ∧
    exit_decode_thread w' = exit_decode_thread w.
Proof.
  intros Hroom Hc Hi Es Hdl. pose proof (iv_d _ _ _ _ Hi) as Hd. rewrite Es in Hd.
  pose proof Hd as (Hip & Ho & Hpos & _ & _). pose proof Hip as [(b & Evd & _ & Ebd) _ [_ Evr] _ _].
  rewrite Evd, Evr in Hip. unfold d_account. rewrite (proj2 (Z.leb_le _ _) Hdl).
  rewrite (proj2 (Z.eqb_neq _ _) (ok_format Hc)), Z.gtb_ltb, (proj2 (Z.ltb_lt _ _) Hpos).
  pose proof (no_pass_rest B s w v Hi Es ltac:(lia)) as Hp.
  destruct (rested B s w v (pl s) _ b w Hroom Hi Hip Hpos Hp Evd Evr eq_refl Ho eq_refl)
    as (a & p & v' & E & Hi'). bind_with E. rewrite cm_modify_bind.
  eexists _, _, v'. split; [reflexivity|]. split; [|done]. by apply Hi'.
Qed.

(** What the decoder made is now to be written. *)
Lemma emit B g l w v out w2 l2 :
  pinv B (mk_ps g DWrite l) w v → v_out v = [] →
  pk w2 = pk w → g_bst w2 = g_bst w → a_channels w2 = a_channels w → a_samplerate w2 = a_samplerate w →
  exit_decode_thread w2 = exit_decode_thread w → taken w2 = taken w → eaten w2 = eaten w →
  kept w2 = kept w ++ out → heard w2 = heard w → l2 <| outbuf := [] |> = l → outbuf l2 = out →
  pinv B (mk_ps g DWrite l2) w2
    (mk_view (v_q v) (v_bs v) (v_g v) (v_d v) (v_r v) (b_g v) (b_q v) (b_d v) out (v_ring v)).
Proof.
  intros [Hl Hh Hg Hge Hq Hs Hd Hrg Ht Hm Hra Hb] Eo E1 E2 E3 E4 E5 E6 E7 E8 E9 El Eout.
  split; cbn; rewrite ?E1, ?E2, ?E5, ?E6, ?E7, ?E8, ?E9; try done.
  - cbn in Hd. destruct Hd as [Hip _]. split; [|done]. subst l. by destruct Hip.
  - destruct Hm as (y & Hy & Hy0). cbn in Hy0. rewrite Hy, Eo, Hy0 by (by right). exists [].
    split; [|done]. by rewrite !app_nil_r, <- !app_assoc.
  - apply (rates_same _ _ _ _ _ _ Hra); [done|done|by rewrite E2..|done].
Qed.

Lemma d_account_used B s w v :
  pk_roomy → pinv B s w v → pd s = DAfter → 0 < dlen (pl s) →
  ∃ pc l' w' v', d_account c (pl s) w = Some ((pc, l'), w') ∧ pinv B (mk_ps (pg s) pc l') w' v' ∧
    exit_decode_thread w' = exit_decode_thread w.
Proof.
  intros Hroom Hi Es Hdl. pose proof (iv_d _ _ _ _ Hi) as Hd. rewrite Es in Hd.
  pose proof Hd as (Hip & Ho & Hpos & Hle & Hpass). pose proof Hip as [(b & Evd & Hrb & Ebd) _ _ _ _].
  destruct (eat B s w v b Hi Hd ltac:(by rewrite Es) Evd Hdl)
    as (used & v1 & S1 & Heat & Evd1 & Evr1 & Eo1 & Ebd1).
  pose proof (iv_heap _ _ _ _ Hi) as Hh. apply heap_rot in Hh. rewrite Evd in Hh. cbn in Hh.
  unfold d_account. rewrite (proj2 (Z.leb_gt _ _) Hdl).
  pk_with (load_sim (pk w) _ _ _ _ _ _ Hh S1). rewrite cm_modify_bind. cbv zeta.
  set (l1 := pl s <| declen := _ |> <| inlen := _ |>).
  set (l2 := if starving c && _ then _ else l1).
  assert (∃ n, l2 = l1 <| needdata := n |>) as [n En].
  { unfold l2. destruct (_ && _); eexists; [reflexivity|]. instantiate (1 := needdata l1). done. }
  clearbody l2. subst l2.
  pose (w1 := w <| pk := pk w |> <| nDecodeErrCount := 0 |> <| eaten := eaten w ++ used |>).
  change (w <| pk := pk w |> <| nDecodeErrCount := 0 |> <| eaten := _ |>) with w1.
  destruct (_ && negb (inlen _ =? 0)) eqn:Eg.
  - apply andb_true_iff in Eg as [_ Hne]. apply negb_true_iff, Z.eqb_neq in Hne. cbn in Hne.
    pose proof (no_pass_rest B s w v Hi Es ltac:(lia)) as Hp.
    pose proof (Heat w1 (l1 <| needdata := n |> <| outbuf := [] |>) eq_refl eq_refl eq_refl eq_refl eq_refl
      eq_refl eq_refl eq_refl eq_refl eq_refl) as Hi1.
    assert (in_package (l1 <| needdata := n |>) [(inbuf (pl s), b)] [] (b_d v1)) as Hip1.
    { pose proof (iv_d _ _ _ _ Hi1) as [Hip1 _]. rewrite Evd1, Evd, Evr1 in Hip1. by destruct Hip1. }
    destruct (rested B _ w1 v1 (l1 <| needdata := n |>) _ b w1 Hroom Hi1 Hip1 ltac:(cbn; lia) Hp
      ltac:(by rewrite Evd1) Evr1 eq_refl Eo1 eq_refl) as (a & p & v' & E & Hi'). bind_with E.
    rewrite cm_modify_bind. eexists _, _, _, v'. split; [reflexivity|]. split; [|done]. by apply Hi'.
  - pose proof (Heat w1 (l1 <| needdata := n |> <| outbuf := [] |>) eq_refl eq_refl eq_refl eq_refl eq_refl
      eq_refl eq_refl eq_refl eq_refl eq_refl) as Hi1.
    pose (w2 := w1 <| calls := S (calls w1) |>).
    rewrite (cm_bind_some _ _ _ (calls w1) w2) by done. rewrite cm_modify_bind.
    eexists _, _, _, _. split; [reflexivity|]. split; [|done].
    apply (emit B (pg s) _ w1 v1 (outbuf (pl s)) _ _ Hi1 Eo1); done.
Qed.

(** The latency is computed from a known rate. *)
Lemma rate_nonzero ch sr :
  in_range ch sr → known ch sr → i32 (i32 (sr * ch) * 2) ≠ 0.
Proof.
  intros [Hc Hs] [Hc0 Hs0]. assert (0 < sr * ch ≤ 2 ^ 20 * 16) by nia.
  rewrite !(i32_small (sr * ch)) by lia. rewrite i32_small by lia. lia.
Qed.

Lemma add_latency_ok B s w v :
  pinv B s w v → pd s = DAfter →
  ∃ n, add_latency c (pl s) w = Some (pl s <| latencys := n |>, w) ∧
    pinv B (mk_ps (pg s) DAfter (pl s <| latencys := n |>)) w v.
Proof.
  intros Hi Es.
  assert (∀ n, pinv B (mk_ps (pg s) DAfter (pl s <| latencys := n |>)) w v) as Hi'.
  { intros n. destruct Hi. rewrite Es in *. split; cbn; try done.
    destruct iv_d0 as (Hip & ?). split; [by destruct Hip|done]. }
  unfold add_latency. destruct (_ && negb (_ =? ACODEC_FMT_AAC_LATM)) eqn:Eg; last first.
  { exists (latencys (pl s)). split; [by destruct (pl s)|apply Hi']. }
  apply andb_true_iff in Eg as [[Ho Hp%negb_true_iff]%andb_true_iff _].
  pose proof (iv_rates _ _ _ _ Hi) as [[[Hr _] _] Hk]. rewrite Es in Hk.
  assert (latent DAfter (pl s)) as Hlat%Hk by (split; [by destruct (outbuf (pl s))|done]).
  rewrite cm_get_bind. cbv zeta. rewrite (proj2 (Z.eqb_neq _ 0) (rate_nonzero _ _ Hr Hlat)).
  eexists. split; [reflexivity|apply Hi'].
Qed.

Lemma d_after_inv B s w v :
  pk_roomy → cfg_ok → pinv B s w v → pd s = DAfter →
  ∃ pc l' w' v', d_after c (pl s) w = Some ((pc, l'), w') ∧ pinv B (mk_ps (pg s) pc l') w' v' ∧
    exit_decode_thread w' = exit_decode_thread w.
Proof.
  intros Hroom Hc Hi Es. destruct (add_latency_ok B s w v Hi Es) as (n & E & Hi2).
  unfold d_after. bind_with E.
  destruct (decide (dlen (pl s) ≤ 0)) as [Hd|Hd].
  - destruct (d_account_error B _ w v Hroom Hc Hi2 eq_refl Hd) as (l' & w' & v' & ? & ? & ?).
    by eexists _, _, _, _.
  - exact (d_account_used B _ w v Hroom Hi2 eq_refl (proj1 (Z.nle_gt _ _) Hd)).
Qed.

(** Reading and writing keep the format of the stream. *)
Lemma write_format inb n bs r bs' :
  write_pcm_buffer inb n bs = Some (r, bs') → channels bs' = channels bs ∧ samplerate bs' = samplerate bs.
Proof.
  unfold write_pcm_buffer, write_data. intros E.
  repeat (case_match || (apply bind_Some in E as (? & _ & E))); by simplify_eq.
Qed.

Lemma read_format n bs r bs' :
  read_pcm_buffer n bs = Some (r, bs') → channels bs' = channels bs ∧ samplerate bs' = samplerate bs.
Proof.
  unfold read_pcm_buffer, read_data. intros E.
  repeat (case_match || (apply bind_Some in E as (? & _ & E))); by simplify_eq.
Qed.

Lemma d_write_inv B s w v :
  pinv B s w v → pd s = DWrite →
  ∃ pc l' w' v', d_write (pl s) w = Some ((pc, l'), w') ∧ pinv B (mk_ps (pg s) pc l') w' v' ∧
    exit_decode_thread w' = exit_decode_thread w.
Proof.
  intros Hi Es. pose proof Hi as [Hl Hh Hg Hge Hq Hs Hd Hrg Ht Hm Hra Hb]. rewrite Es in *.
  destruct Hd as [Hip Ho]. unfold d_write. rewrite cm_get_bind.
  destruct (negb (zlen (outbuf (pl s)) =? 0) && (exit_decode_thread w =? 0)) eqn:Eg; last first.
  { eexists _, _, _, (mk_view (v_q v) (v_bs v) (v_g v) (v_d v) (v_r v) (b_g v) (b_q v) (b_d v) [] (v_ring v)).
    split; [reflexivity|]. split; [|done]. split; cbn; try done.
    destruct Hm as (y & Hy & Hy0). exists (v_out v ++ y). split; [done|]. intros [Hex|[]].
    apply andb_false_iff in Eg as [Hz|Hz]; [|apply Z.eqb_neq in Hz; done].
    apply negb_false_iff, Z.eqb_eq in Hz. rewrite Ho, Hy0 by (by left). unfold zlen in Hz.
    by destruct (outbuf (pl s)). }
  apply andb_true_iff in Eg as [_ Hex%Z.eqb_eq].
  pose proof Hrg as []. pose proof (zlen_nonneg (v_ring v)) as Hz. unfold INT_MAX in *.
  rewrite rr_length, rr_level, u64_small by (unfold zlen in *; lia).
  destruct (Z.ltb_spec (Z.of_nat L - zlen (v_ring v)) (zlen (outbuf (pl s)))) as [Hsp|Hsp].
  { eexists _, _, _, v. split; [reflexivity|]. split; [|done]. by split. }
  pose proof (zlen_nonneg (outbuf (pl s))) as Hz2.
  destruct (write_sim (g_bst w) L (v_ring v) (outbuf (pl s)) (zlen (outbuf (pl s))) Hrg ltac:(lia))
    as (b' & E & Hrg').
  assert (moved (zlen (outbuf (pl s))) (Z.of_nat L - zlen (v_ring v)) = length (outbuf (pl s))) as Hmv.
  { unfold moved. rewrite u64_small, Z.min_l by lia. unfold zlen. lia. }
  rewrite Hmv in *. rewrite E, (proj2 (Z.ltb_ge _ 0)) by lia. rewrite cm_put_bind.
  rewrite Nat2Z.id, Nat.sub_diag. rewrite firstn_all in Hrg'.
  eexists _, _, _, (mk_view (v_q v) (v_bs v) (v_g v) (v_d v) (v_r v) (b_g v) (b_q v) (b_d v) []
    (v_ring v ++ outbuf (pl s))).
  split; [reflexivity|]. split; [|done]. split; cbn; try done.
  - split; [by destruct Hip|done].
  - destruct Hm as (y & Hy & Hy0). exists y. rewrite Hy, Ho, <- !app_assoc. split; [done|auto].
  - destruct (write_format _ _ _ _ _ E). by apply (rates_same _ _ _ _ _ _ Hra).
Qed.

Lemma decode_inv B s w v :
  pk_roomy → env_ok → cfg_ok → pinv B s w v → 512 * B < 2 ^ 31 →
  ∃ s' w' v', pipe_step c Decode s w = Some (s', w') ∧ pinv B s' w' v' ∧
    exit_decode_thread w' = exit_decode_thread w.
Proof.
  intros Hroom He Hc Hi HB. cbn [pipe_step].
  assert (∃ pc l' w' v', audio_decode_loop c (pd s) (pl s) w = Some ((pc, l'), w') ∧
    pinv B (mk_ps (pg s) pc l') w' v' ∧ exit_decode_thread w' = exit_decode_thread w)
    as (pc & l' & w' & v' & E & Hi' & Hx).
  { destruct (pd s) as [| |ch sr lv| | |] eqn:Es; cbn [audio_decode_loop].
    - destruct (decide (exit_decode_thread w = 0)); [by eapply d_top_get|].
      destruct (d_top_quit B s w v Hi Es) as (l' & w' & v' & ? & ? & ?); [done|]. by eexists _, _, _, _.
    - by eapply d_loop_inv.
    - destruct (d_info_inv B s w v ch sr lv Hi Es) as (pc & w' & E & Hi' & Hx).
      eexists _, _, _, v. split; [by bind_with E|done].
    - by eapply d_after_inv.
    - by eapply d_write_inv.
    - eexists _, _, _, v. split; [reflexivity|]. split; [|done]. destruct Hi. rewrite Es in *. by split. }
  eexists _, _, v'. split; [by bind_with E|done].
Qed.

(** ** Whole schedules *)

Lemma read_pcm_inv B s w v n :
  pinv B s w v →
  ∃ w' v', armdec_stream_read n w = Some (Z.of_nat (moved n (zlen (v_ring v))), w') ∧ pinv B s w' v' ∧
    exit_decode_thread w' = exit_decode_thread w.
Proof.
  intros [Hl Hh Hg Hge Hq Hs Hd Hrg Ht Hm Hra Hb].
  destruct (read_sim (g_bst w) L (v_ring v) n Hrg) as (b' & E & Hrg'). cbv zeta in *.
  unfold armdec_stream_read. rewrite cm_get_bind, E, cm_put_bind.
  eexists _, (mk_view (v_q v) (v_bs v) (v_g v) (v_d v) (v_r v) (b_g v) (b_q v) (b_d v) (v_out v) _).
  split; [reflexivity|]. split; [|done]. split; cbn; try done.
  - destruct Hm as (y & Hy & Hy0). exists y. split; [|done].
    rewrite Hy, <- app_assoc. f_equal. by rewrite (app_assoc (take _ _)), take_drop.
  - destruct (read_format _ _ _ _ E). by apply (rates_same _ _ _ _ _ _ Hra).
Qed.

Lemma reset_track_inv B s w v :
  pinv B s w v →
  ∃ w', reset_track w = Some (tt, w') ∧ pinv B s w' v ∧ exit_decode_thread w' = exit_decode_thread w.
Proof.
  intros Hi. eexists. split; [reflexivity|]. destruct (format_changed_flag w =? 0); [done|].
  split; [|done]. destruct Hi. split; try done. destruct iv_rates0 as [[[Ha Hg] Hk] Hl].
  split; [split; [done|]|]; cbn; [naive_solver|]. intros Hk'%Hl. destruct Hk as [?|[[<- <-] _]]; naive_solver.
Qed.

Definition cost (x : label) : Z := match x with Fetch => 1 | _ => 0 end.
Fixpoint fetches (xs : list label) : Z := match xs with [] => 0 | x :: xs => cost x + fetches xs end.

Lemma step_inv B s w v x :
  pk_roomy → env_ok → cfg_ok → pinv B s w v → 512 * B < 2 ^ 31 →
  ∃ s' w' v', pipe_step c x s w = Some (s', w') ∧ pinv (B + cost x) s' w' v' ∧
    exit_decode_thread w' = (match x with Quit => 1 | _ => exit_decode_thread w end).
Proof.
  intros Hroom He Hc Hi HB. destruct x as [| |n| |]; cbn [cost].
  - by apply (fetch_inv B s w v).
  - rewrite Z.add_0_r. by apply (decode_inv B s w v).
  - rewrite Z.add_0_r. destruct (read_pcm_inv B s w v n Hi) as (w' & v' & E & ? & ?).
    eexists _, _, v'. cbn [pipe_step]. split; [by bind_with E|done].
  - rewrite Z.add_0_r. destruct (reset_track_inv B s w v Hi) as (w' & E & ? & ?).
    eexists _, _, v. cbn [pipe_step]. split; [by bind_with E|done].
  - rewrite Z.add_0_r. eexists _, _, v. split; [reflexivity|]. split; [|done].
    destruct Hi. split; cbn; try done.
    + destruct iv_taken0 as (x & ? & _). by exists x.
    + destruct iv_kept0 as (y & ? & Hy). exists y. split; [done|]. intros [?|?]; [done|]. apply Hy. by right.
Qed.

Lemma run_inv xs : ∀ B s w v,
  pk_roomy → env_ok → cfg_ok → pinv B s w v → 512 * (B + fetches xs) < 2 ^ 31 →
  ∃ s' w' v', pipe_run c xs s w = Some (s', w') ∧ pinv (B + fetches xs) s' w' v'.
Proof.
  induction xs as [|x xs IH]; intros B s w v Hroom He Hc Hi HB; cbn [pipe_run fetches] in *.
  { rewrite Z.add_0_r. by eexists s, w, v. }
  assert (∀ ys, 0 ≤ fetches ys) as Hf by (intros ys; induction ys as [|[]]; cbn in *; lia).
  specialize (Hf xs). assert (0 ≤ cost x) by (destruct x; cbn; lia).
  destruct (step_inv B s w v x Hroom He Hc Hi ltac:(lia)) as (s1 & w1 & v1 & E & Hi1 & _).
  destruct (IH _ _ _ _ Hroom He Hc Hi1 ltac:(lia)) as (s2 & w2 & v2 & E2 & Hi2).
  exists s2, w2, v2. split; [by bind_with E|]. by rewrite Z.add_assoc.
Qed.

(** Before the threads are started. *)
Record fresh_arm (w : arm_world) : Prop := {
  fa_packages : packages (pk w) = ∅;
  fa_blocks : blocks (pk w) = ∅;
  fa_exit : exit_decode_thread w = 0;
  fa_logs : taken w = [] ∧ eaten w = [] ∧ kept w = [] ∧ made w = [] ∧ heard w = [];
  fa_ring : ring_rep (g_bst w) L [];
  fa_rates : rates_ok w
}.

Lemma start_inv w :
  fresh_arm w → ∃ w' v, on_pk package_list_init w = Some (0, w') ∧ pinv 0 pipe_start w' v ∧
    exit_decode_thread w' = 0.
Proof.
  intros [Hp Hb He (Ht & Hea & Hm & _ & Hh) Hr Hra].
  destruct (init_sim (pk w) []) as (p & E & Hl & Hbl); [rewrite Hp; apply heap_empty|].
  eexists _, (mk_view [] [] [] [] [] [] [] [] [] []). split; [by apply on_pk_ok|]. split; [|done].
  split; cbn; try done.
  - rewrite Hbl, Hb. apply heap_empty.
  - split; [by left|done].
  - split; [by left|]. split; [done|]. by left.
  - exists []. by rewrite Ht, Hea.
  - exists []. by rewrite Hm, Hh.
  - by rewrite Ht.
Qed.

Lemma pipeline_inv xs w :
  pk_roomy → env_ok → cfg_ok → fresh_arm w → 512 * fetches xs < 2 ^ 31 →
  ∃ s' w' v', pipeline c xs w = Some (s', w') ∧ pinv (fetches xs) s' w' v'.
Proof.
  intros Hroom He Hc (w1 & v & E & Hi & _)%start_inv HB. unfold pipeline. bind_with E.
  by apply (run_inv xs 0 pipe_start w1 v).
Qed.

(** ** Where the bytes are *)

Definition bytes_at (w : arm_world) (a off n : Z) : list Z :=
  match blocks (pk w) !! a with
  | Some b => take (Z.to_nat n) (drop (Z.to_nat off) b)
  | None => []
  end.

(** The packages that are found by following [next] [n] times. *)
Fixpoint chain (n : nat) (p : Z) (m : gmap Z package) : list package :=
  match n with
  | O => []
  | S n =>
      match m !! p with
      | Some x => x :: chain n (default NULL (p_next x)) m
      | None => []
      end
  end.

Definition queue_bytes (w : arm_world) : list Z :=
  let l := pack_list (pk w) in
  concat ((λ x, bytes_at w (p_data x) 0 (p_size x))
    <$> chain (Z.to_nat (pack_num l)) (first l) (packages (pk w))).

(** The bytes of the stream that were read and not decoded yet: with the
    decoding thread, in the queue, and with the reading thread. *)
Definition unread (s : pstate) (w : arm_world) : list Z :=
  (match pd s with
   | DTop => if pRestData (pl s) =? NULL then [] else bytes_at w (pRestData (pl s)) 0 (inlen (pl s))
   | DEnd => []
   | _ => bytes_at w (inbuf (pl s)) (declen (pl s)) (inlen (pl s))
   end) ++ queue_bytes w ++
  (match pg s with GRead a r _ _ | GAdd a r => bytes_at w a 0 r | _ => [] end).

Lemma chain_ok q : ∀ p m,
  linked q → (∀ x, x ∈ q → m !! x.1 = Some x.2) → (∀ x, head q = Some x → p = x.1) →
  chain (length q) p m = q.*2.
Proof.
  induction q as [|x q IH]; intros p m Hl Hm Hp; [done|]. cbn.
  rewrite (Hp x eq_refl), (Hm x) by left. f_equal. destruct Hl as [Hn Hl].
  apply IH; [done| |].
  - intros y Hy. apply Hm. by right.
  - intros y Hy. destruct q as [|z q]; [done|]. injection Hy as <-. by rewrite Hn.
Qed.

Lemma bytes_at_elem w o a b off n :
  heap (blocks (pk w)) o → (a, b) ∈ o → bytes_at w a off n = take (Z.to_nat n) (drop (Z.to_nat off) b).
Proof. intros Hh Hin. unfold bytes_at. by rewrite (heap_elem _ _ _ _ Hh Hin). Qed.

Lemma queue_bytes_ok w q bs xs o :
  list_rep (pk w) [] q → queued (fields <$> q) bs xs → heap (blocks (pk w)) o → (∀ b, b ∈ bs → b ∈ o) →
  queue_bytes w = xs.
Proof.
  intros [Hh Hl _ Hn _ Hf _] Hq Hb Hin. unfold queue_bytes. rewrite Hn. unfold zlen. rewrite Nat2Z.id.
  rewrite (chain_ok q); [|done|intros [a x]; by apply heap_elem|intros x Hx; by apply Hf].
  clear Hh Hl Hn Hf. revert bs xs Hq Hin. induction q as [|x q IH]; intros bs xs Hq Hin.
  { destruct Hq as [Hf ->]. apply Forall2_nil_inv_l in Hf as ->. done. }
  destruct (queued_cons _ _ _ _ Hq) as ([a b] & bs' & ys & -> & Hd & _ & _ & -> & Hq'). cbn in *.
  rewrite (IH bs' ys Hq') by (intros; apply Hin; by right). f_equal.
  rewrite Hd, (bytes_at_elem w o a b) by (try done; apply Hin; left). by rewrite drop_0.
Qed.

Lemma unread_ok B s w v : pinv B s w v → unread s w = b_d v ++ b_q v ++ b_g v.
Proof.
  intros [Hl Hh Hg _ Hq _ Hd _ _ _ _ _].
  assert (∀ b, b ∈ v_bs v → b ∈ v_g v ++ v_bs v ++ v_d v ++ v_r v) as Hin by set_solver.
  unfold unread. rewrite (queue_bytes_ok w _ _ _ _ Hl Hq Hh Hin). f_equal; [|f_equal].
  - assert (∀ l, in_package l (v_d v) (v_r v) (b_d v) → bytes_at w (inbuf l) (declen l) (inlen l) = b_d v) as Hp.
    { intros l [(b & Evd & _ & ->) _ _ _ _]. apply (bytes_at_elem w _ _ b _ _ Hh). rewrite Evd. set_solver. }
    destruct (pd s); cbn in Hd;
      try (by apply Hp, (proj1 Hd)); try (by apply Hp, (proj1 (proj1 Hd))).
    + destruct Hd as (_ & _ & [(-> & _ & ->)|(Hr & Er & Hx & Hpos & _)]); [done|].
      rewrite (proj2 (Z.eqb_neq _ NULL)) by done.
      rewrite (bytes_at_elem w _ _ (b_d v) _ _ Hh) by (rewrite Er; set_solver).
      rewrite drop_0. apply take_ge. unfold zlen in Hx. lia.
    + by destruct Hd as (_ & _ & -> & _).
  - destruct (pg s) as [a|a r n per|a r|]; cbn in Hg; [by destruct Hg| | |by destruct Hg].
    + destruct Hg as (b & Eg & _ & _ & _ & _ & _ & -> & _).
      rewrite (bytes_at_elem w _ a b _ _ Hh) by (rewrite Eg; set_solver). by rewrite drop_0.
    + destruct Hg as (b & Eg & _ & _ & -> & _).
      rewrite (bytes_at_elem w _ a b _ _ Hh) by (rewrite Eg; set_solver). by rewrite drop_0.
Qed.

(** ** Stopping *)

Definition g_left (g : gstate) : nat :=
  match g with GRead _ _ _ _ => 3 | GAdd _ _ => 2 | GTop _ => 1 | GEnd => 0 end.
Definition d_left (pc : dpc) : nat :=
  match pc with DInfo _ _ _ => 5 | DAfter => 4 | DWrite => 3 | DLoop => 2 | DTop => 1 | DEnd => 0 end.

Lemma quit_fetch g w g' w' :
  exit_decode_thread w ≠ 0 → audio_getpackage_loop c g w = Some (g', w') → (g_left g' ≤ pred (g_left g))%nat.
Proof.
  intros He%Z.eqb_neq. destruct g as [a|a r n per|a r|]; cbn [audio_getpackage_loop]; intros E.
  - unfold g_top in E. rewrite (cm_bind_some _ _ _ _ _ (quitting_eq w)), He in E. cbn [negb] in E.
    apply cm_bind_inv in E as ([] & w1 & _ & E). apply cm_bind_inv in E as (r & w2 & _ & [= <- _]). done.
  - unfold g_read in E. rewrite (cm_bind_some _ _ _ _ _ (quitting_eq w)), He in E.
    cbn [negb] in E. rewrite andb_false_r in E. injection E as <- _. done.
  - unfold g_add in E. apply cm_bind_inv in E as (ret & w1 & E1 & E).
    assert (exit_decode_thread w1 = exit_decode_thread w) as Hx.
    { unfold on_pk in E1. destruct (package_add a r 0 (pk w)) as [[? ?]|]; [|done]. by injection E1 as _ <-. }
    rewrite (cm_bind_some _ _ _ _ _ (quitting_eq w1)), Hx, He in E. cbn [negb] in E.
    destruct (ret =? 0); [by injection E as <- _|].
    apply cm_bind_inv in E as ([] & w2 & _ & [= <- _]). done.
  - by injection E as <- _.
Qed.

Lemma quit_decode pc l w pc' l' w' :
  exit_decode_thread w ≠ 0 → audio_decode_loop c pc l w = Some ((pc', l'), w') →
  (d_left pc' ≤ pred (d_left pc))%nat.
Proof.
  intros He%Z.eqb_neq. destruct pc as [| |ch sr lv| | |]; cbn [audio_decode_loop]; intros E.
  - unfold d_top in E. rewrite (cm_bind_some _ _ _ _ _ (quitting_eq w)), He in E. cbn [negb] in E.
    apply cm_bind_inv in E as ([] & w1 & _ & E). apply cm_bind_inv in E as ([] & w2 & _ & E).
    rewrite cm_modify_bind in E. by injection E as <- _ _.
  - unfold d_loop in E. rewrite (cm_bind_some _ _ _ _ _ (quitting_eq w)), He in E.
    cbn [negb] in E. rewrite andb_false_r in E. by injection E as <- _ _.
  - apply cm_bind_inv in E as (pc & w1 & E & [= <- _ _]). unfold d_info in E.
    rewrite cm_get_bind, He, andb_false_r, bind_ret in E. by injection E as <- _.
  - unfold d_after in E. apply cm_bind_inv in E as (l0 & w0 & _ & E).
    unfold d_account in E. destruct (dlen l0 <=? 0).
    + apply cm_bind_inv in E as (l1 & w1 & _ & E). rewrite cm_modify_bind in E. injection E as <- _ _. cbn. lia.
    + apply cm_bind_inv in E as (used & w1 & _ & E). rewrite cm_modify_bind in E. cbv zeta in E.
      destruct (_ && negb _) in E.
      * apply cm_bind_inv in E as (l1 & w2 & _ & E). rewrite cm_modify_bind in E. injection E as <- _ _. cbn. lia.
      * apply cm_bind_inv in E as (k & w2 & _ & E). rewrite cm_modify_bind in E. injection E as <- _ _. done.
  - unfold d_write in E. rewrite cm_get_bind, He, andb_false_r in E. by injection E as <- _ _.
  - by injection E as <- _ _.
Qed.

Fixpoint steps_of (k : label) (xs : list label) : nat :=
  match xs with
  | [] => 0
  | x :: xs =>
      (match k, x with Fetch, Fetch | Decode, Decode => 1 | _, _ => 0 end + steps_of k xs)%nat
  end.

Lemma quit_run xs : ∀ B s w v,
  pk_roomy → env_ok → cfg_ok → pinv B s w v → 512 * (B + fetches xs) < 2 ^ 31 → exit_decode_thread w ≠ 0 →
  (g_left (pg s) ≤ steps_of Fetch xs)%nat → (d_left (pd s) ≤ steps_of Decode xs)%nat →
  ∃ s' w' v', pipe_run c xs s w = Some (s', w') ∧ pinv (B + fetches xs) s' w' v' ∧
    pg s' = GEnd ∧ pd s' = DEnd.
Proof.
  induction xs as [|x xs IH]; intros B s w v Hroom He Hc Hi HB Hex Hg Hd; cbn [pipe_run fetches] in *.
  { rewrite Z.add_0_r. exists s, w, v. cbn in Hg, Hd.
    split_and!; [done|done|destruct (pg s); cbn in Hg; done || lia|destruct (pd s); cbn in Hd; done || lia]. }
  assert (∀ ys, 0 ≤ fetches ys) as Hf by (intros ys; induction ys as [|[]]; cbn in *; lia).
  specialize (Hf xs). assert (0 ≤ cost x) by (destruct x; cbn; lia).
  destruct (step_inv B s w v x Hroom He Hc Hi ltac:(lia)) as (s1 & w1 & v1 & E & Hi1 & Hx).
  assert (exit_decode_thread w1 ≠ 0) as Hex1 by (destruct x; congruence).
  assert ((g_left (pg s1) ≤ steps_of Fetch xs)%nat ∧ (d_left (pd s1) ≤ steps_of Decode xs)%nat) as [Hg1 Hd1].
  { destruct x; cbn [pipe_step] in E; cbn in Hg, Hd.
    - apply cm_bind_inv in E as (g & w2 & E & [= <- _]). pose proof (quit_fetch _ _ _ _ Hex E). cbn. lia.
    - apply cm_bind_inv in E as ([pc l] & w2 & E & [= <- _]). pose proof (quit_decode _ _ _ _ _ _ Hex E). cbn. lia.
    - by apply cm_bind_inv in E as (r & w2 & E & [= <- _]).
    - by apply cm_bind_inv in E as (r & w2 & E & [= <- _]).
    - by apply cm_bind_inv in E as (r & w2 & E & [= <- _]). }
  destruct (IH _ _ _ _ Hroom He Hc Hi1 ltac:(lia) Hex1 Hg1 Hd1) as (s2 & w2 & v2 & E2 & Hi2 & Hend).
  exists s2, w2, v2. split; [by bind_with E|]. by rewrite Z.add_assoc.
Qed.

Lemma ended_clean B s w v :
  pinv B s w v → pg s = GEnd → pd s = DEnd → blocks (pk w) = ∅ ∧ packages (pk w) = ∅.
Proof.
  intros [Hl Hh Hg Hge Hq _ Hd _ _ _ _ _] Eg Ed. rewrite Eg in Hg, Hge. rewrite Ed in Hd.
  rewrite (Hge eq_refl) in Hl, Hq. destruct Hg as [Eg' _], Hd as (Ed' & Er' & _), Hq as [Hf _].
  apply Forall2_nil_inv_l in Hf. rewrite Eg', Hf, Ed', Er' in Hh.
  split; apply heap_nil; [exact Hh|exact (lr_heap _ _ _ Hl)].
Qed.

Lemma pipe_run_app xs ys : ∀ s w,
  pipe_run c (xs ++ ys) s w = (pipe_run c xs s ≫= λ s, pipe_run c ys s) w.
Proof.
  induction xs as [|x xs IH]; intros s w; [done|]. cbn [pipe_run app]. unfold mbind, cm_bind.
  destruct (pipe_step c x s w) as [[s1 w1]|]; [|done]. by rewrite IH.
Qed.

(** [C36] A stop takes effect: whatever the threads did before, once they are
    asked to stop three rounds of the reading thread and five of the decoding
    thread, in any order and whatever else happens in between, end both, and
    then all their memory is freed: buffers, rest, packages and their data. *)
Theorem pipeline_stops_clean xs ys w :
  pk_roomy → env_ok → cfg_ok → fresh_arm w → 512 * (fetches xs + fetches ys) < 2 ^ 31 →
  (3 ≤ steps_of Fetch ys)%nat → (5 ≤ steps_of Decode ys)%nat →
  ∃ s' w', pipeline c (xs ++ [Quit] ++ ys) w = Some (s', w') ∧ pg s' = GEnd ∧ pd s' = DEnd ∧
    blocks (pk w') = ∅ ∧ packages (pk w') = ∅.
Proof.
  intros Hroom He Hc Hw HB Hf Hd. pose proof (start_inv w Hw) as (w1 & v & E & Hi & _).
  assert (∀ zs, 0 ≤ fetches zs) as Hpos by (intros zs; induction zs as [|[]]; cbn in *; lia).
  pose proof (Hpos ys) as Hpos'.
  destruct (run_inv xs 0 pipe_start w1 v Hroom He Hc Hi ltac:(lia)) as (s2 & w2 & v2 & E2 & Hi2).
  destruct (step_inv _ s2 w2 v2 Quit Hroom He Hc Hi2 ltac:(lia)) as (s3 & w3 & v3 & E3 & Hi3 & Hx).
  destruct (quit_run ys _ s3 w3 v3 Hroom He Hc Hi3) as (s4 & w4 & v4 & E4 & Hi4 & Hg & Hd4).
  { cbn [cost]. lia. }
  { by rewrite Hx. }
  { destruct (pg s3); cbn; lia. }
  { destruct (pd s3); cbn; lia. }
  exists s4, w4. unfold pipeline. bind_with E. rewrite pipe_run_app. bind_with E2. cbn [pipe_run app].
  bind_with E3. split_and!; [done|done|done|..]; by apply (ended_clean _ _ _ _ Hi4).
Qed.

End invariant.

(** ** The theorems at work *)

(** An allocator that never fails and always uses a new address. *)
#[export, program] Instance pk_bump_alloc : PkAlloc := {|
  pk_malloc := λ w _, Some (fresh_key (map_keys (packages w) ++ map_keys (blocks w)))
|}.
Next Obligation.
  intros w n p [= <-]. split_and!; [apply fresh_key_pos|apply fresh_key_none..]; set_solver.
Qed.

(** A stream that delivers two bytes at a time and a decoder that needs three
    bytes for two samples, at a rate that changes once. *)
#[export] Instance sample_arm_env : ArmEnv := {|
  rd := λ k n, take (Z.to_nat n) [Z.of_nat k; 7];
  decode := λ _ xs, match xs with a :: b :: c :: _ => (3, [a + b; 0; c; 0]) | _ => (0, []) end;
  getinfo := λ k, if (k <? 30)%nat then (2, 48000) else (1, 44100);
  dec_pts := λ _, 0
|}.

Lemma sample_env_ok : env_ok.
Proof.
  split; cbn.
  - intros k n Hn. unfold zlen. rewrite length_take. lia.
  - intros _ [|a [|b [|d xs]]]; unfold zlen; cbn; lia.
  - intros _ [|a [|b [|d xs]]]; unfold zlen, AVCODEC_MAX_AUDIO_FRAME_SIZE; cbn; lia.
  - intros k. unfold in_range. case_match; cbn; lia.
Qed.

Definition mp3_config : arm_config := mk_cfg 0 4 16 false 0.

Lemma mp3_config_ok : cfg_ok mp3_config.
Proof. split; cbn; [done|lia..]. Qed.

Definition arm_begin : arm_world :=
  mk_aw (mk_pk (mk_plist NULL 0 NULL) ∅ ∅) (init_buff fresh_stream 16 (Some (replicate 16 0))).2
    2 48000 0 0 0 (mk_sc [] 0 0) 0 0 0 0 0 [] [] [] [] [].

Lemma arm_begin_fresh : fresh_arm 16 arm_begin.
Proof.
  split; [done..| |].
  - apply (init_buff_rep fresh_stream 16 (replicate 16 0)); [done|unfold INT_MAX; lia].
  - unfold rates_ok, in_range, known. cbn. split; [lia|]. left. lia.
Qed.

(** Both threads turn by turn, while the output takes PCM. *)
Definition turns (n : nat) : list label :=
  concat (replicate n [Fetch; Fetch; Decode; Fetch; Decode; ReadPcm 6]).

Lemma pipeline_stops_clean_witness :
  ∃ s' w', pipeline mp3_config (turns 6 ++ [Quit] ++ turns 3) arm_begin = Some (s', w') ∧
    pg s' = GEnd ∧ pd s' = DEnd ∧ blocks (pk w') = ∅ ∧ packages (pk w') = ∅.
Proof.
  apply (pipeline_stops_clean mp3_config 16 (turns 6) (turns 3) arm_begin).
  - unfold pk_roomy. discriminate.
  - exact sample_env_ok.
  - exact mp3_config_ok.
  - exact arm_begin_fresh.
  - reflexivity.
  - cbn. lia.
  - cbn. lia.
Defined.

(** A run in which packages are queued, decoded, joined with a rest and
    heard. *)
Example turns_at_work :
  (λ '(_, w), (taken w, eaten w, heard w)) <$> pipeline mp3_config (turns 6) arm_begin
  = Some ([0; 7; 1; 7; 4; 7; 5; 7; 7; 7; 9; 7; 10; 7; 13; 7], [0; 7; 1; 7; 4; 7], [7; 0; 1; 0]).
Proof. vm_compute. reflexivity. Qed.
