(* ===== verification/ArmPcm.v ===== *)
(** The PCM of the software decoder, from the call that made it to the output:
    [made] logs it as the decoder library returns it, before the decoding
    thread looks at how many bytes the call used, so PCM that the thread drops
    is in [made] and never heard. *)

From S2P Require Import Prelude PcmBuffer PackageList ArmDecode.

(** PCM that waits for the check of the format, and all PCM of the decoding
    thread that is not in the ring yet. *)
Definition unchecked (s : pstate) : list Z :=
  match pd s with DInfo _ _ _ | DAfter => outbuf (pl s) | _ => [] end.
Definition unwritten (s : pstate) : list Z :=
  match pd s with DInfo _ _ _ | DAfter | DWrite => outbuf (pl s) | _ => [] end.

Section pcm.
Context `{PkAlloc} `{ArmEnv} (c : arm_config) (L : nat).

(** A call of the decoder that makes PCM uses bytes. *)
Definition pcm_uses : Prop := ∀ k xs, (decode k xs).2 ≠ [] → 0 < (decode k xs).1.

(** What was made is what the thread counted and what it still has to check. *)
Record made_ok (s : pstate) (w : arm_world) : Prop := {
  mo_made : made w = kept w ++ unchecked s;
  mo_used : unchecked s ≠ [] → 0 < dlen (pl s)
}.

(** ** Steps that neither make nor count PCM *)

Definition keeps_pcm {A} (m : CM arm_world A) : Prop := ∀ w a w',
  m w = Some (a, w') → made w' = made w ∧ kept w' = kept w.

Lemma pcm_ret {A} (a : A) : keeps_pcm (mret a).
Proof. by intros w ? ? [= _ <-]. Qed.

Lemma pcm_bind {A B} (m : CM arm_world A) (f : A → CM arm_world B) :
  keeps_pcm m → (∀ a, keeps_pcm (f a)) → keeps_pcm (m ≫= f).
Proof.
  intros Hm Hf w b w' (a & w1 & E1 & E2)%cm_bind_inv.
  destruct (Hm _ _ _ E1) as [<- <-]. exact (Hf _ _ _ _ E2).
Qed.

Lemma pcm_on_pk {A} (m : CM pk_world A) : keeps_pcm (on_pk m).
Proof. intros w a w'. unfold on_pk. destruct (m (pk w)) as [[? ?]|]; by intros [= _ <-]. Qed.

Lemma pcm_gets {A} (f : arm_world → A) : keeps_pcm (cm_gets f).
Proof. by intros w ? ? [= _ <-]. Qed.

Lemma pcm_get : keeps_pcm cm_get.
Proof. by intros w ? ? [= _ <-]. Qed.

Lemma pcm_lift {A} (o : option A) : keeps_pcm (cm_lift o).
Proof. intros w a w'. unfold cm_lift. destruct o; by intros [= _ <-]. Qed.

Lemma pcm_fail {A} : keeps_pcm (@cm_fail arm_world A).
Proof. by intros w a w'. Qed.

Lemma pcm_modify f :
  (∀ w, made (f w) = made w ∧ kept (f w) = kept w) → keeps_pcm (cm_modify f).
Proof. by intros Hf w ? ? [= _ <-]. Qed.

Lemma pcm_question : keeps_pcm question.
Proof. by intros w ? ? [= _ <-]. Qed.

Ltac keeps :=
  repeat first
    [ apply pcm_ret | apply pcm_on_pk | apply pcm_gets | apply pcm_get | apply pcm_lift
    | apply pcm_fail | apply pcm_question | (apply pcm_modify; by intros ?)
    | (apply pcm_bind; [|intros ?]) | case_match ].

Lemma keeps_free a : keeps_pcm (free_if a).
Proof. unfold free_if. keeps. Qed.

Lemma keeps_read_code off n : keeps_pcm (read_code off n).
Proof. unfold read_code, read_buffer, set_sc. keeps. Qed.

Lemma keeps_frame_size : keeps_pcm (get_frame_size c).
Proof.
  assert (keeps_pcm frame_size_found) by
    (unfold frame_size_found, set_sc; apply pcm_bind; [apply keeps_read_code|intros ?; keeps]).
  assert (keeps_pcm sync_word) by (unfold sync_word, set_sc; keeps; done).
  unfold get_frame_size, set_sc. keeps; try done; apply keeps_read_code.
Qed.

Lemma keeps_fetch g : keeps_pcm (audio_getpackage_loop c g).
Proof.
  destruct g; cbn [audio_getpackage_loop]; [|unfold g_read, quitting, read_buffer; keeps|unfold g_add, quitting; keeps|keeps].
  unfold g_top, quitting.
  keeps; try apply keeps_free; apply keeps_frame_size.
Qed.

Lemma keeps_save l : keeps_pcm (save_rest l).
Proof. unfold save_rest. keeps. Qed.

Lemma keeps_top l : keeps_pcm (d_top l).
Proof. unfold d_top, quitting, join_rest. keeps; apply keeps_free. Qed.

(** ** The steps of the decoding thread *)

Lemma made_plain s w s' w' :
  made_ok s w → unchecked s = [] → unchecked s' = [] → made w' = made w → kept w' = kept w → made_ok s' w'.
Proof. intros [Hm _] E E' Em Ek. split; rewrite E'; [|done]. by rewrite Em, Ek, Hm, E. Qed.

Lemma top_target l w pc l' w' :
  d_top l w = Some ((pc, l'), w') → match pc with DTop | DLoop | DEnd => True | _ => False end.
Proof.
  intros (q & w1 & _ & E)%cm_bind_inv. destruct q.
  { apply cm_bind_inv in E as ([] & w2 & _ & E). apply cm_bind_inv in E as ([] & w3 & _ & E).
    rewrite cm_modify_bind in E. by injection E as <- _ _. }
  apply cm_bind_inv in E as (p & w2 & _ & E). destruct (p =? NULL); [by injection E as <- _ _|].
  apply cm_bind_inv in E as ([] & w3 & _ & E). apply cm_bind_inv in E as (x & w4 & _ & E).
  apply cm_bind_inv in E as (l1 & w5 & _ & E). apply cm_bind_inv in E as ([] & w6 & _ & E).
  cbv zeta in E. injection E as E _. by case_match; injection E as <- _.
Qed.

(** The check for a new format leads to the wait or behind it. *)
Lemma check_keeps w pc w' :
  check_audio_info_changed c w = Some (pc, w') →
  (made w' = made w ∧ kept w' = kept w) ∧ match pc with DInfo _ _ _ | DAfter => True | _ => False end.
Proof.
  unfold check_audio_info_changed. rewrite (cm_bind_some _ _ _ _ _ (eq_refl : question w = Some _)), cm_get_bind.
  destruct (getinfo (calls w)) as [ch sr]. destruct (_ && _); [|by intros [= <- <-]].
  destruct (_ || _); [rewrite cm_put_bind; by intros [= <- <-]|].
  intros (x & w1 & [Em Ek]%pcm_lift & E)%cm_bind_inv.
  apply cm_bind_inv in E as (y & w2 & [Em2 Ek2]%pcm_lift & E). injection E as <- <-.
  by rewrite Em2, Ek2, Em, Ek.
Qed.

(** A call of the decoder. *)
Lemma made_loop B s w v pc l' w' :
  pcm_uses → pinv c L B s w v → pd s = DLoop → made_ok s w →
  d_loop c (pl s) w = Some ((pc, l'), w') → made_ok (mk_ps (pg s) pc l') w'.
Proof.
  intros Hu Hi Es Hm E. pose proof (iv_d _ _ _ _ _ _ Hi) as Hd. rewrite Es in Hd.
  destruct Hd as [[_ _ _ (_ & _ & Hlen) _] _]. pose proof Hm as [Hmk _].
  assert (unchecked s = []) as Eu by (unfold unchecked; by rewrite Es).
  rewrite Eu, app_nil_r in Hmk. unfold d_loop in E. rewrite (cm_bind_some _ _ _ _ _ (quitting_eq w)) in E.
  destruct (_ && negb _) eqn:Eg; [|injection E as <- <- <-; by apply (made_plain s w)].
  apply andb_true_iff in Eg as [Hlt%Z.ltb_lt _]. destruct (_ && _).
  { apply cm_bind_inv in E as (l1 & w1 & [? ?]%keeps_save & E). injection E as <- <- <-.
    by apply (made_plain s w). }
  destruct (passthrough c).
  - apply cm_bind_inv in E as (xs & w1 & [Em Ek]%pcm_on_pk & E). destruct (_ <? _); [done|].
    rewrite cm_modify_bind in E. injection E as <- <- <-.
    split; cbn; [by rewrite Em, Ek, Hmk|lia].
  - apply cm_bind_inv in E as (xs & w1 & [Em Ek]%pcm_on_pk & E).
    rewrite (cm_bind_some _ _ _ _ _ (eq_refl : question w1 = Some _)) in E.
    specialize (Hu (calls w1) xs). destruct (decode (calls w1) xs) as [dl out]. cbn in Hu.
    rewrite cm_modify_bind in E. destruct (zlen out >? 0).
    + apply cm_bind_inv in E as (pc1 & w2 & [[Em2 Ek2] Hpc]%check_keeps & E). injection E as <- <- <-.
      cbn in Em2, Ek2. rewrite Em, Hmk, <- Ek, <- Ek2 in Em2. by destruct pc1; split.
    + injection E as <- <- <-. split; cbn; [by rewrite Em, Ek, Hmk|exact Hu].
Qed.

(** The wait for the output to drain keeps the PCM. *)
Lemma made_info s w ch sr level pc w' :
  pd s = DInfo ch sr level → made_ok s w → d_info ch sr level w = Some (pc, w') →
  made_ok (mk_ps (pg s) pc (pl s)) w'.
Proof.
  intros Es [Hm Hu] E. unfold unchecked in Hm, Hu. rewrite Es in Hm, Hu.
  unfold d_info in E. rewrite cm_get_bind in E. destruct (_ && _); [by injection E as <- <-|].
  destruct (_ =? 0); [rewrite cm_put_bind in E|rewrite bind_ret in E]; by injection E as <- <-.
Qed.

(** A call that used nothing made nothing. *)
Lemma made_account s w pc l' w' :
  made w = kept w ++ outbuf (pl s) → (outbuf (pl s) ≠ [] → 0 < dlen (pl s)) →
  d_account c (pl s) w = Some ((pc, l'), w') → made_ok (mk_ps (pg s) pc l') w'.
Proof.
  intros Hm Hu E. unfold d_account in E. destruct (Z.leb_spec (dlen (pl s)) 0) as [Hle|Hlt].
  - assert (outbuf (pl s) = []) as Eo by (destruct (outbuf (pl s)); [done|]; specialize (Hu ltac:(done)); lia).
    rewrite Eo, app_nil_r in Hm. apply cm_bind_inv in E as (l1 & w1 & E1 & E).
    rewrite cm_modify_bind in E. injection E as <- <- <-.
    assert (made w1 = made w ∧ kept w1 = kept w) as [Em Ek].
    { revert E1. repeat case_match; [apply pcm_ret|apply keeps_save|apply pcm_ret]. }
    split; cbn; [|done]. by rewrite app_nil_r, Em, Ek.
  - apply cm_bind_inv in E as (used & w1 & [Em Ek]%pcm_on_pk & E). rewrite cm_modify_bind in E.
    cbv zeta in E. set (l1 := if starving c && _ then _ else _) in E.
    assert (outbuf l1 = outbuf (pl s)) as El by (unfold l1; by destruct (_ && _)). clearbody l1.
    destruct (_ && negb (inlen _ =? 0)) eqn:Eg.
    + apply andb_true_iff in Eg as [[_ Hz%Z.eqb_eq]%andb_true_iff _]. rewrite El in Hz.
      assert (outbuf (pl s) = []) as Eo by (by destruct (outbuf (pl s))). rewrite Eo, app_nil_r in Hm.
      apply cm_bind_inv in E as (l2 & w2 & [Em2 Ek2]%keeps_save & E). rewrite cm_modify_bind in E.
      injection E as <- <- <-. split; cbn; [|done]. rewrite app_nil_r, Em2, Ek2. cbn. congruence.
    + apply cm_bind_inv in E as (k & w2 & [Em2 Ek2]%pcm_question & E). rewrite cm_modify_bind in E.
      injection E as <- <- <-. split; cbn; [|done]. rewrite app_nil_r, El, Em2, Ek2. cbn. congruence.
Qed.

Lemma latency_keeps l w l' w' :
  add_latency c l w = Some (l', w') →
  w' = w ∧ outbuf l' = outbuf l ∧ dlen l' = dlen l.
Proof.
  unfold add_latency. destruct (_ && _); [|by intros [= <- <-]]. rewrite cm_get_bind. cbv zeta.
  destruct (_ =? 0); [done|]. by intros [= <- <-].
Qed.

Lemma write_keeps l w pc l' w' :
  d_write l w = Some ((pc, l'), w') →
  (made w' = made w ∧ kept w' = kept w) ∧ match pc with DWrite | DLoop => True | _ => False end.
Proof.
  unfold d_write. rewrite cm_get_bind. destruct (_ && _); [|by intros [= <- _ <-]].
  destruct (_ <? _); [by intros [= <- _ <-]|].
  destruct (write_pcm_buffer _ _ _) as [[wlen b]|]; [|done]. destruct (wlen <? 0); [done|].
  rewrite cm_put_bind. by intros [= <- _ <-].
Qed.

Lemma made_decode B s w v s' w' :
  pcm_uses → pinv c L B s w v → made_ok s w → pipe_step c Decode s w = Some (s', w') → made_ok s' w'.
Proof.
  intros Hu Hi Hm ([pc l] & w1 & E & E')%cm_bind_inv. injection E' as <- <-.
  assert (∀ pc', unchecked (mk_ps (pg s) pc' l) = [] → made w1 = made w → kept w1 = kept w →
    unchecked s = [] → made_ok (mk_ps (pg s) pc' l) w1) as Hplain by (intros; by apply (made_plain s w)).
  destruct (pd s) as [| |ch sr lv| | |] eqn:Es; cbn [audio_decode_loop] in E.
  - pose proof (top_target _ _ _ _ _ E) as Ht. apply keeps_top in E as [? ?].
    apply Hplain; try done; [by destruct pc|unfold unchecked; by rewrite Es].
  - exact (made_loop B s w v pc l w1 Hu Hi Es Hm E).
  - apply cm_bind_inv in E as (pc1 & w2 & E & [= <- <- <-]). by apply (made_info s w ch sr lv).
  - apply cm_bind_inv in E as (l1 & w2 & E1 & E). apply latency_keeps in E1 as (-> & Eo & Ed).
    destruct Hm as [Hmk Hus]. unfold unchecked in Hmk, Hus. rewrite Es in Hmk, Hus.
    apply (made_account (mk_ps (pg s) DAfter l1) w); cbn; rewrite ?Eo, ?Ed; done.
  - apply write_keeps in E as [[? ?] Hpc].
    apply Hplain; try done; [by destruct pc|unfold unchecked; by rewrite Es].
  - injection E as <- <- <-. apply Hplain; try done. unfold unchecked. by rewrite Es.
Qed.

(** ** Whole schedules *)

Lemma made_step B s w v x s' w' :
  pcm_uses → pinv c L B s w v → made_ok s w → pipe_step c x s w = Some (s', w') → made_ok s' w'.
Proof.
  intros Hu Hi Hm E. destruct x as [| |n| |]; cbn [pipe_step] in E.
  - apply cm_bind_inv in E as (g & w1 & [Em Ek]%keeps_fetch & E). injection E as <- <-.
    destruct Hm as [Hmk Hus]. split; [by rewrite Em, Ek|done].
  - by apply (made_decode B s w v).
  - apply cm_bind_inv in E as (r & w1 & E1 & E). injection E as <- <-.
    unfold armdec_stream_read in E1. rewrite cm_get_bind in E1.
    destruct (read_pcm_buffer n (g_bst w)) as [[[r' bs] b]|]; [|done]. rewrite cm_put_bind in E1.
    injection E1 as _ <-. by destruct Hm.
  - apply cm_bind_inv in E as ([] & w1 & E1 & E). injection E as <- <-. injection E1 as <-.
    destruct Hm. by destruct (format_changed_flag w =? 0).
  - injection E as <- <-. by destruct Hm.
Qed.

Lemma made_run xs : ∀ B s w v s' w',
  pk_roomy → env_ok → cfg_ok c → pcm_uses → pinv c L B s w v → 512 * (B + fetches xs) < 2 ^ 31 →
  made_ok s w → pipe_run c xs s w = Some (s', w') → made_ok s' w'.
Proof.
  induction xs as [|x xs IH]; intros B s w v s' w' Hroom He Hc Hu Hi HB Hm E; cbn [pipe_run fetches] in *.
  { by injection E as <- <-. }
  assert (∀ ys, 0 ≤ fetches ys) as Hf by (intros ys; induction ys as [|[]]; cbn in *; lia).
  specialize (Hf xs). assert (0 ≤ cost x) by (destruct x; cbn; lia).
  destruct (step_inv c L B s w v x Hroom He Hc Hi ltac:(lia)) as (s1 & w1 & v1 & E1 & Hi1 & _).
  rewrite (cm_bind_some _ _ _ _ _ E1) in E.
  apply (IH (B + cost x) s1 w1 v1); try done; [lia|]. by apply (made_step B s w v x).
Qed.

(** [C10] The software decoder loses nothing, on a stream that is not APE and
    of less than 2 GB, while the memory for packages and rests does not fail
    and as long as a call of the decoder library that makes PCM also uses
    bytes: for every schedule of the two threads, the output and the resets of
    the track, the threads never leave their buffers; until they are asked to
    stop, the bytes read from the stream are, in order, the bytes the decoder
    used, then those that wait with the decoding thread, in the queue and with
    the reading thread, and all PCM the decoder library returned is, in order,
    what the output took, what is in the ring and what waits to be written.
    When they are asked to stop the first two are a beginning of it. *)
Theorem pipeline_lossless xs w :
  pk_roomy → env_ok → cfg_ok c → pcm_uses → fresh_arm L w → 512 * fetches xs < 2 ^ 31 →
  ∃ s' w' ring, pipeline c xs w = Some (s', w') ∧ ring_rep (g_bst w') L ring ∧
    eaten w' `prefix_of` taken w' ∧ heard w' ++ ring `prefix_of` made w' ∧
    (exit_decode_thread w' = 0 →
      taken w' = eaten w' ++ unread s' w' ∧ made w' = heard w' ++ ring ++ unwritten s').
Proof.
  intros Hroom He Hc Hu Hw HB. destruct (pipeline_inv c L xs w Hroom He Hc Hw HB) as (s' & w' & v & E & Hi).
  assert (made_ok s' w') as [Hmk _].
  { destruct (start_inv c L w Hw) as (w1 & v1 & E1 & Hi1 & _). unfold pipeline in E.
    rewrite (cm_bind_some _ _ _ _ _ E1) in E.
    apply (made_run xs 0 pipe_start w1 v1); try done.
    apply pcm_on_pk in E1 as [Em Ek]. destruct (fa_logs _ _ Hw) as (_ & _ & Hk & Hm & _).
    split; [|done]. by rewrite Em, Ek, Hk, Hm. }
  exists s', w', (v_ring v). rewrite (unread_ok _ _ _ _ _ _ Hi). destruct Hi as [_ _ _ _ _ _ Hd Hr Ht Hm _ _].
  destruct Ht as (x & Hx & Hx0), Hm as (y & Hy & Hy0). rewrite Hmk, Hy. split_and!; [done|done| | |].
  - rewrite Hx. by apply prefix_app_r.
  - rewrite (app_assoc (heard w')), <- app_assoc. by apply prefix_app_r.
  - intros Hex. rewrite Hx, Hx0, Hy0, app_nil_r by auto. split; [done|]. rewrite <- !app_assoc. do 2 f_equal.
    assert (v_out v = match pd s' with DWrite => outbuf (pl s') | _ => [] end) as ->
      by (destruct (pd s'); cbn in Hd; unfold after_call in Hd; naive_solver).
    unfold unchecked, unwritten. destruct (pd s'); by rewrite ?app_nil_r.
Qed.

End pcm.

(** ** The theorem at work *)

Lemma sample_pcm_uses : pcm_uses.
Proof. by intros k [|a [|b [|d xs]]]. Qed.

Lemma pipeline_lossless_witness :
  ∃ s' w' ring, pipeline mp3_config (turns 6 ++ [ResetTrack] ++ turns 3) arm_begin = Some (s', w') ∧
    ring_rep (g_bst w') 16 ring ∧
    eaten w' `prefix_of` taken w' ∧ heard w' ++ ring `prefix_of` made w' ∧
    (exit_decode_thread w' = 0 →
      taken w' = eaten w' ++ unread s' w' ∧ made w' = heard w' ++ ring ++ unwritten s').
Proof.
  apply (pipeline_lossless mp3_config 16 (turns 6 ++ [ResetTrack] ++ turns 3) arm_begin).
  - unfold pk_roomy. discriminate.
  - exact sample_env_ok.
  - exact mp3_config_ok.
  - exact sample_pcm_uses.
  - exact arm_begin_fresh.
  - reflexivity.
Defined.

(** A decoder that returns PCM and reports that it used nothing: the thread
    drops the PCM, and calls again with the same bytes behind the next
    package. *)
Definition hasty_env : ArmEnv := {|
  rd := λ k n, take (Z.to_nat n) [Z.of_nat k; 7];
  decode := λ _ xs, (0, xs);
  getinfo := λ k, (2, 48000);
  dec_pts := λ _, 0
|}.

Example pcm_dropped :
  (λ '(_, w), (bool_decide (made w = []), kept w, heard w)) <$>
    @pipeline _ hasty_env mp3_config (turns 6) arm_begin = Some (false, [], []).
Proof. vm_compute. reflexivity. Qed.
