(* ===== verification/MessagePool.v ===== *)
(** The command queue between the player's thread and the decoder's thread,
    LibAudio/amadec/adec-message.c.

    The pool is an array of 13 command pointers, of which 12 are used as a
    ring with an in and an out index and a count.  Commands are blocks of the
    heap [cmds]; a [free] of a pointer that is not a live block has no result.
    Sections under [msg_mutex] are single steps.  The unlocked wait of
    [adec_send_message] reads the count while other threads move it: the
    values it observes are an argument.

    [pool_rep] relates the world to a queue of commands, and the theorems say
    that the pool is a queue of at most 12 commands which drops, and frees,
    its oldest command when it is full, that no command leaks, and that the
    wait is bounded. *)

From S2P Require Import Prelude.

Definition MESSAGE_NUM_MAX : Z := 12.

(** [value] and [value_ext] are the 32 bits of the unions. *)
Record adec_cmd_t := mk_cmd {
  type : Z;
  has_arg : Z;
  ctrl_cmd : Z;
  value : Z;
  value_ext : Z
}.

Definition zero_cmd : adec_cmd_t := mk_cmd 0 0 0 0 0.

Record message_pool_t := mk_pool {
  message_lise : list Z;
  message_in_index : Z;
  message_out_index : Z;
  message_num : Z
}.

(** Signals sent to the decoder's thread. *)
Inductive wake := ThreadMgtSignal | ThreadPoolWake.

Record msg_world := mk_world {
  pool : message_pool_t;
  cmds : gmap Z adec_cmd_t;
  wakes : list wake
}.

Definition with_pool (w : msg_world) (p : message_pool_t) : msg_world :=
  mk_world p (cmds w) (wakes w).
Definition with_cmds (w : msg_world) (h : gmap Z adec_cmd_t) : msg_world :=
  mk_world (pool w) h (wakes w).
Definition send_wake (k : wake) : CM msg_world unit :=
  cm_modify (λ w, mk_world (pool w) (cmds w) (k :: wakes w)).

(** [free]: NULL is allowed, anything else has to be a live block. *)
Definition free_cmd (p : Z) : CM msg_world unit := λ w,
  if p =? 0 then Some (tt, w) else
  match cmds w !! p with
  | Some _ => Some (tt, with_cmds w (delete p (cmds w)))
  | None => None
  end.

Definition message_pool_empty (w : msg_world) : bool := message_num (pool w) =? 0.

Definition adec_message_pool_init : CM msg_world Z := λ w,
  Some (0, with_pool w (mk_pool (replicate 13 0) 0 0 0)).

(** [cmd] is the pointer [malloc] returned. *)
Definition adec_message_alloc (cmd : Z) : CM msg_world Z := λ w,
  if cmd =? 0 then Some (0, w)
  else Some (cmd, with_cmds w (<[cmd := zero_cmd]> (cmds w))).

Definition adec_message_free (cmd : Z) : CM msg_world Z := free_cmd cmd;; mret 0.

(** Writes to the fields of a command. *)
Definition set_cmd (p : Z) (f : adec_cmd_t → adec_cmd_t) : CM msg_world unit := λ w,
  match cmds w !! p with
  | Some c => Some (tt, with_cmds w (<[p := f c]> (cmds w)))
  | None => None
  end.

(** The wait of [adec_send_message]; [obs k] is the value of the [k]-th read
    of [message_num], and the result the number of 10 ms sleeps. *)
Fixpoint send_wait (fuel : nat) (obs : nat → Z) (k : nat) (retry_count : Z) : option Z :=
  match fuel with
  | O => None
  | S fuel =>
      if obs k >? MESSAGE_NUM_MAX /c 2 then
        if retry_count >? (obs (S k) - MESSAGE_NUM_MAX /c 2) * 10
        then Some (retry_count + 1)
        else send_wait fuel obs (S (S k)) (retry_count + 1)
      else Some retry_count
  end.

Definition SEND_FUEL : nat := 64.

Definition next_index (i : Z) : Z := (i + 1) %c MESSAGE_NUM_MAX.

(** The part of [adec_send_message] under the mutex. *)
Definition send_locked (cmd : Z) : CM msg_world Z :=
  w ← cm_get;
  let p := pool w in
  if message_num p <? MESSAGE_NUM_MAX then
    lise ← cm_lift (aset (message_lise p) (message_in_index p) cmd);
    cm_put (with_pool w (mk_pool lise (next_index (message_in_index p))
                           (message_out_index p) (message_num p + 1)));;
    send_wake ThreadPoolWake;;
    mret 0
  else
    oldestcmd ← cm_lift (aget (message_lise p) (message_in_index p));
    free_cmd oldestcmd;;
    lise ← cm_lift (aset (message_lise p) (message_in_index p) cmd);
    w ← cm_get;
    cm_put (with_pool w (mk_pool lise (next_index (message_in_index p))
                           (next_index (message_out_index p)) (message_num p)));;
    send_wake ThreadPoolWake;;
    mret 0.

Definition adec_send_message (obs : nat → Z) (cmd : Z) : CM msg_world Z :=
  send_wake ThreadMgtSignal;;
  cm_lift (send_wait SEND_FUEL obs 0 0);;
  send_locked cmd.

Definition adec_get_message : CM msg_world Z :=
  w ← cm_get;
  let p := pool w in
  if message_num p >? 0 then
    cmd ← cm_lift (aget (message_lise p) (message_out_index p));
    cm_put (with_pool w (mk_pool (message_lise p) (message_in_index p)
                           (next_index (message_out_index p)) (message_num p - 1)));;
    mret cmd
  else mret 0.

(** ** The queue of commands *)

Record pool_ring (p : message_pool_t) (q : list Z) (o : nat) : Prop := {
  pr_size : length (message_lise p) = 13%nat;
  pr_o : (o < 12)%nat;
  pr_out : message_out_index p = Z.of_nat o;
  pr_num : message_num p = zlen q;
  pr_fits : (length q ≤ 12)%nat;
  pr_in : message_in_index p = Z.of_nat (ring_at 12 o (length q));
  pr_cells : ∀ i, (i < length q)%nat → message_lise p !! ring_at 12 o i = q !! i
}.

(** The pool holds the commands [cs], oldest first; its pointers are
    different live blocks. *)
Definition pool_rep (w : msg_world) (q : list Z) (cs : list adec_cmd_t) : Prop :=
  (∃ o, pool_ring (pool w) q o) ∧ NoDup q ∧ (0 ∉ q) ∧
  Forall2 (λ p c, cmds w !! p = Some c) q cs.

(** Appending to the queue and dropping the oldest when 12 are held. *)
Definition enqueue {A} (q : list A) (x : A) : list A :=
  (if (length q <? 12)%nat then q else tail q) ++ [x].

Lemma next_index_ring o : (o < 12)%nat → next_index (Z.of_nat o) = Z.of_nat (ring_at 12 o 1).
Proof.
  intros Ho. unfold next_index, c_rem, MESSAGE_NUM_MAX.
  rewrite Z.rem_mod_nonneg by lia. unfold ring_at. destruct (Nat.ltb_spec (o + 1) 12).
  - rewrite Z.mod_small; lia.
  - assert (o = 11%nat) as -> by lia. done.
Qed.

Lemma pool_init_rep w :
  ∃ w', adec_message_pool_init w = Some (0, w') ∧ cmds w' = cmds w ∧ pool_rep w' [] [].
Proof.
  eexists. split; [done|]. split; [done|]. split_and!; try done; [|constructor|set_solver].
  exists 0%nat. split; simpl; try done; lia.
Qed.

(** A send into a ring that is not full. *)
Lemma ring_push p q o x :
  pool_ring p q o → (length q < 12)%nat →
  ∃ lise, aset (message_lise p) (message_in_index p) x = Some lise ∧
    pool_ring (mk_pool lise (next_index (message_in_index p)) (message_out_index p)
      (message_num p + 1)) (q ++ [x]) o.
Proof.
  intros [] Hlt. assert (ring_at 12 o (length q) < 12)%nat by (apply ring_at_lt; lia).
  eexists. split; [apply aset_some; unfold zlen; lia|].
  rewrite pr_in0, Nat2Z.id. split; simpl; try done.
  - by rewrite length_insert.
  - zlens.
  - zlens.
  - rewrite next_index_ring by done. rewrite ring_at_add, length_app by lia. done.
  - intros i Hi. rewrite length_app in Hi. simpl in Hi.
    destruct (decide (i = length q)) as [->|].
    + rewrite list_lookup_insert_eq by lia. rewrite lookup_app_r, Nat.sub_diag; [done|lia].
    + rewrite list_lookup_insert_ne by ring_lia. rewrite lookup_app_l by lia.
      apply pr_cells0. lia.
Qed.

(** A send into a full ring: the in index is the oldest command's. *)
Lemma ring_push_full p x0 q o x :
  pool_ring p (x0 :: q) o → length q = 11%nat →
  aget (message_lise p) (message_in_index p) = Some x0 ∧
  ∃ lise, aset (message_lise p) (message_in_index p) x = Some lise ∧
    pool_ring (mk_pool lise (next_index (message_in_index p))
      (next_index (message_out_index p)) (message_num p)) (q ++ [x]) (ring_at 12 o 1).
Proof.
  intros [] Hl. simpl in pr_in0. rewrite Hl in pr_in0.
  assert (ring_at 12 o 12 = o) as Ho by ring_lia. simpl in pr_in0. rewrite Ho in pr_in0.
  rewrite pr_in0, pr_out0, pr_num0. split.
  { unfold aget. rewrite (proj2 (Z.leb_le _ _)), Nat2Z.id by lia.
    etrans; [|apply (pr_cells0 0%nat); simpl; lia]. f_equal. ring_lia. }
  eexists. split; [apply aset_some; unfold zlen; lia|].
  rewrite Nat2Z.id, next_index_ring by done.
  split; simpl; try done.
  - by rewrite length_insert.
  - apply ring_at_lt; lia.
  - zlens.
  - zlens.
  - rewrite length_app, Hl. ring_lia.
  - intros i Hi. rewrite length_app, Hl in Hi. simpl in Hi.
    rewrite ring_at_add by lia.
    destruct (decide (i = 11)%nat) as [->|].
    + change (1 + 11)%nat with 12%nat. rewrite Ho, list_lookup_insert_eq by lia.
      rewrite lookup_app_r, Hl; [done|lia].
    + rewrite list_lookup_insert_ne by ring_lia. rewrite lookup_app_l by lia.
      rewrite (pr_cells0 (1 + i)%nat) by (simpl; lia). done.
Qed.

(** A get from a ring that is not empty. *)
Lemma ring_pop p x q o :
  pool_ring p (x :: q) o →
  aget (message_lise p) (message_out_index p) = Some x ∧
  pool_ring (mk_pool (message_lise p) (message_in_index p)
    (next_index (message_out_index p)) (message_num p - 1)) q (ring_at 12 o 1).
Proof.
  intros []. rewrite pr_out0. split.
  { unfold aget. rewrite (proj2 (Z.leb_le _ _)), Nat2Z.id by lia.
    etrans; [|apply (pr_cells0 0%nat); simpl; lia]. f_equal. ring_lia. }
  simpl in *. rewrite next_index_ring by done. split; simpl; try done.
  - apply ring_at_lt; lia.
  - zlens.
  - lia.
  - rewrite ring_at_add by lia. done.
  - intros i Hi. rewrite ring_at_add by lia. apply (pr_cells0 (1 + i)%nat). simpl. lia.
Qed.

(** ** The wait *)

(** From retry count [r] on, at most [62 - r] more sleeps. *)
Lemma send_wait_bound fuel obs k r :
  (∀ j, obs j ≤ MESSAGE_NUM_MAX) → 0 ≤ r ≤ 61 → 62 - r < Z.of_nat fuel →
  ∃ n, send_wait fuel obs k r = Some n ∧ r ≤ n ≤ 62.
Proof.
  intros Hobs. revert k r. induction fuel as [|fuel IH]; intros k r Hr Hf; [lia|].
  simpl. change (MESSAGE_NUM_MAX /c 2) with 6. pose proof (Hobs (S k)) as Hk.
  unfold MESSAGE_NUM_MAX in Hk. zcase.
  - eexists; split; [done|lia].
  - destruct (IH (S (S k)) (r + 1)) as (n & -> & Hn); [lia|lia|].
    eexists; split; [done|lia].
  - eexists; split; [done|lia].
Qed.

(** ** The operations on the represented queue *)

Lemma cmds_frame (h h' : gmap Z adec_cmd_t) q cs :
  (∀ p, p ∈ q → h' !! p = h !! p) → Forall2 (λ p c, h !! p = Some c) q cs →
  Forall2 (λ p c, h' !! p = Some c) q cs.
Proof.
  intros Hh Hf. induction Hf as [|p c q cs Hp Hf IH]; constructor.
  - rewrite Hh; [done|set_solver].
  - apply IH. set_solver.
Qed.

Lemma send_locked_spec w q cs p c :
  pool_rep w q cs → p ≠ 0 → p ∉ q → cmds w !! p = Some c →
  ∃ w', send_locked p w = Some (0, w') ∧ pool_rep w' (enqueue q p) (enqueue cs c) ∧
    cmds w' = (if (length q <? 12)%nat then cmds w else
                match q with x :: _ => delete x (cmds w) | [] => cmds w end).
Proof.
  intros ([o Hring] & Hnd & H0 & Hf) Hp Hpq Hc. pose proof (Forall2_length _ _ _ Hf) as Hlen.
  pose proof Hring as []. unfold send_locked, enqueue. rewrite <- Hlen.
  unfold mbind, cm_bind, cm_get, cm_lift, cm_put. simpl. unfold MESSAGE_NUM_MAX.
  destruct (Z.ltb_spec (message_num (pool w)) 12), (Nat.ltb_spec (length q) 12);
    try (exfalso; zlens).
  - destruct (ring_push _ _ _ p Hring) as (lise & -> & Hr); [lia|].
    eexists. split; [done|]. split; [|done]. split_and!; simpl.
    + eexists. exact Hr.
    + apply NoDup_app. split_and!; [done|set_solver|apply NoDup_singleton].
    + set_solver.
    + apply Forall2_app; [done|]. by repeat constructor.
  - destruct q as [|x q]; [simpl in *; lia|]. simpl in *.
    destruct cs as [|c0 cs]; [inversion Hf|]. simpl.
    apply NoDup_cons in Hnd as [Hx Hnd]. apply Forall2_cons in Hf as [Hx0 Hf].
    destruct (ring_push_full _ _ _ _ p Hring) as (-> & lise & Hset & Hr); [lia|].
    unfold free_cmd. rewrite (proj2 (Z.eqb_neq x 0)) by set_solver. rewrite Hx0, Hset.
    eexists. split; [done|]. split; [|done]. split_and!; simpl.
    + eexists. exact Hr.
    + apply NoDup_app. split_and!; [done|set_solver|apply NoDup_singleton].
    + set_solver.
    + apply Forall2_app.
      * eapply cmds_frame, Hf. intros p' Hp'. apply lookup_delete_ne. set_solver.
      * constructor; [|done]. rewrite lookup_delete_ne; [done|set_solver].
Qed.

Lemma send_spec w q cs obs p c :
  pool_rep w q cs → (∀ k, obs k ≤ MESSAGE_NUM_MAX) →
  p ≠ 0 → p ∉ q → cmds w !! p = Some c →
  ∃ w', adec_send_message obs p w = Some (0, w') ∧ pool_rep w' (enqueue q p) (enqueue cs c) ∧
    cmds w' = (if (length q <? 12)%nat then cmds w else
                match q with x :: _ => delete x (cmds w) | [] => cmds w end).
Proof.
  intros Hw Hobs Hp Hpq Hc. unfold adec_send_message.
  destruct (send_wait_bound SEND_FUEL obs 0 0 Hobs) as (n & Hn & _);
    [lia|vm_compute; done|].
  unfold mbind, cm_bind, cm_lift, send_wake, cm_modify. rewrite Hn.
  apply (send_locked_spec (mk_world (pool w) (cmds w) (ThreadMgtSignal :: wakes w)));
    done.
Qed.

Lemma get_spec w q cs :
  pool_rep w q cs →
  match q, cs with
  | p :: q', c :: cs' => ∃ w', adec_get_message w = Some (p, w') ∧
      pool_rep w' q' cs' ∧ cmds w' = cmds w ∧ cmds w !! p = Some c ∧ p ≠ 0
  | _, _ => adec_get_message w = Some (0, w)
  end.
Proof.
  intros ([o Hring] & Hnd & H0 & Hf). unfold adec_get_message, mbind, cm_bind. simpl.
  pose proof Hring as []. rewrite Z.gtb_ltb.
  destruct (Z.ltb_spec 0 (message_num (pool w))), Hf as [|p c q' cs' Hp Hf];
    try done; try (exfalso; zlens).
  destruct (ring_pop _ _ _ _ Hring) as [Hg Hr]. unfold cm_lift, cm_put. rewrite Hg.
  apply NoDup_cons in Hnd as [Hx Hnd].
  eexists. split; [done|]. split; [|by split_and!; [..|set_solver]].
  split_and!; [eexists; exact Hr|done|set_solver|done].
Qed.

(** ** Clients of the pool *)

(** The pattern of the control functions: allocate a command, fill in its
    fields with [f], send it. *)
Definition post_message (malloc : gmap Z adec_cmd_t → Z) (obs : nat → Z)
    (f : adec_cmd_t → adec_cmd_t) : CM msg_world Z :=
  w ← cm_get;
  cmd ← adec_message_alloc (malloc (cmds w));
  if cmd =? 0 then mret (-1) else
  set_cmd cmd f;;
  adec_send_message obs cmd.

(** The pattern of the message loop: get a command, use it, free it. *)
Definition take_message : CM msg_world (option adec_cmd_t) :=
  msg ← adec_get_message;
  if msg =? 0 then mret None else
  w ← cm_get;
  c ← cm_lift (cmds w !! msg);
  adec_message_free msg;;
  mret (Some c).

(** The pool holds [cs] and the live commands are exactly those and the
    blocks [own] that were taken and are not freed yet. *)
Definition pool_owned (w : msg_world) (cs : list adec_cmd_t) (own : gset Z) : Prop :=
  ∃ q, pool_rep w q cs ∧ dom (cmds w) = list_to_set q ∪ own ∧ (0 ∉ own) ∧ list_to_set q ## own.

Definition pool_holds (w : msg_world) (cs : list adec_cmd_t) : Prop := pool_owned w cs ∅.

(** What [malloc] promises: NULL or a block that is not in use. *)
Definition malloc_ok (malloc : gmap Z adec_cmd_t → Z) : Prop :=
  ∀ h, malloc h ≠ 0 → h !! malloc h = None.

Lemma post_message_owned malloc obs f w cs own :
  malloc_ok malloc → (∀ k, obs k ≤ MESSAGE_NUM_MAX) → pool_owned w cs own →
  (malloc (cmds w) = 0 ∧ post_message malloc obs f w = Some (-1, w)) ∨
  ∃ w', post_message malloc obs f w = Some (0, w') ∧
    pool_owned w' (enqueue cs (f zero_cmd)) own.
Proof.
  intros Hm Hobs (q & Hrep & Hdom & Hown & Hdisj).
  unfold post_message, mbind, cm_bind, cm_get.
  unfold adec_message_alloc. destruct (Z.eqb_spec (malloc (cmds w)) 0) as [H0|H0].
  { left. split; [done|]. done. }
  right. specialize (Hm _ H0). set (p := malloc (cmds w)) in *. unfold set_cmd.
  rewrite (proj2 (Z.eqb_neq p 0)) by done. simpl. rewrite lookup_insert_eq. simpl.
  rewrite insert_insert_eq. set (w1 := with_cmds _ _).
  assert (p ∉ dom (cmds w)) as Hd by (by apply not_elem_of_dom). rewrite Hdom in Hd.
  assert (p ∉ q) as Hpq by set_solver.
  assert (pool_rep w1 q cs) as Hrep1.
  { destruct Hrep as (Hr & Hnd & H00 & Hf). split_and!; try done. simpl.
    eapply cmds_frame, Hf. intros p' Hp'. apply lookup_insert_ne. set_solver. }
  destruct (send_spec w1 q cs obs p (f zero_cmd) Hrep1 Hobs H0 Hpq) as (w' & -> & Hrep' & Hc').
  { simpl. by rewrite lookup_insert_eq. }
  eexists. split; [done|]. exists (enqueue q p). split; [done|].
  rewrite Hc'. unfold enqueue. destruct (Nat.ltb_spec (length q) 12).
  - simpl. rewrite dom_insert_L, list_to_set_app_L, Hdom. set_solver.
  - destruct q as [|x q]; [simpl in *; lia|]. destruct Hrep as (_ & Hnd & _).
    apply NoDup_cons in Hnd as [Hx _]. simpl in *.
    rewrite dom_delete_L, dom_insert_L, list_to_set_app_L, Hdom. simpl.
    assert (x ∉@{gset Z} list_to_set q) by (by rewrite elem_of_list_to_set). set_solver.
Qed.

(** A get moves the oldest command from the queue to the taker. *)
Lemma get_owned w cs own :
  pool_owned w cs own →
  match cs with
  | [] => adec_get_message w = Some (0, w)
  | c :: cs' => ∃ p w', adec_get_message w = Some (p, w') ∧ p ≠ 0 ∧ (p ∉ own) ∧
      cmds w' !! p = Some c ∧ pool_owned w' cs' ({[p]} ∪ own)
  end.
Proof.
  intros (q & Hrep & Hdom & Hown & Hdisj). pose proof (get_spec w q cs Hrep) as Hg.
  pose proof (Forall2_length _ _ _ (proj2 (proj2 (proj2 Hrep)))) as Hlen.
  destruct q as [|p q], cs as [|c cs]; try done.
  destruct Hg as (w1 & Hg & Hrep1 & Hc1 & Hp & Hp0).
  destruct Hrep as (_ & Hnd & _). apply NoDup_cons in Hnd as [Hx _].
  assert (p ∉@{gset Z} list_to_set q) by (by rewrite elem_of_list_to_set).
  exists p, w1. split_and!; [done|done|set_solver|congruence|].
  exists q. rewrite Hc1, Hdom. split_and!; [done|set_solver..].
Qed.

(** A free of a taken command. *)
Lemma free_owned w cs own p :
  p ∉ own → pool_owned w cs ({[p]} ∪ own) →
  ∃ w', adec_message_free p w = Some (0, w') ∧ pool_owned w' cs own.
Proof.
  intros Hp (q & (Hr & Hnd & H0 & Hf) & Hdom & Hown & Hdisj).
  assert (p ≠ 0) as Hp0 by set_solver.
  destruct (cmds w !! p) as [c|] eqn:Hc; [|apply not_elem_of_dom in Hc; set_solver].
  unfold adec_message_free, free_cmd, mbind, cm_bind.
  rewrite (proj2 (Z.eqb_neq p 0)), Hc by done. eexists. split; [done|]. exists q. split_and!.
  - split_and!; try done. simpl. eapply cmds_frame, Hf.
    intros p' Hp'. apply lookup_delete_ne. set_solver.
  - simpl. rewrite dom_delete_L, Hdom. set_solver.
  - set_solver.
  - set_solver.
Qed.

Lemma post_message_spec malloc obs f w cs :
  malloc_ok malloc → (∀ k, obs k ≤ MESSAGE_NUM_MAX) → pool_holds w cs →
  (malloc (cmds w) = 0 ∧ post_message malloc obs f w = Some (-1, w)) ∨
  ∃ w', post_message malloc obs f w = Some (0, w') ∧ pool_holds w' (enqueue cs (f zero_cmd)).
Proof. apply post_message_owned. Qed.

Lemma take_message_spec w cs :
  pool_holds w cs →
  ∃ w', take_message w = Some (head cs, w') ∧ pool_holds w' (tail cs).
Proof.
  intros Hw. pose proof (get_owned w cs ∅ Hw) as Hg. unfold take_message.
  destruct cs as [|c cs]; [rewrite (cm_bind_some _ _ _ _ _ Hg); by eexists|].
  destruct Hg as (p & w1 & Hg & Hp & Hpo & Hc & Hw1). rewrite (cm_bind_some _ _ _ _ _ Hg).
  rewrite (proj2 (Z.eqb_neq p 0)) by done. unfold mbind, cm_bind, cm_get, cm_lift. rewrite Hc.
  destruct (free_owned w1 cs ∅ p Hpo Hw1) as (w2 & -> & Hw2). by eexists.
Qed.

(** ** Refinement *)

Inductive msg_op := MsgPost (f : adec_cmd_t → adec_cmd_t) (obs : nat → Z) | MsgTake.
Inductive msg_res := Posted (ret : Z) | Took (c : option adec_cmd_t).

(** The queue the pool promises; a post may fail for lack of memory. *)
Inductive msgq_step : list adec_cmd_t → msg_op → msg_res → list adec_cmd_t → Prop :=
| q_post cs f obs : msgq_step cs (MsgPost f obs) (Posted 0) (enqueue cs (f zero_cmd))
| q_post_nomem cs f obs : msgq_step cs (MsgPost f obs) (Posted (-1)) cs
| q_take cs : msgq_step cs MsgTake (Took (head cs)) (tail cs).

Inductive msgq_run : list adec_cmd_t → list msg_op → list msg_res → list adec_cmd_t → Prop :=
| q_done cs : msgq_run cs [] [] cs
| q_more cs op r cs1 ops rs cs2 :
    msgq_step cs op r cs1 → msgq_run cs1 ops rs cs2 → msgq_run cs (op :: ops) (r :: rs) cs2.

Definition msg_step (malloc : gmap Z adec_cmd_t → Z) (op : msg_op) : CM msg_world msg_res :=
  match op with
  | MsgPost f obs => r ← post_message malloc obs f; mret (Posted r)
  | MsgTake => c ← take_message; mret (Took c)
  end.

Fixpoint msg_run (malloc : gmap Z adec_cmd_t → Z) (ops : list msg_op)
    : CM msg_world (list msg_res) :=
  match ops with
  | [] => mret []
  | op :: ops => r ← msg_step malloc op; rs ← msg_run malloc ops; mret (r :: rs)
  end.

Definition obs_ok (op : msg_op) : Prop :=
  match op with MsgPost _ obs => ∀ k, obs k ≤ MESSAGE_NUM_MAX | MsgTake => True end.

Lemma msg_step_sim malloc op w cs :
  malloc_ok malloc → obs_ok op → pool_holds w cs →
  ∃ r w' cs', msg_step malloc op w = Some (r, w') ∧ msgq_step cs op r cs' ∧ pool_holds w' cs'.
Proof.
  intros Hm Hobs Hw. destruct op as [f obs|]; unfold msg_step.
  - destruct (post_message_spec malloc obs f w cs Hm Hobs Hw) as [[_ Hp]|(w' & Hp & Hw')];
      rewrite (cm_bind_some _ _ _ _ _ Hp); eexists _, _, _; split_and!; eauto using msgq_step.
  - destruct (take_message_spec w cs Hw) as (w' & Ht & Hw').
    rewrite (cm_bind_some _ _ _ _ _ Ht). eexists _, _, _; split_and!; eauto using msgq_step.
Qed.

(** [C5] The message pool is a queue of at most 12 commands: every sequence
    of posts (allocate, fill, send) and takes (get, free) runs without a
    double free or an access outside the ring, gives the answers of a queue
    whose full state drops the oldest command, and at every end the live
    command blocks are exactly the queued ones, so nothing leaks. *)
Theorem message_pool_refines_queue (malloc : gmap Z adec_cmd_t → Z) (ops : list msg_op)
    (w : msg_world) (cs : list adec_cmd_t) :
  malloc_ok malloc → Forall obs_ok ops → pool_holds w cs →
  ∃ rs w' cs', msg_run malloc ops w = Some (rs, w') ∧ msgq_run cs ops rs cs' ∧
    pool_holds w' cs' ∧ size (cmds w') = length cs'.
Proof.
  intros Hm Hobs. revert w cs. induction Hobs as [|op ops Hop Hops IH]; intros w cs Hw.
  - eexists _, w, cs. split_and!; [done|constructor|done|].
    destruct Hw as (q & (_ & Hnd & _ & Hf) & Hdom & _).
    rewrite <- size_dom, Hdom, union_empty_r_L, size_list_to_set by done.
    by eapply Forall2_length.
  - destruct (msg_step_sim malloc op w cs Hm Hop Hw) as (r & w1 & cs1 & Hs & Hq & Hw1).
    destruct (IH w1 cs1 Hw1) as (rs & w2 & cs2 & Hr & Hqs & Hw2 & Hsz).
    eexists (r :: rs), w2, cs2. split_and!; [|by econstructor|done..].
    simpl. rewrite (cm_bind_some _ _ _ _ _ Hs), (cm_bind_some _ _ _ _ _ Hr). done.
Qed.

(** An allocator with finitely many places. *)
Fixpoint first_fit (slots : list Z) (h : gmap Z adec_cmd_t) : Z :=
  match slots with
  | [] => 0
  | p :: slots => match h !! p with None => p | Some _ => first_fit slots h end
  end.

(** An allocator that never fails. *)
Definition room_malloc (h : gmap Z adec_cmd_t) : Z := fresh_key (map_keys h).

Lemma room_malloc_ok : malloc_ok room_malloc.
Proof. intros h _. by apply fresh_key_none. Qed.

Lemma room_malloc_room h : room_malloc h ≠ 0.
Proof. apply fresh_key_pos. Qed.

Lemma first_fit_ok slots : malloc_ok (first_fit slots).
Proof.
  intros h. induction slots as [|p slots IH]; simpl; [done|].
  by destruct (h !! p) eqn:E.
Qed.

Definition empty_world : msg_world := mk_world (mk_pool (replicate 13 0) 0 0 0) ∅ [].

Lemma empty_world_holds : pool_holds empty_world [].
Proof.
  exists []. split_and!; [|done|set_solver..].
  split_and!; [|constructor|set_solver|constructor].
  exists 0%nat. split; simpl; try done; lia.
Qed.

Definition post_ctrl (c : Z) : msg_op :=
  MsgPost (λ m, mk_cmd (type m) (has_arg m) c (value m) (value_ext m)) (λ _, 7).

(** A run in a heap of three blocks. *)
Lemma message_pool_refines_queue_witness :
  ∃ rs w' cs',
    msg_run (first_fit [8; 16; 24]) [post_ctrl 1; post_ctrl 2; MsgTake; post_ctrl 4; MsgTake]
      empty_world = Some (rs, w') ∧
    msgq_run [] [post_ctrl 1; post_ctrl 2; MsgTake; post_ctrl 4; MsgTake] rs cs' ∧
    pool_holds w' cs' ∧ size (cmds w') = length cs'.
Proof.
  apply (message_pool_refines_queue (first_fit [8; 16; 24])).
  - apply first_fit_ok.
  - repeat constructor; vm_compute; intros; congruence.
  - apply empty_world_holds.
Defined.

(** The unlocked wait of [adec_send_message] is bounded: whatever the
    decoder's thread does to the count meanwhile, as long as every value read
    is the count of a pool the queue operations produce, the sender sleeps at
    most 62 times (10 ms each) before it takes the mutex. *)
Theorem send_wait_terminates (states : nat → msg_world) :
  (∀ k, ∃ cs, pool_holds (states k) cs) →
  ∃ n, send_wait SEND_FUEL (λ k, message_num (pool (states k))) 0 0 = Some n ∧ 0 ≤ n ≤ 62.
Proof.
  intros Hs. apply send_wait_bound; [|lia|vm_compute; done].
  intros k. destruct (Hs k) as (cs & q & ((o & []) & _) & _). unfold MESSAGE_NUM_MAX. zlens.
Qed.

Lemma send_wait_terminates_witness :
  ∃ n, send_wait SEND_FUEL (λ k, message_num (pool ((λ _, empty_world) k))) 0 0 = Some n ∧
    0 ≤ n ≤ 62.
Proof. apply send_wait_terminates. intros k. exists []. apply empty_world_holds. Defined.

(** The bound is reached when nobody takes from a full pool. *)
Example send_wait_full : send_wait SEND_FUEL (λ _, 12) 0 0 = Some 62.
Proof. reflexivity. Qed.
