(* ===== verification/Audec.v ===== *)
(** The audio decoder instance of LibAudio/amadec and the world its thread
    runs in.

    [aml_audio_dec_t] (audio-dec.h) is the state the control functions, the
    message loop, the pts manager and the dsp driver share.  Its fields keep
    their names; a function pointer is the flag that says whether it is set,
    a float is its bits, except [codec_type_q], which is four times
    [codec_type] (the code only stores multiples of one quarter).  The [g_bst]
    stream is the ring of PcmBuffer.v, the message pool that of
    MessagePool.v.  A [long] has 64 bits.

    What the code cannot decide alone is asked from an oracle: the results of
    system calls, ioctls, sysfs and property reads and of the output device
    ([req] names the request), and the writes of other threads.  The world
    keeps the log of all requests.  A computation ends ([Done]), stops short
    for lack of fuel in the middle of a wait ([Waiting], with the world it
    reached, so that statements on the log cover every prefix of an endless
    run) or does what C does not allow ([Crash]). *)

From S2P Require Import Prelude PcmBuffer MessagePool.

(** ** Data *)

Inductive adec_state_t := IDLE | TERMINATED | STOPPED | INITING | INITTED | ACTIVE | PAUSED.

Definition state_num (s : adec_state_t) : Z :=
  match s with
  | IDLE => 0 | TERMINATED => 1 | STOPPED => 2 | INITING => 3
  | INITTED => 4 | ACTIVE => 5 | PAUSED => 6
  end.

#[export] Instance adec_state_eq_dec : EqDecision adec_state_t.
Proof. solve_decision. Defined.

Definition state_is (s t : adec_state_t) : bool := bool_decide (s = t).

Record dsp_operations_t := mk_dsp {
  dsp_file_fd : Z;
  dsp_on : Z;
  kernel_audio_pts : Z;
  last_audio_pts : Z;
  last_pts_valid : Z;
  dsp_read : bool;
  get_cur_pts : bool;
  get_cur_pcrscr : bool;
  set_cur_apts : bool;
  set_skip_bytes : bool;
  amstream_fd : Z
}.

#[export] Instance dsp_operations_eta : Eta dsp_operations_t := λ r,
  mk_dsp (dsp_file_fd r) (dsp_on r) (kernel_audio_pts r) (last_audio_pts r)
    (last_pts_valid r) (dsp_read r) (get_cur_pts r) (get_cur_pcrscr r)
    (set_cur_apts r) (set_skip_bytes r) (amstream_fd r).

Record audio_out_operations_t := mk_aout {
  aout_latency : bool;
  aout_mute : bool;
  aout_set_volume : bool;
  aout_set_lrvolume : bool;
  aout_set_track_rate : bool;
  track_rate_unset : bool
}.

#[export] Instance audio_out_operations_eta : Eta audio_out_operations_t := λ r,
  mk_aout (aout_latency r) (aout_mute r) (aout_set_volume r) (aout_set_lrvolume r)
    (aout_set_track_rate r) (track_rate_unset r).

Record aml_audio_dec_t := mk_audec {
  state : adec_state_t;
  thread_pid : Z;
  format : Z;
  channels : Z;
  samplerate : Z;
  data_width : Z;
  bitrate : Z;
  block_align : Z;
  codec_id : Z;
  need_stop : Z;
  auto_mute : Z;
  muted : Z;
  avsync_threshold : Z;
  volume : Z;
  volume_ext : Z;
  pre_gain : Z;
  pre_gain_enable : Z;
  pre_mute : Z;
  refresh_pts_readytime_ms : Z;
  soundtrack : Z;
  aout_ops : audio_out_operations_t;
  adsp_ops : dsp_operations_t;
  message_pool : msg_world;
  adec_ops : option (Z * Z);
  extradata_size : Z;
  extradata : list Z;
  SessionID : Z;
  format_changed_flag : Z;
  dspdec_not_supported : Z;
  droppcm_flag : Z;
  no_first_apts : Z;
  apts_start_flag : Z;
  first_apts : Z;
  pcm_bytes_readed : Z;
  codec_type_q : Z;
  g_bst : option buffer_stream_t;
  nDecodeErrCount : Z;
  tsync_mode : Z;
  audio_decoder_enabled : Z;
  droppcm_ms : Z;
  adis_flag : Z;
  tsync_pcr_dispoint : Z;
  pcrtsync_enable : Z;
  pcrmaster_droppcm_thsh : Z;
  pcrscr64 : Z;
  apts64 : Z;
  last_apts64 : Z;
  last_pcrscr64 : Z;
  mix_lr_channel_enable : Z;
  VersionNum : Z;
  has_video : Z
}.

#[export] Instance aml_audio_dec_eta : Eta aml_audio_dec_t := λ r,
  mk_audec (state r) (thread_pid r) (format r) (channels r) (samplerate r)
    (data_width r) (bitrate r) (block_align r) (codec_id r) (need_stop r)
    (auto_mute r) (muted r) (avsync_threshold r) (volume r) (volume_ext r)
    (pre_gain r) (pre_gain_enable r) (pre_mute r) (refresh_pts_readytime_ms r)
    (soundtrack r) (aout_ops r) (adsp_ops r) (message_pool r) (adec_ops r)
    (extradata_size r) (extradata r) (SessionID r) (format_changed_flag r)
    (dspdec_not_supported r) (droppcm_flag r) (no_first_apts r)
    (apts_start_flag r) (first_apts r) (pcm_bytes_readed r) (codec_type_q r)
    (g_bst r) (nDecodeErrCount r) (tsync_mode r) (audio_decoder_enabled r)
    (droppcm_ms r) (adis_flag r) (tsync_pcr_dispoint r) (pcrtsync_enable r)
    (pcrmaster_droppcm_thsh r) (pcrscr64 r) (apts64 r) (last_apts64 r)
    (last_pcrscr64 r) (mix_lr_channel_enable r) (VersionNum r) (has_video r).


(** The instance after [memset(audec, 0, ...)]. *)
Definition zero_msgs : msg_world := mk_world (mk_pool (replicate 13 0) 0 0 0) ∅ [].
Definition zero_dsp : dsp_operations_t := mk_dsp 0 0 0 0 0 false false false false false 0.
Definition zero_aout : audio_out_operations_t := mk_aout false false false false false false.
Definition zero_audec : aml_audio_dec_t := mk_audec IDLE 0 0 0 0 0 0 0 0 0 0 0 0 0 0 0 0 0 0 0
    zero_aout zero_dsp zero_msgs None 0 (replicate 4096 0) 0 0 0 0 0 0 0 0 0 None 0 0 0 0 0 0 0
    0 0 0 0 0 0 0 0.

(** ** Requests *)

Inductive dsp_ioctl :=
| AUDIODSP_SET_FMT | AUDIODSP_START | AUDIODSP_STOP | AUDIODSP_DECODE_START
| AUDIODSP_REGISTER_FIRMWARE (fmt : Z) (name : string) | AUDIODSP_UNREGISTER_ALLFIRMWARE
| AUDIODSP_SYNC_SET_APTS | AUDIODSP_WAIT_FORMAT | AUDIODSP_SKIP_BYTES
| AUDIODSP_GET_CHANNELS_NUM | AUDIODSP_GET_SAMPLERATE | AUDIODSP_GET_BITS_PER_SAMPLE
| AUDIODSP_GET_PTS | AUDIODSP_GET_DECODED_NB_FRAMES | AUDIODSP_GET_FIRST_PTS_FLAG
| AUDIODSP_SYNC_GET_PCRSCR | AUDIODSP_AUTOMUTE_ON | AUDIODSP_AUTOMUTE_OFF
| AUDIODSP_GET_PCM_LEVEL | AUDIODSP_SET_PCM_BUF_SIZE.

(** The control and the utils device of the audio driver. *)
Inductive hw_ioctl :=
| AMAUDIO_IOC_SET_CHANNEL_SWAP | AMAUDIO_IOC_SET_LEFT_MONO | AMAUDIO_IOC_SET_RIGHT_MONO
| AMAUDIO_IOC_SET_STEREO | AMAUDIO_IOC_GET_RESAMPLE_ENA.

(** What a sysfs node is written with. *)
Inductive payload := PStr (s : string) | PInt (z : Z) | PHex (prefix : string) (z : Z).

Inductive aout_call :=
| AoutInit | AoutStart | AoutPause | AoutResume | AoutStop | AoutLatency
| AoutMute (en : Z) | AoutSetVolume (vol : Z) | AoutSetLrVolume (lvol rvol : Z)
| AoutSetTrackRate (rate : Z).

Inductive req :=
| OpenDsp
| Close (fd : Z)
| DspIoctl (fd : Z) (cmd : dsp_ioctl) (arg : Z)
| DspRead (fd size : Z)
| DspReadRaw (size : Z)
| StreamIoctl (fd : Z)
| Aout (c : aout_call)
| SysfsGet (path : string)
| SysfsSet (path : string) (p : payload)
| Property (name : string)
| PropertySet (name value : string)
| ConfigBool (name : string)
| GetTime
| Usleep (us : Z)
| Malloc (size : Z)
| HwOpen (path : string)
| HwIoctl (fd : Z) (cmd : hw_ioctl)
| HwClose (fd : Z)
| ThreadCancel (pid : Z)
| ThreadJoin (pid : Z)
| ThreadCreate (loop : string)
| RegisterDecode (codec_type : Z)
| Access (path : string).

(** The static variables of the files. *)
Record statics := mk_statics {
  err_count : Z;
  apts_interrupt : Z;
  pcrmaster_droppcm_flag : Z;
  pre_filltime : Z;
  audio_decoder : Z
}.

#[export] Instance statics_eta : Eta statics := λ r,
  mk_statics (err_count r) (apts_interrupt r) (pcrmaster_droppcm_flag r) (pre_filltime r)
    (audio_decoder r).

Record world := mk_w {
  audec : aml_audio_dec_t;
  glob : statics;
  tick : nat;
  log : list (req * Z)
}.

#[export] Instance world_eta : Eta world := λ r,
  mk_w (audec r) (glob r) (tick r) (log r).

(** The answers at each tick: a number, a number that may be missing (a text
    that was not read or not parsed), a text, and the effect of the other
    threads on the decoder instance. *)
Record oracle := mk_oracle {
  o_int : nat → req → Z;
  o_opt : nat → req → option Z;
  o_str : nat → req → option string;
  o_env : nat → aml_audio_dec_t → aml_audio_dec_t
}.

(** ** Computations *)

Inductive outcome (A : Type) :=
| Done (a : A) (w : world)
| Waiting (w : world)
| Crash.
Arguments Done {_} _ _.
Arguments Waiting {_} _.
Arguments Crash {_}.

Definition LM (A : Type) : Type := oracle → world → outcome A.

#[export] Instance lm_ret : MRet LM := λ A a _ w, Done a w.
#[export] Instance lm_bind : MBind LM := λ A B f m o w,
  match m o w with
  | Done a w' => f a o w'
  | Waiting w' => Waiting w'
  | Crash => Crash
  end.

Definition record_req (r : req) (a : Z) (w : world) : world :=
  w <| tick := S (tick w) |> <| log := (r, a) :: log w |>.

Definition ask (r : req) : LM Z := λ o w,
  let a := o_int o (tick w) r in Done a (record_req r a w).
Definition ask_opt (r : req) : LM (option Z) := λ o w,
  Done (o_opt o (tick w) r) (record_req r 0 w).
Definition ask_str (r : req) : LM (option string) := λ o w,
  Done (o_str o (tick w) r) (record_req r 0 w).

(** A text of which a number and a word are parsed. *)
Definition ask_text (r : req) : LM (option Z * option string) := λ o w,
  Done (o_opt o (tick w) r, o_str o (tick w) r) (record_req r 0 w).

(** An ioctl whose result is looked at as well as the value it stores. *)
Definition ask_val (r : req) : LM (Z * Z) := λ o w,
  let a := o_int o (tick w) r in
  Done (a, default 0 (o_opt o (tick w) r)) (record_req r a w).

(** A point where other threads may have written. *)
Definition yield : LM unit := λ o w,
  Done tt (w <| tick := S (tick w) |> <| audec := o_env o (tick w) (audec w) |>).

Definition out_of_fuel {A} : LM A := λ _ w, Waiting w.
Definition crash {A} : LM A := λ _ _, Crash.

Definition get_audec : LM aml_audio_dec_t := λ _ w, Done (audec w) w.
Definition gets {A} (f : aml_audio_dec_t → A) : LM A := λ _ w, Done (f (audec w)) w.
Definition upd (f : aml_audio_dec_t → aml_audio_dec_t) : LM unit := λ _ w,
  Done tt (w <| audec := f (audec w) |>).
Definition upd_dsp (f : dsp_operations_t → dsp_operations_t) : LM unit :=
  upd (λ a, a <| adsp_ops := f (adsp_ops a) |>).
Definition gets_glob {A} (f : statics → A) : LM A := λ _ w, Done (f (glob w)) w.
Definition upd_glob (f : statics → statics) : LM unit := λ _ w,
  Done tt (w <| glob := f (glob w) |>).

(** A step of the message pool. *)
Definition on_pool {A} (c : CM msg_world A) : LM A := λ _ w,
  match c (message_pool (audec w)) with
  | Some (a, p) => Done a (w <| audec := audec w <| message_pool := p |> |>)
  | None => Crash
  end.

(** [amthreadpool_thread_usleep]: other threads run meanwhile. *)
Definition usleep (us : Z) : LM unit := ask (Usleep us);; yield.

(** A read of a flag other threads write. *)
Definition read_need_stop : LM Z := yield;; gets need_stop.
Definition read_auto_mute : LM Z := yield;; gets auto_mute.

Definition ignore {A} (m : LM A) : LM unit := m;; mret tt.

(** ** Reasoning about computations

    [wp I m Q]: from the given world [m] does not crash, ends with [Q], and
    where it stops in a wait [I] holds. *)

Definition wp (o : oracle) (I : world → Prop) {A} (m : LM A) (Q : A → world → Prop)
    (w : world) : Prop :=
  match m o w with
  | Done a w' => Q a w'
  | Waiting w' => I w'
  | Crash => False
  end.

Section wp_rules.
Context (o : oracle) (I : world → Prop).

Lemma wp_ret {A} (a : A) Q w : Q a w → wp o I (mret a) Q w.
Proof. done. Qed.

Lemma wp_bind {A B} (m : LM A) (f : A → LM B) Q w :
  wp o I m (λ a, wp o I (f a) Q) w → wp o I (m ≫= f) Q w.
Proof. unfold wp, mbind, lm_bind. by destruct (m o w). Qed.

Lemma wp_mono {A} (m : LM A) (Q Q' : A → world → Prop) w :
  wp o I m Q w → (∀ a w', Q a w' → Q' a w') → wp o I m Q' w.
Proof. unfold wp. destruct (m o w); eauto. Qed.

Lemma wp_ask r Q w :
  (∀ a, Q a (record_req r a w)) → wp o I (ask r) Q w.
Proof. intros H. unfold wp, ask. apply H. Qed.

Lemma wp_ask_exact r Q w :
  Q (o_int o (tick w) r) (record_req r (o_int o (tick w) r) w) → wp o I (ask r) Q w.
Proof. done. Qed.

Lemma wp_ask_val r Q w :
  (∀ a v, Q (a, v) (record_req r a w)) → wp o I (ask_val r) Q w.
Proof. intros H. unfold wp, ask_val. apply H. Qed.

Lemma wp_ask_opt r Q w :
  (∀ a, Q a (record_req r 0 w)) → wp o I (ask_opt r) Q w.
Proof. intros H. unfold wp, ask_opt. apply H. Qed.

Lemma wp_ask_text r Q w :
  (∀ a s, Q (a, s) (record_req r 0 w)) → wp o I (ask_text r) Q w.
Proof. intros H. unfold wp, ask_text. apply H. Qed.

Lemma wp_ask_str r Q w :
  (∀ a, Q a (record_req r 0 w)) → wp o I (ask_str r) Q w.
Proof. intros H. unfold wp, ask_str. apply H. Qed.

Lemma wp_ask_str_exact r Q w :
  Q (o_str o (tick w) r) (record_req r 0 w) → wp o I (ask_str r) Q w.
Proof. done. Qed.

Lemma wp_gets {A} (f : aml_audio_dec_t → A) Q w :
  Q (f (audec w)) w → wp o I (gets f) Q w.
Proof. done. Qed.

Lemma wp_get_audec Q w : Q (audec w) w → wp o I get_audec Q w.
Proof. done. Qed.

Lemma wp_upd f Q w : Q tt (w <| audec := f (audec w) |>) → wp o I (upd f) Q w.
Proof. done. Qed.

Lemma wp_upd_dsp f Q w :
  Q tt (w <| audec := audec w <| adsp_ops := f (adsp_ops (audec w)) |> |>) →
  wp o I (upd_dsp f) Q w.
Proof. done. Qed.

Lemma wp_gets_glob {A} (f : statics → A) Q w : Q (f (glob w)) w → wp o I (gets_glob f) Q w.
Proof. done. Qed.

Lemma wp_upd_glob f Q w : Q tt (w <| glob := f (glob w) |>) → wp o I (upd_glob f) Q w.
Proof. done. Qed.

Lemma wp_yield Q w :
  Q tt (w <| tick := S (tick w) |> <| audec := o_env o (tick w) (audec w) |>) →
  wp o I yield Q w.
Proof. done. Qed.

Lemma wp_out_of_fuel {A} (Q : A → world → Prop) w : I w → wp o I out_of_fuel Q w.
Proof. done. Qed.

Lemma wp_intro {A} (m : LM A) (Q : A → world → Prop) w a w' :
  m o w = Done a w' → Q a w' → wp o I m Q w.
Proof. unfold wp. by intros ->. Qed.

Lemma wp_elim {A} (m : LM A) Q w :
  wp o I m Q w →
  match m o w with Done a w' => Q a w' | Waiting w' => I w' | Crash => False end.
Proof. done. Qed.

Lemma wp_done {A} (m : LM A) Q w :
  (∀ w', ¬ I w') → wp o I m Q w → ∃ a w', m o w = Done a w' ∧ Q a w'.
Proof. unfold wp. intros HI. destruct (m o w); naive_solver. Qed.

End wp_rules.

#[global] Opaque wp.

(** One syntax-directed step through a computation. *)
Ltac wp_step :=
  lazymatch goal with
  | |- wp _ _ (_ ≫= _) _ _ => apply wp_bind
  | |- wp _ _ (mret _) _ _ => apply wp_ret
  | |- wp _ _ (gets _) _ _ => apply wp_gets
  | |- wp _ _ get_audec _ _ => apply wp_get_audec
  | |- wp _ _ (upd _) _ _ => apply wp_upd
  | |- wp _ _ (upd_dsp _) _ _ => apply wp_upd_dsp
  | |- wp _ _ (gets_glob _) _ _ => apply wp_gets_glob
  | |- wp _ _ (upd_glob _) _ _ => apply wp_upd_glob
  end; cbv beta iota.
Ltac wp_steps := cbv beta iota zeta; repeat wp_step.
