(* ===== verification/Dsp.v ===== *)
(** The audio dsp driver (LibAudio/amadec/dsp/audiodsp-ctl.c), the feeder
    built on it (LibAudio/amadec/feeder.c) and the format tracking of
    LibAudio/amadec/audiodsp_update_format.c.

    The theorems follow the dsp's file descriptor through the request log:
    it is opened only when none is held, used and closed only while open, and
    [dsp_file_fd] always says which one is open, on the error paths too; the
    wait for the stream format is bounded; the format and firmware tables
    agree. *)

From S2P Require Import Prelude PcmBuffer MessagePool Audec.

(** ** Formats and firmware *)

Definition ADEC_AUDIO_FORMAT_UNKNOWN : Z := -1.
Definition ADEC_AUDIO_FORMAT_MPEG : Z := 0.
Definition ADEC_AUDIO_FORMAT_PCM_S16LE : Z := 1.
Definition ADEC_AUDIO_FORMAT_AAC : Z := 2.
Definition ADEC_AUDIO_FORMAT_AC3 : Z := 3.
Definition ADEC_AUDIO_FORMAT_ALAW : Z := 4.
Definition ADEC_AUDIO_FORMAT_MULAW : Z := 5.
Definition ADEC_AUDIO_FORMAT_DTS : Z := 6.
Definition ADEC_AUDIO_FORMAT_PCM_S16BE : Z := 7.
Definition ADEC_AUDIO_FORMAT_FLAC : Z := 8.
Definition ADEC_AUDIO_FORMAT_COOK : Z := 9.
Definition ADEC_AUDIO_FORMAT_PCM_U8 : Z := 10.
Definition ADEC_AUDIO_FORMAT_ADPCM : Z := 11.
Definition ADEC_AUDIO_FORMAT_AMR : Z := 12.
Definition ADEC_AUDIO_FORMAT_RAAC : Z := 13.
Definition ADEC_AUDIO_FORMAT_WMA : Z := 14.
Definition ADEC_AUDIO_FORMAT_WMAPRO : Z := 15.
Definition ADEC_AUDIO_AFORMAT_PCM_BLURAY : Z := 16.
Definition ADEC_AUDIO_AFORMAT_ALAC : Z := 17.
Definition ADEC_AUDIO_AFORMAT_VORBIS : Z := 18.
Definition ADEC_AUDIO_FORMAT_AAC_LATM : Z := 19.
Definition ADEC_AUDIO_FORMAT_APE : Z := 20.
Definition ADEC_AUDIO_FORMAT_EAC3 : Z := 21.
Definition ADEC_AUDIO_FORMAT_PCM_WIFIDISPLAY : Z := 22.

Definition MCODEC_FMT_MPEG123 : Z := 1.
Definition MCODEC_FMT_AAC : Z := 2.
Definition MCODEC_FMT_AC3 : Z := 4.
Definition MCODEC_FMT_DTS : Z := 8.
Definition MCODEC_FMT_FLAC : Z := 16.
Definition MCODEC_FMT_COOK : Z := 32.
Definition MCODEC_FMT_AMR : Z := 64.
Definition MCODEC_FMT_RAAC : Z := 128.
Definition MCODEC_FMT_ADPCM : Z := 256.
Definition MCODEC_FMT_WMA : Z := 512.
Definition MCODEC_FMT_PCM : Z := 1024.
Definition MCODEC_FMT_WMAPRO : Z := 2048.
Definition MCODEC_FMT_ALAC : Z := 4096.
Definition MCODEC_FMT_VORBIS : Z := 8192.
Definition MCODEC_FMT_AAC_LATM : Z := 16384.
Definition MCODEC_FMT_APE : Z := 32768.
Definition MCODEC_FMT_EAC3 : Z := 65536.

Record firmware_s_t := mk_fw { fw_id : Z; fw_fmt : Z; fw_name : string }.

Definition firmware_list : list firmware_s_t :=
  [ mk_fw 0 MCODEC_FMT_MPEG123 "audiodsp_codec_mad.bin"
  ; mk_fw 1 MCODEC_FMT_AAC "audiodsp_codec_aac_helix.bin"
  ; mk_fw 2 (Z.lor MCODEC_FMT_AC3 MCODEC_FMT_EAC3) "audiodsp_codec_ddp_dcv.bin"
  ; mk_fw 3 MCODEC_FMT_DTS "audiodsp_codec_dtshd.bin"
  ; mk_fw 4 MCODEC_FMT_FLAC "audiodsp_codec_flac.bin"
  ; mk_fw 5 MCODEC_FMT_COOK "audiodsp_codec_cook.bin"
  ; mk_fw 6 MCODEC_FMT_AMR "audiodsp_codec_amr.bin"
  ; mk_fw 7 MCODEC_FMT_RAAC "audiodsp_codec_raac.bin"
  ; mk_fw 8 MCODEC_FMT_ADPCM "audiodsp_codec_adpcm.bin"
  ; mk_fw 9 MCODEC_FMT_WMA "audiodsp_codec_wma.bin"
  ; mk_fw 10 MCODEC_FMT_PCM "audiodsp_codec_pcm.bin"
  ; mk_fw 11 MCODEC_FMT_WMAPRO "audiodsp_codec_wmapro.bin"
  ; mk_fw 12 MCODEC_FMT_ALAC "audiodsp_codec_alac.bin"
  ; mk_fw 13 MCODEC_FMT_VORBIS "audiodsp_codec_vorbis.bin"
  ; mk_fw 14 MCODEC_FMT_AAC_LATM "audiodsp_codec_aac.bin"
  ; mk_fw 15 MCODEC_FMT_APE "audiodsp_codec_ape.bin" ].

(** The switch of the source, one pair per case label. *)
Definition switch_table : list (Z * Z) :=
  [ (ADEC_AUDIO_FORMAT_MPEG, MCODEC_FMT_MPEG123)
  ; (ADEC_AUDIO_FORMAT_AAC_LATM, MCODEC_FMT_AAC_LATM)
  ; (ADEC_AUDIO_FORMAT_AAC, MCODEC_FMT_AAC)
  ; (ADEC_AUDIO_FORMAT_AC3, MCODEC_FMT_AC3)
  ; (ADEC_AUDIO_FORMAT_EAC3, MCODEC_FMT_EAC3)
  ; (ADEC_AUDIO_FORMAT_DTS, MCODEC_FMT_DTS)
  ; (ADEC_AUDIO_FORMAT_FLAC, MCODEC_FMT_FLAC)
  ; (ADEC_AUDIO_FORMAT_COOK, MCODEC_FMT_COOK)
  ; (ADEC_AUDIO_FORMAT_AMR, MCODEC_FMT_AMR)
  ; (ADEC_AUDIO_FORMAT_RAAC, MCODEC_FMT_RAAC)
  ; (ADEC_AUDIO_FORMAT_ADPCM, MCODEC_FMT_ADPCM)
  ; (ADEC_AUDIO_FORMAT_PCM_S16BE, MCODEC_FMT_PCM)
  ; (ADEC_AUDIO_FORMAT_PCM_S16LE, MCODEC_FMT_PCM)
  ; (ADEC_AUDIO_FORMAT_PCM_U8, MCODEC_FMT_PCM)
  ; (ADEC_AUDIO_AFORMAT_PCM_BLURAY, MCODEC_FMT_PCM)
  ; (ADEC_AUDIO_FORMAT_PCM_WIFIDISPLAY, MCODEC_FMT_PCM)
  ; (ADEC_AUDIO_FORMAT_WMA, MCODEC_FMT_WMA)
  ; (ADEC_AUDIO_FORMAT_WMAPRO, MCODEC_FMT_WMAPRO)
  ; (ADEC_AUDIO_AFORMAT_ALAC, MCODEC_FMT_ALAC)
  ; (ADEC_AUDIO_AFORMAT_VORBIS, MCODEC_FMT_VORBIS)
  ; (ADEC_AUDIO_FORMAT_APE, MCODEC_FMT_APE) ].

Definition switch_audiodsp (fmt : Z) : Z :=
  match list_find (λ p, p.1 = fmt) switch_table with
  | Some (_, (_, m)) => m
  | None => 0
  end.

Definition find_firmware_by_fmt (m_fmt : Z) : option firmware_s_t :=
  snd <$> list_find (λ f, Z.land (fw_fmt f) m_fmt ≠ 0) firmware_list.

(** ** The dsp device *)

Definition dsp (a : aml_audio_dec_t) : dsp_operations_t := adsp_ops a.

Definition ioctl (cmd : dsp_ioctl) (arg : Z) : LM Z :=
  fd ← gets (λ a, dsp_file_fd (dsp a));
  ask (DspIoctl fd cmd arg).

Definition register_firmware (fd fmt : Z) (name : string) : LM Z :=
  ask (DspIoctl fd (AUDIODSP_REGISTER_FIRMWARE fmt name) 0).

Fixpoint register_all (fd : Z) (l : list firmware_s_t) : LM unit :=
  match l with
  | [] => mret tt
  | f :: l => register_firmware fd (fw_fmt f) (fw_name f);; register_all fd l
  end.

(** The loop runs at least once, so the results of the registrations are
    overwritten with 0 and the close on an error is not reached. *)
Definition audiodsp_init : LM Z :=
  held ← gets (λ a, dsp_file_fd (dsp a));
  fd ← (if held <? 0 then ask OpenDsp else mret (-1));
  if fd <? 0 then mret (-1) else
  ask (DspIoctl fd AUDIODSP_UNREGISTER_ALLFIRMWARE 0);;
  register_all fd firmware_list;;
  upd_dsp (λ d, d <| dsp_file_fd := fd |>);;
  mret 0.

Definition PARSER_WAIT_MAX : Z := 100.

(** The do-while on AUDIODSP_WAIT_FORMAT: [inl r] returns [r] from the
    function, [inr ret] leaves the loop. *)
Fixpoint wait_format (fuel : nat) : LM (Z + Z) :=
  match fuel with
  | O => out_of_fuel
  | S fuel =>
      ret ← ioctl AUDIODSP_WAIT_FORMAT 0;
      stop ← (if negb (ret =? 0) then read_need_stop else mret 0);
      let continue : LM (Z + Z) :=
        stop ← read_need_stop;
        if (stop =? 0) && negb (ret =? 0) then wait_format fuel else mret (inr ret) in
      if negb (ret =? 0) && (stop =? 0) then
        upd_glob (λ g, g <| err_count := err_count g + 1 |>);;
        usleep (1000 * 20);;
        n ← gets_glob err_count;
        if n >? PARSER_WAIT_MAX then
          ioctl AUDIODSP_STOP 0;;
          mret (inl (-4))
        else continue
      else continue
  end.

Definition WAIT_FORMAT_FUEL : nat := 102.

(** [val != (unsigned long) -1] keeps the field. *)
Definition read_stream_info : LM unit :=
  val ← ioctl AUDIODSP_GET_CHANNELS_NUM 0;
  (if u64 val =? 2 ^ 64 - 1 then mret tt else upd (λ a, a <| channels := i32 val |>));;
  val ← ioctl AUDIODSP_GET_SAMPLERATE 0;
  (if u64 val =? 2 ^ 64 - 1 then mret tt else upd (λ a, a <| samplerate := i32 val |>));;
  val ← ioctl AUDIODSP_GET_BITS_PER_SAMPLE 0;
  (if u64 val =? 2 ^ 64 - 1 then mret tt else upd (λ a, a <| data_width := i32 val |>)).

Definition audiodsp_start : LM Z :=
  fd ← gets (λ a, dsp_file_fd (dsp a));
  if fd <? 0 then mret (-1) else
  wfd ← ask (ConfigBool "vendor.media.libplayer.wfd");
  ioctl AUDIODSP_SET_PCM_BUF_SIZE (if negb (wfd =? 0) then 8 * 1024 else 32 * 1024);;
  fmt ← gets format;
  let m_fmt := switch_audiodsp fmt in
  match find_firmware_by_fmt m_fmt with
  | None => mret (-2)
  | Some _ =>
      ioctl AUDIODSP_SET_FMT m_fmt;;
      ret ← ioctl AUDIODSP_START 0;
      if negb (ret =? 0) then mret (-3) else
      stop ← read_need_stop;
      if negb (stop =? 0) then
        ioctl AUDIODSP_STOP 0;;
        mret (-5)
      else
      ret ← ioctl AUDIODSP_DECODE_START 0;
      upd_glob (λ g, g <| err_count := 0 |>);;
      r ← (if ret =? 0 then wait_format WAIT_FORMAT_FUEL else mret (inr ret));
      match r with
      | inl e => mret e
      | inr ret =>
          if negb (ret =? 0) then
            ioctl AUDIODSP_STOP 0;;
            mret (-4)
          else
            read_stream_info;;
            mret ret
      end
  end.

Definition audiodsp_stop : LM Z :=
  fd ← gets (λ a, dsp_file_fd (dsp a));
  if fd <? 0 then mret (-1) else ioctl AUDIODSP_STOP 0.

Definition audiodsp_release : LM Z :=
  fd ← gets (λ a, dsp_file_fd (dsp a));
  if fd <? 0 then mret (-1) else
  ask (Close fd);;
  upd_dsp (λ d, d <| dsp_file_fd := -1 |>);;
  mret 0.

Definition audiodsp_stream_read (size : Z) : LM Z :=
  fd ← gets (λ a, dsp_file_fd (dsp a));
  if fd <? 0 then mret 0 else ask (DspRead fd size).

Definition audiodsp_get_pts : LM Z :=
  fd ← gets (λ a, dsp_file_fd (dsp a));
  if fd <? 0 then mret (u64 (-1)) else
  val ← ioctl AUDIODSP_GET_PTS 0; mret (u64 val).

Definition audiodsp_get_pcrscr : LM Z :=
  fd ← gets (λ a, dsp_file_fd (dsp a));
  if fd <? 0 then mret (u64 (-1)) else
  val ← ioctl AUDIODSP_SYNC_GET_PCRSCR 0; mret (u64 val).

Definition audiodsp_set_apts (apts : Z) : LM Z :=
  fd ← gets (λ a, dsp_file_fd (dsp a));
  if fd <? 0 then mret (-1) else
  ioctl AUDIODSP_SYNC_SET_APTS apts;; mret 0.

(** The guard is on the descriptor being nonzero. *)
Definition audiodsp_get_decoded_nb_frames : LM Z :=
  fd ← gets (λ a, dsp_file_fd (dsp a));
  if negb (fd =? 0) then
    val ← ioctl AUDIODSP_GET_DECODED_NB_FRAMES 0; mret (i32 val)
  else mret (-1).

Definition audiodsp_get_first_pts_flag : LM Z :=
  fd ← gets (λ a, dsp_file_fd (dsp a));
  if fd <? 0 then mret (-1) else
  val ← ioctl AUDIODSP_GET_FIRST_PTS_FLAG 0; mret (i32 val).

Definition audiodsp_automute_on : LM Z :=
  fd ← gets (λ a, dsp_file_fd (dsp a));
  if fd <? 0 then mret (-1) else ioctl AUDIODSP_AUTOMUTE_ON 0.

Definition audiodsp_automute_off : LM Z :=
  fd ← gets (λ a, dsp_file_fd (dsp a));
  if fd <? 0 then mret (-1) else ioctl AUDIODSP_AUTOMUTE_OFF 0.

Definition audiodsp_get_pcm_level : LM Z :=
  fd ← gets (λ a, dsp_file_fd (dsp a));
  if fd <? 0 then mret (-1) else
  val ← ioctl AUDIODSP_GET_PCM_LEVEL 0; mret (i32 val).

Definition audiodsp_set_skip_bytes (bytes : Z) : LM Z :=
  fd ← gets (λ a, dsp_file_fd (dsp a));
  if fd <? 0 then mret (-1) else ioctl AUDIODSP_SKIP_BYTES bytes.

(** ** The feeder *)

Definition FORMAT_PATH : string := "/sys/class/astream/format".

(** The chain of comparisons, in order: literal, length compared, format. *)
Definition format_chain : list (string * nat * Z) :=
  [ ("NA", 2%nat, ADEC_AUDIO_FORMAT_UNKNOWN)
  ; ("amadec_mpeg", 11%nat, ADEC_AUDIO_FORMAT_MPEG)
  ; ("amadec_pcm_s16le", 16%nat, ADEC_AUDIO_FORMAT_PCM_S16LE)
  ; ("amadec_pcm_s16be", 16%nat, ADEC_AUDIO_FORMAT_PCM_S16BE)
  ; ("amadec_pcm_u8", 13%nat, ADEC_AUDIO_FORMAT_PCM_U8)
  ; ("amadec_adpcm", 12%nat, ADEC_AUDIO_FORMAT_ADPCM)
  ; ("amadec_aac_latm", 15%nat, ADEC_AUDIO_FORMAT_AAC_LATM)
  ; ("amadec_aac", 10%nat, ADEC_AUDIO_FORMAT_AAC)
  ; ("amadec_ac3", 10%nat, ADEC_AUDIO_FORMAT_AC3)
  ; ("amadec_eac3", 11%nat, ADEC_AUDIO_FORMAT_EAC3)
  ; ("amadec_alaw", 11%nat, ADEC_AUDIO_FORMAT_ALAW)
  ; ("amadec_mulaw", 12%nat, ADEC_AUDIO_FORMAT_MULAW)
  ; ("amadec_dts", 10%nat, ADEC_AUDIO_FORMAT_DTS)
  ; ("amadec_flac", 11%nat, ADEC_AUDIO_FORMAT_FLAC)
  ; ("amadec_cook", 11%nat, ADEC_AUDIO_FORMAT_COOK)
  ; ("amadec_amr", 10%nat, ADEC_AUDIO_FORMAT_AMR)
  ; ("amadec_raac", 11%nat, ADEC_AUDIO_FORMAT_RAAC)
  ; ("amadec_wmapro", 13%nat, ADEC_AUDIO_FORMAT_WMAPRO)
  ; ("amadec_wma", 10%nat, ADEC_AUDIO_FORMAT_WMA)
  ; ("amadec_pcm_bluray", 10%nat, ADEC_AUDIO_AFORMAT_PCM_BLURAY)
  ; ("amadec_alac", 11%nat, ADEC_AUDIO_AFORMAT_ALAC)
  ; ("amadec_vorbis", 13%nat, ADEC_AUDIO_AFORMAT_VORBIS)
  ; ("amadec_ape", 10%nat, ADEC_AUDIO_FORMAT_APE)
  ; ("amadec_pcm_widi", 15%nat, ADEC_AUDIO_FORMAT_PCM_WIFIDISPLAY) ].

Fixpoint first_match (s : string) (l : list (string * nat * Z)) : Z :=
  match l with
  | [] => ADEC_AUDIO_FORMAT_UNKNOWN
  | (lit, n, f) :: l => if strncmp_eq n s lit then f else first_match s l
  end.

(** What [get_audio_format] decides on the text of the node. *)
Definition audio_format_of (s : string) : Z := first_match s format_chain.

(** [format[0] = 0] is what a failing read leaves. *)
Definition get_audio_format : LM Z :=
  s ← ask_str (SysfsGet FORMAT_PATH);
  mret (audio_format_of (default "" s)).

Definition feeder_init : LM Z :=
  f ← get_audio_format;
  upd (λ a, a <| format := f |>);;
  if f =? ADEC_AUDIO_FORMAT_UNKNOWN then mret (-1) else
  ret ← audiodsp_init;
  if negb (ret =? 0) then mret (-1) else
  ret ← audiodsp_start;
  if ret =? 0 then
    upd_dsp (λ d, d <| dsp_on := 1 |> <| dsp_read := true |> <| get_cur_pts := true |>
                    <| get_cur_pcrscr := true |> <| set_cur_apts := true |>
                    <| set_skip_bytes := true |>);;
    upd (λ a, a <| audio_decoder_enabled := 1 |>);;
    mret ret
  else
    audiodsp_release;;
    upd_dsp (λ d, d <| dsp_on := 0 |> <| dsp_read := false |> <| get_cur_pts := false |>
                    <| get_cur_pcrscr := false |> <| set_skip_bytes := false |>);;
    mret ret.

Definition feeder_release : LM Z :=
  ret ← audiodsp_stop;
  if negb (ret =? 0) then mret (-1) else
  ret ← audiodsp_release;
  if negb (ret =? 0) then mret (-1) else
  upd_dsp (λ d, d <| dsp_on := 0 |> <| dsp_read := false |>);;
  mret ret.

(** ** Format changes of the running stream *)

Definition AUDIO_ARC_DECODER : Z := 0.
Definition AUDIO_ARM_DECODER : Z := 1.
Definition AUDIO_FFMPEG_DECODER : Z := 2.
Definition AUDIO_ARMWFD_DECODER : Z := 3.

Definition get_audio_decoder : LM Z := gets_glob audio_decoder.

(** The function that mutes is called without a test. *)
Definition adec_reset_track : LM unit :=
  yield;;
  a ← get_audec;
  if negb (format_changed_flag a =? 0) && (state_num INITTED <=? state_num (state a))
     && (need_stop a =? 0) then
    (if negb (aout_mute (aout_ops a)) then crash else ask (Aout (AoutMute 1)));;
    ask (Aout AoutPause);;
    ask (Aout AoutStop);;
    upd (λ a, match g_bst a with
              | Some b => a <| channels := PcmBuffer.channels b |>
                            <| samplerate := PcmBuffer.samplerate b |>
              | None => a
              end);;
    ask (Aout AoutInit);;
    st ← gets state;
    (if state_is st ACTIVE then ignore (ask (Aout AoutStart)) else mret tt);;
    upd (λ a, a <| format_changed_flag := 0 |>)
  else mret tt.

(** One field of [audiodsp_format_update]: [code] is the new result when the
    dsp reports another value. *)
Definition update_field (cmd : dsp_ioctl) (get : aml_audio_dec_t → Z)
    (set : Z → aml_audio_dec_t → aml_audio_dec_t) (code ret : Z) : LM Z :=
  val ← ioctl cmd 0;
  if u64 val =? 2 ^ 64 - 1 then mret ret else
  cur ← gets get;
  if cur =? i32 val then mret ret else
  upd (set (i32 val));; mret code.

(** The value is an unsigned long returned as an int; a failing ioctl has a
    negative result. *)
Definition audiodsp_get_pcm_resample_enable : LM Z :=
  utils_fd ← ask (HwOpen "/dev/amaudio_utils");
  if 0 <=? utils_fd then
    '(ret, value) ← ask_val (HwIoctl utils_fd AMAUDIO_IOC_GET_RESAMPLE_ENA);
    ask (HwClose utils_fd);;
    mret (if ret <? 0 then -1 else i32 value)
  else mret (-1).

(** What follows the three fields in a wifi display: the level decides whether
    the resampler is queried, and nothing is done with the answer. *)
Definition update_level : LM Z :=
  fd ← gets (λ a, dsp_file_fd (dsp a));
  '(ret, val) ← ask_val (DspIoctl fd AUDIODSP_GET_PCM_LEVEL 0);
  (if (ret =? 0) && (u64 val <? 4096) then ignore audiodsp_get_pcm_resample_enable
   else mret tt);;
  mret ret.

Definition audiodsp_format_update : LM Z :=
  fd ← gets (λ a, dsp_file_fd (dsp a));
  dec ← get_audio_decoder;
  if (fd <? 0) || negb (dec =? AUDIO_ARC_DECODER) then mret (-1) else
  ret ← update_field AUDIODSP_GET_CHANNELS_NUM channels (λ v a, a <| channels := v |>) 1 0;
  ret ← update_field AUDIODSP_GET_SAMPLERATE samplerate (λ v a, a <| samplerate := v |>) 2 ret;
  ret ← update_field AUDIODSP_GET_BITS_PER_SAMPLE data_width
          (λ v a, a <| data_width := v |>) 3 ret;
  wfd ← ask (ConfigBool "vendor.media.libplayer.wfd");
  ret ← (if negb (wfd =? 0) then update_level else mret ret);
  (if ret >? 0 then upd (λ a, a <| format_changed_flag := ret |>) else mret tt);;
  mret ret.

(** ** The descriptor in the log *)

(** One request, given the open descriptor: opening while one is open,
    and using or closing one that is not, have no successor. *)
Definition fd_step (cur : option Z) (r : req) (a : Z) : option (option Z) :=
  match r with
  | OpenDsp => match cur with
               | Some _ => None
               | None => Some (if a <? 0 then None else Some a)
               end
  | Close fd => if bool_decide (cur = Some fd) then Some None else None
  | DspIoctl fd _ _ | DspRead fd _ => if bool_decide (cur = Some fd) then Some cur else None
  | _ => Some cur
  end.

Fixpoint fd_replay (l : list (req * Z)) : option (option Z) :=
  match l with
  | [] => Some None
  | (r, a) :: l => cur ← fd_replay l; fd_step cur r a
  end.

Definition fd_of (w : world) : option Z :=
  let fd := dsp_file_fd (adsp_ops (audec w)) in if fd <? 0 then None else Some fd.

(** The log is a correct use of descriptors and ends with the one the
    instance names. *)
Definition fd_inv (w : world) : Prop := fd_replay (log w) = Some (fd_of w).
Definition fd_open (w : world) : Prop :=
  fd_inv w ∧ 0 ≤ dsp_file_fd (adsp_ops (audec w)).

(** Other threads leave the dsp handle alone and do not take back a stop. *)
Definition env_keeps_dsp (o : oracle) : Prop :=
  ∀ n a, dsp_file_fd (adsp_ops (o_env o n a)) = dsp_file_fd (adsp_ops a) ∧
    (need_stop a ≠ 0 → need_stop (o_env o n a) ≠ 0).

Section fd_rules.
Context (o : oracle) (I : world → Prop).
Hypothesis Henv : env_keeps_dsp o.
Lemma wp_ioctl cmd arg Q w :
  fd_open w → (∀ a w', fd_open w' → glob w' = glob w → Q a w') → wp o I (ioctl cmd arg) Q w.
Proof.
  intros [Hi Hf] HQ. unfold ioctl. wp_steps. apply wp_ask. intros a.
  apply HQ; [|done]. split; [|done]. unfold fd_inv, fd_of in *. simpl. rewrite Hi. simpl.
  rewrite (proj2 (Z.ltb_ge _ _)) by done. by rewrite bool_decide_true.
Qed.

(** A step that leaves the log and the handle alone. *)
Lemma fd_inv_frame w w' :
  log w' = log w → dsp_file_fd (adsp_ops (audec w')) = dsp_file_fd (adsp_ops (audec w)) →
  fd_inv w → fd_inv w'.
Proof. unfold fd_inv, fd_of. by intros -> ->. Qed.

Lemma fd_open_frame w w' :
  log w' = log w → dsp_file_fd (adsp_ops (audec w')) = dsp_file_fd (adsp_ops (audec w)) →
  fd_open w → fd_open w'.
Proof. unfold fd_open, fd_inv, fd_of. by intros -> ->. Qed.

(** Requests that are not about the dsp. *)
Lemma fd_inv_req r a w :
  (∀ cur, fd_step cur r a = Some cur) → fd_inv w → fd_inv (record_req r a w).
Proof. intros Hr. unfold fd_inv, fd_of. simpl. intros ->. simpl. by rewrite Hr. Qed.

Lemma fd_open_req r a w :
  (∀ cur, fd_step cur r a = Some cur) → fd_open w → fd_open (record_req r a w).
Proof. intros Hr [??]. split; [by apply fd_inv_req|done]. Qed.

Lemma wp_yield_open Q w :
  fd_open w →
  (∀ w', fd_open w' → glob w' = glob w →
    (need_stop (audec w) ≠ 0 → need_stop (audec w') ≠ 0) → Q tt w') → wp o I yield Q w.
Proof.
  intros Hw HQ. apply wp_yield. apply HQ; [|done|apply Henv].
  apply (fd_open_frame w); [done| |done]. apply Henv.
Qed.

Lemma wp_usleep_open us Q w :
  fd_open w → (∀ w', fd_open w' → glob w' = glob w → Q tt w') → wp o I (usleep us) Q w.
Proof.
  intros Hw HQ. unfold usleep. wp_steps. apply wp_ask. intros a.
  apply wp_yield_open; [by apply fd_open_req|]. intros w' Hw' Hg _. by apply HQ; [|rewrite Hg].
Qed.

Lemma wp_read_need_stop_open Q w :
  fd_open w →
  (∀ w', fd_open w' → glob w' = glob w →
    (need_stop (audec w) ≠ 0 → need_stop (audec w') ≠ 0) → Q (need_stop (audec w')) w') →
  wp o I read_need_stop Q w.
Proof.
  intros Hw HQ. unfold read_need_stop. wp_steps. apply wp_yield_open; [done|].
  intros w' Hw' Hg Hm. wp_steps. by apply HQ.
Qed.

Lemma wp_register_all fd l Q w :
  fd_replay (log w) = Some (Some fd) →
  (∀ w', fd_replay (log w') = Some (Some fd) → audec w' = audec w → glob w' = glob w → Q tt w') →
  wp o I (register_all fd l) Q w.
Proof.
  revert w. induction l as [|f l IH]; intros w Hw HQ; cbn [register_all]; wp_steps.
  { by apply HQ. }
  apply wp_ask. intros a. apply IH; [|intros; by apply HQ].
  simpl. rewrite Hw. simpl. by rewrite bool_decide_true.
Qed.

(** [audiodsp_init] opens the dsp exactly when none is held. *)
Lemma wp_audiodsp_init Q w :
  fd_inv w →
  (∀ w', fd_inv w' → audec w' = audec w → glob w' = glob w → Q (-1) w') →
  (∀ w', fd_open w' → dsp_file_fd (adsp_ops (audec w)) < 0 →
    format (audec w') = format (audec w) → glob w' = glob w → Q 0 w') →
  wp o I audiodsp_init Q w.
Proof.
  intros Hw Hfail Hok. unfold audiodsp_init, dsp. wp_steps.
  destruct (Z.ltb_spec (dsp_file_fd (adsp_ops (audec w))) 0) as [Hneg|Hpos].
  2: { wp_steps. change (-1 <? 0) with true. wp_steps. by apply Hfail. }
  apply wp_ask. intros fd. unfold fd_inv, fd_of in Hw.
  rewrite (proj2 (Z.ltb_lt _ _)) in Hw by done.
  destruct (Z.ltb_spec fd 0) as [Hfd|Hfd]; wp_steps.
  - apply Hfail; [|done..]. unfold fd_inv, fd_of. simpl.
    rewrite (proj2 (Z.ltb_lt _ _)) by done. rewrite Hw. simpl.
    by rewrite (proj2 (Z.ltb_lt _ _)).
  - apply wp_ask. intros a. wp_steps. apply wp_register_all.
    + simpl. rewrite Hw. simpl. rewrite (proj2 (Z.ltb_ge _ _)) by done.
      by rewrite bool_decide_true.
    + intros w' Hw' Ha Hg. wp_steps.
      apply Hok; [|done|by simpl; rewrite Ha|done]. split; [|done].
      unfold fd_inv, fd_of. simpl. by rewrite (proj2 (Z.ltb_ge _ _)).
Qed.

Lemma wp_audiodsp_release Q w :
  fd_open w →
  (∀ w', fd_inv w' → dsp_file_fd (adsp_ops (audec w')) = -1 → glob w' = glob w → Q 0 w') →
  wp o I audiodsp_release Q w.
Proof.
  intros [Hw Hf] HQ. unfold audiodsp_release, dsp. wp_steps.
  rewrite (proj2 (Z.ltb_ge _ _)) by done. wp_steps. apply wp_ask. intros a. wp_steps.
  apply HQ; [|done..].
  unfold fd_inv, fd_of in *. simpl. rewrite (proj2 (Z.ltb_ge _ _)) in Hw by done.
  rewrite Hw. simpl. by rewrite bool_decide_true.
Qed.

(** The wait for the format gives up after [PARSER_WAIT_MAX] failures. *)
Lemma wp_wait_format fuel Q w :
  fd_open w → PARSER_WAIT_MAX + 1 < err_count (glob w) + Z.of_nat fuel →
  err_count (glob w) ≤ PARSER_WAIT_MAX →
  (∀ r w', fd_open w' → r ≠ inl 0 → Q r w') → wp o I (wait_format fuel) Q w.
Proof.
  revert w. induction fuel as [|fuel IH]; intros w Hw Hf He HQ;
    [unfold PARSER_WAIT_MAX in *; lia|].
  cbn [wait_format]. wp_steps. apply wp_ioctl; [done|]. intros ret w1 Hw1 Hg1. wp_steps.
  destruct (Z.eqb_spec ret 0) as [->|Hret]; cbn [negb andb].
  { wp_steps. apply wp_read_need_stop_open; [done|]. intros w3 Hw3 _ _.
    rewrite andb_false_r. wp_steps. by apply HQ. }
  apply wp_read_need_stop_open; [done|]. intros w2 Hw2 Hg2 _.
  destruct (Z.eqb_spec (need_stop (audec w2)) 0) as [Hs|Hs]; wp_steps.
  - apply wp_usleep_open; [by apply (fd_open_frame w2)|].
    intros w3 Hw3 Hg3. wp_steps. rewrite Z.gtb_ltb, Hg3. simpl. rewrite Hg2, Hg1.
    destruct (Z.ltb_spec PARSER_WAIT_MAX (err_count (glob w) + 1)); wp_steps.
    + apply wp_ioctl; [done|]. intros a w4 Hw4 _. wp_steps. by apply HQ.
    + apply wp_read_need_stop_open; [done|]. intros w4 Hw4 Hg4 _.
      destruct (_ =? 0); cbn [andb]; wp_steps; [|by apply HQ].
      apply IH; [done|rewrite Hg4, Hg3; simpl; rewrite Hg2, Hg1; lia..|done].
  - apply wp_read_need_stop_open; [done|]. intros w3 Hw3 _ Hm.
    rewrite (proj2 (Z.eqb_neq _ 0)) by auto. cbn [andb]. wp_steps. by apply HQ.
Qed.

Lemma wp_read_stream_info Q w :
  fd_open w → (∀ w', fd_open w' → Q tt w') → wp o I read_stream_info Q w.
Proof.
  intros Hw HQ. unfold read_stream_info. wp_steps.
  apply wp_ioctl; [done|]. intros v1 w1 Hw1 _. wp_steps.
  destruct (u64 v1 =? _); wp_steps; (apply wp_ioctl; [by try apply (fd_open_frame w1)|]);
    intros v2 w2 Hw2 _; wp_steps; destruct (u64 v2 =? _); wp_steps;
    (apply wp_ioctl; [by try apply (fd_open_frame w2)|]); intros v3 w3 Hw3 _;
    destruct (u64 v3 =? _); wp_steps; apply HQ; by try apply (fd_open_frame w3).
Qed.

Lemma wp_audiodsp_start Q w :
  fd_open w → (∀ r w', fd_open w' → Q r w') → wp o I audiodsp_start Q w.
Proof.
  intros Hw HQ. pose proof Hw as [_ Hf]. unfold audiodsp_start, dsp. wp_steps.
  rewrite (proj2 (Z.ltb_ge _ _)) by done. wp_steps. apply wp_ask. intros wfd. wp_steps.
  apply wp_ioctl; [by apply fd_open_req|]. intros _ w1 Hw1 _. wp_steps.
  destruct (find_firmware_by_fmt _); wp_steps; [|by apply HQ].
  apply wp_ioctl; [done|]. intros _ w2 Hw2 _. wp_steps.
  apply wp_ioctl; [done|]. intros ret w3 Hw3 _. destruct (negb (ret =? 0)); wp_steps; [by apply HQ|].
  apply wp_read_need_stop_open; [done|]. intros w4 Hw4 _ _. destruct (negb _); wp_steps.
  { apply wp_ioctl; [done|]. intros _ w5 Hw5 _. wp_steps. by apply HQ. }
  apply wp_ioctl; [done|]. intros ret' w5 Hw5 _. wp_steps.
  set (w6 := w5 <| glob := _ |>). assert (fd_open w6) as Hw6 by (by apply (fd_open_frame w5)).
  assert (∀ r w', fd_open w' → wp o I match r with
    | inl e => mret e
    | inr ret => if negb (ret =? 0) then ioctl AUDIODSP_STOP 0;; mret (-4)
                 else read_stream_info;; mret ret end Q w') as Hrest.
  { intros [e|r] w' Hw'; wp_steps; [by apply HQ|]. destruct (negb _); wp_steps.
    - apply wp_ioctl; [done|]. intros _ w7 Hw7 _. wp_steps. by apply HQ.
    - apply wp_read_stream_info; [done|]. intros w7 Hw7. wp_steps. by apply HQ. }
  destruct (ret' =? 0); [|wp_steps; by apply (Hrest (inr ret'))].
  apply wp_wait_format; [done|done|done|].
  intros r w' Hw' _. by apply Hrest.
Qed.

(** The guard the dsp operations start with. *)
Lemma wp_guard (m1 : LM Z) (m2 : Z → LM Z) Q w :
  fd_inv w →
  wp o I m1 Q w →
  (fd_open w → wp o I (m2 (dsp_file_fd (adsp_ops (audec w)))) Q w) →
  wp o I (fd ← gets (λ a, dsp_file_fd (dsp a)); if fd <? 0 then m1 else m2 fd) Q w.
Proof.
  intros Hw H1 H2. wp_steps. unfold dsp.
  destruct (Z.ltb_spec (dsp_file_fd (adsp_ops (audec w))) 0); [done|by apply H2].
Qed.

(** What the feeder holds after its initialisation. *)
Definition feeder_post (w : world) (r : Z) (w' : world) : Prop :=
  fd_inv w' ∧
  if r =? 0 then
    dsp_file_fd (adsp_ops (audec w)) < 0 ≤ dsp_file_fd (adsp_ops (audec w')) ∧
    dsp_on (adsp_ops (audec w')) = 1 ∧ dsp_read (adsp_ops (audec w')) = true ∧
    get_cur_pts (adsp_ops (audec w')) = true ∧ get_cur_pcrscr (adsp_ops (audec w')) = true ∧
    audio_decoder_enabled (audec w') = 1
  else
    dsp_file_fd (adsp_ops (audec w')) = dsp_file_fd (adsp_ops (audec w)) ∨
    dsp_file_fd (adsp_ops (audec w')) = -1.

Lemma wp_feeder_init Q w :
  fd_inv w → (∀ r w', feeder_post w r w' → Q r w') → wp o I feeder_init Q w.
Proof.
  intros Hw HQ. unfold feeder_init, get_audio_format. wp_steps. apply wp_ask_str. intros s. wp_steps.
  set (f := audio_format_of _). set (w1 := _ <| audec := _ |>).
  assert (fd_inv w1) as Hw1.
  { apply (fd_inv_frame (record_req (SysfsGet FORMAT_PATH) 0 w)); [done..|].
    by apply fd_inv_req. }
  destruct (f =? _); wp_steps.
  { apply HQ. split; [done|]. simpl. by left. }
  apply wp_audiodsp_init; [done|..].
  - intros w2 Hw2 Ha _. change (negb (-1 =? 0)) with true. wp_steps. apply HQ. split; [done|].
    simpl. left. by rewrite Ha.
  - intros w2 Hw2 Hneg _ _. change (negb (0 =? 0)) with false. wp_steps.
    apply wp_audiodsp_start; [done|]. intros r w3 Hw3.
    destruct (Z.eqb_spec r 0) as [->|Hr]; wp_steps.
    + apply HQ. destruct Hw3 as [Hi3 Hf3]. split; [by apply (fd_inv_frame w3)|].
      simpl. by split_and!.
    + apply wp_audiodsp_release; [done|]. intros w4 Hw4 Hm1 _. wp_steps. apply HQ.
      split; [by apply (fd_inv_frame w4)|]. rewrite (proj2 (Z.eqb_neq _ _)) by done. by right.
Qed.

Lemma wp_feeder_release Q w :
  fd_inv w →
  (∀ r w', fd_inv w' → (r = 0 → dsp_file_fd (adsp_ops (audec w')) = -1) → Q r w') →
  wp o I feeder_release Q w.
Proof.
  intros Hw HQ. unfold feeder_release. wp_steps. unfold audiodsp_stop.
  apply wp_guard; [done|..].
  { wp_steps. change (negb (-1 =? 0)) with true. wp_steps. by apply HQ. }
  intros Ho. apply wp_ioctl; [done|]. intros ret w1 Hw1 _.
  destruct (Z.eqb_spec ret 0) as [->|Hret]; cbn [negb]; wp_steps.
  2: { apply HQ; [by destruct Hw1|done]. }
  apply wp_audiodsp_release; [done|]. intros w2 Hw2 Hm1 _. change (negb (0 =? 0)) with false.
  wp_steps. apply HQ; [by apply (fd_inv_frame w2)|done].
Qed.

Lemma wp_update_field cmd get set code ret Q w :
  (∀ v a, dsp_file_fd (adsp_ops (set v a)) = dsp_file_fd (adsp_ops a)) →
  fd_open w → (∀ r w', fd_open w' → Q r w') →
  wp o I (update_field cmd get set code ret) Q w.
Proof.
  intros Hset Hw HQ. unfold update_field. wp_steps. apply wp_ioctl; [done|]. intros v w1 Hw1 _.
  destruct (u64 v =? _); wp_steps; [by apply HQ|]. destruct (_ =? i32 v); wp_steps; [by apply HQ|].
  apply HQ. apply (fd_open_frame w1); [done|simpl; apply Hset|done].
Qed.

Lemma wp_get_pcm_resample_enable Q w :
  fd_open w → (∀ r w', fd_open w' → Q r w') → wp o I audiodsp_get_pcm_resample_enable Q w.
Proof.
  intros Hw HQ. unfold audiodsp_get_pcm_resample_enable. wp_steps. apply wp_ask. intros fd.
  destruct (0 <=? fd); wp_steps; [|by apply HQ, fd_open_req].
  apply wp_ask_val. intros r v. wp_steps. apply wp_ask. intros a. wp_steps.
  apply HQ. by repeat apply fd_open_req.
Qed.

Lemma wp_update_level Q w :
  fd_open w → (∀ r w', fd_open w' → Q r w') → wp o I update_level Q w.
Proof.
  intros Hw HQ. unfold update_level, dsp. wp_steps. apply wp_ask_val. intros r v. wp_steps.
  assert (fd_open (record_req (DspIoctl (dsp_file_fd (adsp_ops (audec w)))
    AUDIODSP_GET_PCM_LEVEL 0) r w)) as Hw1.
  { destruct Hw as [Hi Hf]. split; [|done]. unfold fd_inv, fd_of in *. simpl. rewrite Hi. simpl.
    rewrite (proj2 (Z.ltb_ge _ _)) by done. by rewrite bool_decide_true. }
  destruct (_ && _); wp_steps; [|by apply HQ]. unfold ignore. wp_steps.
  apply wp_get_pcm_resample_enable; [done|]. intros a w2 Hw2. wp_steps. by apply HQ.
Qed.

Lemma wp_audiodsp_format_update Q w :
  fd_inv w → (∀ r w', fd_inv w' → Q r w') → wp o I audiodsp_format_update Q w.
Proof.
  intros Hw HQ. unfold audiodsp_format_update, get_audio_decoder, dsp. wp_steps.
  destruct (Z.ltb_spec (dsp_file_fd (adsp_ops (audec w))) 0); cbn [orb]; wp_steps; [by apply HQ|].
  destruct (negb _); wp_steps; [by apply HQ|].
  apply wp_update_field; [done|by split|]. intros r1 w1 Hw1. wp_steps.
  apply wp_update_field; [done..|]. intros r2 w2 Hw2. wp_steps.
  apply wp_update_field; [done..|]. intros r3 w3 Hw3. wp_steps. apply wp_ask. intros wfd. wp_steps.
  assert (∀ r w', fd_open w' → wp o I ((if r >? 0 then upd (λ a, a <| format_changed_flag := r |>)
    else mret tt);; mret r) Q w') as Hrest.
  { intros r w' [Hw' ?]. wp_steps. destruct (r >? 0); wp_steps; apply HQ; [|done].
    by apply (fd_inv_frame w'). }
  destruct (negb _).
  - apply wp_update_level; [by apply fd_open_req|]. intros r w4 Hw4. by apply Hrest.
  - wp_step. apply Hrest. by apply fd_open_req.
Qed.

End fd_rules.

(** ** Descriptor safety *)

(** What the decoder's threads ask of the dsp driver. *)
Inductive dsp_op :=
| DFeederInit | DFeederRelease | DRead (size : Z) | DGetPts | DGetPcrscr | DSetApts (apts : Z)
| DFirstPtsFlag | DAutomuteOn | DAutomuteOff | DPcmLevel | DSkipBytes (n : Z) | DFormatUpdate
| DNbFrames.

Definition dsp_exec (op : dsp_op) : LM Z :=
  match op with
  | DFeederInit => feeder_init
  | DFeederRelease => feeder_release
  | DRead size => audiodsp_stream_read size
  | DGetPts => audiodsp_get_pts
  | DGetPcrscr => audiodsp_get_pcrscr
  | DSetApts apts => audiodsp_set_apts apts
  | DFirstPtsFlag => audiodsp_get_first_pts_flag
  | DAutomuteOn => audiodsp_automute_on
  | DAutomuteOff => audiodsp_automute_off
  | DPcmLevel => audiodsp_get_pcm_level
  | DSkipBytes n => audiodsp_set_skip_bytes n
  | DFormatUpdate => audiodsp_format_update
  | DNbFrames => audiodsp_get_decoded_nb_frames
  end.

Fixpoint dsp_run (ops : list dsp_op) : LM (list Z) :=
  match ops with
  | [] => mret []
  | op :: ops => r ← dsp_exec op; rs ← dsp_run ops; mret (r :: rs)
  end.

(** The number of decoded frames is asked for only while the dsp is open: its
    function takes a closed descriptor for an open one. *)
Definition op_ready (op : dsp_op) (w : world) : bool :=
  match op with DNbFrames => 0 <=? dsp_file_fd (adsp_ops (audec w)) | _ => true end.

Fixpoint ops_ready (o : oracle) (ops : list dsp_op) (w : world) : bool :=
  match ops with
  | [] => true
  | op :: ops =>
      op_ready op w && match dsp_exec op o w with Done _ w' => ops_ready o ops w' | _ => true end
  end.

Lemma wp_nb_frames o I Q w :
  fd_open w → (∀ r w', fd_open w' → Q r w') → wp o I audiodsp_get_decoded_nb_frames Q w.
Proof.
  intros Hw HQ. unfold audiodsp_get_decoded_nb_frames. wp_steps. destruct (negb _); wp_steps; [|by apply HQ].
  apply wp_ioctl; [done|]. intros a w' Hw' _. wp_steps. by apply HQ.
Qed.

Lemma wp_dsp_exec o I op Q w :
  env_keeps_dsp o → fd_inv w → op_ready op w = true → (∀ r w', fd_inv w' → Q r w') → wp o I (dsp_exec op) Q w.
Proof.
  intros Henv Hw Hrdy HQ.
  assert (∀ r w', fd_open w' → Q r w') as HQo by (intros r w' [? ?]; by apply HQ).
  destruct op; cbn [dsp_exec].
  1: by apply wp_feeder_init; [..|intros r w' [? _]; apply HQ].
  1: by apply wp_feeder_release; [..|intros r w' ? _; apply HQ].
  10: by apply wp_audiodsp_format_update.
  10: apply wp_nb_frames; [split; [done|by apply Z.leb_le]|done].
  all: apply wp_guard; [done|wp_steps; by apply HQ|]; intros Ho.
  1: { apply wp_ask. intros a. destruct Ho as [Hi Hf]. apply HQo. split; [|done].
       unfold fd_inv, fd_of in *. simpl. rewrite Hi. simpl.
       rewrite (proj2 (Z.ltb_ge _ _)) by done. by rewrite bool_decide_true. }
  all: wp_steps; apply wp_ioctl; [done|]; intros; wp_steps; by apply HQo.
Qed.

(** [C25] The dsp descriptor is used correctly: any sequence of feeder and dsp
    operations in which the number of decoded frames is asked for only while
    the dsp is open, whatever the driver and sysfs answer and whether or not
    the calls succeed, as long as other threads leave the descriptor alone and
    do not take back a stop, terminates; its log never opens the device while
    it is open, never issues an ioctl, read or close on a descriptor that is
    not open, and [dsp_file_fd] names the open one.  ([nb_frames_closed]: the
    one operation with a condition breaks this on a closed dsp.) *)
Theorem dsp_descriptor_safe (o : oracle) (ops : list dsp_op) (w : world) :
  env_keeps_dsp o → fd_inv w → ops_ready o ops w = true → ∃ rs w', dsp_run ops o w = Done rs w' ∧ fd_inv w'.
Proof.
  intros Henv. revert w. induction ops as [|op ops IH]; intros w Hw Hr; [by exists [], w|]. apply andb_true_iff in Hr as [Hop Hr].
  destruct (wp_done o (λ _, False) (dsp_exec op) (λ _, fd_inv) w) as (r & w1 & E & Hw1); [tauto|by apply wp_dsp_exec|].
  rewrite E in Hr. destruct (IH w1 Hw1 Hr) as (rs & w2 & E2 & Hw2). exists (r :: rs), w2. split; [|done].
  cbn [dsp_run]. unfold mbind, lm_bind. by rewrite E, E2.
Qed.

(** An oracle for the examples: the dsp opens as descriptor 5 and every other
    request succeeds with 0. *)
Definition quiet_oracle (fmt : string) : oracle :=
  mk_oracle (λ _ r, match r with OpenDsp => 5 | _ => 0 end) (λ _ _, Some 0)
    (λ _ _, Some fmt) (λ _ a, a).

Definition fresh_world : world :=
  mk_w (zero_audec <| adsp_ops := zero_dsp <| dsp_file_fd := -1 |> |>)
    (mk_statics 0 0 0 (-1) AUDIO_ARC_DECODER) 0 [].

Lemma dsp_descriptor_safe_witness :
  ∃ rs w', dsp_run [DGetPts; DFeederInit; DRead 100; DNbFrames; DFeederInit; DFeederRelease; DRead 7]
             (quiet_oracle "amadec_mpeg") fresh_world = Done rs w' ∧ fd_inv w'.
Proof. apply dsp_descriptor_safe; [done|reflexivity|vm_compute; reflexivity]. Defined.

(** On a closed dsp the number of frames is asked of descriptor -1. *)
Example nb_frames_closed :
  match dsp_exec DNbFrames (quiet_oracle "") fresh_world with Done _ w' => fd_replay (log w') = None | _ => False end.
Proof. reflexivity. Qed.

Example dsp_run_answers :
  match dsp_run [DGetPts; DFeederInit; DRead 100; DFeederInit; DFeederRelease; DFeederInit]
          (quiet_oracle "amadec_mpeg") fresh_world with
  | Done rs _ => rs = [2 ^ 64 - 1; 0; 0; -1; 0; 0]
  | _ => False
  end.
Proof. vm_compute. reflexivity. Qed.

(** [feeder_init] either answers 0 with a newly opened descriptor, the
    dsp marked on and its reader and clock functions installed, or answers an
    error and holds no new descriptor: the one from before, or none.  In
    particular it cannot succeed while a descriptor is still held. *)
Theorem feeder_init_spec (o : oracle) (w : world) :
  env_keeps_dsp o → fd_inv w →
  ∃ r w', feeder_init o w = Done r w' ∧ feeder_post w r w'.
Proof.
  intros Henv Hw. apply (wp_done o (λ _, False)); [tauto|].
  by apply wp_feeder_init.
Qed.

Lemma feeder_init_spec_witness :
  ∃ r w', feeder_init (quiet_oracle "amadec_dts") fresh_world = Done r w' ∧
    feeder_post fresh_world r w'.
Proof. apply feeder_init_spec; [done|reflexivity]. Defined.

(** ** The tables *)

Lemma strncmp_eq_le n m s t : (n ≤ m)%nat → strncmp_eq m s t = true → strncmp_eq n s t = true.
Proof.
  revert m s t. induction n as [|n IH]; intros m s t Hle Hm; [done|].
  destruct m as [|m]; [lia|]. destruct s as [|a s], t as [|b t]; try done.
  simpl in *. apply andb_true_iff in Hm as [-> Hm]. apply (IH m); [lia|done].
Qed.

Lemma first_match_lookup s l f :
  first_match s l = f → f ≠ ADEC_AUDIO_FORMAT_UNKNOWN →
  ∃ i lit n, l !! i = Some (lit, n, f) ∧ strncmp_eq n s lit = true ∧
    ∀ j lit' n' f', (j < i)%nat → l !! j = Some (lit', n', f') → strncmp_eq n' s lit' = false.
Proof.
  induction l as [|[[lit n] g] l IH]; simpl; [done|]. intros Hf Hu.
  destruct (strncmp_eq n s lit) eqn:E.
  { exists 0%nat, lit, n. subst. split_and!; [done..|]. intros. lia. }
  destruct (IH Hf Hu) as (i & lit1 & n1 & Hi & Hm & Hj). exists (S i), lit1, n1.
  split_and!; [done..|]. intros [|j] lit' n' f' Hlt Hl; [naive_solver|].
  apply (Hj j lit' n' f'); [lia|done].
Qed.

Definition newline : Ascii.ascii := Ascii.ascii_of_nat 10.

(** The names of the stream formats are recognised: a node holding one
    of the names of the chain, followed by the end of the line and anything
    after it, gives that name's format, with one exception: no text at all
    gives PCM_WIFIDISPLAY, because the comparison for pcm_bluray looks at ten
    characters only and takes amadec_pcm_widi first. *)
Theorem audio_format_names (rest : string) :
  Forall (λ e, e.2 ≠ ADEC_AUDIO_FORMAT_PCM_WIFIDISPLAY →
    audio_format_of (e.1.1 +:+ String newline rest) = e.2) format_chain ∧
  ∀ s, audio_format_of s ≠ ADEC_AUDIO_FORMAT_PCM_WIFIDISPLAY.
Proof.
  split; [by repeat constructor|]. intros s Hs.
  destruct (first_match_lookup s _ _ Hs) as (i & lit & n & Hi & Hm & Hj); [done|].
  do 23 (destruct i as [|i]; [by vm_compute in Hi|]).
  destruct i as [|i]; [|done]. injection Hi as <- <-.
  assert (strncmp_eq 10 s "amadec_pcm_bluray" = false) as Hb
    by (apply (Hj 19%nat _ _ ADEC_AUDIO_AFORMAT_PCM_BLURAY); [lia|done]).
  apply (strncmp_eq_le 10) in Hm; [|lia]. clear -Hb Hm.
  do 10 (destruct s as [|? s]; [done|]; simpl in *; destruct (Ascii.eqb _ _); [|done]). done.
Qed.

Lemma firmware_none f :
  find_firmware_by_fmt (switch_audiodsp f) = None ↔
  f < 0 ∨ f > 22 ∨ f = ADEC_AUDIO_FORMAT_ALAW ∨ f = ADEC_AUDIO_FORMAT_MULAW.
Proof.
  assert (0 ≤ f ≤ 22 ∨ f < 0 ∨ f > 22) as [Hf|Hf] by lia.
  - assert (∃ n : nat, f = Z.of_nat n ∧ (n ≤ 22)%nat) as (n & -> & Hn)
      by (exists (Z.to_nat f); lia).
    do 23 (destruct n as [|n]; [vm_compute; split; [intros ?; naive_solver|
      intros [?|[?|[?|?]]]; done]|]). lia.
  - replace (switch_audiodsp f) with 0; [split; [tauto|done]|]. unfold switch_audiodsp.
    destruct (list_find _ _) as [[i [f' m]]|] eqn:E; [|done]. exfalso.
    apply list_find_Some in E as (Hi & <- & _). apply list_elem_of_lookup_2 in Hi.
    unfold switch_table in Hi. simpl in *. set_unfold in Hi.
    repeat destruct Hi as [Hi|Hi]; try done; injection Hi as -> ->; destruct Hf; done.
Qed.

(** A format has dsp firmware exactly when it is one of the enumerated
    formats other than A-law and mu-law: on an open dsp [audiodsp_start] goes
    on to select the codec for those formats, and for every other number it
    answers -2 after having set the buffer size alone. *)
Theorem firmware_total (o : oracle) (w : world) :
  let fd := dsp_file_fd (adsp_ops (audec w)) in
  let f := format (audec w) in
  0 ≤ fd →
  if bool_decide (f < 0 ∨ f > 22 ∨ f = ADEC_AUDIO_FORMAT_ALAW ∨ f = ADEC_AUDIO_FORMAT_MULAW)
  then ∃ w' size, audiodsp_start o w = Done (-2) w' ∧ audec w' = audec w ∧
    (log w').*1 = [DspIoctl fd AUDIODSP_SET_PCM_BUF_SIZE size;
                   ConfigBool "vendor.media.libplayer.wfd"] ++ (log w).*1
  else ∃ fw, find_firmware_by_fmt (switch_audiodsp f) = Some fw ∧ fw ∈ firmware_list ∧
    Z.land (fw_fmt fw) (switch_audiodsp f) ≠ 0.
Proof.
  intros fd f Hfd. pose proof (firmware_none f) as Hn. case_bool_decide as Hf.
  - apply Hn in Hf. destruct (wp_done o (λ _, False) audiodsp_start (λ r w', r = -2 ∧
      audec w' = audec w ∧ ∃ size, (log w').*1 = [DspIoctl fd AUDIODSP_SET_PCM_BUF_SIZE size;
        ConfigBool "vendor.media.libplayer.wfd"] ++ (log w).*1) w)
      as (r & w' & He & -> & Ha & size & Hl); [tauto| |by exists w', size].
    unfold audiodsp_start, ioctl, dsp. wp_steps. fold fd.
    rewrite (proj2 (Z.ltb_ge fd 0)) by done. wp_steps. apply wp_ask. intros wfd. wp_steps.
    apply wp_ask. intros a. wp_steps.
    change (format (audec (record_req _ _ (record_req _ _ w)))) with f. rewrite Hf. wp_steps.
    split_and!; [done|done|]. by eexists.
  - destruct (find_firmware_by_fmt (switch_audiodsp f)) as [fw|] eqn:E; [|by destruct Hf; apply Hn].
    exists fw. split; [done|]. unfold find_firmware_by_fmt in E.
    apply fmap_Some in E as ([i fw'] & (Hi & Hl & _)%list_find_Some & ->).
    split; [by eapply list_elem_of_lookup_2|done].
Qed.

Definition alaw_world : world :=
  fresh_world <| audec := zero_audec <| format := ADEC_AUDIO_FORMAT_ALAW |> |>.

Lemma firmware_total_witness :
  ∃ w' size, audiodsp_start (quiet_oracle "amadec_alaw") alaw_world = Done (-2) w' ∧
    audec w' = audec alaw_world ∧
    (log w').*1 = [DspIoctl 0 AUDIODSP_SET_PCM_BUF_SIZE size;
                   ConfigBool "vendor.media.libplayer.wfd"] ++ (log alaw_world).*1.
Proof. apply (firmware_total (quiet_oracle "amadec_alaw") alaw_world). by vm_compute. Defined.
