(* ===== verification/Rely.v ===== *)
(** What the decoder's thread relies on while other threads run, and what it
    keeps itself.

    [PlayerEnv] is the interface between the decoder's thread and the rest of
    the process: other threads do not move the state of the decoder, do not
    touch the dsp handle, never take back a stop, and leave the message pool
    a queue.  AdecControl.v shows that the control functions of the player
    are such threads.  [thread_inv] is the invariant of the decoder's thread;
    [Neutral] computations keep it. *)

From S2P Require Import Prelude PcmBuffer MessagePool Audec Dsp.

(** ** The output device in the log *)

Inductive dev_state := DevClosed | DevReady | DevPlaying | DevPaused | DevStopped.

#[export] Instance dev_state_eq_dec : EqDecision dev_state.
Proof. solve_decision. Defined.

(** The life of the output: initialised, started, paused and resumed, and
    stopped; a failed initialisation leaves it closed. *)
Definition dev_step (d : dev_state) (r : req) (a : Z) : option dev_state :=
  match r with
  | Aout AoutInit => match d with
                     | DevClosed => Some (if a =? 0 then DevReady else DevClosed)
                     | _ => None
                     end
  | Aout AoutStart => match d with DevReady => Some DevPlaying | _ => None end
  | Aout AoutPause => match d with DevPlaying => Some DevPaused | _ => None end
  | Aout AoutResume => match d with DevPaused => Some DevPlaying | _ => None end
  | Aout AoutStop => match d with
                     | DevReady | DevPlaying | DevPaused => Some DevStopped
                     | _ => None
                     end
  | _ => Some d
  end.

Fixpoint dev_replay (l : list (req * Z)) : option dev_state :=
  match l with
  | [] => Some DevClosed
  | (r, a) :: l => d ← dev_replay l; dev_step d r a
  end.

(** ** The interface to the other threads *)

(** The pool is a queue; [own] are the commands the decoder's thread has
    taken and not freed. *)
Definition pool_ok (own : gset Z) (a : aml_audio_dec_t) : Prop :=
  ∃ cs, pool_owned (message_pool a) cs own.

(** The functions the feeder installed. *)
Definition fns_set (a : aml_audio_dec_t) : Prop :=
  dsp_read (adsp_ops a) = true ∧ get_cur_pts (adsp_ops a) = true ∧
  get_cur_pcrscr (adsp_ops a) = true.

(** No format change is pending, and the output has a function to mute, which
    [stop_adec] calls without a test. *)
Definition out_steady (a : aml_audio_dec_t) : Prop :=
  format_changed_flag a = 0 ∧ aout_mute (aout_ops a) = true.

(** The steps other threads may take. *)
Record rely (a a' : aml_audio_dec_t) : Prop := {
  rely_state : state a' = state a;
  rely_dsp : dsp_file_fd (adsp_ops a') = dsp_file_fd (adsp_ops a);
  rely_fns : fns_set a → fns_set a';
  rely_stop : need_stop a ≠ 0 → need_stop a' ≠ 0;
  rely_pool : ∀ own, pool_ok own a → pool_ok own a';
  rely_out : out_steady a → out_steady a'
}.

Class PlayerEnv (o : oracle) : Prop := player_env : ∀ n a, rely a (o_env o n a).

#[export] Instance rely_preorder : PreOrder rely.
Proof.
  split.
  - by intros a.
  - intros a b c [] []. split; [congruence..| | | |]; auto.
Qed.

Lemma player_env_dsp o : PlayerEnv o → env_keeps_dsp o.
Proof. intros Ho n a. by destruct (Ho n a). Qed.

(** ** The invariant of the decoder's thread *)

(** [fns]: the dsp functions are installed. *)
Record thread_inv (own : gset Z) (fns : bool) (s : adec_state_t) (d : dev_state)
    (w : world) : Prop := {
  ti_fd : fd_inv w;
  ti_dev : dev_replay (log w) = Some d;
  ti_state : state (audec w) = s;
  ti_pool : pool_ok own (audec w);
  ti_out : out_steady (audec w);
  ti_fns : if fns then fns_set (audec w) else True
}.

Definition neutral_req (r : req) : bool :=
  match r with
  | OpenDsp | Close _ | DspIoctl _ _ _ | DspRead _ _ => false
  | Aout (AoutInit | AoutStart | AoutPause | AoutResume | AoutStop) => false
  | _ => true
  end.

Lemma neutral_req_fd r cur a : neutral_req r = true → fd_step cur r a = Some cur.
Proof. by destruct r as [| | | | | |[]| | | | | | | | | | | | | | | |]. Qed.

Lemma neutral_req_dev r d a : neutral_req r = true → dev_step d r a = Some d.
Proof. by destruct r as [| | | | | |[]| | | | | | | | | | | | | | | |]. Qed.

(** Updates of the instance that keep what the invariant speaks of. *)
Record neutral_upd (f : aml_audio_dec_t → aml_audio_dec_t) : Prop := {
  nu_state : ∀ a, state (f a) = state a;
  nu_dsp : ∀ a, dsp_file_fd (adsp_ops (f a)) = dsp_file_fd (adsp_ops a);
  nu_fns : ∀ a, fns_set a → fns_set (f a);
  nu_pool : ∀ a, message_pool (f a) = message_pool a;
  nu_out : ∀ a, out_steady a → out_steady (f a)
}.

Section neutral.
Context (o : oracle) {Henv : PlayerEnv o} (I : world → Prop).
Context (own : gset Z) (fns : bool) (s : adec_state_t) (d : dev_state).
#[local] Abbreviation J := (thread_inv own fns s d).

(** A computation that keeps the invariant and crashes nowhere. *)
Definition Neutral {A} (m : LM A) : Prop :=
  ∀ (Q : A → world → Prop) w, J w → (∀ a w', J w' → Q a w') → wp o I m Q w.

Lemma inv_frame w w' :
  log w' = log w → dsp_file_fd (adsp_ops (audec w')) = dsp_file_fd (adsp_ops (audec w)) →
  (fns_set (audec w) → fns_set (audec w')) → state (audec w') = state (audec w) →
  (pool_ok own (audec w) → pool_ok own (audec w')) →
  (out_steady (audec w) → out_steady (audec w')) → J w → J w'.
Proof.
  intros Hl Hd Hfns Hs Hp Hf []. split; auto.
  - by eapply fd_inv_frame.
  - by rewrite Hl.
  - congruence.
  - destruct fns; auto.
Qed.

Lemma inv_req r a w : neutral_req r = true → J w → J (record_req r a w).
Proof.
  intros Hr []. split; try done.
  - apply fd_inv_req; [|done]. intros. by apply neutral_req_fd.
  - simpl. rewrite ti_dev0. simpl. by apply neutral_req_dev.
Qed.

Lemma neutral_ret {A} (a : A) : Neutral (mret a).
Proof. intros Q w Hw HQ. wp_steps. auto. Qed.

Lemma neutral_bind {A B} (m : LM A) (f : A → LM B) :
  Neutral m → (∀ a, Neutral (f a)) → Neutral (m ≫= f).
Proof. intros Hm Hf Q w Hw HQ. wp_step. apply Hm; [done|]. intros a w' Hw'. by apply Hf. Qed.

Lemma neutral_ask r : neutral_req r = true → Neutral (ask r).
Proof. intros Hr Q w Hw HQ. apply wp_ask. intros a. apply HQ. by apply inv_req. Qed.

Lemma neutral_ask_opt r : neutral_req r = true → Neutral (ask_opt r).
Proof. intros Hr Q w Hw HQ. apply wp_ask_opt. intros a. apply HQ. by apply inv_req. Qed.

Lemma neutral_ask_text r : neutral_req r = true → Neutral (ask_text r).
Proof. intros Hr Q w Hw HQ. apply wp_ask_text. intros a b. apply HQ. by apply inv_req. Qed.

Lemma neutral_ask_str r : neutral_req r = true → Neutral (ask_str r).
Proof. intros Hr Q w Hw HQ. apply wp_ask_str. intros a. apply HQ. by apply inv_req. Qed.

Lemma neutral_gets {A} (f : aml_audio_dec_t → A) : Neutral (gets f).
Proof. intros Q w Hw HQ. wp_steps. auto. Qed.

Lemma neutral_get_audec : Neutral get_audec.
Proof. intros Q w Hw HQ. wp_steps. auto. Qed.

Lemma neutral_gets_glob {A} (f : statics → A) : Neutral (gets_glob f).
Proof. intros Q w Hw HQ. wp_steps. auto. Qed.

Lemma neutral_upd_glob f : Neutral (upd_glob f).
Proof. intros Q w Hw HQ. wp_steps. apply HQ. by apply (inv_frame w). Qed.

Lemma neutral_upd_ok f : neutral_upd f → Neutral (upd f).
Proof.
  intros [] Q w Hw HQ. wp_steps. apply HQ. destruct Hw. split; simpl; try done.
  - by apply (fd_inv_frame w); [|simpl; rewrite nu_dsp0|].
  - congruence.
  - unfold pool_ok. by rewrite nu_pool0.
  - auto.
  - destruct fns; auto.
Qed.

Lemma neutral_upd_dsp f :
  (∀ x, dsp_file_fd (f x) = dsp_file_fd x ∧ dsp_read (f x) = dsp_read x ∧
    get_cur_pts (f x) = get_cur_pts x ∧ get_cur_pcrscr (f x) = get_cur_pcrscr x) →
  Neutral (upd_dsp f).
Proof.
  intros Hf. apply neutral_upd_ok. split; try done; simpl; intros a; [apply Hf|].
  unfold fns_set. simpl. destruct (Hf (adsp_ops a)) as (_ & -> & -> & ->). done.
Qed.

Lemma neutral_yield : Neutral yield.
Proof.
  intros Q w Hw HQ. apply wp_yield. apply HQ.
  destruct (player_env (tick w) (audec w)) as []. apply (inv_frame w); simpl; auto.
Qed.

Lemma neutral_out_of_fuel {A} : (∀ w, J w → I w) → Neutral (@out_of_fuel A).
Proof. intros HI Q w Hw HQ. apply wp_out_of_fuel. auto. Qed.

Lemma neutral_usleep us : Neutral (usleep us).
Proof. apply neutral_bind; [by apply neutral_ask|]. intros _. apply neutral_yield. Qed.

Lemma neutral_read_need_stop : Neutral read_need_stop.
Proof. apply neutral_bind; [apply neutral_yield|]. intros _. apply neutral_gets. Qed.

Lemma neutral_read_auto_mute : Neutral read_auto_mute.
Proof. apply neutral_bind; [apply neutral_yield|]. intros _. apply neutral_gets. Qed.

Lemma neutral_ignore {A} (m : LM A) : Neutral m → Neutral (ignore m).
Proof. intros Hm. apply neutral_bind; [done|]. intros _. apply neutral_ret. Qed.

(** The dsp operations keep the invariant whatever the descriptor is. *)
Lemma neutral_ioctl cmd arg Q w :
  fd_open w → J w → (∀ a w', J w' → Q a w') → wp o I (ioctl cmd arg) Q w.
Proof.
  intros Ho [] HQ. unfold ioctl. wp_steps. apply wp_ask. intros a. apply HQ.
  split; try done.
  - destruct Ho as [Hi Hf]. unfold fd_inv, fd_of, dsp in *. simpl. rewrite Hi. simpl.
    rewrite (proj2 (Z.ltb_ge _ _)) by done. by rewrite bool_decide_true.
  - simpl. by rewrite ti_dev0.
Qed.

Lemma neutral_guarded (m1 : LM Z) cmd arg (g : Z → Z) :
  Neutral m1 →
  Neutral (fd ← gets (λ a, dsp_file_fd (dsp a));
           if fd <? 0 then m1 else v ← ioctl cmd arg; mret (g v)).
Proof.
  intros Hm Q w Hw HQ. apply wp_guard; [apply Hw|by apply Hm|].
  intros Ho. wp_step. apply neutral_ioctl; [done..|]. intros v w' Hw'. wp_steps. auto.
Qed.

Lemma neutral_guarded_plain (m1 : LM Z) cmd arg :
  Neutral m1 →
  Neutral (fd ← gets (λ a, dsp_file_fd (dsp a)); if fd <? 0 then m1 else ioctl cmd arg).
Proof.
  intros Hm Q w Hw HQ. apply wp_guard; [apply Hw|by apply Hm|].
  intros Ho. by apply neutral_ioctl.
Qed.

Lemma neutral_audiodsp_get_pts : Neutral audiodsp_get_pts.
Proof. apply neutral_guarded, neutral_ret. Qed.
Lemma neutral_audiodsp_get_pcrscr : Neutral audiodsp_get_pcrscr.
Proof. apply neutral_guarded, neutral_ret. Qed.
Lemma neutral_audiodsp_set_apts v : Neutral (audiodsp_set_apts v).
Proof. apply (neutral_guarded _ _ _ (λ _, 0)), neutral_ret. Qed.
Lemma neutral_audiodsp_get_first_pts_flag : Neutral audiodsp_get_first_pts_flag.
Proof. apply neutral_guarded, neutral_ret. Qed.
Lemma neutral_audiodsp_automute_on : Neutral audiodsp_automute_on.
Proof. apply neutral_guarded_plain, neutral_ret. Qed.
Lemma neutral_audiodsp_automute_off : Neutral audiodsp_automute_off.
Proof. apply neutral_guarded_plain, neutral_ret. Qed.

Lemma neutral_audiodsp_stream_read size : Neutral (audiodsp_stream_read size).
Proof.
  intros Q w Hw HQ. apply wp_guard; [apply Hw|wp_steps; by apply HQ|].
  intros [Hi Hf]. apply wp_ask. intros a. apply HQ. destruct Hw. split; try done.
  - unfold fd_inv, fd_of in *. simpl. rewrite Hi. simpl.
    rewrite (proj2 (Z.ltb_ge _ _)) by done. by rewrite bool_decide_true.
  - simpl. by rewrite ti_dev0.
Qed.

End neutral.

Create HintDb neutral.
#[export] Hint Resolve neutral_ret neutral_gets neutral_get_audec neutral_gets_glob
  neutral_upd_glob neutral_yield neutral_usleep neutral_read_need_stop neutral_read_auto_mute
  neutral_out_of_fuel neutral_audiodsp_get_pts neutral_audiodsp_get_pcrscr
  neutral_audiodsp_set_apts neutral_audiodsp_get_first_pts_flag neutral_audiodsp_automute_on
  neutral_audiodsp_automute_off neutral_audiodsp_stream_read : neutral.

(** Walks through a computation, branching where it branches. *)
Ltac neutral_go :=
  repeat first
    [ progress intros
    | lazymatch goal with
      | |- Neutral _ _ _ _ _ _ (_ ≫= _) => apply neutral_bind
      | |- Neutral _ _ _ _ _ _ (ask _) => apply neutral_ask; reflexivity
      | |- Neutral _ _ _ _ _ _ (ask_opt _) => apply neutral_ask_opt; reflexivity
      | |- Neutral _ _ _ _ _ _ (ask_text _) => apply neutral_ask_text; reflexivity
      | |- Neutral _ _ _ _ _ _ (ask_str _) => apply neutral_ask_str; reflexivity
      | |- Neutral _ _ _ _ _ _ (upd _) =>
          apply neutral_upd_ok; split; try reflexivity; intros ?; try reflexivity; try tauto; try done
      | |- Neutral _ _ _ _ _ _ (upd_dsp _) => apply neutral_upd_dsp; intros ?; split_and!; reflexivity
      | |- Neutral _ _ _ _ _ _ (ignore _) => apply neutral_ignore
      | |- Neutral _ _ _ _ _ _ (if ?b then _ else _) => destruct b
      | |- Neutral _ _ _ _ _ _ (match ?x with _ => _ end) => destruct x
      end
    | solve [eauto with neutral] ].

(** ** A concrete instance, for the examples *)

Lemma player_env_id o : (∀ n a, o_env o n a = a) → PlayerEnv o.
Proof. intros H n a. by rewrite H. Qed.

(** The dsp is open as descriptor 5, the output initialised. *)
Definition ready_world : world :=
  mk_w (zero_audec <| state := INITTED |>
          <| samplerate := 48000 |> <| channels := 2 |>
          <| adsp_ops := zero_dsp <| dsp_file_fd := 5 |> <| dsp_read := true |>
               <| get_cur_pts := true |> <| get_cur_pcrscr := true |> |>
          <| aout_ops := zero_aout <| aout_latency := true |> <| aout_mute := true |> |>)
    (mk_statics 0 0 0 (-1) AUDIO_ARC_DECODER) 0 [(Aout AoutInit, 0); (OpenDsp, 5)].

Lemma ready_world_inv : thread_inv ∅ true INITTED DevReady ready_world.
Proof. split; try done. exists []. apply empty_world_holds. Qed.
