(* ===== verification/PtsMgt.v ===== *)
(** The pts manager, LibAudio/amadec/adec-pts-mgt.c: the audio clock, the
    start of playback, the dropping of PCM data to catch up with the video,
    the periodic report of the audio time.

    A [unsigned long] is reduced modulo [2^64], an [int] modulo [2^32], where
    the code converts.  Loops that wait for other parts of the system take
    fuel; the loops the code itself bounds are shown to end. *)

From S2P Require Import Prelude PcmBuffer MessagePool Audec Dsp Rely.

Definition SYSTIME_CORRECTION_THRESHOLD : Z := 90000 * 6 /c 100.
Definition APTS_DISCONTINUE_THRESHOLD : Z := 90000 * 3.
Definition DROP_PCM_PTS_DIFF_THRESHOLD : Z := 90000 * 10.
Definition DROP_PCM_RESET_PCR_THRESHOLD : Z := 90000 /c 2.
Definition DROP_PCM_MAX_TIME : Z := 1000.
Definition DROPPCM_TMPBUF_SIZE : Z := 8 * 1024.
Definition TIME_UNIT90K : Z := 90000.
Definition VIDEO_DISCONTINUE : Z := 2.
Definition TSYNC_MODE_VMASTER : Z := 0.
Definition TSYNC_MODE_AMASTER : Z := 1.
Definition TSYNC_MODE_PCRMASTER : Z := 2.

Definition TSYNC_PCR_DISPOINT : string := "/sys/class/tsync_pcr/tsync_pcr_discontinue_point".
Definition TSYNC_PCRSCR : string := "/sys/class/tsync/pts_pcrscr".
Definition TSYNC_EVENT : string := "/sys/class/tsync/event".
Definition TSYNC_APTS : string := "/sys/class/tsync/pts_audio".
Definition TSYNC_VPTS : string := "/sys/class/tsync/pts_video".
Definition TSYNC_ENABLE : string := "/sys/class/tsync/enable".
Definition TSYNC_MODE : string := "/sys/class/tsync/mode".
Definition TSYNC_FIRSTVPTS : string := "/sys/class/tsync/firstvpts".
Definition TSYNC_FIRSTAPTS : string := "/sys/class/tsync/firstapts".
Definition TSYNC_CHECKIN_FIRSTVPTS : string := "/sys/class/tsync/checkin_firstvpts".
Definition TSYNC_PCR_DISCONTINUE : string := "/sys/class/tsync_pcr/tsync_pcr_discontinue".

(** [abs((int)z)] *)
Definition c_abs (z : Z) : Z := i32 (Z.abs (i32 z)).

(** Microseconds of the system clock. *)
Definition gettime : LM Z := ask GetTime.

(** The value the node's text holds, when it could be read and parsed. *)
Definition sysfs_get_int (path : string) : LM (option Z) :=
  v ← ask_opt (SysfsGet path); mret (u64 <$> v).
Definition mysysfs_get_sysfs_int16 (path : string) : LM Z :=
  v ← ask_opt (SysfsGet path); mret (i32 (default (-1) v)).

(** [property_get(name, value, NULL) > 0] and [atoi(value)]. *)
Definition property_int (name : string) : LM (option Z) :=
  v ← ask_opt (Property name); mret (i32 <$> v).
Definition config_bool (name : string) : LM bool :=
  v ← ask (ConfigBool name); mret (negb (v =? 0)).

(** Calls through the function pointers; NULL crashes. *)
Definition call_get_cur_pts : LM Z :=
  b ← gets (λ a, get_cur_pts (adsp_ops a)); if (b : bool) then audiodsp_get_pts else crash.
Definition call_get_cur_pcrscr : LM Z :=
  b ← gets (λ a, get_cur_pcrscr (adsp_ops a)); if (b : bool) then audiodsp_get_pcrscr else crash.
Definition call_dsp_read (size : Z) : LM Z :=
  b ← gets (λ a, dsp_read (adsp_ops a)); if (b : bool) then audiodsp_stream_read size else crash.

(** ** The audio clock *)

(** The arithmetic of [adec_calc_pts] once the output runs. *)
Definition delayed_pts (pts delay_pts : Z) : Z :=
  if delay_pts <? pts then pts - delay_pts
  else if c_abs (delay_pts - pts) <? 9000 then 0 else pts.

Definition adec_calc_pts : LM Z :=
  pts ← call_get_cur_pts;
  if i32 pts =? -1 then mret (u64 (-1)) else
  upd_dsp (λ d, d <| kernel_audio_pts := pts |>);;
  lat ← gets (λ a, aout_latency (aout_ops a));
  if negb lat then mret (u64 (-1)) else
  l ← ask (Aout AoutLatency);
  let delay_pts := u64 (l * 90) in
  flag ← gets apts_start_flag;
  if flag =? 0 then mret pts else mret (delayed_pts pts delay_pts).

(** The decision of [track_switch_pts]: 1 = the audio has to wait. *)
Definition switch_decision (apts pcr threshold : Z) : Z :=
  if (pcr <? apts) && (0x100000 <? apts - pcr) then 0
  else if (c_abs (apts - pcr) <? threshold) || (apts <=? pcr) then 0
  else 1.

Definition track_switch_pts : LM Z :=
  pcr ← call_get_cur_pcrscr;
  apts ← adec_calc_pts;
  t ← gets avsync_threshold;
  mret (switch_decision apts pcr t).

Definition adec_pts_pause : LM Z := ask (SysfsSet TSYNC_EVENT (PStr "AUDIO_PAUSE")).
Definition adec_pts_resume : LM Z := ask (SysfsSet TSYNC_EVENT (PStr "AUDIO_RESUME")).
Definition vdec_pts_pause : LM Z := ask (SysfsSet TSYNC_EVENT (PStr "VIDEO_PAUSE:0x1")).
Definition vdec_pts_resume : LM Z := ask (SysfsSet TSYNC_EVENT (PStr "VIDEO_PAUSE:0x0")).
Definition avsync_en (e : Z) : LM Z := ask (SysfsSet TSYNC_ENABLE (PInt e)).
Definition enable_slowsync_repeate : LM unit :=
  ignore (ask (SysfsSet "/sys/class/video/slowsync_repeat_enable" (PInt 1))).

(** The text "mode: name" of the tsync mode node; the name is missing when
    only the number was parsed. *)
Definition read_tsync_mode : LM (option (Z * string)) :=
  '(m, s) ← ask_text (SysfsGet TSYNC_MODE);
  mret ((λ m, (i32 m, default "" s)) <$> m).

(** The result, also stored through the pointer, when the node is readable. *)
Definition adec_get_tsync_info : LM Z :=
  r ← read_tsync_mode;
  match r with
  | None => mret (-1)
  | Some (mode, name) =>
      mret (if strcmp_eq name "amaster" then TSYNC_MODE_AMASTER
            else if strcmp_eq name "vmaster" then TSYNC_MODE_VMASTER
            else if strcmp_eq name "pcrmaster" then TSYNC_MODE_PCRMASTER
            else mode)
  end.

(** ** Dropping PCM data *)

(** The raw data that belongs to the dropped PCM data: at most 11 reads. *)
Fixpoint drop_raw_loop (fuel : nat) (drop_raw_size nDropCount_raw : Z) : LM unit :=
  match fuel with
  | O => out_of_fuel
  | S fuel =>
      if drop_raw_size >? 0 then
        n ← ask (DspReadRaw drop_raw_size);
        if nDropCount_raw + 1 >? 10 then mret tt
        else drop_raw_loop fuel (i32 (drop_raw_size - n)) (nDropCount_raw + 1)
      else mret tt
  end.

Definition drop_raw_data (ret : Z) : LM unit :=
  q ← gets codec_type_q;
  drop_raw_loop 12 (i32 (ret * q /c 4)) 0.

(** The loop; the result is [ret]. *)
Fixpoint drop_loop (fuel : nat) (drop_raw : bool) (drop_max_time start_time : Z)
    (drop_size nDropCount ret : Z) : LM Z :=
  match fuel with
  | O => out_of_fuel
  | S fuel =>
      stop ← (if drop_size >? 0 then read_need_stop else mret 1);
      if negb (stop =? 0) then mret ret else
      ret ← call_dsp_read (Z.min drop_size DROPPCM_TMPBUF_SIZE);
      (if drop_raw && (ret >? 0) then drop_raw_data ret else mret tt);;
      t ← gettime;
      if (t - start_time) /c 1000 >? drop_max_time then mret (-1) else
      if ret =? 0 then
        if nDropCount >=? 40 then mret (-1) else
        usleep 50000;;
        drop_loop fuel drop_raw drop_max_time start_time drop_size (nDropCount + 1) ret
      else
        drop_loop fuel drop_raw drop_max_time start_time (i32 (drop_size - ret)) 0 ret
  end.

(** The platform name only selects between two equal sleeps. *)
Definition droppcm_use_size (fuel : nat) (drop_size : Z) : LM Z :=
  q ← gets codec_type_q;
  p ← (if q >? 0 then ask (Malloc (DROPPCM_TMPBUF_SIZE * q /c 4)) else mret 0);
  v ← property_int "vendor.media.amplayer.dropmaxtime";
  ms ← gets droppcm_ms;
  let drop_max_time := if ms >? 50 then ms - 50 else default DROP_PCM_MAX_TIME v in
  ask_str (Property "ro.board.platform");;
  start_time ← gettime;
  drop_loop fuel (negb (p =? 0)) drop_max_time start_time drop_size 0 0.

(** (audio_ahead, pts_ahead_val) after the properties were looked at. *)
Definition droppcm_prop_ctrl (audio_ahead pts_ahead_val : Z) : LM (Z * Z) :=
  wfd ← config_bool "vendor.media.libplayer.wfd";
  let val := if (wfd : bool) then i32 (pts_ahead_val * 2) /c 3 else pts_ahead_val in
  s ← ask_str (Property "vendor.media.amplayer.apts");
  let ahead := match s with
               | Some s => if strcmp_eq s "slow" then -1
                           else if strcmp_eq s "fast" then 1 else audio_ahead
               | None => audio_ahead
               end in
  v ← property_int "vendor.media.amplayer.apts_val";
  mret (ahead, default val v).

(** [inl r]: the function returns [r] here; [inr]: (firstvpts, checkin). *)
Fixpoint refpts_wait (fuel : nat) (circount start_time firstvpts checkin : Z)
    : LM (Z + Z * Z) :=
  match fuel with
  | O => out_of_fuel
  | S fuel =>
      if negb (firstvpts =? 0) && negb (checkin =? 0) then mret (inr (firstvpts, checkin)) else
      stop ← read_need_stop;
      if negb (stop =? 0) then mret (inl 0) else
      unset ← gets (λ a, track_rate_unset (aout_ops a));
      if negb unset then mret (inl 0) else
      f ← sysfs_get_int TSYNC_FIRSTVPTS;
      match f with
      | None => mret (inl (-1))
      | Some firstvpts =>
          c ← sysfs_get_int TSYNC_CHECKIN_FIRSTVPTS;
          match c with
          | None => mret (inl (-1))
          | Some checkin =>
              t ← gettime;
              if t - start_time >=? circount * 1000 then mret (inr (firstvpts, checkin)) else
              usleep 10000;;
              refpts_wait fuel circount start_time firstvpts checkin
          end
      end
  end.

(** The reference mode chosen from the mode node. *)
Definition ref_mode (mode : Z) (name : string) (droppcm_flag : Z) : Z :=
  if ((mode =? TSYNC_MODE_AMASTER) && strcmp_eq name "amaster")
     || ((mode =? TSYNC_MODE_VMASTER) && strcmp_eq name "vmaster" && negb (droppcm_flag =? 0))
  then TSYNC_MODE_AMASTER
  else if (mode =? TSYNC_MODE_VMASTER) && strcmp_eq name "vmaster" && (droppcm_flag =? 0)
  then TSYNC_MODE_VMASTER
  else if (mode =? TSYNC_MODE_PCRMASTER) && strcmp_eq name "pcrmaster"
  then TSYNC_MODE_PCRMASTER
  else TSYNC_MODE_AMASTER.

(** The reference pts finally used. *)
Definition choose_refpts (mode firstvpts checkin cur_vpts : Z) : Z :=
  if mode =? TSYNC_MODE_PCRMASTER then
    if negb (cur_vpts =? 0) && (cur_vpts <? firstvpts) && negb (cur_vpts =? checkin) then cur_vpts
    else if negb (firstvpts =? 0) then firstvpts
    else checkin
  else if negb (firstvpts =? 0) then firstvpts else cur_vpts.

(** The second part of [droppcm_get_refpts]. *)
Definition refpts_after_mode (fuel : nat) (start_time refpts : Z) : LM (Z * Z) :=
  v ← property_int "vendor.media.amplayer.dropwaitxms";
  r ← refpts_wait fuel (default 3000 v) start_time 0 0;
  match r with
  | inl ret => mret (ret, refpts)
  | inr (firstvpts, checkin) =>
      gettime;;
      c ← sysfs_get_int TSYNC_VPTS;
      match c with
      | None => mret (-1, refpts)
      | Some cur_vpts =>
          mode ← gets tsync_mode;
          mret (0, choose_refpts mode firstvpts checkin cur_vpts)
      end
  end.

(** (result, *refpts); the pcrmaster wait polls a zero pcr once more. *)
Definition droppcm_get_refpts (fuel : nat) (refpts : Z) : LM (Z * Z) :=
  start_time ← gettime;
  m ← read_tsync_mode;
  match m with
  | None => mret (-1, refpts)
  | Some (mode, name) =>
      flag ← gets droppcm_flag;
      if ref_mode mode name flag =? TSYNC_MODE_PCRMASTER then
        p ← sysfs_get_int TSYNC_PCRSCR;
        match p with
        | None => mret (-1, refpts)
        | Some p =>
            if p =? 0 then
              stop ← read_need_stop;
              if negb (stop =? 0) then mret (0, p) else
              p' ← sysfs_get_int TSYNC_PCRSCR;
              refpts_after_mode fuel start_time (default p p')
            else refpts_after_mode fuel start_time p
        end
      else
        v ← sysfs_get_int TSYNC_VPTS;
        match v with
        | None => mret (-1, refpts)
        | Some v => refpts_after_mode fuel start_time v
        end
  end.

(** [(ms) * (samplerate / 1000) * channels * 2] *)
Definition pcm_size (a : aml_audio_dec_t) (ms : Z) : Z :=
  i32 (ms * (samplerate a /c 1000) * channels a * 2).

(** The wait for the stream's rate and channels at the head of
    [adec_pts_droppcm]. *)
Fixpoint info_wait (fuel : nat) : LM unit :=
  match fuel with
  | O => out_of_fuel
  | S fuel =>
      stop ← read_need_stop;
      if negb (stop =? 0) then mret tt else
      a ← get_audec;
      let '(sr, ch) := match g_bst a with
                       | Some b => (PcmBuffer.samplerate b, PcmBuffer.channels b)
                       | None => (samplerate a, channels a)
                       end in
      if (sr =? 0) || (ch =? 0) then usleep 10000;; info_wait fuel else mret tt
  end.

(** The poll for the first checked-in vpts: [inl r] returns [r], [inr] is
    (checkin_firstvpts, count). *)
Fixpoint checkin_wait (fuel : nat) (checkin count : Z) : LM (Z + Z * Z) :=
  match fuel with
  | O => out_of_fuel
  | S fuel =>
      if negb (checkin =? 0) then mret (inr (checkin, count)) else
      stop ← read_need_stop;
      if negb (stop =? 0) then mret (inl 0) else
      c ← sysfs_get_int TSYNC_CHECKIN_FIRSTVPTS;
      match c with
      | None => mret (inl (-1))
      | Some checkin =>
          if count >=? 50 then mret (inr (checkin, count)) else
          if negb (checkin =? 0) then mret (inr (checkin, count)) else
          usleep 20000;;
          checkin_wait fuel checkin (count + 1)
      end
  end.

Definition CHECKIN_FUEL : nat := 52.

(** The drop according to the first checked-in vpts. *)
Definition pre_drop (fuel : nat) (checkin : Z) : LM unit :=
  if checkin =? 0 then mret tt else
  apts ← adec_calc_pts;
  let diff := i32 (if apts >? checkin then apts - checkin else checkin - apts) in
  if (apts <? checkin) && (diff <? DROP_PCM_PTS_DIFF_THRESHOLD) then
    let droppts := i32 (checkin - apts) in
    upd (λ a, a <| droppcm_ms := droppts /c 90 |>);;
    a ← get_audec;
    droppcm_use_size fuel (pcm_size a (droppts /c 90));;
    ignore adec_calc_pts
  else mret tt.

(** The poll for the first apts; [count] is shared with the poll before. *)
Fixpoint first_apts_wait (fuel : nat) (count : Z) : LM (option Z) :=
  match fuel with
  | O => out_of_fuel
  | S fuel =>
      f ← gets first_apts;
      if negb (f =? 0) then mret None else
      stop ← read_need_stop;
      if negb (stop =? 0) then mret (Some 0) else
      if count >? 10 then mret None else
      adec_calc_pts;;
      v ← sysfs_get_int TSYNC_FIRSTAPTS;
      match v with
      | None => mret (Some (-1))
      | Some v =>
          upd (λ a, a <| first_apts := v |>);;
          usleep 50000;;
          first_apts_wait fuel (count + 1)
      end
  end.

Definition FIRST_APTS_FUEL : nat := 12.

(** The last part of [adec_pts_droppcm]: the drop towards [refpts]. *)
Definition drop_to_refpts (fuel : nat) (refpts : Z) : LM Z :=
  ahead ← droppcm_prop_ctrl 0 SYSTIME_CORRECTION_THRESHOLD;
  a ← get_audec;
  let droppts := i32 (refpts - first_apts a + u32 (u32 ahead.2 * ahead.1)) in
  upd (λ a, a <| droppcm_ms := droppts /c 90 |>);;
  droppcm_use_size fuel (pcm_size a (droppts /c 90));;
  v ← sysfs_get_int TSYNC_VPTS;
  match v with
  | None => mret (-1)
  | Some refpts =>
      apts ← adec_calc_pts;
      let diff := i32 (if apts >? refpts then apts - refpts else refpts - apts) in
      (if diff >? DROP_PCM_RESET_PCR_THRESHOLD
       then ignore (ask (SysfsSet TSYNC_PCRSCR (PHex "0x" apts))) else mret tt);;
      sysfs_get_int TSYNC_PCRSCR;;
      fd ← gets (λ a, amstream_fd (adsp_ops a));
      ask (StreamIoctl fd);;
      gettime;;
      mret 0
  end.

(** The decision whether to drop at all. *)
Definition drop_or_sync (fuel : nat) (refpts : Z) : LM Z :=
  fa ← gets first_apts;
  let diff := i32 (if fa >? refpts then fa - refpts else refpts - fa) in
  sysfs_get_int TSYNC_PCRSCR;;
  fd ← gets (λ a, amstream_fd (adsp_ops a));
  ask (StreamIoctl fd);;
  v ← property_int "vendor.media.amplayer.sync_switch_ms";
  show ← config_bool "vendor.media.libplayer.show_firstframe";
  mode ← gets tsync_mode;
  let pcr := (show : bool) && (mode =? TSYNC_MODE_PCRMASTER) in
  (if pcr then ignore (ask (SysfsSet "/sys/class/video/show_first_frame_nosync" (PInt 1)))
   else mret tt);;
  let sync_switch_ms := if pcr then 10000 else default 200 v in
  if (fa >=? refpts) || (diff /c 90 <? sync_switch_ms) then mret 0
  else if diff >? DROP_PCM_PTS_DIFF_THRESHOLD then mret 0
  else drop_to_refpts fuel refpts.

Definition adec_pts_droppcm (fuel : nat) : LM Z :=
  gettime;;
  info_wait fuel;;
  v ← property_int "vendor.media.amplayer.dropms";
  quit ← match v with
         | None => mret false
         | Some dropms =>
             upd (λ a, a <| droppcm_ms := dropms |>);;
             a ← get_audec;
             if pcm_size a dropms >? 0 then
               droppcm_use_size fuel (pcm_size a dropms);;
               config_bool "vendor.media.amplayer.dropmsquit"
             else mret false
         end;
  if (quit : bool) then mret 0 else
  pre ← config_bool "vendor.media.amplayer.pre_droppcm";
  r ← (if (pre : bool) then checkin_wait CHECKIN_FUEL 0 0 else mret (inr (0, 0)));
  match r with
  | inl ret => mret ret
  | inr (checkin, count) =>
      pre_drop fuel checkin;;
      rr ← droppcm_get_refpts fuel 0;
      if rr.1 =? -1 then mret (-1) else
      e ← first_apts_wait FIRST_APTS_FUEL count;
      match e with
      | Some ret => mret ret
      | None => drop_or_sync fuel rr.2
      end
  end.

(** ** The start of playback *)

(** The text of the apts node, when no first apts came or the clock failed. *)
Definition apts_from_node : LM Z :=
  v ← ask_opt (SysfsGet TSYNC_APTS); mret (match v with Some _ => 0 | None => -1 end).

Definition adec_pts_start (fuel : nat) : LM Z :=
  t ← gets avsync_threshold;
  (if t <=? 0 then
     wfd ← config_bool "vendor.media.libplayer.wfd";
     upd (λ a, a <| avsync_threshold :=
       if (wfd : bool) then SYSTIME_CORRECTION_THRESHOLD * 2 /c 3
       else SYSTIME_CORRECTION_THRESHOLD |>)
   else mret tt);;
  adec_calc_pts;;
  v ← sysfs_get_int TSYNC_FIRSTAPTS;
  match v with
  | None => mret (-1)
  | Some v =>
      upd (λ a, a <| first_apts := v |>);;
      upd_dsp (λ d, d <| last_pts_valid := 0 |>);;
      en ← property_int "vendor.sys.amplayer.drop_pcm";
      (if negb (default 1 en =? 0) then
         s ← ask_str (SysfsGet TSYNC_ENABLE);
         match s with
         | Some s => if strncmp_eq 10 s "1: enabled" then ignore (adec_pts_droppcm fuel)
                     else mret tt
         | None => mret tt
         end
       else mret tt);;
      e ← ask (SysfsSet TSYNC_EVENT (PStr "AUDIO_PRE_START"));
      if e =? -1 then mret (-1) else
      usleep 1000;;
      nf ← gets no_first_apts;
      if negb (nf =? 0) then apts_from_node else
      pts ← adec_calc_pts;
      if i32 pts =? -1 then apts_from_node else mret 0
  end.

(** ** The periodic report *)

(** The start of the audio clock once [pre_filltime] ms were written. *)
Definition refresh_start_flag : LM unit :=
  pf ← gets_glob pre_filltime;
  (if pf =? -1 then
     v ← property_int "vendor.media.amadec.prefilltime";
     upd_glob (λ g, g <| pre_filltime := default 170 v |>)
   else mret tt);;
  wait ← gets_glob pre_filltime;
  a ← get_audec;
  if negb (apts_start_flag a =? 0) then mret tt else
  let '(sr, ch) := match g_bst a with
                   | Some b => (PcmBuffer.samplerate b, PcmBuffer.channels b)
                   | None => (samplerate a, channels a)
                   end in
  let d := i32 (sr * ch * 2) in
  if d =? 0 then crash else
  if i64 (pcm_bytes_readed a * 1000) /c d >=? wait then
    upd (λ a, a <| apts_start_flag := 1 |>);;
    dis ← config_bool "vendor.libplayer.slowsync.disable";
    if negb dis then enable_slowsync_repeate else mret tt
  else mret tt.

(** The pcr master block: the bookkeeping and the drop after 21 late
    reports in a row. *)
Definition refresh_pcrmaster (fuel : nat) (pts systime u32_vpts : Z) : LM unit :=
  a ← get_audec;
  let apts := i64 pts in
  let pcr := i64 systime in
  if (tsync_mode a =? TSYNC_MODE_PCRMASTER) && negb (pcrtsync_enable a =? 0)
     && ((apts - last_apts64 a >? TIME_UNIT90K /c 10) || (apts <? last_apts64 a)) then
    upd (λ a, a <| apts64 := apts |> <| pcrscr64 := pcr |>);;
    (if negb (adis_flag a =? 0) && (c_abs (pcr - last_apts64 a) >? APTS_DISCONTINUE_THRESHOLD)
     then upd (λ a, a <| adis_flag := 0 |>) else mret tt);;
    upd (λ a, a <| last_pcrscr64 := pcr |>);;
    (if apts <? last_apts64 a then upd (λ a, a <| last_apts64 := apts |>) else mret tt);;
    if (pcr - apts >? pcrmaster_droppcm_thsh a) && (c_abs (pcr - apts) <? 3 * 90000)
       && (c_abs (u32_vpts - apts) >=? 45000) then
      n ← gets_glob pcrmaster_droppcm_flag;
      upd_glob (λ g, g <| pcrmaster_droppcm_flag := n + 1 |>);;
      if n >? 20 then
        let droppts := i32 (pcr - apts) in
        upd (λ a, a <| droppcm_ms := droppts /c 90 |>);;
        upd_glob (λ g, g <| pcrmaster_droppcm_flag := 0 |>);;
        ignore (droppcm_use_size fuel (pcm_size a (droppts /c 90)))
      else mret tt
    else upd_glob (λ g, g <| pcrmaster_droppcm_flag := 0 |>)
  else mret tt.

(** The poll for the pcr discontinuity point, at most 50 reads. *)
Fixpoint dispoint_wait (count : nat) : LM Z :=
  match count with
  | O => mret 0
  | S count =>
      v ← sysfs_get_int TSYNC_PCR_DISPOINT;
      match v with
      | None => upd (λ a, a <| adis_flag := 100 |>);; mret 0
      | Some p => usleep 20000;; if p =? 0 then dispoint_wait count else mret p
      end
  end.

(** The report of an interruption of the audio time. *)
Definition refresh_discontinuity (fuel : nat) (pts : Z) : LM Z :=
  a ← get_audec;
  dis ← (if tsync_mode a =? TSYNC_MODE_PCRMASTER
         then mysysfs_get_sysfs_int16 TSYNC_PCR_DISCONTINUE else mret 0);
  (if (tsync_mode a =? TSYNC_MODE_PCRMASTER) && negb (pcrtsync_enable a =? 0)
      && negb (Z.land dis VIDEO_DISCONTINUE =? 0) then
     upd (λ a, a <| apts64 := i64 pts |> <| adis_flag := 0 |>);;
     p ← dispoint_wait 50;
     if p =? 0 then mret tt else
     upd (λ a, a <| pcrscr64 := i64 p |> <| tsync_pcr_dispoint := i32 p |> <| adis_flag := 100 |>);;
     let d := i64 p - i64 pts in
     if (d >? APTS_DISCONTINUE_THRESHOLD) && (d <? 10 * 90000) then
       upd (λ a, a <| droppcm_ms := i32 d /c 90 |>);;
       a ← get_audec;
       ignore (droppcm_use_size fuel (pcm_size a (i32 d /c 90)))
     else mret tt
   else mret tt);;
  e ← ask (SysfsSet TSYNC_EVENT (PHex "AUDIO_TSTAMP_DISCONTINUITY:0x" pts));
  if e =? -1 then mret (-1) else
  upd_dsp (λ d, d <| last_audio_pts := pts |> <| last_pts_valid := 1 |>);;
  upd (λ a, a <| auto_mute := 0 |>);;
  upd_glob (λ g, g <| apts_interrupt := 5 |>);;
  mret 0.

(** The correction of the system's audio time. *)
Definition refresh_report (pts : Z) : LM Z :=
  re_getpts ← adec_calc_pts;
  if c_abs (pts - re_getpts) >? 900 then mret 0 else
  ready ← gets refresh_pts_readytime_ms;
  late ← (if ready >? 0 then
            t ← gettime;
            if ready >? t /c 1000 then mret true
            else upd (λ a, a <| refresh_pts_readytime_ms := 0 |>);; mret false
          else mret false);
  if (late : bool) then mret 0 else
  b ← gets (λ a, set_cur_apts (adsp_ops a));
  (if (b : bool) then ignore (audiodsp_set_apts re_getpts)
   else ignore (ask (SysfsSet TSYNC_APTS (PHex "0x" re_getpts))));;
  mret 0.

Definition adec_refresh_pts (fuel : nat) : LM Z :=
  last_pts ← gets (λ a, last_audio_pts (adsp_ops a));
  last_kernel_pts ← gets (λ a, kernel_audio_pts (adsp_ops a));
  am ← gets auto_mute;
  if am =? 1 then mret 0 else
  start_flag ← gets apts_start_flag;
  refresh_start_flag;;
  systime ← call_get_cur_pcrscr;
  pts ← adec_calc_pts;
  flag ← gets apts_start_flag;
  e ← (if negb (start_flag =? flag)
       then ask (SysfsSet TSYNC_EVENT (PHex "AUDIO_START:0x" pts)) else mret 0);
  if e =? -1 then mret (-1) else
  if last_pts =? pts then
    upd (λ a, a <| pcrscr64 := i64 systime |>);; mret (-1)
  else
  v ← mysysfs_get_sysfs_int16 TSYNC_VPTS;
  refresh_pcrmaster fuel pts systime (u32 v);;
  valid ← gets (λ a, last_pts_valid (adsp_ops a));
  if (c_abs (pts - last_pts) >? APTS_DISCONTINUE_THRESHOLD) && negb (valid =? 0) then
    refresh_discontinuity fuel pts
  else
  kernel_pts ← gets (λ a, kernel_audio_pts (adsp_ops a));
  if last_kernel_pts =? kernel_pts then
    upd (λ a, a <| pcrscr64 := i64 systime |>);; mret 0
  else
  upd_dsp (λ d, d <| last_audio_pts := pts |> <| last_pts_valid := 1 |>);;
  t ← gets avsync_threshold;
  n ← gets_glob apts_interrupt;
  if c_abs (pts - systime) <? t then
    upd_glob (λ g, g <| apts_interrupt := 0 |>);; mret 0
  else if n >? 0 then
    upd_glob (λ g, g <| apts_interrupt := n - 1 |>);; mret 0
  else if start_flag =? 0 then mret 0
  else refresh_report pts.

(** ** The pts manager keeps the thread's invariant *)

Section neutral_pts.
Context (o : oracle) {Henv : PlayerEnv o} (I : world → Prop).
Context (own : gset Z) (s : adec_state_t) (d : dev_state).
Hypothesis HI : ∀ w, thread_inv own true s d w → I w.
#[local] Abbreviation N := (Neutral o I own true s d).
#[local] Hint Resolve HI : neutral.

Lemma neutral_call_get_cur_pts : N call_get_cur_pts.
Proof.
  intros Q w Hw HQ. unfold call_get_cur_pts. wp_steps.
  destruct (ti_fns _ _ _ _ _ Hw) as (_ & -> & _). by eapply (neutral_audiodsp_get_pts o I own true s d Q w).
Qed.

Lemma neutral_call_get_cur_pcrscr : N call_get_cur_pcrscr.
Proof.
  intros Q w Hw HQ. unfold call_get_cur_pcrscr. wp_steps.
  destruct (ti_fns _ _ _ _ _ Hw) as (_ & _ & ->). by eapply (neutral_audiodsp_get_pcrscr o I own true s d Q w).
Qed.

Lemma neutral_call_dsp_read size : N (call_dsp_read size).
Proof.
  intros Q w Hw HQ. unfold call_dsp_read. wp_steps.
  destruct (ti_fns _ _ _ _ _ Hw) as (-> & _). by eapply (neutral_audiodsp_stream_read o I own true s d size Q w).
Qed.

#[local] Hint Resolve neutral_call_get_cur_pts neutral_call_get_cur_pcrscr
  neutral_call_dsp_read : neutral.

Lemma neutral_adec_calc_pts : N adec_calc_pts.
Proof. unfold adec_calc_pts. neutral_go. Qed.
#[local] Hint Resolve neutral_adec_calc_pts : neutral.

Lemma neutral_track_switch_pts : N track_switch_pts.
Proof. unfold track_switch_pts. neutral_go. Qed.

Lemma neutral_sysfs_get_int path : N (sysfs_get_int path).
Proof. unfold sysfs_get_int. neutral_go. Qed.
Lemma neutral_mysysfs_get_sysfs_int16 path : N (mysysfs_get_sysfs_int16 path).
Proof. unfold mysysfs_get_sysfs_int16. neutral_go. Qed.
Lemma neutral_property_int name : N (property_int name).
Proof. unfold property_int. neutral_go. Qed.
Lemma neutral_config_bool name : N (config_bool name).
Proof. unfold config_bool. neutral_go. Qed.
Lemma neutral_gettime : N gettime.
Proof. unfold gettime. neutral_go. Qed.
#[local] Hint Resolve neutral_sysfs_get_int neutral_mysysfs_get_sysfs_int16
  neutral_property_int neutral_config_bool neutral_gettime : neutral.

Lemma neutral_drop_raw_loop fuel n k : N (drop_raw_loop fuel n k).
Proof. revert n k. induction fuel; simpl; neutral_go. Qed.
#[local] Hint Resolve neutral_drop_raw_loop : neutral.

Lemma neutral_drop_raw_data ret : N (drop_raw_data ret).
Proof. unfold drop_raw_data. neutral_go. Qed.
#[local] Hint Resolve neutral_drop_raw_data : neutral.

Lemma neutral_drop_loop fuel raw mt st n k r : N (drop_loop fuel raw mt st n k r).
Proof. revert n k r. induction fuel; cbn [drop_loop]; neutral_go. Qed.
#[local] Hint Resolve neutral_drop_loop : neutral.

Lemma neutral_droppcm_use_size fuel n : N (droppcm_use_size fuel n).
Proof. unfold droppcm_use_size. neutral_go. Qed.
#[local] Hint Resolve neutral_droppcm_use_size : neutral.

Lemma neutral_droppcm_prop_ctrl a v : N (droppcm_prop_ctrl a v).
Proof. unfold droppcm_prop_ctrl. neutral_go. Qed.
#[local] Hint Resolve neutral_droppcm_prop_ctrl : neutral.

Lemma neutral_refpts_wait fuel c st f k : N (refpts_wait fuel c st f k).
Proof. revert f k. induction fuel; cbn [refpts_wait]; neutral_go. Qed.
#[local] Hint Resolve neutral_refpts_wait : neutral.

Lemma neutral_refpts_after_mode fuel st r : N (refpts_after_mode fuel st r).
Proof. unfold refpts_after_mode. neutral_go. Qed.
#[local] Hint Resolve neutral_refpts_after_mode : neutral.

Lemma neutral_droppcm_get_refpts fuel r : N (droppcm_get_refpts fuel r).
Proof. unfold droppcm_get_refpts, read_tsync_mode. neutral_go. Qed.
#[local] Hint Resolve neutral_droppcm_get_refpts : neutral.

Lemma neutral_info_wait fuel : N (info_wait fuel).
Proof. induction fuel; cbn [info_wait]; neutral_go. Qed.
Lemma neutral_checkin_wait fuel c k : N (checkin_wait fuel c k).
Proof. revert c k. induction fuel; cbn [checkin_wait]; neutral_go. Qed.
Lemma neutral_first_apts_wait fuel k : N (first_apts_wait fuel k).
Proof. revert k. induction fuel; cbn [first_apts_wait]; neutral_go. Qed.
Lemma neutral_pre_drop fuel c : N (pre_drop fuel c).
Proof. unfold pre_drop. neutral_go. Qed.
Lemma neutral_drop_to_refpts fuel r : N (drop_to_refpts fuel r).
Proof. unfold drop_to_refpts. neutral_go. Qed.
#[local] Hint Resolve neutral_info_wait neutral_checkin_wait neutral_first_apts_wait
  neutral_pre_drop neutral_drop_to_refpts : neutral.

Lemma neutral_drop_or_sync fuel r : N (drop_or_sync fuel r).
Proof. unfold drop_or_sync. neutral_go. Qed.
#[local] Hint Resolve neutral_drop_or_sync : neutral.

Lemma neutral_adec_pts_droppcm fuel : N (adec_pts_droppcm fuel).
Proof. unfold adec_pts_droppcm. neutral_go. Qed.
#[local] Hint Resolve neutral_adec_pts_droppcm : neutral.

Lemma neutral_adec_pts_start fuel : N (adec_pts_start fuel).
Proof. unfold adec_pts_start, apts_from_node. neutral_go. Qed.

Lemma neutral_refresh_pcrmaster fuel p t v : N (refresh_pcrmaster fuel p t v).
Proof. unfold refresh_pcrmaster. neutral_go. Qed.
Lemma neutral_dispoint_wait n : N (dispoint_wait n).
Proof. induction n; cbn [dispoint_wait]; neutral_go. Qed.
#[local] Hint Resolve neutral_refresh_pcrmaster neutral_dispoint_wait : neutral.
Lemma neutral_refresh_discontinuity fuel p : N (refresh_discontinuity fuel p).
Proof. unfold refresh_discontinuity. neutral_go. Qed.
Lemma neutral_refresh_report p : N (refresh_report p).
Proof. unfold refresh_report. neutral_go. Qed.

End neutral_pts.

(** ** Dropping an exact number of bytes *)

(** The PCM bytes read from the dsp so far. *)
Fixpoint read_sum (l : list (req * Z)) : Z :=
  match l with
  | [] => 0
  | (DspRead _ _, a) :: l => a + read_sum l
  | _ :: l => read_sum l
  end.

(** A read returns at most what was asked for, and does not fail. *)
Definition reads_ok (o : oracle) : Prop :=
  ∀ n fd size, 0 ≤ size → 0 ≤ o_int o n (DspRead fd size) ≤ size.

Section drop.
Context (o : oracle) {Henv : PlayerEnv o} (Hreads : reads_ok o).
Context (own : gset Z) (s : adec_state_t) (d : dev_state) (I : world → Prop).

(** The thread's invariant, and [k] bytes read. *)
Definition inv_read (k : Z) (w : world) : Prop :=
  thread_inv own true s d w ∧ read_sum (log w) = k.

Lemma wp_ask_read r k Q w :
  neutral_req r = true → inv_read k w → (∀ a w', inv_read k w' → Q a w') → wp o I (ask r) Q w.
Proof.
  intros Hr [Hw Hk] HQ. apply wp_ask. intros a. apply HQ. split; [by apply inv_req|].
  simpl. by destruct r as [| | | | | |[]| | | | | | | | | | | | | | | |].
Qed.

Lemma wp_yield_read k Q w :
  inv_read k w → (∀ w', inv_read k w' → Q tt w') → wp o I yield Q w.
Proof.
  intros [Hw Hk] HQ. apply wp_yield. apply HQ. split; [|done].
  destruct (player_env (tick w) (audec w)) as [].
  apply (inv_frame own true s d w); simpl; auto.
Qed.

Lemma wp_drop_raw_loop fuel n c k Q w :
  0 ≤ c ≤ 10 → 10 - c < Z.of_nat fuel → inv_read k w → (∀ w', inv_read k w' → Q tt w') →
  wp o I (drop_raw_loop fuel n c) Q w.
Proof.
  revert n c w. induction fuel as [|fuel IH]; intros n c w Hc Hf Hw HQ; [lia|].
  cbn [drop_raw_loop]. destruct (n >? 0); wp_steps; [|auto].
  apply (wp_ask_read _ k); [done..|]. intros a w' Hw'. rewrite Z.gtb_ltb.
  destruct (Z.ltb_spec 10 (c + 1)); wp_steps; [auto|]. apply IH; [lia|lia|done..].
Qed.

Lemma wp_call_dsp_read size k Q w :
  0 ≤ size → inv_read k w → (∀ a w', 0 ≤ a ≤ size → inv_read (k + a) w' → Q a w') →
  wp o I (call_dsp_read size) Q w.
Proof.
  intros Hs [Hw Hk] HQ. unfold call_dsp_read. wp_steps.
  destruct (ti_fns _ _ _ _ _ Hw) as (-> & _). unfold audiodsp_stream_read.
  apply wp_guard; [apply Hw|..].
  - wp_steps. apply HQ; [lia|]. split; [done|lia].
  - intros [Hi Hf]. apply wp_ask_exact.
    apply HQ; [by apply Hreads|]. split; [|simpl; lia].
    destruct Hw as [Hw1 Hw2 Hw3 Hw4 Hw5 Hw6]. split; try done.
    + unfold fd_inv, fd_of in *. simpl. rewrite Hi. simpl.
      rewrite (proj2 (Z.ltb_ge _ _)) by done. by rewrite bool_decide_true.
    + simpl. by rewrite Hw2.
Qed.

(** What a run of the loop for [n] bytes has read in the end. *)
Definition dropped_ok (k n : Z) (r : Z) (w' : world) : Prop :=
  thread_inv own true s d w' ∧ k ≤ read_sum (log w') ≤ k + Z.max 0 n ∧
  (r ≠ -1 → need_stop (audec w') ≠ 0 ∨ read_sum (log w') = k + Z.max 0 n).

Lemma wp_drop_loop fuel raw mt st n c r k w :
  n ≤ INT_MAX → 0 ≤ c ≤ 40 → 41 * Z.max 0 n + (40 - c) < Z.of_nat fuel → inv_read k w →
  wp o I (drop_loop fuel raw mt st n c r) (dropped_ok k n) w.
Proof.
  revert n c r k w. induction fuel as [|fuel IH]; intros n c r k w Hn Hc Hf Hw; [lia|].
  cbn [drop_loop]. wp_steps. rewrite Z.gtb_ltb. destruct (Z.ltb_spec 0 n).
  2: { wp_steps. change (negb (1 =? 0)) with true. wp_steps. destruct Hw as [Hw <-].
       split; [done|]. split; [lia|]. intros _. right. lia. }
  unfold read_need_stop. wp_steps. apply (wp_yield_read k); [done|]. intros w1 Hw1. wp_steps.
  destruct (Z.eqb_spec (need_stop (audec w1)) 0) as [Hs|Hs]; cbn [negb]; wp_steps.
  2: { destruct Hw1 as [Hw1 <-]. split; [done|]. split; [lia|]. auto. }
  apply (wp_call_dsp_read _ k); [unfold DROPPCM_TMPBUF_SIZE; lia|done|].
  intros ret w2 Hret Hw2. wp_steps.
  assert (∀ w3, inv_read (k + ret) w3 →
    wp o I (t ← gettime;
      if (t - st) /c 1000 >? mt then mret (-1) else
      if ret =? 0 then
        if c >=? 40 then mret (-1) else usleep 50000;; drop_loop fuel raw mt st n (c + 1) ret
      else drop_loop fuel raw mt st (i32 (n - ret)) 0 ret) (dropped_ok k n) w3) as Hrest.
  { intros w3 Hw3. wp_step. apply (wp_ask_read _ (k + ret)); [done..|]. intros t w4 Hw4.
    destruct (_ >? mt); wp_steps.
    { destruct Hw4 as [Hw4 Hk]. split; [done|]. split; [lia|done]. }
    destruct (Z.eqb_spec ret 0) as [->|Hr0].
    - rewrite Z.geb_leb. destruct (Z.leb_spec 40 c); wp_steps.
      { destruct Hw4 as [Hw4 Hk]. split; [done|]. split; [lia|done]. }
      unfold usleep. wp_steps. apply (wp_ask_read _ (k + 0)); [done..|]. intros _ w5 Hw5.
      apply (wp_yield_read (k + 0)); [done|]. intros w6 Hw6. rewrite Z.add_0_r in Hw6.
      apply IH; [lia..|done].
    - unfold INT_MAX in *. rewrite i32_small by lia.
      eapply wp_mono; [apply (IH _ _ _ (k + ret)); [unfold INT_MAX; lia|lia|lia|done]|].
      intros r' w' (Hi & Hb & Hr'). split; [done|]. split; [lia|]. intros Hne.
      destruct (Hr' Hne); [auto|]. right. lia. }
  destruct (raw && (ret >? 0)).
  - unfold drop_raw_data. wp_steps. apply (wp_drop_raw_loop _ _ _ (k + ret)); [lia|lia|done|].
    intros w3 Hw3. by apply Hrest.
  - wp_step. by apply Hrest.
Qed.

End drop.


(** Every read gives one byte less than asked for; a stop never comes. *)
Definition short_reads : oracle :=
  mk_oracle (λ _ r, match r with DspRead _ n => if n <? 2 then n else n - 1 | _ => 0 end)
    (λ _ _, Some 0) (λ _ _, None) (λ _ a, a).


(** A read that fails takes nothing and makes what is left to drop grow: the
    next read takes more than was to be dropped. *)
Definition failing_read : oracle :=
  mk_oracle (λ n r, match r with DspRead _ size => if (n <? 5)%nat then -1 else size | _ => 0 end)
    (λ _ _, Some 0) (λ _ _, None) (λ _ a, a).

Fixpoint reads_of (l : list (req * Z)) : list (Z * Z) :=
  match l with
  | [] => []
  | (DspRead _ size, a) :: l => (size, a) :: reads_of l
  | _ :: l => reads_of l
  end.

Example failed_read_drops_more :
  match droppcm_use_size 500 10 failing_read ready_world with
  | Done _ w' => Some (reads_of (log w'))
  | _ => None
  end = Some [(11, 11); (10, -1)].
Proof. vm_compute. reflexivity. Qed.

(** ** The decisions *)

Lemma delayed_pts_spec pts delay :
  0 ≤ pts < 2 ^ 64 → 0 ≤ delay < 2 ^ 64 →
  0 ≤ delayed_pts pts delay ≤ pts ∧
  (delay < pts → delayed_pts pts delay = pts - delay) ∧
  (pts ≤ delay < pts + 9000 → delayed_pts pts delay = 0).
Proof.
  intros Hp Hd. unfold delayed_pts, c_abs. split_and!.
  - zcase; lia.
  - zcase; lia.
  - intros. rewrite (proj2 (Z.ltb_lt _ _)) by lia. done.
  - intros. rewrite (proj2 (Z.ltb_ge _ _)) by lia.
    rewrite (i32_small (delay - pts)) by lia. rewrite i32_small by lia. zcase; lia.
Qed.

Lemma switch_decision_spec apts pcr threshold :
  switch_decision apts pcr threshold =
    if bool_decide (pcr < apts ∧ threshold ≤ apts - pcr ≤ 0x100000) then 1 else 0.
Proof.
  unfold switch_decision, c_abs.
  destruct (Z.ltb_spec pcr apts); cbn [andb].
  2: { rewrite (proj2 (Z.leb_le apts pcr)), orb_true_r, bool_decide_false by lia. done. }
  destruct (Z.ltb_spec 0x100000 (apts - pcr)); simpl; [by rewrite bool_decide_false by lia|].
  rewrite (i32_small (apts - pcr)) by lia. rewrite i32_small by lia.
  case_bool_decide; zcase; simpl; lia.
Qed.


(** The system is 10000 behind a clock of 20000 that the latency of 100 ms
    has already moved back. *)
Definition clock_oracle : oracle :=
  mk_oracle (λ _ r, match r with
                    | DspIoctl _ AUDIODSP_SYNC_GET_PCRSCR _ => 10000
                    | DspIoctl _ AUDIODSP_GET_PTS _ => 29000
                    | Aout AoutLatency => 100
                    | _ => 0
                    end) (λ _ _, None) (λ _ _, None) (λ _ a, a).

Definition clock_world : world :=
  ready_world <| audec := audec ready_world <| apts_start_flag := 1 |>
                                            <| avsync_threshold := 5400 |> |>.


(** ** Bounded polls *)

(** Ends for any oracle, unless it crashes. *)
Definition not_waiting {A} (r : outcome A) : Prop :=
  match r with Waiting _ => False | _ => True end.

Lemma not_waiting_bind {A B} (m : LM A) (f : A → LM B) o w :
  not_waiting (m o w) → (∀ a w', not_waiting (f a o w')) → not_waiting ((m ≫= f) o w).
Proof. unfold mbind, lm_bind. destruct (m o w); simpl; auto. Qed.

Lemma checkin_wait_ends fuel o c k w :
  0 ≤ k ≤ 50 → 51 - k < Z.of_nat fuel → not_waiting (checkin_wait fuel c k o w).
Proof.
  revert c k w. induction fuel as [|fuel IH]; intros c k w Hk Hf; [lia|].
  cbn [checkin_wait]. destruct (negb (c =? 0)); [done|].
  apply not_waiting_bind; [done|]. intros stop w1. destruct (negb (stop =? 0)); [done|].
  apply not_waiting_bind; [done|]. intros [v|] w2; [|done].
  rewrite Z.geb_leb. destruct (Z.leb_spec 50 k); [done|]. destruct (negb (v =? 0)); [done|].
  apply not_waiting_bind; [done|]. intros _ w3. apply IH; lia.
Qed.

Lemma adec_calc_pts_ends o w : not_waiting (adec_calc_pts o w).
Proof.
  unfold adec_calc_pts. apply not_waiting_bind.
  { unfold call_get_cur_pts, audiodsp_get_pts, ioctl.
    apply not_waiting_bind; [done|]. intros [] w1; [|done].
    apply not_waiting_bind; [done|]. intros fd w2. by destruct (fd <? 0). }
  intros p w1. destruct (i32 p =? -1); [done|]. do 2 (apply not_waiting_bind; [done|]; intros).
  destruct (negb _); [done|]. do 2 (apply not_waiting_bind; [done|]; intros).
  by destruct (_ =? 0).
Qed.

Lemma first_apts_wait_ends fuel o k w :
  0 ≤ k → 11 - k < Z.of_nat fuel → 0 < Z.of_nat fuel → not_waiting (first_apts_wait fuel k o w).
Proof.
  revert k w. induction fuel as [|fuel IH]; intros k w Hk Hf Hf0; [lia|].
  cbn [first_apts_wait]. apply not_waiting_bind; [done|]. intros f w1.
  destruct (negb (f =? 0)); [done|]. apply not_waiting_bind; [done|]. intros stop w2.
  destruct (negb (stop =? 0)); [done|]. rewrite Z.gtb_ltb. destruct (Z.ltb_spec 10 k); [done|].
  apply not_waiting_bind; [apply adec_calc_pts_ends|]. intros _ w3.
  apply not_waiting_bind; [done|]. intros [v|] w4; [|done].
  do 2 (apply not_waiting_bind; [done|]; intros). apply IH; lia.
Qed.

Lemma dispoint_wait_ends n o w : not_waiting (dispoint_wait n o w).
Proof.
  revert w. induction n as [|n IH]; intros w; cbn [dispoint_wait]; [done|].
  apply not_waiting_bind; [done|]. intros [p|] w1; [|done].
  apply not_waiting_bind; [done|]. intros _ w2. destruct (p =? 0); [apply IH|done].
Qed.

(** The polls of the pts manager that the code bounds by a counter end
    for every answer of the system: the one for the first checked-in vpts (50
    sleeps), the one for the first apts from any count the first one left (at
    most 11 sleeps) and the one for the pcr discontinuity point (50 reads). *)
Theorem polls_end (o : oracle) (w : world) (count : Z) :
  0 ≤ count →
  not_waiting (checkin_wait CHECKIN_FUEL 0 0 o w) ∧
  not_waiting (first_apts_wait FIRST_APTS_FUEL count o w) ∧
  not_waiting (dispoint_wait 50 o w).
Proof.
  intros Hc. split_and!.
  - apply checkin_wait_ends; unfold CHECKIN_FUEL; lia.
  - apply first_apts_wait_ends; unfold FIRST_APTS_FUEL; lia.
  - apply dispoint_wait_ends.
Qed.

Lemma polls_end_witness :
  not_waiting (checkin_wait CHECKIN_FUEL 0 0 short_reads ready_world) ∧
  not_waiting (first_apts_wait FIRST_APTS_FUEL 50 short_reads ready_world) ∧
  not_waiting (dispoint_wait 50 short_reads ready_world).
Proof. apply polls_end. lia. Defined.

(** ** The periodic report is safe *)

(** The divisor of the pre-fill time is not zero, or is not used. *)
Definition rate_known (a : aml_audio_dec_t) : Prop :=
  apts_start_flag a ≠ 0 ∨
  match g_bst a with
  | Some b => i32 (PcmBuffer.samplerate b * PcmBuffer.channels b * 2) ≠ 0
  | None => i32 (samplerate a * channels a * 2) ≠ 0
  end.

Lemma wp_refresh_start_flag o I own s d Q w :
  PlayerEnv o → thread_inv own true s d w → rate_known (audec w) →
  (∀ w', thread_inv own true s d w' → Q tt w') → wp o I refresh_start_flag Q w.
Proof.
  intros Henv Hw Hr HQ. unfold refresh_start_flag. wp_steps.
  assert (∀ w1, audec w1 = audec w → thread_inv own true s d w1 →
    wp o I (wait ← gets_glob pre_filltime;
      a ← get_audec;
      if negb (apts_start_flag a =? 0) then mret tt else
      let '(sr, ch) := match g_bst a with
                       | Some b => (PcmBuffer.samplerate b, PcmBuffer.channels b)
                       | None => (samplerate a, channels a)
                       end in
      let d := i32 (sr * ch * 2) in
      if d =? 0 then crash else
      if i64 (pcm_bytes_readed a * 1000) /c d >=? wait then
        upd (λ a, a <| apts_start_flag := 1 |>);;
        dis ← config_bool "vendor.libplayer.slowsync.disable";
        if negb dis then enable_slowsync_repeate else mret tt
      else mret tt) Q w1) as Hrest.
  { intros w1 Ha Hw1. wp_steps. rewrite Ha. destruct Hr as [Hf|Hd].
    { rewrite (proj2 (Z.eqb_neq _ _)) by done. cbn [negb]. wp_steps. auto. }
    destruct (negb _); wp_steps; [auto|].
    destruct (match g_bst (audec w) with Some b => _ | None => _ end) as [sr ch] eqn:E.
    assert (i32 (sr * ch * 2) ≠ 0) as Hne by (destruct (g_bst (audec w)); simplify_eq; done).
    rewrite (proj2 (Z.eqb_neq _ _)) by done. destruct (_ >=? _); [|wp_steps; auto].
    apply (neutral_bind o I own true s d); [|intros _|done|intros []; apply HQ].
    - neutral_go.
    - unfold config_bool, enable_slowsync_repeate. neutral_go. }
  destruct (_ =? -1); [|wp_step; by apply Hrest].
  unfold property_int. wp_steps. apply wp_ask_opt. intros v. wp_step. wp_step. apply Hrest; [done|].
  apply (inv_frame own true s d (record_req (Property "vendor.media.amadec.prefilltime") 0 w)); try done.
  by apply inv_req.
Qed.



(** The rate is not checked: a report before the audio clock started,
    on a decoder with no stream object and no sampling rate or channel count,
    divides by zero, for every oracle. *)
Theorem refresh_pts_divides_by_zero (o : oracle) (fuel : nat) (w : world) :
  auto_mute (audec w) = 0 → apts_start_flag (audec w) = 0 → g_bst (audec w) = None →
  samplerate (audec w) = 0 ∨ channels (audec w) = 0 →
  adec_refresh_pts fuel o w = Crash.
Proof.
  intros Ha Hf Hg Hz. unfold adec_refresh_pts, refresh_start_flag.
  unfold mbind, lm_bind, gets, gets_glob, get_audec. rewrite Ha. cbn [Z.eqb].
  assert (i32 (samplerate (audec w) * channels (audec w) * 2) = 0) as Hd
    by (destruct Hz as [-> | ->]; rewrite ?Z.mul_0_r; done).
  destruct (pre_filltime (glob w) =? -1); simpl; rewrite Hf; simpl; rewrite Hg, Hd; done.
Qed.

Lemma refresh_pts_divides_by_zero_witness :
  adec_refresh_pts 10 short_reads
    (ready_world <| audec := audec ready_world <| samplerate := 0 |> |>) = Crash.
Proof. apply refresh_pts_divides_by_zero; [done..|by left]. Defined.
