(* ===== verification/DecoderSelect.v ===== *)
(** The choice of the decoder and the creation of its thread, from
    LibAudio/amadec/adec-internal-mgt.c: [match_types], [set_multichs_prop],
    [set_audio_decoder], [audiodec_init].

    [match_types] keeps the 64-byte buffer of the source: a copy that does
    not fit has no result.  Its theorem says that on a list of short names
    separated by commas it decides membership. *)

From S2P Require Import Prelude PcmBuffer MessagePool Audec Dsp PtsMgt.

(** ** Matching type names *)

Definition comma : Ascii.ascii := Ascii.ascii_of_nat 44.

(** The text before and after the first comma ([strchr]). *)
Fixpoint split_comma (s : string) : option (string * string) :=
  match s with
  | EmptyString => None
  | String c s =>
      if Ascii.eqb c comma then Some (EmptyString, s)
      else match split_comma s with
           | Some (a, b) => Some (String c a, b)
           | None => None
           end
  end.

(** The loop of [match_types]; every round uses up at least one character.
    [strstr] between strings of equal length is equality. *)
Fixpoint match_loop (fuel : nat) (file : string) (psets : string) : option Z :=
  match fuel with
  | O => None
  | S fuel =>
      if String.eqb psets EmptyString then Some 0 else
      let matches typestr :=
        (0 <? String.length typestr)%nat && (String.length typestr =? String.length file)%nat
        && String.eqb file typestr in
      let last := if (String.length psets <? 64)%nat
                  then Some (if matches psets then 1 else 0) else None in
      match split_comma psets with
      | Some (typestr, rest) =>
          if (0 <? String.length typestr)%nat && (String.length typestr <? 64)%nat
          then if matches typestr then Some 1 else match_loop fuel file rest
          else last
      | None => last
      end
  end.

(** NULL arguments are [None]; the outer [None] is the overrun buffer. *)
Definition match_types (filetypestr typesetting : option string) : option Z :=
  match filetypestr, typesetting with
  | Some f, Some t => match_loop (S (String.length t)) f t
  | _, _ => Some 0
  end.

(** A setting: names joined with commas. *)
Fixpoint join_types (l : list string) : string :=
  match l with
  | [] => EmptyString
  | [t] => t
  | t :: l => t +:+ String comma (join_types l)
  end.

Definition no_comma (t : string) : bool :=
  match split_comma t with None => true | Some _ => false end.

Definition type_name (t : string) : Prop :=
  (0 < String.length t < 64)%nat ∧ no_comma t = true.

Lemma split_comma_app t s :
  no_comma t = true → split_comma (t +:+ String comma s) = Some (t, s).
Proof.
  induction t as [|c t IH]; unfold no_comma; cbn [split_comma String.app]; [done|].
  destruct (Ascii.eqb c comma) eqn:E; [done|].
  intros Hn. simpl. rewrite E, IH; [done|].
  unfold no_comma. by destruct (split_comma t) as [[]|].
Qed.

Lemma strlen_app (s t : string) :
  String.length (s +:+ t) = (String.length s + String.length t)%nat.
Proof. induction s as [|c s IH]; simpl; [done|]. by rewrite IH. Qed.

(** The comparison of the source is equality of names. *)
Lemma matches_eq file t :
  (0 < String.length t)%nat →
  (0 <? String.length t)%nat && (String.length t =? String.length file)%nat
    && String.eqb file t = bool_decide (file = t).
Proof.
  intros Ht. rewrite (proj2 (Nat.ltb_lt _ _)) by done. simpl.
  destruct (String.eqb_spec file t) as [->|Hne].
  - by rewrite Nat.eqb_refl, bool_decide_true.
  - by rewrite andb_false_r, bool_decide_false.
Qed.

Lemma match_loop_list fuel file l :
  Forall type_name l → (String.length (join_types l) < fuel)%nat →
  match_loop fuel file (join_types l) = Some (if bool_decide (file ∈ l) then 1 else 0).
Proof.
  revert l. induction fuel as [|fuel IH]; intros l Hl Hf; [lia|].
  destruct l as [|t l]; [done|]. apply Forall_cons in Hl as [[Ht Hc] Hl].
  cbn [match_loop]. destruct l as [|t2 l].
  - cbn [join_types]. destruct (String.eqb_spec t EmptyString) as [->|_]; [simpl in Ht; lia|].
    unfold no_comma in Hc. destruct (split_comma t) as [[]|]; [done|].
    rewrite (proj2 (Nat.ltb_lt _ 64)) by lia. rewrite matches_eq by lia.
    by repeat case_bool_decide; set_solver.
  - cbn [join_types] in *. set (r := join_types (t2 :: l)) in *.
    change (match l with [] => t2 | _ :: _ => t2 +:+ String comma (join_types l) end)
      with r in *.
    rewrite strlen_app in Hf. simpl in Hf.
    destruct (String.eqb_spec (t +:+ String comma r) EmptyString) as [He|_].
    { apply (f_equal String.length) in He. rewrite strlen_app in He. simpl in He. lia. }
    rewrite split_comma_app by done.
    rewrite (proj2 (Nat.ltb_lt 0 _)), (proj2 (Nat.ltb_lt _ 64)) by lia. cbn [andb].
    destruct (String.length t =? String.length file)%nat eqn:El, (String.eqb_spec file t)
      as [->|Hne]; cbn [andb].
    + rewrite bool_decide_true; [done|]. set_solver.
    + unfold r. rewrite IH by (done || (fold r; lia)). by repeat case_bool_decide; set_solver.
    + by rewrite Nat.eqb_refl in El.
    + unfold r. rewrite IH by (done || (fold r; lia)). by repeat case_bool_decide; set_solver.
Qed.

(** [match_types] decides membership: for a setting made of names of 1
    to 63 characters joined with commas, the loop ends, stays inside its
    64-byte buffer and answers 1 exactly when the type is one of the names. *)
Theorem match_types_membership (file : string) (l : list string) :
  Forall type_name l →
  match_types (Some file) (Some (join_types l)) =
    Some (if bool_decide (file ∈ l) then 1 else 0).
Proof. intros Hl. apply match_loop_list; [done|lia]. Qed.

Lemma match_types_membership_witness :
  match_types (Some "eac3"%string) (Some (join_types ["ac3"; "eac3"]%string)) =
    Some (if bool_decide ("eac3"%string ∈ ["ac3"; "eac3"]%string) then 1 else 0).
Proof.
  apply match_types_membership.
  constructor; [split; [simpl; lia|done]|]. constructor; [split; [simpl; lia|done]|done].
Defined.

(** A name that begins a longer one does not match, an empty item ends the
    search, and a last item of 64 characters overruns the buffer. *)
Example match_types_edges :
  match_types (Some "ac3") (Some "eac3,ac3x") = Some 0 ∧
  match_types (Some "ac3") (Some "dts,,ac3") = Some 0 ∧
  match_types (Some "ac3") (Some
    "0123456789012345678901234567890123456789012345678901234567890123") = None.
Proof. by vm_compute. Qed.

(** ** The HDMI sink's capabilities *)

Definition MULTICH_SUPPORT_PROPERTY : string := "vendor.media.multich.support.info".
Definition PCM_88_96_SUPPORT : string := "vendor.media.libplayer.88_96K".

Definition is_char (buf : list Z) (i : Z) (c : Z) : option bool := (λ x, x =? c) <$> aget buf i.

(** One position of the scan: the properties set and the channel count;
    [buf] is what was read, and a look outside of it has no result. *)
Definition scan_at (dgraw : Z) (buf : list Z) (i channel : Z)
    : option (list (string * string) * Z) :=
  p0 ← is_char buf i 80; p1 ← is_char buf (i + 1) 67; p2 ← is_char buf (i + 2) 77;
  if (p0 : bool) && (p1 : bool) && (p2 : bool) then
    if dgraw =? 3 then
      c8 ← is_char buf (i + 5) 56; c6 ← is_char buf (i + 5) 54; c2 ← is_char buf (i + 5) 50;
      let s8 := if (c8 : bool) then [(MULTICH_SUPPORT_PROPERTY, "hdmi8"%string)] else [] in
      let s6 := if (c6 : bool) then [(MULTICH_SUPPORT_PROPERTY, "hdmi6"%string)] else [] in
      let s2 := if (c2 : bool) then [(MULTICH_SUPPORT_PROPERTY, "hdmi2"%string)] else [] in
      let ch := if (c8 : bool) then Z.max channel 8 else channel in
      let ch := if (c6 : bool) then Z.max ch 6 else ch in
      let ch := if (c2 : bool) then Z.max ch 2 else ch in
      Some (s8 ++ s6 ++ s2, ch)
    else Some ([(MULTICH_SUPPORT_PROPERTY, "hdmi2"%string)], Z.max channel 2)
  else
    d0 ← is_char buf i 56; d1 ← is_char buf (i + 1) 56; d2 ← is_char buf (i + 2) 46;
    d3 ← is_char buf (i + 3) 50; e0 ← is_char buf i 57; e1 ← is_char buf (i + 1) 54;
    if ((d0 : bool) && (d1 : bool) && (d2 : bool) && (d3 : bool)) || ((e0 : bool) && (e1 : bool))
    then Some ([(PCM_88_96_SUPPORT, "1"%string)], channel)
    else Some ([], channel).

(** [n] positions from [i] on. *)
Fixpoint scan_caps (n : nat) (dgraw : Z) (buf : list Z) (i channel : Z)
    : option (list (string * string) * Z) :=
  match n with
  | O => Some ([], channel)
  | S n =>
      r ← scan_at dgraw buf i channel;
      r' ← scan_caps n dgraw buf (i + 1) r.2;
      Some (r.1 ++ r'.1, r'.2)
  end.

(** The properties set from the [nread] bytes of the capability text; a
    failing read gives no byte. *)
Definition caps_props (dgraw : Z) (buf : list Z) : option (list (string * string)) :=
  r ← scan_caps (Z.to_nat (zlen buf - 5)) dgraw buf 0 0;
  Some (r.1 ++ if r.2 =? 0 then [(MULTICH_SUPPORT_PROPERTY, "speaker"%string)] else []).

Fixpoint set_props (ws : list (string * string)) : LM unit :=
  match ws with
  | [] => mret tt
  | (name, value) :: ws => ask (PropertySet name value);; set_props ws
  end.

(** [read(fd, infobuf, 1024)]. *)
Definition read_bytes (s : string) : list Z :=
  take 1024 (Z.of_nat ∘ Ascii.nat_of_ascii <$> String.list_ascii_of_string s).

(** No text from the node stands for an [open] that failed. *)
Definition set_multichs_prop : LM unit :=
  dgraw ← ask (SysfsGet "/sys/class/audiodsp/digital_raw");
  infobuf ← ask (Malloc 1024);
  ask (PropertySet PCM_88_96_SUPPORT "0");;
  if infobuf =? 0 then mret tt else
  caps ← ask_str (SysfsGet "/sys/class/amhdmitx/amhdmitx0/aud_cap");
  match caps with
  | None => mret tt
  | Some s =>
      match caps_props dgraw (read_bytes s) with
      | Some ws => set_props ws
      | None => crash
      end
  end.

Lemma is_char_some buf i c : 0 ≤ i < zlen buf → ∃ b, is_char buf i c = Some b.
Proof. intros [x Hx]%aget_some. unfold is_char. rewrite Hx. by eexists. Qed.

Ltac char_at buf i c :=
  let H := fresh in
  destruct (is_char_some buf i c) as [? H]; [lia|]; rewrite H; cbn [mbind option_bind].

(** A PCM entry at [i] that counts: under a multi-channel output its channel
    digit must be known. *)
Definition pcm_entry (dgraw : Z) (buf : list Z) (i : Z) : Prop :=
  aget buf i = Some 80 ∧ aget buf (i + 1) = Some 67 ∧ aget buf (i + 2) = Some 77 ∧
  (dgraw = 3 → ∃ d, aget buf (i + 5) = Some d ∧ d ∈ [56; 54; 50]).

Lemma is_char_true buf i c b : is_char buf i c = Some b → (b = true ↔ aget buf i = Some c).
Proof.
  unfold is_char. destruct (aget buf i) as [x|]; simpl; [|done]. intros [= <-].
  rewrite Z.eqb_eq. naive_solver.
Qed.

(** One position: the channel count grows exactly at an entry that counts,
    and "speaker" is never set here. *)
Lemma scan_at_spec dgraw buf i channel :
  0 ≤ i → i + 5 < zlen buf → 0 ≤ channel →
  ∃ ws ch, scan_at dgraw buf i channel = Some (ws, ch) ∧ channel ≤ ch ∧
    (pcm_entry dgraw buf i → 0 < ch) ∧ (ch ≠ channel → pcm_entry dgraw buf i) ∧
    (MULTICH_SUPPORT_PROPERTY, "speaker"%string) ∉ ws.
Proof.
  intros Hi Hl Hc.
  assert (∀ c0 c1 c2, is_char buf i 80 = Some c0 → is_char buf (i + 1) 67 = Some c1 →
    is_char buf (i + 2) 77 = Some c2 → pcm_entry dgraw buf i ↔
    c0 && c1 && c2 = true ∧ (dgraw = 3 → ∃ d, aget buf (i + 5) = Some d ∧ d ∈ [56; 54; 50]))
    as Hent.
  { intros c0 c1 c2 H0%is_char_true H1%is_char_true H2%is_char_true. unfold pcm_entry.
    rewrite !andb_true_iff. tauto. }
  unfold scan_at.
  destruct (is_char_some buf i 80) as [c0 H0]; [lia|].
  destruct (is_char_some buf (i + 1) 67) as [c1 H1]; [lia|].
  destruct (is_char_some buf (i + 2) 77) as [c2 H2]; [lia|].
  specialize (Hent c0 c1 c2 H0 H1 H2). rewrite H0, H1, H2. cbn [mbind option_bind].
  destruct (c0 && c1 && c2).
  - destruct (Z.eqb_spec dgraw 3) as [->|Hd].
    + destruct (aget_some buf (i + 5)) as [d Hd]; [lia|].
      assert (∀ c, is_char buf (i + 5) c = Some (d =? c)) as Hc5
        by (intros c; unfold is_char; by rewrite Hd).
      rewrite !Hc5. cbn [mbind option_bind]. eexists _, _. split; [done|].
      rewrite Hent, Hd. clear Hent Hc5 H0 H1 H2.
      assert ((3 = 3 → ∃ d0, Some d = Some d0 ∧ d0 ∈ [56; 54; 50]) ↔
        d = 56 ∨ d = 54 ∨ d = 50) as ->.
      { split; [intros (? & [= <-] & Hm)%(λ f, f eq_refl); set_solver|].
        intros Hm _. exists d. set_solver. }
      destruct (Z.eqb_spec d 56), (Z.eqb_spec d 54), (Z.eqb_spec d 50);
        (split_and!; [lia|lia|lia|unfold MULTICH_SUPPORT_PROPERTY; set_solver]).
    + eexists _, _. split; [done|]. rewrite Hent.
      split_and!; [lia|lia|done|unfold MULTICH_SUPPORT_PROPERTY; set_solver].
  - char_at buf i 56. char_at buf (i + 1) 56. char_at buf (i + 2) 46. char_at buf (i + 3) 50.
    char_at buf i 57. char_at buf (i + 1) 54.
    destruct (_ || _); eexists _, _; (split; [done|]); rewrite Hent;
      (split_and!; [lia|intros [? _]; done|done|
        unfold MULTICH_SUPPORT_PROPERTY, PCM_88_96_SUPPORT; set_solver]).
Qed.

Lemma scan_caps_spec n dgraw buf i channel :
  0 ≤ i → i + Z.of_nat n + 5 ≤ zlen buf → 0 ≤ channel →
  ∃ ws ch, scan_caps n dgraw buf i channel = Some (ws, ch) ∧ channel ≤ ch ∧
    (0 < ch ↔ 0 < channel ∨ ∃ j, i ≤ j < i + Z.of_nat n ∧ pcm_entry dgraw buf j) ∧
    (MULTICH_SUPPORT_PROPERTY, "speaker"%string) ∉ ws.
Proof.
  revert i channel. induction n as [|n IH]; intros i channel Hi Hl Hc; cbn [scan_caps].
  { eexists _, _. split; [done|]. split_and!; [lia| |set_solver]. split; [by left|].
    intros [?|(j & ? & _)]; lia. }
  destruct (scan_at_spec dgraw buf i channel) as (ws & ch & -> & H1 & H2 & H3 & H4); [lia..|].
  cbn [mbind option_bind fst snd].
  destruct (IH (i + 1) ch) as (ws' & ch' & -> & H5 & H6 & H7); [lia..|].
  cbn [mbind option_bind fst snd]. eexists _, _. split; [done|].
  split_and!; [lia| |set_solver]. rewrite H6. split.
  - intros [Hp|(j & Hj & He)]; [|right; exists j; split; [lia|done]].
    destruct (decide (ch = channel)) as [->|Hne]; [by left|]. right. exists i.
    split; [lia|auto].
  - intros [Hp|(j & Hj & He)]; [left; lia|]. destruct (decide (j = i)) as [->|]; [auto|].
    right. exists j. split; [lia|done].
Qed.

Lemma caps_props_spec dgraw buf :
  ∃ ws, caps_props dgraw buf = Some ws ∧
    ((MULTICH_SUPPORT_PROPERTY, "speaker"%string) ∈ ws ↔
      ∀ j, 0 ≤ j < zlen buf - 5 → ¬ pcm_entry dgraw buf j).
Proof.
  unfold caps_props.
  assert (∃ ws ch, scan_caps (Z.to_nat (zlen buf - 5)) dgraw buf 0 0 = Some (ws, ch) ∧ 0 ≤ ch ∧
    (0 < ch ↔ 0 < 0 ∨ ∃ j, 0 ≤ j < 0 + Z.of_nat (Z.to_nat (zlen buf - 5)) ∧
      pcm_entry dgraw buf j) ∧ (MULTICH_SUPPORT_PROPERTY, "speaker"%string) ∉ ws)
    as (ws & ch & -> & H1 & H2 & H3).
  { destruct (decide (zlen buf < 5)).
    - replace (Z.to_nat (zlen buf - 5)) with 0%nat by lia. exists [], 0. split; [done|].
      split_and!; [lia| |set_solver]. split; [lia|]. intros [?|(j & ? & _)]; lia.
    - apply scan_caps_spec; lia. }
  cbn [mbind option_bind fst snd]. eexists. split; [done|].
  rewrite elem_of_app. destruct (Z.eqb_spec ch 0) as [->|Hne].
  - split; [|set_solver]. intros _ j Hj He. assert (0 < 0); [|lia]. apply H2. right.
    exists j. split; [lia|done].
  - split; [set_solver|]. intros Hn. exfalso.
    destruct (proj1 H2) as [?|(j & Hj & He)]; [lia|lia|]. apply (Hn j); [lia|done].
Qed.

Lemma set_props_log o ws w :
  ∃ w', set_props ws o w = Done tt w' ∧ audec w' = audec w ∧ glob w' = glob w ∧
    (log w').*1 = rev ((λ p, PropertySet p.1 p.2) <$> ws) ++ (log w).*1.
Proof.
  revert w. induction ws as [|[n v] ws IH]; intros w; [by exists w|].
  cbn [set_props]. unfold mbind at 1, lm_bind at 1. unfold ask at 1.
  destruct (IH (record_req (PropertySet n v) (o_int o (tick w) (PropertySet n v)) w))
    as (w' & He & Ha & Hg & Hl).
  exists w'. split_and!; [exact He|by rewrite Ha|by rewrite Hg|]. rewrite Hl. simpl.
  by rewrite <- app_assoc.
Qed.

(** [C37] The scan of the HDMI capability text stays inside the bytes that
    were read, for a text of any length (also shorter than its look-ahead of
    six bytes), whatever the sink says: it always ends, it touches neither the
    instance nor the decoder's choice, and it declares the output to be a
    plain speaker exactly when no PCM entry was found that counts for the
    configured output. *)
Theorem set_multichs_prop_in_bounds (o : oracle) (w : world) :
  ∃ w', set_multichs_prop o w = Done tt w' ∧ audec w' = audec w ∧ glob w' = glob w ∧
    ∀ s, o_int o (S (tick w)) (Malloc 1024) ≠ 0 →
      o_str o (3 + tick w) (SysfsGet "/sys/class/amhdmitx/amhdmitx0/aud_cap") = Some s →
      ∃ ws, (log w').*1 = rev ((λ p, PropertySet p.1 p.2) <$> ws) ++
          [SysfsGet "/sys/class/amhdmitx/amhdmitx0/aud_cap"; PropertySet PCM_88_96_SUPPORT "0";
           Malloc 1024; SysfsGet "/sys/class/audiodsp/digital_raw"] ++ (log w).*1 ∧
        ((MULTICH_SUPPORT_PROPERTY, "speaker"%string) ∈ ws ↔
          ∀ j, 0 ≤ j < zlen (read_bytes s) - 5 →
            ¬ pcm_entry (o_int o (tick w) (SysfsGet "/sys/class/audiodsp/digital_raw"))
                (read_bytes s) j).
Proof.
  unfold set_multichs_prop, mbind, lm_bind, ask, ask_str. cbn -[record_req caps_props read_bytes].
  change (tick (record_req _ _ w)) with (S (tick w)). destruct (Z.eqb_spec (o_int o (S (tick w)) (Malloc 1024)) 0) as [Hm|Hm].
  { eexists. split; [reflexivity|]. split_and!; [done..|]. intros s Hs. by destruct Hs. }
  change (tick (record_req _ _ (record_req _ _ (record_req _ _ w)))) with (3 + tick w)%nat.
  destruct (o_str o _ _) as [s|] eqn:E.
  2: { eexists. split; [reflexivity|]. by split_and!. }
  destruct (caps_props_spec (o_int o (tick w) (SysfsGet "/sys/class/audiodsp/digital_raw"))
    (read_bytes s)) as (ws & -> & Hws).
  match goal with |- context [set_props ws o ?w0] =>
    destruct (set_props_log o ws w0) as (w' & -> & Ha & Hg & Hl) end.
  exists w'. split_and!; [done..|]. intros s' _ [= <-]. exists ws. by rewrite Hl.
Qed.

Example caps_scan :
  caps_props 3 (read_bytes "PCM, 8 ch") =
    Some [(MULTICH_SUPPORT_PROPERTY, "hdmi8")]%string ∧
  caps_props 0 (read_bytes "AC-3, 6 ch, 96 kHz") =
    Some [(PCM_88_96_SUPPORT, "1"); (MULTICH_SUPPORT_PROPERTY, "speaker")]%string.
Proof. by vm_compute. Qed.

(** ** The choice of the decoder *)

Definition ACODEC_FMT_AAC : Z := 2.
Definition ACODEC_FMT_WIFIDISPLAY : Z := 22.

Definition audio_type : list (Z * string) :=
  [ (2, "aac"); (3, "ac3"); (6, "dts"); (8, "flac"); (9, "cook"); (12, "amr"); (13, "raac")
  ; (14, "wma"); (15, "wmapro"); (17, "alac"); (18, "vorbis"); (19, "aac_latm"); (20, "ape")
  ; (0, "mp3"); (27, "mp3"); (26, "mp3"); (21, "eac3"); (25, "thd"); (7, "pcm"); (1, "pcm")
  ; (10, "pcm"); (16, "pcm"); (22, "pcm"); (4, "pcm"); (5, "pcm"); (11, "adpcm")
  ; (28, "wmavoi"); (23, "dra"); (29, "ac4"); (-1, "null") ]%string.

(** The loop leaves the last entry when no id matches. *)
Definition audio_type_of (audio_id : Z) : string :=
  match list_find (λ t, t.1 = audio_id) audio_type with
  | Some (_, (_, t)) => t
  | None => "null"
  end.

(** [match_types] with a property's value; the overrun crashes. *)
Definition match_lm (t setting : string) : LM bool :=
  match match_types (Some t) (Some setting) with
  | Some r => mret (negb (r =? 0))
  | None => crash
  end.

Definition match_property (t name : string) : LM bool :=
  v ← ask_str (Property name);
  match v with
  | Some v => if String.eqb v EmptyString then mret false else match_lm t v
  | None => mret false
  end.

(** The build's switches DOLBY_USE_ARMDEC and USE_ARM_AUDIO_DEC. *)
Record build := mk_build { DOLBY_USE_ARMDEC : bool; USE_ARM_AUDIO_DEC : bool }.

(** [access(firmware) != 0] selects the ARM decoder. *)
Definition by_firmware (path : string) : LM Z :=
  r ← ask (Access path);
  mret (if negb (r =? 0) then AUDIO_ARM_DECODER else AUDIO_ARC_DECODER).

(** The decoder for a type named in the ARM setting. *)
Definition arm_setting (b : build) (t : string) : LM Z :=
  set_multichs_prop;;
  dolby ← match_lm t "ac3,eac3";
  if (dolby : bool) then
    if DOLBY_USE_ARMDEC b then
      if USE_ARM_AUDIO_DEC b then mret AUDIO_ARM_DECODER
      else by_firmware "/system/etc/firmware/audiodsp_codec_ddp_dcv.bin"
    else mret AUDIO_ARC_DECODER
  else
    dts ← (if USE_ARM_AUDIO_DEC b then mret false else match_lm t "dts");
    if (dts : bool) then by_firmware "/system/etc/firmware/audiodsp_codec_dtshd.bin"
    else mret AUDIO_ARM_DECODER.

(** The decoder before the check for wireless display. *)
Definition base_decoder (b : build) (t : string) : LM Z :=
  thd ← match_lm t "thd"; wmavoi ← match_lm t "wmavoi"; dra ← match_lm t "dra";
  if (thd : bool) || (wmavoi : bool) || (dra : bool) then mret AUDIO_ARM_DECODER else
  arm ← match_property t "vendor.media.arm.audio.decoder";
  if (arm : bool) then arm_setting b t else
  unsup ← gets dspdec_not_supported;
  arc ← match_property t "vendor.media.arc.audio.decoder";
  if (arc : bool) then
    mret (if unsup =? 0 then AUDIO_ARC_DECODER else AUDIO_ARM_DECODER)
  else
  ff ← match_property t "vendor.media.ffmpeg.audio.decoder";
  if (ff : bool) then mret AUDIO_FFMPEG_DECODER else
  mret (if unsup =? 1 then AUDIO_ARM_DECODER else AUDIO_ARC_DECODER).

Definition set_audio_decoder (b : build) : LM Z :=
  audio_id ← gets format;
  dec ← base_decoder b (audio_type_of audio_id);
  wfd ← config_bool "vendor.media.libplayer.wfd";
  let dec := if (wfd : bool) && ((audio_id =? ACODEC_FMT_WIFIDISPLAY) || (audio_id =? ACODEC_FMT_AAC))
             then AUDIO_ARMWFD_DECODER else dec in
  upd_glob (λ g, g <| audio_decoder := dec |>);;
  mret 0.

(** ** The decoder's thread *)

(** [get_output_func] of the ALSA output. *)
Definition get_output_func : LM unit :=
  upd (λ a, a <| aout_ops := aout_ops a <| aout_mute := true |> <| aout_latency := true |> |>).

(** The main loop chosen for the thread. *)
Definition thread_loop (dec : Z) (wfd : bool) (fmt : Z) : string :=
  if dec =? AUDIO_ARC_DECODER then "adec_message_loop"
  else if wfd && ((fmt =? ACODEC_FMT_AAC) || (fmt =? ACODEC_FMT_WIFIDISPLAY))
  then "adec_wfddec_msg_loop"
  else "adec_armdec_loop".

(** The thread's id is the answer to its creation, 0 standing for failure (the
    code of which is answered as -1: the caller tests it against 0 alone).
    The table of decoder functions that [RegisterDecode] installs and the
    condition variable of that thread are not part of the instance here. *)
Definition create_thread (wfd : bool) (nCodecType : Z) : LM Z :=
  dec ← get_audio_decoder;
  let loop := thread_loop dec wfd nCodecType in
  (if dec =? AUDIO_ARC_DECODER then upd_dsp (λ d, d <| dsp_file_fd := -1 |>) else mret tt);;
  (if String.eqb loop "adec_armdec_loop" then ignore (ask (RegisterDecode dec)) else mret tt);;
  tid ← ask (ThreadCreate loop);
  (if String.eqb loop "adec_wfddec_msg_loop"
   then upd (λ a, a <| audio_decoder_enabled := 1 |>) else mret tt);;
  if tid =? 0 then mret (-1) else
  upd (λ a, a <| thread_pid := tid |>);; mret 0.

(** The fields [audiodec_init] resets; 1.0 as a float is 0x3f800000. *)
Definition reset_fields (a : aml_audio_dec_t) : aml_audio_dec_t :=
  a <| format_changed_flag := 0 |> <| audio_decoder_enabled := -1 |>
    <| mix_lr_channel_enable := -1 |> <| pre_gain_enable := -1 |>
    <| pre_gain := 0x3f800000 |> <| pre_mute := 0 |> <| VersionNum := -1 |>
    <| refresh_pts_readytime_ms := 0 |>.

Definition audiodec_init (b : build) : LM Z :=
  on_pool adec_message_pool_init;;
  get_output_func;;
  nCodecType ← gets format;
  set_audio_decoder b;;
  upd reset_fields;;
  wfd ← config_bool "vendor.media.libplayer.wfd";
  create_thread wfd nCodecType.
