(* ===== verification/AdecControl.v ===== *)
(** The control interface of the player, LibAudio/amadec/adec-external-ctrl.c.

    The functions run in the player's threads, on the instance the decoder's
    thread works on.  A [handle] argument says whether the pointer is not
    NULL.  [malloc] is the allocator of command blocks and [obs] what the
    sender reads of the count while it waits (MessagePool.v).

    The theorems: every control call is a step the decoder's thread can rely
    on (Rely.v), so any schedule of calls is a [PlayerEnv]; each sending call
    posts exactly the command it names and fails only for lack of memory;
    the initialisation copies the stream parameters inside their bounds. *)

From S2P Require Import Prelude PcmBuffer MessagePool Audec Dsp Rely PtsMgt DecoderSelect.

Definition CMD_START : Z := 1.
Definition CMD_PAUSE : Z := 2.
Definition CMD_RESUME : Z := 4.
Definition CMD_STOP : Z := 8.
Definition CMD_MUTE : Z := 16.
Definition CMD_SET_VOL : Z := 32.
Definition CMD_CHANNEL_SWAP : Z := 128.
Definition CMD_LEFT_MONO : Z := 256.
Definition CMD_RIGHT_MONO : Z := 512.
Definition CMD_STEREO : Z := 1024.
Definition CMD_SET_LRVOL : Z := 2 ^ 20.
Definition CMD_RELEASE : Z := - 2 ^ 31.

Definition HW_STEREO_MODE : Z := 0.
Definition HW_LEFT_CHANNEL_MONO : Z := 1.
Definition HW_RIGHT_CHANNEL_MONO : Z := 2.
Definition HW_CHANNELS_SWAP : Z := 3.

#[export] Instance adec_cmd_eta : Eta adec_cmd_t := λ r,
  mk_cmd (type r) (has_arg r) (ctrl_cmd r) (value r) (value_ext r).

(** ** Sending commands *)

Definition on_msgs {A} (c : CM msg_world A) : CM aml_audio_dec_t A := λ a,
  match c (message_pool a) with
  | Some (x, p) => Some (x, a <| message_pool := p |>)
  | None => None
  end.

Section control.
Context (malloc : gmap Z adec_cmd_t → Z) (obs : nat → Z).

(** The common body: allocate, fill with [f], write the instance with [g],
    send. *)
Definition send_ctrl (g : aml_audio_dec_t → aml_audio_dec_t) (f : adec_cmd_t → adec_cmd_t)
    : CM aml_audio_dec_t Z :=
  cmd ← on_msgs (w ← cm_get; adec_message_alloc (malloc (cmds w)));
  if cmd =? 0 then mret (-1) else
  on_msgs (set_cmd cmd f);;
  cm_modify g;;
  on_msgs (adec_send_message obs cmd).

Definition audio_decode_start (handle : bool) : CM aml_audio_dec_t Z :=
  if negb handle then mret (-1) else send_ctrl id (λ c, c <| ctrl_cmd := CMD_START |>).

Definition audio_decode_pause (handle : bool) : CM aml_audio_dec_t Z :=
  if negb handle then mret (-1) else send_ctrl id (λ c, c <| ctrl_cmd := CMD_PAUSE |>).

Definition audio_decode_resume (handle : bool) : CM aml_audio_dec_t Z :=
  if negb handle then mret (-1) else send_ctrl id (λ c, c <| ctrl_cmd := CMD_RESUME |>).

(** The result and the thread operations after the send. *)
Definition audio_decode_stop (handle : bool) : CM aml_audio_dec_t (Z * list req) :=
  if negb handle then mret (-1, []) else
  cm_modify (λ a, a <| need_stop := 1 |>);;
  ret ← send_ctrl id (λ c, c <| ctrl_cmd := CMD_STOP |>);
  if ret =? -1 then mret (-1, []) else
  a ← cm_get;
  mret (ret, [ThreadCancel (thread_pid a)]).

(** The part before the join; -1: there was no memory for the command. *)
Definition audio_decode_release_send : CM aml_audio_dec_t Z :=
  send_ctrl id (λ c, c <| ctrl_cmd := CMD_RELEASE |>).

(** [handle]: the pointer to the handle is NULL, or points to NULL or to an
    instance; the last two answers: the thread operation, and whether the
    instance was freed and the handle cleared.  The join of a thread that was
    not told to end does not return. *)
Definition audio_decode_release (handle : option bool) (join : Z)
    : CM aml_audio_dec_t (Z * list req * bool) :=
  match handle with
  | None => mret (-1, [], false)
  | Some false => cm_fail
  | Some true =>
      r ← audio_decode_release_send;
      if r =? -1 then cm_fail else
      a ← cm_get;
      mret (join, [ThreadJoin (thread_pid a)], true)
  end.

Definition audio_decode_automute (handle : bool) (stat : Z) : CM aml_audio_dec_t Z :=
  if negb handle then mret (-1) else
  cm_modify (λ a, a <| auto_mute := stat |>);; mret 0.

Definition audio_decode_set_mute (handle : bool) (en : Z) : CM aml_audio_dec_t Z :=
  if negb handle then mret (-1) else
  send_ctrl id (λ c, c <| ctrl_cmd := CMD_MUTE |> <| value := en |> <| has_arg := 1 |>).

Definition audio_decode_set_volume (handle : bool) (vol : Z) : CM aml_audio_dec_t Z :=
  if negb handle then mret (-1) else
  send_ctrl (λ a, a <| volume := vol |>)
    (λ c, c <| ctrl_cmd := CMD_SET_VOL |> <| value := vol |> <| has_arg := 1 |>).

Definition audio_decode_set_pre_gain (handle : bool) (gain : Z) : CM aml_audio_dec_t Z :=
  if negb handle then mret (-1) else
  cm_modify (λ a, a <| pre_gain_enable := 1 |>);; mret 0.

Definition audio_decode_set_pre_mute (handle : bool) (mute : Z) : CM aml_audio_dec_t Z :=
  if negb handle then mret (-1) else
  cm_modify (λ a, a <| pre_mute := u32 mute |>);; mret 0.

Definition audio_decode_set_lrvolume (handle : bool) (lvol rvol : Z) : CM aml_audio_dec_t Z :=
  if negb handle then mret (-1) else
  send_ctrl (λ a, a <| volume := lvol |> <| volume_ext := rvol |>)
    (λ c, c <| ctrl_cmd := CMD_SET_LRVOL |> <| value := lvol |> <| has_arg := 1 |>
            <| value_ext := rvol |>).

(** The getters answer the value through the pointer. *)
Definition audio_decode_get_volume (handle : bool) : CM aml_audio_dec_t (Z * option Z) :=
  if negb handle then mret (-1, None) else a ← cm_get; mret (0, Some (volume a)).

Definition audio_decode_get_pre_gain (handle : bool) : CM aml_audio_dec_t Z :=
  if negb handle then mret (-1) else mret 0.

Definition audio_decode_get_pre_mute (handle : bool) : CM aml_audio_dec_t (Z * option Z) :=
  if negb handle then mret (-1, None) else a ← cm_get; mret (0, Some (pre_mute a)).

Definition audio_decode_get_lrvolume (handle : bool)
    : CM aml_audio_dec_t (Z * option (Z * Z)) :=
  if negb handle then mret (-1, None) else
  a ← cm_get; mret (0, Some (volume a, volume_ext a)).

Definition audio_channels_swap (handle : bool) : CM aml_audio_dec_t Z :=
  if negb handle then mret (-1) else
  send_ctrl (λ a, a <| soundtrack := HW_CHANNELS_SWAP |>)
    (λ c, c <| ctrl_cmd := CMD_CHANNEL_SWAP |>).

Definition audio_channel_left_mono (handle : bool) : CM aml_audio_dec_t Z :=
  if negb handle then mret (-1) else
  send_ctrl (λ a, a <| soundtrack := HW_LEFT_CHANNEL_MONO |>)
    (λ c, c <| ctrl_cmd := CMD_LEFT_MONO |>).

Definition audio_channel_right_mono (handle : bool) : CM aml_audio_dec_t Z :=
  if negb handle then mret (-1) else
  send_ctrl (λ a, a <| soundtrack := HW_RIGHT_CHANNEL_MONO |>)
    (λ c, c <| ctrl_cmd := CMD_RIGHT_MONO |>).

Definition audio_channel_stereo (handle : bool) : CM aml_audio_dec_t Z :=
  if negb handle then mret (-1) else
  send_ctrl (λ a, a <| soundtrack := HW_STEREO_MODE |>)
    (λ c, c <| ctrl_cmd := CMD_STEREO |>).

Definition audio_channel_lrmix_flag_set (handle : bool) (enable : Z) : CM aml_audio_dec_t Z :=
  if negb handle then mret (-1) else
  cm_modify (λ a, a <| mix_lr_channel_enable := enable |>);; mret 0.

(** (ret, pfs, pch, lfepresent) with the values that are written; [ptrs]:
    none of the three pointers is NULL. *)
Definition audio_decpara_get (handle ptrs : bool)
    : CM aml_audio_dec_t (Z * option (Z * Z * option Z)) :=
  if negb handle then mret (-1, None) else
  if negb ptrs then mret (0, None) else
  a ← cm_get;
  mret (0, Some (match adec_ops a with
                 | Some (nch, lfe) => (samplerate a, nch, Some lfe)
                 | None => (samplerate a, channels a, None)
                 end)).

Definition audio_output_muted (handle : bool) : CM aml_audio_dec_t Z :=
  if negb handle then mret (-1) else a ← cm_get; mret (muted a).

Definition audio_dec_ready (handle : bool) : CM aml_audio_dec_t Z :=
  if negb handle then mret (-1) else
  a ← cm_get; mret (if state_num (state a) >? state_num INITTED then 1 else 0).

(** A threshold outside 60..500 is reported and stored all the same; the
    product must not overflow. *)
Definition audio_set_av_sync_threshold (handle : bool) (threshold : Z)
    : CM aml_audio_dec_t Z :=
  if negb handle then mret (-1) else
  t ← cm_lift (int_ok (threshold * 90));
  cm_modify (λ a, a <| avsync_threshold := t |>);; mret 0.

Definition audio_get_soundtrack (handle : bool) : CM aml_audio_dec_t (Z * option Z) :=
  if negb handle then mret (-1, None) else a ← cm_get; mret (0, Some (soundtrack a)).

Definition audio_decoder_get_enable_status (handle : bool) : CM aml_audio_dec_t Z :=
  if negb handle then mret (-1) else a ← cm_get; mret (audio_decoder_enabled a).

(** The product is of ints and must not overflow; the division is unsigned. *)
Definition audio_get_decoded_pcm_delay (handle : bool) : CM aml_audio_dec_t Z :=
  if negb handle then mret (-1) else
  a ← cm_get;
  match g_bst a with
  | None => mret 0
  | Some b =>
      if negb (samplerate a =? 0) && negb (channels a =? 0) then
        d ← cm_lift (int_ok (samplerate a * channels a * 2));
        mret (i32 (u64 (buf_level b * 1000) / u64 d))
      else mret 0
  end.

Definition ACODEC_FMT_MPEG : Z := 0.
Definition ACODEC_FMT_DRA : Z := 23.
Definition ACODEC_FMT_WMAVOI : Z := 28.

(** [libdra_missing]: the result of [access] is not 0. *)
Definition audio_get_format_supported (format : Z) (libdra_missing : bool) : Z :=
  if format =? ACODEC_FMT_DRA then if libdra_missing then 0 else 1
  else if (format <? ACODEC_FMT_MPEG) || (format >? ACODEC_FMT_WMAVOI) then 0
  else 1.

(** [r] is what the output's function answers, when it has one. *)
Definition audio_decoder_set_trackrate (handle : bool) (r : Z) : CM aml_audio_dec_t Z :=
  if negb handle then mret (-1) else
  a ← cm_get; mret (if aout_set_track_rate (aout_ops a) then r else 0).

Definition audio_set_associate_enable (handle : bool) (enable : Z) : Z := 0.
Definition audio_send_associate_data (handle : bool) (size : Z) : Z := i32 size.

Definition audio_decoder_get_status (handle ptr : bool) : CM aml_audio_dec_t (Z * option Z) :=
  if handle && ptr then a ← cm_get; mret (0, Some (u32 (nDecodeErrCount a)))
  else mret (-1, None).

End control.

(** ** The calls of the player's threads *)

(** The values [audio_decpara_get] stores. *)
Inductive decpara := Pfs | Pch | Lfepresent.

Definition decpara_of (k : decpara) (x : Z * Z * option Z) : option Z :=
  match k with Pfs => Some x.1.1 | Pch => Some x.1.2 | Lfepresent => x.2 end.

Inductive ctl_call :=
| CallStart | CallPause | CallResume | CallStop | CallRelease
| CallAutomute (stat : Z) | CallSetMute (en : Z) | CallSetVolume (vol : Z)
| CallSetPreGain (gain : Z) | CallSetPreMute (mute : Z) | CallSetLrVolume (lvol rvol : Z)
| CallSwap | CallLeftMono | CallRightMono | CallStereo | CallLrMix (enable : Z)
| CallSyncThreshold (threshold : Z)
| CallGetVolume | CallGetPreGain | CallGetPreMute | CallGetLrVolume (ext : bool) | CallDecpara (k : decpara) | CallMuted | CallReady
| CallSoundtrack | CallEnableStatus | CallPcmDelay | CallSetTrackRate (r : Z) | CallStatus.

(** A release is its part before the join: the caller then blocks until the
    decoder's thread has ended.  A getter answers the value it stores, one that
    stores several the one named ([-1]: none stored). *)
Definition ctl_exec (malloc : gmap Z adec_cmd_t → Z) (obs : nat → Z) (c : ctl_call)
    : CM aml_audio_dec_t Z :=
  match c with
  | CallStart => audio_decode_start malloc obs true
  | CallPause => audio_decode_pause malloc obs true
  | CallResume => audio_decode_resume malloc obs true
  | CallStop => r ← audio_decode_stop malloc obs true; mret r.1
  | CallRelease => audio_decode_release_send malloc obs
  | CallAutomute stat => audio_decode_automute true stat
  | CallSetMute en => audio_decode_set_mute malloc obs true en
  | CallSetVolume vol => audio_decode_set_volume malloc obs true vol
  | CallSetPreGain gain => audio_decode_set_pre_gain true gain
  | CallSetPreMute mute => audio_decode_set_pre_mute true mute
  | CallSetLrVolume lvol rvol => audio_decode_set_lrvolume malloc obs true lvol rvol
  | CallSwap => audio_channels_swap malloc obs true
  | CallLeftMono => audio_channel_left_mono malloc obs true
  | CallRightMono => audio_channel_right_mono malloc obs true
  | CallStereo => audio_channel_stereo malloc obs true
  | CallLrMix enable => audio_channel_lrmix_flag_set true enable
  | CallSyncThreshold threshold => audio_set_av_sync_threshold true threshold
  | CallGetVolume => x ← audio_decode_get_volume true; mret (default (-1) x.2)
  | CallGetPreGain => audio_decode_get_pre_gain true
  | CallGetPreMute => x ← audio_decode_get_pre_mute true; mret (default (-1) x.2)
  | CallGetLrVolume ext =>
      x ← audio_decode_get_lrvolume true; mret (default (-1) ((if ext then snd else fst) <$> x.2))
  | CallDecpara k => x ← audio_decpara_get true true; mret (default (-1) (x.2 ≫= decpara_of k))
  | CallMuted => audio_output_muted true
  | CallReady => audio_dec_ready true
  | CallSoundtrack => x ← audio_get_soundtrack true; mret (default (-1) x.2)
  | CallEnableStatus => audio_decoder_get_enable_status true
  | CallPcmDelay => audio_get_decoded_pcm_delay true
  | CallSetTrackRate r => audio_decoder_set_trackrate true r
  | CallStatus => x ← audio_decoder_get_status true true; mret (default (-1) x.2)
  end.

(** The command a call is meant to deliver. *)
Definition ctl_message (c : ctl_call) : option adec_cmd_t :=
  match c with
  | CallStart => Some (mk_cmd 0 0 CMD_START 0 0)
  | CallPause => Some (mk_cmd 0 0 CMD_PAUSE 0 0)
  | CallResume => Some (mk_cmd 0 0 CMD_RESUME 0 0)
  | CallStop => Some (mk_cmd 0 0 CMD_STOP 0 0)
  | CallRelease => Some (mk_cmd 0 0 CMD_RELEASE 0 0)
  | CallSetMute en => Some (mk_cmd 0 1 CMD_MUTE en 0)
  | CallSetVolume vol => Some (mk_cmd 0 1 CMD_SET_VOL vol 0)
  | CallSetLrVolume l r => Some (mk_cmd 0 1 CMD_SET_LRVOL l r)
  | CallSwap => Some (mk_cmd 0 0 CMD_CHANNEL_SWAP 0 0)
  | CallLeftMono => Some (mk_cmd 0 0 CMD_LEFT_MONO 0 0)
  | CallRightMono => Some (mk_cmd 0 0 CMD_RIGHT_MONO 0 0)
  | CallStereo => Some (mk_cmd 0 0 CMD_STEREO 0 0)
  | _ => None
  end.

(** The arithmetic of a call stays in an [int]. *)
Definition call_ok (c : ctl_call) (a : aml_audio_dec_t) : Prop :=
  match c with
  | CallSyncThreshold t => INT_MIN ≤ t * 90 ≤ INT_MAX
  | CallPcmDelay => INT_MIN ≤ samplerate a * channels a * 2 ≤ INT_MAX
  | _ => True
  end.

(** What the calls answer that only look at the instance. *)
Definition ctl_reads (c : ctl_call) (a : aml_audio_dec_t) : option Z :=
  match c with
  | CallGetVolume => Some (volume a)
  | CallGetPreGain => Some 0
  | CallDecpara Pfs => Some (samplerate a)
  | CallDecpara Pch => Some (match adec_ops a with Some (nch, _) => nch | None => channels a end)
  | CallDecpara Lfepresent => Some (match adec_ops a with Some (_, lfe) => lfe | None => -1 end)
  | CallGetPreMute => Some (pre_mute a)
  | CallGetLrVolume ext => Some (if ext then volume_ext a else volume a)
  | CallMuted => Some (muted a)
  | CallReady => Some (Z.b2z (bool_decide (state a = ACTIVE ∨ state a = PAUSED)))
  | CallSoundtrack => Some (soundtrack a)
  | CallEnableStatus => Some (audio_decoder_enabled a)
  | CallPcmDelay =>
      Some (match g_bst a with
            | None => 0
            | Some b => if (samplerate a =? 0) || (channels a =? 0) then 0
                        else i32 (u64 (buf_level b * 1000) / u64 (samplerate a * channels a * 2))
            end)
  | CallSetTrackRate r => Some (if aout_set_track_rate (aout_ops a) then r else 0)
  | CallStatus => Some (u32 (nDecodeErrCount a))
  | _ => None
  end.

(** The answer of a call: a value of the instance, or success, or the lack of
    memory for a command. *)
Definition ctl_answers (malloc : gmap Z adec_cmd_t → Z) (c : ctl_call) (a : aml_audio_dec_t) (r : Z) : Prop :=
  match ctl_reads c a with
  | Some v => r = v
  | None => r = 0 ∨ r = -1 ∧ is_Some (ctl_message c) ∧ malloc (cmds (message_pool a)) = 0
  end.

(** The queue after a call that answered [r]. *)
Definition ctl_queue (c : ctl_call) (r : Z) (cs : list adec_cmd_t) : list adec_cmd_t :=
  match ctl_message c with
  | Some m => if r =? 0 then enqueue cs m else cs
  | None => cs
  end.

(** A write the control functions make beside the command. *)
Record ctl_upd (g : aml_audio_dec_t → aml_audio_dec_t) : Prop := {
  cu_neutral : neutral_upd g;
  cu_stop : ∀ a, need_stop a ≠ 0 → need_stop (g a) ≠ 0;
  cu_comm : ∀ a p, g (a <| message_pool := p |>) = g a <| message_pool := p |>
}.

Lemma ctl_upd_rely g a : ctl_upd g → rely a (g a).
Proof.
  intros [[Hs Hd Hf Hp Hfm] Hst Hc]. split; auto. intros own. unfold pool_ok. by rewrite Hp.
Qed.

Lemma ctl_upd_id : ctl_upd id.
Proof. split; [split|..]; by intros. Qed.

Section control_proofs.
Context (malloc : gmap Z adec_cmd_t → Z) (obs : nat → Z).
Hypothesis (Hmalloc : malloc_ok malloc) (Hobs : ∀ k, obs k ≤ MESSAGE_NUM_MAX).

(** The body of the control functions is a post to the pool. *)
Lemma send_ctrl_post g f a :
  (∀ a p, g (a <| message_pool := p |>) = g a <| message_pool := p |>) →
  (∀ a, message_pool (g a) = message_pool a) →
  send_ctrl malloc obs g f a =
  match post_message malloc obs f (message_pool a) with
  | Some (r, p) =>
      Some (r, if malloc (cmds (message_pool a)) =? 0 then a else g a <| message_pool := p |>)
  | None => None
  end.
Proof.
  intros Hg Hp. unfold send_ctrl, post_message, on_msgs, mbind, cm_bind, cm_get,
    adec_message_alloc, cm_modify.
  destruct (malloc (cmds (message_pool a)) =? 0) eqn:E.
  { simpl. by destruct a. }
  rewrite E. simpl. destruct (set_cmd _ f _) as [[[] p]|]; [|done].
  simpl. rewrite Hp. simpl. destruct (adec_send_message obs _ p) as [[r p']|]; [|done].
  do 2 f_equal. simpl in Hg. by rewrite !Hg.
Qed.

Lemma send_ctrl_owned g f a cs own :
  ctl_upd g → pool_owned (message_pool a) cs own →
  ∃ r a', send_ctrl malloc obs g f a = Some (r, a') ∧
    ((r = 0 ∧ pool_owned (message_pool a') (enqueue cs (f zero_cmd)) own) ∨
     (r = -1 ∧ malloc (cmds (message_pool a)) = 0 ∧ a' = a)).
Proof.
  intros Hg Ha. pose proof Hg as [[_ _ _ Hgp _] _ Hcomm].
  rewrite send_ctrl_post by done.
  destruct (post_message_owned malloc obs f _ _ _ Hmalloc Hobs Ha)
    as [[H0 ->]|(p & Hpost & Hp)].
  - rewrite H0. eexists _, _. split; [done|]. by right.
  - rewrite Hpost. destruct (Z.eqb_spec (malloc (cmds (message_pool a))) 0) as [H0|H0].
    { exfalso. unfold post_message, mbind, cm_bind, cm_get, adec_message_alloc in Hpost.
      rewrite H0 in Hpost. done. }
    eexists _, _. split; [done|]. by left.
Qed.

(** A call that runs is a step of [rely]. *)
Lemma send_ctrl_rely g f a r a' :
  ctl_upd g → send_ctrl malloc obs g f a = Some (r, a') → rely a a'.
Proof.
  intros Hg Hs. assert (∀ own, pool_ok own a → pool_ok own a') as Hpool.
  { intros own [cs Ha]. destruct (send_ctrl_owned g f a cs own Hg Ha) as (r1 & a1 & Hs1 & Hc).
    rewrite Hs in Hs1. injection Hs1 as <- <-.
    destruct Hc as [[_ Hp]|(_ & _ & ->)]; [by eexists|by exists cs]. }
  pose proof Hg as [[Hst Hd Hf Hp Hfm] Hn Hcomm]. rewrite send_ctrl_post in Hs by done.
  destruct (post_message _ _ _ _) as [[r1 p]|]; [|done]. injection Hs as <- <-.
  destruct (_ =? 0); [done|].
  by split; [apply Hst|apply Hd|apply Hf|apply Hn|apply Hpool|apply Hfm].
Qed.

Lemma send_ctrl_spec g f a cs :
  ctl_upd g → pool_holds (message_pool a) cs →
  ∃ r a', send_ctrl malloc obs g f a = Some (r, a') ∧ rely a a' ∧
    ((r = 0 ∧ pool_holds (message_pool a') (enqueue cs (f zero_cmd))) ∨
     (r = -1 ∧ malloc (cmds (message_pool a)) = 0 ∧ a' = a)).
Proof.
  intros Hg Ha. destruct (send_ctrl_owned g f a cs ∅ Hg Ha) as (r & a' & Hs & Hc).
  exists r, a'. split; [done|]. split; [by eapply send_ctrl_rely|done].
Qed.

Lemma ctl_exec_send c g f a cs :
  ctl_exec malloc obs c = send_ctrl malloc obs g f → ctl_upd g →
  ctl_message c = Some (f zero_cmd) → pool_holds (message_pool a) cs →
  ∃ r a', ctl_exec malloc obs c a = Some (r, a') ∧ rely a a' ∧
    pool_holds (message_pool a') (ctl_queue c r cs) ∧ ctl_answers malloc c a r.
Proof.
  intros He Hg Hm Ha. rewrite He.
  destruct (send_ctrl_spec g f a cs Hg Ha) as (r & a' & Hs & Hr & Hc).
  exists r, a'. split; [done|]. split; [done|]. assert (ctl_reads c a = None) as Hn by (by destruct c).
  unfold ctl_queue, ctl_answers. rewrite Hm, Hn. destruct Hc as [[-> Hp]|(-> & H0 & ->)]; simpl; eauto 6.
Qed.

Lemma ctl_exec_write c g a cs :
  ctl_exec malloc obs c a = Some (0, g a) → ctl_upd g → ctl_message c = None → ctl_reads c a = None →
  pool_holds (message_pool a) cs →
  ∃ r a', ctl_exec malloc obs c a = Some (r, a') ∧ rely a a' ∧
    pool_holds (message_pool a') (ctl_queue c r cs) ∧ ctl_answers malloc c a r.
Proof.
  intros He Hg Hm Hn Ha. rewrite He. eexists 0, (g a). split; [done|].
  split; [by apply ctl_upd_rely|]. unfold ctl_queue, ctl_answers. rewrite Hm, Hn.
  destruct Hg as [[_ _ _ Hp _] _ _]. rewrite Hp. auto.
Qed.

(** A call that only looks. *)
Lemma ctl_exec_read c v a cs :
  ctl_reads c a = Some v → call_ok c a → pool_holds (message_pool a) cs →
  ∃ r a', ctl_exec malloc obs c a = Some (r, a') ∧ rely a a' ∧
    pool_holds (message_pool a') (ctl_queue c r cs) ∧ ctl_answers malloc c a r.
Proof.
  intros Hv Hok Ha. exists v, a. assert (ctl_exec malloc obs c a = Some (v, a) ∧ ctl_message c = None) as [-> Hm].
  { destruct c; try (match goal with k : decpara |- _ => destruct k end); try done;
      injection Hv as <-; (split; [|done]); try done.
    - by destruct ext.
    - cbn. unfold audio_decpara_get, mbind, cm_bind, cm_get, mret, cm_ret. cbn. by destruct (adec_ops a) as [[]|].
    - cbn. unfold audio_decpara_get, mbind, cm_bind, cm_get, mret, cm_ret. cbn. by destruct (adec_ops a) as [[]|].
    - cbn. unfold audio_decpara_get, mbind, cm_bind, cm_get, mret, cm_ret. cbn. by destruct (adec_ops a) as [[]|].
    - cbn. unfold audio_dec_ready, mbind, cm_bind, cm_get, mret, cm_ret. cbn. by destruct (state a).
    - cbn [ctl_exec call_ok] in *. unfold audio_get_decoded_pcm_delay, mbind, cm_bind, cm_get, cm_lift, mret, cm_ret. cbn [negb].
      destruct (g_bst a) as [b|]; [|done]. destruct (samplerate a =? 0); [done|]. destruct (channels a =? 0); [done|].
      cbn [orb andb negb]. by rewrite int_ok_some. }
  split; [done|]. split; [done|]. unfold ctl_queue, ctl_answers. by rewrite Hm, Hv.
Qed.

Lemma ctl_exec_stop a cs :
  pool_holds (message_pool a) cs →
  ∃ r a', ctl_exec malloc obs CallStop a = Some (r, a') ∧ rely a a' ∧
    pool_holds (message_pool a') (ctl_queue CallStop r cs) ∧ ctl_answers malloc CallStop a r.
Proof.
  intros Ha. unfold ctl_exec, audio_decode_stop. cbn [negb].
  set (a1 := a <| need_stop := 1 |>).
  assert (rely a a1) as H1 by (split; by intros).
  destruct (send_ctrl_spec id (λ c, c <| ctrl_cmd := CMD_STOP |>) a1 cs ctl_upd_id Ha)
    as (r & a' & Hs & Hr & Hc).
  unfold mbind, cm_bind, cm_modify. fold a1. rewrite Hs.
  destruct Hc as [[-> Hp]|(-> & H0 & ->)]; simpl; eexists _, _; (split; [done|]);
    (split; [by transitivity a1|]); (split; [done|]); unfold ctl_answers; cbn; eauto 6.
Qed.

Lemma write_rely g a (r : Z) a' :
  ctl_upd g → (cm_modify g;; mret 0) a = Some (r, a') → rely a a'.
Proof. intros Hg [= _ <-]. by apply ctl_upd_rely. Qed.

(** A computation that leaves the instance alone. *)
Definition looks {A} (m : CM aml_audio_dec_t A) : Prop := ∀ a x a', m a = Some (x, a') → a' = a.

Lemma looks_bind {A B} (m : CM aml_audio_dec_t A) (k : A → CM aml_audio_dec_t B) :
  looks m → (∀ x, looks (k x)) → looks (m ≫= k).
Proof.
  intros Hm Hk a y a'. unfold mbind, cm_bind. destruct (m a) as [[x a1]|] eqn:E; [|done].
  apply Hm in E as ->. apply Hk.
Qed.

Lemma looks_ret {A} (x : A) : looks (mret x).
Proof. by intros a y a' [= _ <-]. Qed.

Lemma looks_get : looks cm_get.
Proof. by intros a y a' [= _ <-]. Qed.

Lemma looks_lift {A} (x : option A) : looks (cm_lift x).
Proof. intros a y a'. unfold cm_lift. destruct x; [|done]. by intros [= _ <-]. Qed.

Ltac look_step :=
  first [ apply looks_bind; [|intros ?] | apply looks_ret | apply looks_get | apply looks_lift | case_match ].

Lemma looks_rely (m : CM aml_audio_dec_t Z) a r a' : looks m → m a = Some (r, a') → rely a a'.
Proof. by intros Hm ->%Hm. Qed.

Lemma ctl_exec_rely c a r a' : ctl_exec malloc obs c a = Some (r, a') → rely a a'.
Proof.
  destruct c; cbn [ctl_exec];
    try (apply send_ctrl_rely; split; [split|..]; by intros);
    try (apply write_rely; split; [split|..]; by intros);
    try (apply looks_rely; unfold audio_decode_get_volume, audio_decode_get_pre_mute, audio_decode_get_lrvolume,
           audio_decpara_get, audio_output_muted, audio_dec_ready, audio_get_soundtrack,
           audio_decoder_get_enable_status, audio_get_decoded_pcm_delay, audio_decoder_set_trackrate,
           audio_decoder_get_status; cbn [negb andb]; repeat look_step; done).
  2: { unfold audio_set_av_sync_threshold, mbind, cm_bind, cm_lift. cbn [negb].
       destruct (int_ok _); [|done]. intros [= _ <-]. by split; intros. }
  unfold audio_decode_stop. cbn [negb]. unfold mbind, cm_bind, cm_modify.
  set (a1 := a <| need_stop := 1 |>). assert (rely a a1) as H1 by (split; by intros).
  destruct (send_ctrl _ _ _ _ a1) as [[r1 a2]|] eqn:E; [|done].
  apply send_ctrl_rely in E; [|apply ctl_upd_id]. simpl.
  destruct (r1 =? -1); intros [= _ <-]; by transitivity a1.
Qed.
End control_proofs.

(** The other threads as a schedule of calls: [sched n] are the calls made
    before the decoder's thread takes its step [n].  A call whose arithmetic
    overflows has no result, and is left out of the schedule. *)
Definition ctl_step (malloc : gmap Z adec_cmd_t → Z) (obs : nat → Z)
    (a : aml_audio_dec_t) (c : ctl_call) : aml_audio_dec_t :=
  match ctl_exec malloc obs c a with Some (_, a') => a' | None => a end.

Definition ctl_env (malloc : gmap Z adec_cmd_t → Z) (obs : nat → Z)
    (sched : nat → list ctl_call) (n : nat) (a : aml_audio_dec_t) : aml_audio_dec_t :=
  foldl (ctl_step malloc obs) a (sched n).

(** The control functions satisfy the interface of the decoder's thread. *)
Lemma ctl_env_player malloc obs sched o :
  malloc_ok malloc → (∀ k, obs k ≤ MESSAGE_NUM_MAX) → o_env o = ctl_env malloc obs sched →
  PlayerEnv o.
Proof.
  intros Hm Ho He n a. rewrite He. unfold ctl_env. generalize (sched n).
  intros l. revert a. induction l as [|c l IH]; intros a; simpl; [done|].
  transitivity (ctl_step malloc obs a c); [|apply IH]. unfold ctl_step.
  destruct (ctl_exec malloc obs c a) as [[r a']|] eqn:E; [|done].
  by eapply ctl_exec_rely.
Qed.

(** What one call does to the decoder and to its queue. *)
Lemma ctl_exec_spec (malloc : gmap Z adec_cmd_t → Z) (obs : nat → Z) (c : ctl_call)
    (a : aml_audio_dec_t) (cs : list adec_cmd_t) :
  malloc_ok malloc → (∀ k, obs k ≤ MESSAGE_NUM_MAX) → call_ok c a → pool_holds (message_pool a) cs →
  ∃ r a', ctl_exec malloc obs c a = Some (r, a') ∧ rely a a' ∧
    pool_holds (message_pool a') (ctl_queue c r cs) ∧ ctl_answers malloc c a r.
Proof.
  intros Hm Ho Hok Ha. destruct c; try by apply ctl_exec_stop.
  all: first
    [ eapply ctl_exec_read; [reflexivity|done|done]
    | eapply ctl_exec_send; [done|done|reflexivity| |reflexivity|done]
    | eapply ctl_exec_write; [reflexivity| |reflexivity|reflexivity|done]
    | idtac ].
  all: try (split; [split|..]; by intros).
  2: { by destruct k; (eapply ctl_exec_read; [reflexivity|..]). }
  eapply (ctl_exec_write _ _ _ (λ a, a <| avsync_threshold := threshold * 90 |>)); [|split; [split|..]; by intros|done|done|done].
  cbn. unfold audio_set_av_sync_threshold, mbind, cm_bind, cm_lift. cbn [negb]. by rewrite int_ok_some.
Qed.

(** [C13] The control calls are what the decoder's thread relies on.  On an
    instance whose pool holds [cs], every call whose arithmetic stays in an
    [int] (a threshold of at most INT_MAX / 90, a rate times channels of at
    most INT_MAX / 2: [call_ok]) runs without a crash, leaves the decoder's
    state and dsp handle alone and never takes back a stop request ([rely]);
    when it is a sending call it has put exactly the command it names, with
    its arguments, at the end of the queue, and fails only when no memory was
    left for the command, with the queue unchanged; when it is a getter it
    answers the value of the instance and leaves the queue alone.  Of
    [audio_decode_release] this is the part before the join. *)
Theorem control_call_spec (malloc : gmap Z adec_cmd_t → Z) (obs : nat → Z) (c : ctl_call)
    (a : aml_audio_dec_t) (cs : list adec_cmd_t) :
  malloc_ok malloc → (∀ k, obs k ≤ MESSAGE_NUM_MAX) → call_ok c a → pool_holds (message_pool a) cs →
  ∃ r a', ctl_exec malloc obs c a = Some (r, a') ∧ rely a a' ∧
    pool_holds (message_pool a') (ctl_queue c r cs) ∧ ctl_answers malloc c a r.
Proof. apply ctl_exec_spec. Qed.

Lemma control_call_spec_witness :
  ∃ r a', ctl_exec (first_fit [8]) (λ _, 0) (CallSetVolume 5) zero_audec = Some (r, a') ∧
    rely zero_audec a' ∧
    pool_holds (message_pool a') (ctl_queue (CallSetVolume 5) r []) ∧
    (r = 0 ∨ r = -1 ∧ is_Some (ctl_message (CallSetVolume 5)) ∧
       first_fit [8] (cmds (message_pool zero_audec)) = 0).
Proof.
  apply control_call_spec; [apply first_fit_ok|done|done|apply empty_world_holds].
Defined.

(** ** Creating an instance *)

Record arm_audio_info := mk_info {
  i_sample_rate : Z; i_channels : Z; i_format : Z; i_bitrate : Z; i_block_align : Z;
  i_codec_id : Z; i_handle : Z; i_extradata_size : Z; i_extradata : list Z; i_SessionID : Z;
  i_dspdec_not_supported : Z; i_droppcm_flag : Z; i_automute : Z; i_has_video : Z
}.

#[export] Instance arm_audio_info_eta : Eta arm_audio_info := λ r,
  mk_info (i_sample_rate r) (i_channels r) (i_format r) (i_bitrate r) (i_block_align r)
    (i_codec_id r) (i_handle r) (i_extradata_size r) (i_extradata r) (i_SessionID r)
    (i_dspdec_not_supported r) (i_droppcm_flag r) (i_automute r) (i_has_video r).

(** The copy of the extradata, when its size is in range. *)
Definition copy_extradata (info : arm_audio_info) (a : aml_audio_dec_t)
    : option aml_audio_dec_t :=
  if (i_extradata_size info >? 0) && (i_extradata_size info <=? 4096) then
    src ← slice (i_extradata info) 0 (i_extradata_size info);
    dst ← splice (extradata a) 0 src;
    Some (a <| extradata := dst |>)
  else Some a.

(** The instance built from the stream information (the build with the
    output inside the decoder, USE_AOUT_IN_ADEC). *)
Definition fill_audec (info : arm_audio_info) : option aml_audio_dec_t :=
  copy_extradata info
    (zero_audec <| channels := i_channels info |> <| samplerate := i_sample_rate info |>
       <| format := i_format info |>
       <| adsp_ops := zero_dsp <| dsp_file_fd := i_handle info |>
                               <| amstream_fd := i_handle info |> |>
       <| extradata_size := i_extradata_size info |> <| SessionID := i_SessionID info |>
       <| dspdec_not_supported := u32 (i_dspdec_not_supported info) |>
       <| droppcm_flag := i_droppcm_flag info |> <| bitrate := i_bitrate info |>
       <| block_align := i_block_align info |> <| codec_id := i_codec_id info |>
       <| auto_mute := i_automute info |> <| has_video := i_has_video info |>).

(** (result, the new handle); the information's [droppcm_flag] is consumed.
    [p] is the block for the instance, NULL or not. *)
Definition audio_decode_init (b : build) (existing : bool) (info : arm_audio_info)
    : LM (Z * bool * arm_audio_info) :=
  if existing then mret (-1, true, info) else
  p ← ask (Malloc 0);
  if p =? 0 then mret (-1, false, info) else
  match fill_audec info with
  | None => crash
  | Some a =>
      upd (λ _, a);;
      ret ← audiodec_init b;
      let info := info <| i_droppcm_flag := 0 |> in
      if negb (ret =? 0) then mret (-1, false, info) else mret (0, true, info)
  end.

Lemma copy_extradata_spec info a :
  length (i_extradata info) = 4096%nat → length (extradata a) = 4096%nat →
  ∃ a', copy_extradata info a = Some a' ∧ length (extradata a') = 4096%nat ∧
    extradata_size a' = extradata_size a ∧
    let n := i_extradata_size info in
    if (0 <? n) && (n <=? 4096)
    then take (Z.to_nat n) (extradata a') = take (Z.to_nat n) (i_extradata info)
    else extradata a' = extradata a.
Proof.
  intros Hl Ha. unfold copy_extradata. rewrite Z.gtb_ltb.
  destruct (Z.ltb_spec 0 (i_extradata_size info)); [|by eexists].
  destruct (Z.leb_spec (i_extradata_size info) 4096); [|by eexists].
  cbn [andb]. rewrite slice_some by zlens. cbn [mbind option_bind].
  set (src := take _ _). assert (length src = Z.to_nat (i_extradata_size info)) as Hs
    by (unfold src; rewrite drop_0, length_take; lia).
  rewrite splice_some by zlens. cbn [mbind option_bind]. eexists. split; [done|].
  cbn [extradata extradata_size set_field]. rewrite take_0, app_nil_l.
  split_and!; [|done|].
  - rewrite length_app, length_drop, Hs. lia.
  - rewrite <- Hs, take_app_length. unfold src. by rewrite drop_0.
Qed.

(** The instance is built within bounds: for every stream information
    whose extradata array has its 4096 bytes, whatever size it announces, the
    instance is filled without a copy outside either array; its extradata
    starts with exactly the announced bytes when the size is in 1..4096 and
    is all zero otherwise, and it is always 4096 bytes long. *)
Theorem fill_audec_bounds (info : arm_audio_info) :
  length (i_extradata info) = 4096%nat →
  ∃ a, fill_audec info = Some a ∧ length (extradata a) = 4096%nat ∧
    extradata_size a = i_extradata_size info ∧
    let n := i_extradata_size info in
    if (0 <? n) && (n <=? 4096)
    then take (Z.to_nat n) (extradata a) = take (Z.to_nat n) (i_extradata info)
    else extradata a = replicate 4096 0.
Proof. intros Hl. by apply copy_extradata_spec. Qed.

Lemma fill_audec_bounds_witness :
  let info := mk_info 48000 2 0 0 0 0 3 2 (replicate 4096 7) 0 0 0 0 1 in
  ∃ a, fill_audec info = Some a ∧ length (extradata a) = 4096%nat ∧
    extradata_size a = 2 ∧
    if (0 <? 2) && (2 <=? 4096)
    then take (Z.to_nat 2) (extradata a) = take (Z.to_nat 2) (i_extradata info)
    else extradata a = replicate 4096 0.
Proof. intros info. apply (fill_audec_bounds info). reflexivity. Defined.
