(* ===== verification/MsgLoop.v ===== *)
(** The message loop of the decoder's thread, LibAudio/amadec/
    adec-internal-mgt.c: the handlers of the commands, the start of the
    output, the main loop.

    [adec_message_loop] is the whole thread, run for a given amount of fuel;
    other threads act at its yield points (Rely.v).  The main theorem says
    that for all answers of the system and all behaviours of the player's
    threads the output device and the dsp are driven according to their
    protocols, no command is leaked or freed twice and the thread does not
    crash. *)

From S2P Require Import Prelude PcmBuffer MessagePool Audec Dsp Rely PtsMgt DecoderSelect AdecControl.

(** ** The handlers *)

Definition aout (c : aout_call) : LM unit := ignore (ask (Aout c)).

Definition AUDIO_CTRL_DEVICE : string := "/dev/amaudio_ctl".

Definition audio_hardware_ctrl (cmd : Z) : LM Z :=
  fd ← ask (HwOpen AUDIO_CTRL_DEVICE);
  if fd <? 0 then mret (-1) else
  (if cmd =? HW_CHANNELS_SWAP then ignore (ask (HwIoctl fd AMAUDIO_IOC_SET_CHANNEL_SWAP))
   else if cmd =? HW_LEFT_CHANNEL_MONO then
     ignore (ask (HwIoctl fd AMAUDIO_IOC_SET_LEFT_MONO))
   else if cmd =? HW_RIGHT_CHANNEL_MONO then
     ignore (ask (HwIoctl fd AMAUDIO_IOC_SET_RIGHT_MONO))
   else if cmd =? HW_STEREO_MODE then ignore (ask (HwIoctl fd AMAUDIO_IOC_SET_STEREO))
   else mret tt);;
  ask (HwClose fd);;
  mret 0.

(** The wait for the first apts; [false]: [start_adec] returns here. *)
Fixpoint first_pts_wait (fuel : nat) (wait_count times : Z) : LM bool :=
  match fuel with
  | O => out_of_fuel
  | S fuel =>
      f ← audiodsp_get_first_pts_flag;
      stop ← (if f =? 0 then read_need_stop else mret 1);
      nf ← gets no_first_apts;
      if (f =? 0) && (stop =? 0) && (nf =? 0) then
        if times + 1 >=? wait_count then
          v ← ask_opt (SysfsGet TSYNC_VPTS);
          match v with
          | None => mret false
          | Some vpts =>
              ask (SysfsSet TSYNC_APTS (PHex "0x" (u64 vpts)));;
              upd (λ a, a <| no_first_apts := 1 |>);;
              usleep 100000;;
              first_pts_wait fuel wait_count (times + 1)
          end
        else
          usleep 100000;;
          first_pts_wait fuel wait_count (times + 1)
      else mret true
  end.

(** [while (!need_stop && track_switch_pts(audec)) usleep(1000);] *)
Fixpoint switch_wait (fuel : nat) : LM unit :=
  match fuel with
  | O => out_of_fuel
  | S fuel =>
      stop ← read_need_stop;
      if negb (stop =? 0) then mret tt else
      t ← track_switch_pts;
      if t =? 0 then mret tt else
      usleep 1000;;
      switch_wait fuel
  end.

(** The automute part of [start_adec]. *)
Definition automute_start (fuel : nat) : LM unit :=
  am ← read_auto_mute;
  if am =? 0 then mret tt else
  avsync_en 0;;
  audiodsp_automute_on;;
  adec_pts_pause;;
  switch_wait fuel;;
  audiodsp_automute_off;;
  avsync_en 1;;
  adec_pts_resume;;
  upd (λ a, a <| auto_mute := 0 |>).

Definition start_adec (fuel : nat) : LM unit :=
  wc ← property_int "vendor.media.amadec.wait_count";
  upd (λ a, a <| no_first_apts := 0 |>);;
  st ← gets state;
  if negb (state_is st INITTED) then mret tt else
  go ← first_pts_wait fuel (default 100 wc) 0;
  if negb go then mret tt else
  aout AoutStart;;
  aout AoutPause;;
  adec_pts_start fuel;;
  automute_start fuel;;
  aout AoutResume;;
  upd (λ a, a <| state := ACTIVE |>).

Definition pause_adec : LM unit :=
  st ← gets state;
  if negb (state_is st ACTIVE) then mret tt else
  upd (λ a, a <| state := PAUSED |>);;
  adec_pts_pause;;
  aout AoutPause.

Definition resume_adec : LM unit :=
  st ← gets state;
  if negb (state_is st PAUSED) then mret tt else
  upd (λ a, a <| state := ACTIVE |>);;
  t ← gettime;
  c ← ask_opt (Property "vendor.media.amadec.wait_fresh_ms");
  upd (λ a, a <| refresh_pts_readytime_ms := t /c 1000 + i32 (default 200 c) |>);;
  aout AoutResume;;
  ignore adec_pts_resume.

Definition stop_adec : LM unit :=
  st ← gets state;
  if negb (state_num st >? state_num INITING) then mret tt else
  upd (λ a, a <| state := STOPPED |>);;
  b ← gets (λ a, aout_mute (aout_ops a));
  (if negb b then crash else aout (AoutMute 1));;
  aout AoutStop;;
  ignore feeder_release.

Definition release_adec : LM unit := upd (λ a, a <| state := TERMINATED |>).

Definition mute_adec (en : Z) : LM unit :=
  b ← gets (λ a, aout_mute (aout_ops a));
  if negb b then mret tt else
  aout (AoutMute en);;
  upd (λ a, a <| muted := en |>).

Definition adec_set_volume (vol : Z) : LM unit :=
  b ← gets (λ a, aout_set_volume (aout_ops a));
  if negb b then mret tt else aout (AoutSetVolume vol).

Definition adec_set_lrvolume (lvol rvol : Z) : LM unit :=
  b ← gets (λ a, aout_set_lrvolume (aout_ops a));
  if negb b then mret tt else aout (AoutSetLrVolume lvol rvol).

Definition adec_flag_check (fuel : nat) : LM unit :=
  am ← read_auto_mute;
  st ← gets state;
  if negb (am =? 0) && (state_num st >? state_num INITTED) && negb (state_is st PAUSED) then
    aout AoutPause;;
    usleep 10000;;
    switch_wait fuel;;
    aout AoutResume;;
    upd (λ a, a <| auto_mute := 0 |>)
  else mret tt.

(** ** The loop *)

Definition dispatch (fuel : nat) (m : adec_cmd_t) : LM unit :=
  let c := ctrl_cmd m in
  if c =? CMD_START then start_adec fuel
  else if c =? CMD_PAUSE then pause_adec
  else if c =? CMD_RESUME then resume_adec
  else if c =? CMD_STOP then stop_adec
  else if c =? CMD_MUTE then
    if negb (has_arg m =? 0) then mute_adec (value m) else mret tt
  else if c =? CMD_SET_VOL then
    if negb (has_arg m =? 0) then adec_set_volume (value m) else mret tt
  else if c =? CMD_SET_LRVOL then
    if negb (has_arg m =? 0) then adec_set_lrvolume (value m) (value_ext m) else mret tt
  else if c =? CMD_CHANNEL_SWAP then ignore (audio_hardware_ctrl HW_CHANNELS_SWAP)
  else if c =? CMD_LEFT_MONO then ignore (audio_hardware_ctrl HW_LEFT_CHANNEL_MONO)
  else if c =? CMD_RIGHT_MONO then ignore (audio_hardware_ctrl HW_RIGHT_CHANNEL_MONO)
  else if c =? CMD_STEREO then ignore (audio_hardware_ctrl HW_STEREO_MODE)
  else if c =? CMD_RELEASE then release_adec
  else mret tt.

(** One pass of the do-while: the command, if there was one. *)
Definition loop_body (fuel : nat) : LM (option adec_cmd_t) :=
  adec_reset_track;;
  adec_flag_check fuel;;
  yield;;
  msg ← on_pool adec_get_message;
  if msg =? 0 then usleep 100000;; mret None else
  m ← on_pool (w ← cm_get; cm_lift (cmds w !! msg));
  dispatch fuel m;;
  on_pool (adec_message_free msg);;
  mret (Some m).

(** The commands handled, in order. *)
Fixpoint loop_run (fuel : nat) : LM (list adec_cmd_t) :=
  match fuel with
  | O => out_of_fuel
  | S fuel =>
      m ← loop_body fuel;
      st ← gets state;
      rest ← (if state_is st TERMINATED then mret [] else loop_run fuel);
      mret (match m with Some m => m :: rest | None => rest end)
  end.

Fixpoint init_loop (fuel : nat) : LM unit :=
  match fuel with
  | O => out_of_fuel
  | S fuel =>
      stop ← read_need_stop;
      if negb (stop =? 0) then mret tt else
      upd (λ a, a <| state := INITING |>);;
      ret ← feeder_init;
      if ret =? 0 then
        ret ← ask (Aout AoutInit);
        if negb (ret =? 0) then
          feeder_release;;
          init_loop fuel
        else
          upd (λ a, a <| state := INITTED |>);;
          start_adec fuel
      else
        stop ← read_need_stop;
        (if stop =? 0 then usleep 100000 else mret tt);;
        init_loop fuel
  end.

Definition adec_message_loop (fuel : nat) : LM (list adec_cmd_t) :=
  init_loop fuel;;
  loop_run fuel.

(** ** What the feeder keeps of the output and the pool *)

Record out_inv (own : gset Z) (s : adec_state_t) (d : dev_state) (w : world) : Prop := {
  oi_dev : dev_replay (log w) = Some d;
  oi_state : state (audec w) = s;
  oi_pool : pool_ok own (audec w);
  oi_out : out_steady (audec w)
}.

Create HintDb keeps.

Section keeps.
Context (o : oracle) {Henv : PlayerEnv o} (own : gset Z) (s : adec_state_t) (d : dev_state).
#[local] Abbreviation K := (out_inv own s d).

Definition Keeps {A} (m : LM A) : Prop := ∀ w, K w → wp o K m (λ _, K) w.

Lemma keeps_ret {A} (a : A) : Keeps (mret a).
Proof. intros w Hw. by wp_steps. Qed.

Lemma keeps_bind {A B} (m : LM A) (f : A → LM B) :
  Keeps m → (∀ a, Keeps (f a)) → Keeps (m ≫= f).
Proof. intros Hm Hf w Hw. wp_step. eapply wp_mono; [by apply Hm|]. intros a w'. apply Hf. Qed.

Lemma keeps_req r a w : (∀ d a, dev_step d r a = Some d) → K w → K (record_req r a w).
Proof. intros Hr []. split; try done. simpl. rewrite oi_dev0. simpl. apply Hr. Qed.

Lemma keeps_ask r : (∀ d a, dev_step d r a = Some d) → Keeps (ask r).
Proof. intros Hr w Hw. apply wp_ask. intros a. by apply keeps_req. Qed.

Lemma keeps_ask_str r : (∀ d a, dev_step d r a = Some d) → Keeps (ask_str r).
Proof. intros Hr w Hw. apply wp_ask_str. intros a. by apply keeps_req. Qed.

Lemma keeps_gets {A} (f : aml_audio_dec_t → A) : Keeps (gets f).
Proof. intros w Hw. by wp_steps. Qed.
Lemma keeps_gets_glob {A} (f : statics → A) : Keeps (gets_glob f).
Proof. intros w Hw. by wp_steps. Qed.
Lemma keeps_upd_glob f : Keeps (upd_glob f).
Proof. intros w []. by wp_steps. Qed.
Lemma keeps_upd_dsp f : Keeps (upd_dsp f).
Proof. intros w []. by wp_steps. Qed.
Lemma keeps_out_of_fuel {A} : Keeps (@out_of_fuel A).
Proof. intros w Hw. by apply wp_out_of_fuel. Qed.

Lemma keeps_upd f :
  (∀ a, state (f a) = state a ∧ message_pool (f a) = message_pool a ∧
    format_changed_flag (f a) = format_changed_flag a ∧ aout_ops (f a) = aout_ops a) → Keeps (upd f).
Proof.
  intros Hf w []. wp_steps. destruct (Hf (audec w)) as (Hs & Hp & Hc & Ha).
  split; simpl; [done|congruence|unfold pool_ok; by rewrite Hp|]. unfold out_steady. by rewrite Hc, Ha.
Qed.

Lemma keeps_yield : Keeps yield.
Proof.
  intros w []. apply wp_yield. destruct (player_env (tick w) (audec w)).
  split; simpl; auto; congruence.
Qed.

Lemma keeps_usleep us : Keeps (usleep us).
Proof. apply keeps_bind; [by apply keeps_ask|]. intros _. apply keeps_yield. Qed.
Lemma keeps_read_need_stop : Keeps read_need_stop.
Proof. apply keeps_bind; [apply keeps_yield|]. intros _. apply keeps_gets. Qed.
Lemma keeps_ioctl cmd arg : Keeps (ioctl cmd arg).
Proof. apply keeps_bind; [apply keeps_gets|]. intros fd. by apply keeps_ask. Qed.

#[local] Hint Resolve keeps_ret keeps_gets keeps_gets_glob keeps_upd_glob keeps_upd_dsp
  keeps_out_of_fuel keeps_yield keeps_usleep keeps_read_need_stop keeps_ioctl : keeps.

Ltac keeps_go :=
  repeat first
    [ progress intros
    | lazymatch goal with
      | |- Keeps (_ ≫= _) => apply keeps_bind
      | |- Keeps (ask _) => apply keeps_ask; reflexivity
      | |- Keeps (ask_str _) => apply keeps_ask_str; reflexivity
      | |- Keeps (upd _) => apply keeps_upd; intros ?; split_and!; reflexivity
      | |- Keeps (if ?b then _ else _) => destruct b
      | |- Keeps (match ?x with _ => _ end) => destruct x
      end
    | solve [eauto with keeps] ].

Lemma keeps_register_all fd l : Keeps (register_all fd l).
Proof. induction l; cbn [register_all]; unfold register_firmware; keeps_go. Qed.
Lemma keeps_wait_format fuel : Keeps (wait_format fuel).
Proof. induction fuel; cbn [wait_format]; keeps_go. Qed.
#[local] Hint Resolve keeps_register_all keeps_wait_format : keeps.

Lemma keeps_feeder_init : Keeps feeder_init.
Proof.
  unfold feeder_init, get_audio_format, audiodsp_init, audiodsp_start, audiodsp_release,
    read_stream_info. keeps_go.
Qed.

Lemma keeps_feeder_release : Keeps feeder_release.
Proof. unfold feeder_release, audiodsp_stop, audiodsp_release. keeps_go. Qed.

End keeps.

(** ** The protocol *)

(** What the state says about the output device. *)
Definition compat (fns : bool) (s : adec_state_t) (d : dev_state) : Prop :=
  match s with
  | IDLE | INITING => d = DevClosed
  | INITTED => fns = true ∧ d = DevReady
  | ACTIVE => fns = true ∧ d = DevPlaying
  | PAUSED => fns = true ∧ d = DevPaused
  | STOPPED => d = DevStopped
  | TERMINATED => True
  end.

Definition loop_inv (own : gset Z) (w : world) : Prop :=
  ∃ fns s d, thread_inv own fns s d w ∧ compat fns s d.

(** The log is a correct use of the dsp descriptor and of the device. *)
Definition log_ok (w : world) : Prop :=
  is_Some (fd_replay (log w)) ∧ is_Some (dev_replay (log w)).

Lemma thread_inv_log_ok own fns s d w : thread_inv own fns s d w → log_ok w.
Proof. intros [Hfd Hdev _ _ _ _]. split; eexists; [apply Hfd|done]. Qed.

Lemma inv_weaken own fns s d w : thread_inv own fns s d w → thread_inv own false s d w.
Proof. by intros []. Qed.

Lemma inv_out own fns s d w : thread_inv own fns s d w → out_inv own s d w.
Proof. by intros []. Qed.

Lemma inv_of_parts own (fns : bool) s d w :
  fd_inv w → out_inv own s d w → (if fns then fns_set (audec w) else True) →
  thread_inv own fns s d w.
Proof. by intros ? [] ?. Qed.

(** Evaluates the tests on a known state. *)
Ltac st_eval :=
  repeat match goal with
  | |- context [state_is ?a ?b] =>
      let v := eval vm_compute in (state_is a b) in change (state_is a b) with v
  | |- context [state_num ?a >? state_num ?b] =>
      let v := eval vm_compute in (state_num a >? state_num b) in
      change (state_num a >? state_num b) with v
  end; cbn [negb andb].

Section protocol.
Context (o : oracle) {Henv : PlayerEnv o}.
#[local] Hint Resolve thread_inv_log_ok : neutral.

Lemma wp_conj {A} (m : LM A) I (Q1 Q2 : A → world → Prop) w :
  wp o (λ _, False) m Q1 w → wp o I m Q2 w → wp o log_ok m (λ a w', Q1 a w' ∧ Q2 a w') w.
Proof.
  intros H1%wp_done H2%wp_elim; [|tauto]. destruct H1 as (a & w' & Hm & H1).
  rewrite Hm in H2. by eapply wp_intro.
Qed.

(** A call of the output that the device's protocol allows. *)
Lemma wp_aout own fns s d d' c Q w :
  thread_inv own fns s d w → (∀ a, dev_step d (Aout c) a = Some d') →
  (∀ w', thread_inv own fns s d' w' → Q tt w') → wp o log_ok (aout c) Q w.
Proof.
  intros [Hfd Hdev Hst Hp Hf Hfns] Hd HQ. unfold aout, ignore. wp_step. apply wp_ask. intros a. wp_steps. apply HQ.
  split; try done.
  - apply fd_inv_req; [|done]. by intros.
  - simpl. rewrite Hdev. simpl. apply Hd.
Qed.

Lemma wp_set_state own fns s d s' Q w :
  thread_inv own fns s d w → (∀ w', thread_inv own fns s' d w' → Q tt w') →
  wp o log_ok (upd (λ a, a <| state := s' |>)) Q w.
Proof. intros [] HQ. wp_steps. apply HQ. by split. Qed.

(** A computation that keeps the invariant, followed by another. *)
Lemma wp_neutral {A} own fns s d (m : LM A) Q w :
  thread_inv own fns s d w → Neutral o log_ok own fns s d m →
  (∀ a w', thread_inv own fns s d w' → Q a w') → wp o log_ok m Q w.
Proof. intros Hw Hm HQ. by apply Hm. Qed.

Lemma neutral_first_pts_wait own s d fuel wc t :
  Neutral o log_ok own true s d (first_pts_wait fuel wc t).
Proof. revert t. induction fuel; cbn [first_pts_wait]; neutral_go. Qed.

Lemma neutral_switch_wait own s d fuel : Neutral o log_ok own true s d (switch_wait fuel).
Proof.
  induction fuel; cbn [switch_wait]; neutral_go; eauto using neutral_track_switch_pts.
Qed.

Lemma neutral_automute_start own s d fuel :
  Neutral o log_ok own true s d (automute_start fuel).
Proof.
  unfold automute_start, avsync_en, adec_pts_pause, adec_pts_resume.
  neutral_go; eauto using neutral_switch_wait.
Qed.

Lemma neutral_pts_start own s d fuel : Neutral o log_ok own true s d (adec_pts_start fuel).
Proof. apply neutral_adec_pts_start; eauto with neutral. Qed.

(** Starting leaves the decoder initialised or playing. *)
Lemma wp_start_adec own fuel Q w :
  thread_inv own true INITTED DevReady w → (∀ w', loop_inv own w' → Q tt w') →
  wp o log_ok (start_adec fuel) Q w.
Proof.
  intros Hw HQ. unfold start_adec, property_int. wp_step. wp_step. apply wp_ask_opt. intros v.
  wp_steps. set (w1 := _ <| audec := _ |>). assert (thread_inv own true INITTED DevReady w1) as Hw1.
  { apply (inv_frame own true INITTED DevReady
      (record_req (Property "vendor.media.amadec.wait_count") 0 w)); try done. by apply inv_req. }
  rewrite (ti_state _ _ _ _ _ Hw1). change (negb (state_is INITTED INITTED)) with false. wp_steps.
  eapply wp_neutral; [done|apply neutral_first_pts_wait|]. intros [] w2 Hw2; cbn [negb]; wp_steps.
  2: { apply HQ. by exists true, INITTED, DevReady. }
  eapply wp_aout; [done..|]. intros w3 Hw3. wp_steps.
  eapply wp_aout; [done..|]. intros w4 Hw4. wp_steps.
  eapply wp_neutral; [done|apply neutral_pts_start|]. intros _ w5 Hw5. wp_steps.
  eapply wp_neutral; [done|apply neutral_automute_start|]. intros _ w6 Hw6. wp_steps.
  eapply wp_aout; [done..|]. intros w7 Hw7. eapply wp_set_state; [done|]. intros w8 Hw8.
  apply HQ. by exists true, ACTIVE, DevPlaying.
Qed.

Lemma loop_inv_log_ok own w : loop_inv own w → log_ok w.
Proof. intros (fns & s & d & Hw & _). by eapply thread_inv_log_ok. Qed.

(** A neutral computation keeps the loop's invariant. *)
Lemma wp_loop_neutral {A} own (m : LM A) Q w :
  (∀ fns s d, Neutral o log_ok own fns s d m) → loop_inv own w →
  (∀ a w', loop_inv own w' → Q a w') → wp o log_ok m Q w.
Proof.
  intros Hm (fns & s & d & Hw & Hc) HQ. eapply wp_neutral; [done|apply Hm|].
  intros a w' Hw'. apply HQ. by exists fns, s, d.
Qed.

Lemma wp_start_any own fuel Q w :
  loop_inv own w → (∀ w', loop_inv own w' → Q tt w') → wp o log_ok (start_adec fuel) Q w.
Proof.
  intros (fns & s & d & Hw & Hc) HQ. destruct (decide (s = INITTED)) as [->|Hs].
  { destruct Hc as [-> ->]. by apply wp_start_adec with own. }
  unfold start_adec. wp_step.
  eapply wp_neutral; [done|unfold property_int; neutral_go|]. intros v w1 Hw1. wp_step.
  eapply wp_neutral; [done|neutral_go|]. intros _ w2 Hw2. wp_steps.
  rewrite (ti_state _ _ _ _ _ Hw2). unfold state_is. rewrite bool_decide_false by done.
  cbn [negb]. wp_steps. apply HQ. by exists fns, s, d.
Qed.

Lemma wp_pause_adec own Q w :
  loop_inv own w → (∀ w', loop_inv own w' → Q tt w') → wp o log_ok pause_adec Q w.
Proof.
  intros (fns & s & d & Hw & Hc) HQ. unfold pause_adec. wp_steps.
  rewrite (ti_state _ _ _ _ _ Hw). destruct s; st_eval;
    try (wp_steps; apply HQ; by eexists _, _, _).
  destruct Hc as [-> ->]. wp_step. eapply (wp_set_state _ _ _ _ PAUSED); [done|]. intros w1 Hw1.
  wp_step. eapply wp_neutral; [done|unfold adec_pts_pause; neutral_go|]. intros _ w2 Hw2.
  eapply wp_aout; [done..|]. intros w3 Hw3. apply HQ. by exists true, PAUSED, DevPaused.
Qed.

Lemma wp_resume_adec own Q w :
  loop_inv own w → (∀ w', loop_inv own w' → Q tt w') → wp o log_ok resume_adec Q w.
Proof.
  intros (fns & s & d & Hw & Hc) HQ. unfold resume_adec. wp_steps.
  rewrite (ti_state _ _ _ _ _ Hw). destruct s; st_eval;
    try (wp_steps; apply HQ; by eexists _, _, _).
  destruct Hc as [-> ->]. wp_step. eapply (wp_set_state _ _ _ _ ACTIVE); [done|]. intros w1 Hw1. wp_step.
  eapply wp_neutral; [done|unfold gettime; neutral_go|]. intros t w2 Hw2. wp_step.
  eapply wp_neutral; [done|neutral_go|]. intros c w3 Hw3. wp_step.
  eapply wp_neutral; [done|neutral_go|]. intros _ w4 Hw4. wp_step.
  eapply wp_aout; [done..|]. intros w5 Hw5.
  eapply wp_neutral; [done|unfold adec_pts_resume; neutral_go|]. intros [] w6 Hw6.
  apply HQ. by exists true, ACTIVE, DevPlaying.
Qed.

Lemma wp_feeder_release_inv own fns s d Q w :
  thread_inv own fns s d w → (∀ r w', thread_inv own false s d w' → Q r w') →
  wp o log_ok feeder_release Q w.
Proof.
  intros Hw HQ.
  eapply wp_mono; [eapply (wp_conj feeder_release (out_inv own s d))|].
  - apply wp_feeder_release with (Q := λ _ w', fd_inv w'); [apply Hw|done].
  - eapply keeps_feeder_release, inv_out, Hw.
  - intros r w' [H1 H2]. apply HQ. by apply inv_of_parts.
Qed.

Lemma wp_feeder_init_inv own fns s d Q w :
  thread_inv own fns s d w →
  (∀ r w', thread_inv own (r =? 0) s d w' → Q r w') → wp o log_ok feeder_init Q w.
Proof.
  intros Hw HQ.
  eapply wp_mono; [eapply (wp_conj feeder_init (out_inv own s d))|].
  - apply wp_feeder_init with (Q := feeder_post w); [by apply player_env_dsp|apply Hw|done].
  - eapply keeps_feeder_init; [done|]. eapply inv_out, Hw.
  - intros r w' [[H1 H3] H2]. apply HQ. apply inv_of_parts; [done..|].
    destruct (r =? 0); [|done]. by destruct H3 as (_ & _ & ? & ? & ? & _).
Qed.

Lemma wp_stop_adec own Q w :
  loop_inv own w → (∀ w', loop_inv own w' → Q tt w') → wp o log_ok stop_adec Q w.
Proof.
  intros (fns & s & d & Hw & Hc) HQ. unfold stop_adec. wp_steps.
  rewrite (ti_state _ _ _ _ _ Hw).
  assert (∀ d', dev_step d (Aout AoutStop) 0 = Some d' → s ≠ TERMINATED →
    wp o log_ok (upd (λ a, a <| state := STOPPED |>);; b ← gets (λ a, aout_mute (aout_ops a));
      (if negb b then crash else aout (AoutMute 1));; aout AoutStop;; ignore feeder_release) Q w) as Hrest.
  { intros d' Hd' _. wp_step. eapply (wp_set_state _ _ _ _ STOPPED); [done|]. intros w1 Hw1.
    wp_steps. rewrite (proj2 (ti_out _ _ _ _ _ Hw1)). eapply wp_aout; [done..|]. intros w2 Hw2. wp_step.
    eapply (wp_aout _ _ _ _ d'); [done|by intros|]. intros w3 Hw3. unfold ignore. wp_step.
    eapply wp_feeder_release_inv; [done|]. intros r w4 Hw4. wp_steps. apply HQ.
    exists false, STOPPED, d'. split; [done|]. simpl in *. by destruct d; simplify_eq. }
  destruct s; st_eval; try (wp_steps; apply HQ; by eexists _, _, _);
    destruct Hc as [-> ->]; by eapply Hrest.
Qed.

Lemma wp_flag_check own fuel Q w :
  loop_inv own w → (∀ w', loop_inv own w' → Q tt w') → wp o log_ok (adec_flag_check fuel) Q w.
Proof.
  intros Hw HQ. unfold adec_flag_check. wp_step.
  eapply wp_loop_neutral; [intros; neutral_go|done|].
  intros am w1 (fns & s & d & Hw1 & Hc). wp_steps. rewrite (ti_state _ _ _ _ _ Hw1).
  destruct (negb (am =? 0)); cbn [andb]; [|wp_steps; apply HQ; by eexists _, _, _].
  destruct s; st_eval; try (wp_steps; apply HQ; by eexists _, _, _).
  destruct Hc as [-> ->]. wp_step. eapply wp_aout; [done..|]. intros w2 Hw2. wp_step.
  eapply wp_neutral; [done|neutral_go|]. intros _ w3 Hw3. wp_step.
  eapply wp_neutral; [done|apply neutral_switch_wait|]. intros _ w4 Hw4. wp_step.
  eapply wp_aout; [done..|]. intros w5 Hw5.
  eapply wp_neutral; [done|neutral_go|]. intros [] w6 Hw6.
  apply HQ. by exists true, ACTIVE, DevPlaying.
Qed.

(** Without a format change the track is not reset. *)
Lemma wp_reset_track own Q w :
  loop_inv own w → (∀ w', loop_inv own w' → Q tt w') → wp o log_ok adec_reset_track Q w.
Proof.
  intros Hw HQ. unfold adec_reset_track. wp_step.
  eapply wp_loop_neutral; [intros; apply neutral_yield, _|done|].
  intros _ w1 Hw1. wp_steps. pose proof Hw1 as (fns & s & d & Hi & Hc).
  rewrite (proj1 (ti_out _ _ _ _ _ Hi)). cbn [Z.eqb negb andb]. wp_steps. by apply HQ.
Qed.

Lemma wp_dispatch own fuel m Q w :
  loop_inv own w → (∀ w', loop_inv own w' → Q tt w') → wp o log_ok (dispatch fuel m) Q w.
Proof.
  intros Hw HQ. unfold dispatch.
  repeat match goal with |- wp _ _ (if ?b then _ else _) _ _ => destruct b end; wp_steps;
    eauto using wp_start_any, wp_pause_adec, wp_resume_adec, wp_stop_adec.
  all: try solve [eapply wp_loop_neutral; [|done|intros []; apply HQ]; intros fns s d;
    unfold mute_adec, adec_set_volume, adec_set_lrvolume, audio_hardware_ctrl, aout; neutral_go].
  destruct Hw as (fns & s & d & Hw & Hc). eapply wp_set_state; [done|]. intros w' Hw'.
  apply HQ. by exists fns, TERMINATED, d.
Qed.

(** A step of the pool. *)
Lemma inv_pool_step own own' fns s d w p cs :
  thread_inv own fns s d w → pool_owned p cs own' →
  thread_inv own' fns s d (w <| audec := audec w <| message_pool := p |> |>).
Proof. intros [] Hp. split; try done. by exists cs. Qed.

Lemma wp_get_message Q w :
  loop_inv ∅ w →
  (∀ w', loop_inv ∅ w' → Q 0 w') →
  (∀ p c w', p ≠ 0 → cmds (message_pool (audec w')) !! p = Some c → loop_inv {[p]} w' → Q p w') →
  wp o log_ok (on_pool adec_get_message) Q w.
Proof.
  intros (fns & s & d & Hw & Hc) H0 Hp. destruct (ti_pool _ _ _ _ _ Hw) as [cs Hcs].
  pose proof (get_owned _ _ _ Hcs) as Hg. destruct cs as [|c cs].
  - eapply wp_intro; [unfold on_pool; by rewrite Hg|]. apply H0.
    exists fns, s, d. split; [|done]. by eapply inv_pool_step.
  - destruct Hg as (p & pool' & Hg & Hp0 & _ & Hpc & Hown).
    eapply wp_intro; [unfold on_pool; by rewrite Hg|]. eapply Hp; [done|done|].
    exists fns, s, d. split; [|done]. eapply inv_pool_step; [done|].
    by rewrite union_empty_r_L in Hown.
Qed.

Lemma wp_free_message p Q w :
  loop_inv {[p]} w → (∀ w', loop_inv ∅ w' → Q 0 w') →
  wp o log_ok (on_pool (adec_message_free p)) Q w.
Proof.
  intros (fns & s & d & Hw & Hc) HQ. destruct (ti_pool _ _ _ _ _ Hw) as [cs Hcs].
  destruct (free_owned (message_pool (audec w)) cs ∅ p) as (pool' & Hf & Hown);
    [set_solver|by rewrite union_empty_r_L|].
  eapply wp_intro; [unfold on_pool; by rewrite Hf|]. apply HQ.
  exists fns, s, d. split; [|done]. by eapply inv_pool_step.
Qed.

Lemma wp_loop_body fuel Q w :
  loop_inv ∅ w → (∀ m w', loop_inv ∅ w' → Q m w') → wp o log_ok (loop_body fuel) Q w.
Proof.
  intros Hw HQ. unfold loop_body. wp_step. apply (wp_reset_track ∅); [done|]. intros w1 Hw1.
  wp_step. apply (wp_flag_check ∅); [done|]. intros w2 Hw2. wp_step.
  eapply wp_loop_neutral; [intros; apply neutral_yield, _|done|]. intros _ w3 Hw3. wp_step.
  apply wp_get_message; [done|..].
  - intros w4 Hw4. change (0 =? 0) with true. wp_steps.
    eapply wp_loop_neutral; [intros; neutral_go|done|]. intros _ w5 Hw5. wp_steps. by apply HQ.
  - intros p c w4 Hp Hc Hw4. rewrite (proj2 (Z.eqb_neq _ _)) by done. wp_steps.
    eapply wp_intro.
    { unfold on_pool, mbind, cm_bind, cm_get, cm_lift. by rewrite Hc. }
    wp_step. apply (wp_dispatch {[p]}).
    { destruct Hw4 as (fns & s & d & Hi & Hco). exists fns, s, d. split; [|done].
      destruct (ti_pool _ _ _ _ _ Hi) as [cs Hcs]. by eapply inv_pool_step. }
    intros w5 Hw5. wp_step. apply wp_free_message; [done|]. intros w6 Hw6. wp_steps. by apply HQ.
Qed.

Lemma wp_loop_run fuel Q w :
  loop_inv ∅ w → (∀ l w', loop_inv ∅ w' → Q l w') → wp o log_ok (loop_run fuel) Q w.
Proof.
  revert Q w. induction fuel as [|fuel IH]; intros Q w Hw HQ; cbn [loop_run].
  { apply wp_out_of_fuel. by eapply loop_inv_log_ok. }
  wp_step. apply wp_loop_body; [done|]. intros m w1 Hw1. wp_steps.
  destruct (state_is _ _); wp_steps; [by apply HQ|]. apply IH; [done|].
  intros l w2 Hw2. wp_steps. by apply HQ.
Qed.

Lemma wp_init_loop fuel fns s Q w :
  thread_inv ∅ fns s DevClosed w → compat fns s DevClosed →
  (∀ w', loop_inv ∅ w' → Q tt w') → wp o log_ok (init_loop fuel) Q w.
Proof.
  revert fns s w. induction fuel as [|fuel IH]; intros fns s w Hw Hc HQ; cbn [init_loop].
  { apply wp_out_of_fuel. by eapply thread_inv_log_ok. }
  wp_step. eapply wp_neutral; [done|neutral_go|]. intros stop w1 Hw1.
  destruct (negb (stop =? 0)); [wp_steps; apply HQ; by exists fns, s, DevClosed|].
  wp_step. eapply (wp_set_state _ _ _ _ INITING); [done|]. intros w2 Hw2. wp_step.
  eapply wp_feeder_init_inv; [done|]. intros ret w3 Hw3.
  destruct (ret =? 0); wp_step.
  - apply wp_ask. intros a. destruct Hw3 as [Hfd Hdev Hst Hp Hf Hfns].
    assert (thread_inv ∅ true INITING (if a =? 0 then DevReady else DevClosed)
      (record_req (Aout AoutInit) a w3)) as Hw4.
    { split; try done; [by apply fd_inv_req|]. simpl. by rewrite Hdev. }
    destruct (a =? 0); cbn [negb]; wp_step.
    + eapply (wp_set_state _ _ _ _ INITTED); [done|]. intros w5 Hw5.
      by apply wp_start_adec with ∅.
    + eapply wp_feeder_release_inv; [done|]. intros _ w5 Hw5. by apply (IH false INITING).
  - eapply wp_neutral; [done|neutral_go|]. intros stop' w4 Hw4. wp_step.
    destruct (stop' =? 0).
    + eapply wp_neutral; [done|neutral_go|]. intros _ w5 Hw5. by apply (IH false INITING).
    + wp_steps. by apply (IH false INITING).
Qed.

End protocol.

(** The whole thread, from its precondition. *)
Lemma message_loop_inv (malloc : gmap Z adec_cmd_t → Z) (obs : nat → Z)
    (sched : nat → list ctl_call) (o : oracle) (fuel : nat) (w : world) :
  malloc_ok malloc → (∀ k, obs k ≤ MESSAGE_NUM_MAX) →
  o_env o = ctl_env malloc obs sched →
  thread_inv ∅ false IDLE DevClosed w →
  match adec_message_loop fuel o w with
  | Done _ w' => log_ok w' ∧ pool_ok ∅ (audec w')
  | Waiting w' => log_ok w'
  | Crash => False
  end.
Proof.
  intros Hm Ho He Hw. pose proof (ctl_env_player malloc obs sched o Hm Ho He) as Henv.
  assert (wp o log_ok (adec_message_loop fuel)
    (λ _ w', log_ok w' ∧ pool_ok ∅ (audec w')) w) as H%wp_elim; [|done].
  unfold adec_message_loop. wp_step. apply (wp_init_loop o fuel false IDLE); [done..|].
  intros w1 Hw1. apply (wp_loop_run o); [done|]. intros l w2 Hw2.
  split; [by eapply loop_inv_log_ok|]. destruct Hw2 as (fns & s & d & Hi & _). apply Hi.
Qed.


(** A world before the thread starts. *)
Definition thread_start : world :=
  fresh_world <| audec := audec fresh_world <| aout_ops := zero_aout <| aout_mute := true |> |> |>.

Lemma thread_start_inv : thread_inv ∅ false IDLE DevClosed thread_start.
Proof. split; try done. exists []. apply empty_world_holds. Qed.

(** The player pauses, resumes, stops and releases. *)
Definition demo_sched (n : nat) : list ctl_call :=
  match n with
  | 102%nat => [CallPause; CallSetVolume 7]
  | 151%nat => [CallResume; CallStop; CallRelease]
  | _ => []
  end.

Definition demo_oracle : oracle :=
  mk_oracle (λ _ r, match r with
                    | OpenDsp => 5
                    | DspIoctl _ AUDIODSP_GET_FIRST_PTS_FLAG _ => 1
                    | DspIoctl _ AUDIODSP_GET_CHANNELS_NUM _ => 2
                    | DspIoctl _ AUDIODSP_GET_SAMPLERATE _ => 48000
                    | _ => 0
                    end)
    (λ _ _, Some 0) (λ _ _, Some "amadec_mpeg"%string)
    (ctl_env (first_fit [8; 16; 24; 32; 40]) (λ _, 0) demo_sched).


(** The calls of the output, oldest first. *)
Definition aout_calls (w : world) : list aout_call :=
  omap (λ e, match e.1 with Aout AoutLatency => None | Aout c => Some c | _ => None end)
    (rev (log w)).

(** The demo run plays, pauses, resumes, stops and ends. *)
Example demo_run :
  match adec_message_loop 100 demo_oracle thread_start with
  | Done l w => ctrl_cmd <$> l = [CMD_PAUSE; CMD_SET_VOL; CMD_RESUME; CMD_STOP; CMD_RELEASE] ∧
      aout_calls w = [AoutInit; AoutStart; AoutPause; AoutResume; AoutPause; AoutResume;
                      AoutMute 1; AoutStop]
  | _ => False
  end.
Proof. vm_compute. done. Qed.

(** ** Commands are handled in order *)

(** What a command does that is heard or seen: a call of the output, a setting
    of the audio control device, an event for the clock. *)
Inductive effect := OutCall (c : aout_call) | HwSetting (c : hw_ioctl) | ClockEvent (p : payload).

Definition effect_of (r : req) : list effect :=
  match r with
  | Aout AoutLatency => []
  | Aout c => [OutCall c]
  | HwIoctl _ c => [HwSetting c]
  | SysfsSet path p => if bool_decide (path = TSYNC_EVENT) then [ClockEvent p] else []
  | _ => []
  end.

Definition effects (w : world) : list effect := flat_map (λ e, effect_of e.1) (rev (log w)).

(** The decoder as the player sees it: the next state and the effects of a
    command, for a decoder that plays, is paused or is stopped. *)
Definition player_view (out : audio_out_operations_t) (s : adec_state_t) (m : adec_cmd_t)
    : adec_state_t * list effect :=
  let arg (installed : bool) (c : aout_call) := if negb (has_arg m =? 0) && installed then [OutCall c] else [] in
  if ctrl_cmd m =? CMD_PAUSE then
    match s with ACTIVE => (PAUSED, [ClockEvent (PStr "AUDIO_PAUSE"); OutCall AoutPause]) | _ => (s, []) end
  else if ctrl_cmd m =? CMD_RESUME then
    match s with PAUSED => (ACTIVE, [OutCall AoutResume; ClockEvent (PStr "AUDIO_RESUME")]) | _ => (s, []) end
  else if ctrl_cmd m =? CMD_STOP then
    match s with STOPPED => (s, []) | _ => (STOPPED, [OutCall (AoutMute 1); OutCall AoutStop]) end
  else if ctrl_cmd m =? CMD_MUTE then (s, arg (aout_mute out) (AoutMute (value m)))
  else if ctrl_cmd m =? CMD_SET_VOL then (s, arg (aout_set_volume out) (AoutSetVolume (value m)))
  else if ctrl_cmd m =? CMD_SET_LRVOL then
    (s, arg (aout_set_lrvolume out) (AoutSetLrVolume (value m) (value_ext m)))
  else if ctrl_cmd m =? CMD_CHANNEL_SWAP then (s, [HwSetting AMAUDIO_IOC_SET_CHANNEL_SWAP])
  else if ctrl_cmd m =? CMD_LEFT_MONO then (s, [HwSetting AMAUDIO_IOC_SET_LEFT_MONO])
  else if ctrl_cmd m =? CMD_RIGHT_MONO then (s, [HwSetting AMAUDIO_IOC_SET_RIGHT_MONO])
  else if ctrl_cmd m =? CMD_STEREO then (s, [HwSetting AMAUDIO_IOC_SET_STEREO])
  else (s, []).

Fixpoint player_views (out : audio_out_operations_t) (s : adec_state_t) (l : list adec_cmd_t) : list effect :=
  match l with
  | [] => []
  | m :: l => (player_view out s m).2 ++ player_views out (player_view out s m).1 l
  end.

(** Playing, paused or stopped. *)
Definition settled (s : adec_state_t) : Prop := s = ACTIVE ∨ s = PAUSED ∨ s = STOPPED.

(** A decoder in state [s] with the output [out], in which no handler has to
    wait: no track switch and no format change is pending. *)
Record calm (out : audio_out_operations_t) (s : adec_state_t) (w : world) : Prop := {
  cm_state : state (audec w) = s;
  cm_auto_mute : auto_mute (audec w) = 0;
  cm_steady : out_steady (audec w);
  cm_out : aout_ops (audec w) = out
}.

Section order.
Context (o : oracle) (Henv : ∀ n a, o_env o n a = a).
Context (Hhw : ∀ n, 0 ≤ o_int o n (HwOpen AUDIO_CTRL_DEVICE)).
Context (out : audio_out_operations_t).

(** Ends, taking a calm decoder from [s] to [s'] with exactly the effects
    [es], and leaves the pool alone. *)
Definition Does {A} (s s' : adec_state_t) (es : list effect) (m : LM A) : Prop :=
  ∀ w, calm out s w → ∃ a w', m o w = Done a w' ∧ calm out s' w' ∧
    message_pool (audec w') = message_pool (audec w) ∧ effects w' = effects w ++ es.

Lemma does_ret {A} s (a : A) : Does s s [] (mret a).
Proof. intros w Hw. eexists _, _. split; [done|]. by rewrite app_nil_r. Qed.

Lemma does_bind {A B} s1 s2 s3 es1 es2 (m : LM A) (f : A → LM B) :
  Does s1 s2 es1 m → (∀ a, Does s2 s3 es2 (f a)) → Does s1 s3 (es1 ++ es2) (m ≫= f).
Proof.
  intros Hm Hf w Hw. destruct (Hm w Hw) as (a & w1 & Ha & Hw1 & Hp1 & He1).
  destruct (Hf a w1 Hw1) as (b & w2 & Hb & Hw2 & Hp2 & He2).
  exists b, w2. split; [unfold mbind, lm_bind; by rewrite Ha|]. split; [done|]. split; [congruence|].
  by rewrite He2, He1, app_assoc.
Qed.

(** A part without effects first. *)
Lemma does_quiet {A B} s s' es (m : LM A) (f : A → LM B) :
  Does s s [] m → (∀ a, Does s s' es (f a)) → Does s s' es (m ≫= f).
Proof. apply (does_bind s s s' [] es). Qed.

Lemma effects_req r a w : effects (record_req r a w) = effects w ++ effect_of r.
Proof. unfold effects. cbn. rewrite flat_map_app. cbn. by rewrite app_nil_r. Qed.

Lemma does_ask s r : Does s s (effect_of r) (ask r).
Proof. intros w []. eexists _, _. split; [done|]. by rewrite effects_req. Qed.
Lemma does_ask_opt s r : Does s s (effect_of r) (ask_opt r).
Proof. intros w []. eexists _, _. split; [done|]. by rewrite effects_req. Qed.

(** A field that is known. *)
Lemma does_gets {A B} s s' es (f : aml_audio_dec_t → A) (v : A) (k : A → LM B) :
  (∀ w, calm out s w → f (audec w) = v) → Does s s' es (k v) → Does s s' es (gets f ≫= k).
Proof. intros Hf Hk w Hw. unfold mbind, lm_bind, gets. rewrite (Hf w Hw). by apply Hk. Qed.

Lemma does_state {B} s s' es (k : adec_state_t → LM B) :
  Does s s' es (k s) → Does s s' es (gets state ≫= k).
Proof. apply does_gets. by intros w []. Qed.

Lemma does_any {A} s (f : aml_audio_dec_t → A) : Does s s [] (gets f).
Proof. intros w Hw. eexists _, _. split; [done|]. by rewrite app_nil_r. Qed.

Lemma does_yield s : Does s s [] yield.
Proof. intros w []. eexists _, _. split; [done|]. rewrite Henv, app_nil_r. by split. Qed.

Lemma does_upd s s' f :
  (∀ a, state a = s → state (f a) = s' ∧ auto_mute (f a) = auto_mute a ∧ aout_ops (f a) = aout_ops a ∧
    format_changed_flag (f a) = format_changed_flag a ∧ message_pool (f a) = message_pool a) →
  Does s s' [] (upd f).
Proof.
  intros Hf w []. destruct (Hf (audec w)) as (H1 & H2 & H3 & H4 & H5); [done|].
  eexists _, _. split; [done|]. rewrite app_nil_r. split; [|done].
  split; cbn; try congruence. unfold out_steady. by rewrite H3, H4.
Qed.

Lemma does_aout s c : c ≠ AoutLatency → Does s s [OutCall c] (aout c).
Proof.
  intros Hc. unfold aout, ignore. change [OutCall c] with ([OutCall c] ++ []).
  apply (does_bind s s s); [|intros; apply does_ret].
  replace [OutCall c] with (effect_of (Aout c)); [apply does_ask|by destruct c].
Qed.

(** Computations without effects. *)
Ltac quiet_go :=
  repeat first
    [ progress intros
    | lazymatch goal with
      | |- Does _ _ _ (_ ≫= _) => apply does_quiet
      | |- Does _ _ _ (mret _) => apply does_ret
      | |- Does _ _ _ (ask ?r) => apply (does_ask _ r)
      | |- Does _ _ _ (ask_opt ?r) => apply (does_ask_opt _ r)
      | |- Does _ _ _ (gets _) => apply does_any
      | |- Does _ _ _ yield => apply does_yield
      | |- Does _ _ _ (upd _) => apply does_upd; intros ? ?; split_and!; done
      | |- Does _ _ _ (if ?b then _ else _) => destruct b
      | |- Does _ _ _ (match ?x with _ => _ end) => destruct x
      end ].

Lemma does_feeder_release s : Does s s [] feeder_release.
Proof. unfold feeder_release, audiodsp_stop, audiodsp_release, ioctl, upd_dsp. quiet_go. Qed.

(** A start of a decoder that was started changes nothing of note. *)
Lemma does_start fuel s : settled s → Does s s [] (start_adec fuel).
Proof.
  intros Hs. unfold start_adec, property_int. apply does_quiet; [quiet_go|]. intros wc.
  apply does_quiet; [quiet_go|]. intros _. apply does_state.
  replace (negb (state_is s INITTED)) with true by (by destruct Hs as [->|[->| ->]]). apply does_ret.
Qed.

Lemma does_pause s : settled s → Does s (if state_is s ACTIVE then PAUSED else s)
  (if state_is s ACTIVE then [ClockEvent (PStr "AUDIO_PAUSE"); OutCall AoutPause] else []) pause_adec.
Proof.
  intros Hs. unfold pause_adec. apply does_state. destruct Hs as [->|[->| ->]]; st_eval; try apply does_ret.
  eapply (does_bind _ PAUSED _ []); [apply does_upd; by intros|]. intros _.
  eapply (does_bind _ PAUSED _ [_] [_]); [|intros _; by apply does_aout].
  unfold adec_pts_pause. apply (does_ask _ (SysfsSet TSYNC_EVENT _)).
Qed.

Lemma does_resume s : settled s → Does s (if state_is s PAUSED then ACTIVE else s)
  (if state_is s PAUSED then [OutCall AoutResume; ClockEvent (PStr "AUDIO_RESUME")] else []) resume_adec.
Proof.
  intros Hs. unfold resume_adec. apply does_state. destruct Hs as [->|[->| ->]]; st_eval; try apply does_ret.
  eapply (does_bind _ ACTIVE _ []); [apply does_upd; by intros|]. intros _. unfold gettime.
  do 3 (apply does_quiet; [quiet_go|]; intros ?).
  eapply (does_bind _ ACTIVE _ [_] [_]); [by apply does_aout|]. intros _. unfold ignore.
  eapply (does_bind _ ACTIVE _ [_] []); [|intros; apply does_ret].
  unfold adec_pts_resume. apply (does_ask _ (SysfsSet TSYNC_EVENT _)).
Qed.

Lemma does_stop s : settled s → Does s STOPPED
  (if state_is s STOPPED then [] else [OutCall (AoutMute 1); OutCall AoutStop]) stop_adec.
Proof.
  intros Hs. unfold stop_adec. apply does_state.
  assert (∀ s, Does s STOPPED [OutCall (AoutMute 1); OutCall AoutStop]
    (upd (λ a, a <| state := STOPPED |>);; b ← gets (λ a, aout_mute (aout_ops a));
     (if negb b then crash else aout (AoutMute 1));; aout AoutStop;; ignore feeder_release)) as H.
  { intros s'. eapply (does_bind _ STOPPED _ []); [apply does_upd; by intros|]. intros _.
    eapply does_gets; [intros w []; apply cm_steady0|]. cbn [negb].
    eapply (does_bind _ STOPPED _ [_] [_]); [by apply does_aout|]. intros _.
    eapply (does_bind _ STOPPED _ [_] []); [by apply does_aout|]. intros _.
    apply does_quiet; [apply does_feeder_release|]. intros. apply does_ret. }
  destruct Hs as [->|[->| ->]]; st_eval; [apply H|apply H|apply does_ret].
Qed.

Lemma does_out_fn s (f : aml_audio_dec_t → bool) (b : bool) c (k : LM unit) :
  (∀ w, calm out s w → f (audec w) = b) → c ≠ AoutLatency → Does s s [OutCall c] k →
  Does s s (if b then [OutCall c] else []) (b ← gets f; if negb b then mret tt else k).
Proof. intros Hf Hc Hk. eapply does_gets; [done|]. destruct b; cbn [negb]; [done|apply does_ret]. Qed.

Lemma does_hw s mode c :
  (mode, c) ∈ [(HW_CHANNELS_SWAP, AMAUDIO_IOC_SET_CHANNEL_SWAP); (HW_LEFT_CHANNEL_MONO, AMAUDIO_IOC_SET_LEFT_MONO);
    (HW_RIGHT_CHANNEL_MONO, AMAUDIO_IOC_SET_RIGHT_MONO); (HW_STEREO_MODE, AMAUDIO_IOC_SET_STEREO)] →
  Does s s [HwSetting c] (ignore (audio_hardware_ctrl mode)).
Proof.
  intros Hm w Hw. destruct (does_ask s (HwOpen AUDIO_CTRL_DEVICE) w Hw) as (fd & w1 & Ha & Hw1 & Hp1 & He1).
  assert (0 ≤ fd) as Hfd by (injection Ha as <- _; apply Hhw).
  assert (Does s s [HwSetting c] (ignore (ask (HwIoctl fd c)) ;; ask (HwClose fd);; mret tt)) as H.
  { apply (does_bind s s s [_] []); [|intros; quiet_go]. unfold ignore.
    apply (does_bind s s s [_] []); [|intros; quiet_go]. apply (does_ask s (HwIoctl fd c)). }
  destruct (H w1 Hw1) as (b & w2 & Hb & Hw2 & Hp2 & He2).
  exists b, w2. split; [|split; [done|]; split; [congruence|by rewrite He2, He1, app_nil_r]].
  unfold audio_hardware_ctrl, ignore, mbind, lm_bind. rewrite Ha. rewrite (proj2 (Z.ltb_ge _ _)) by lia.
  repeat (apply elem_of_cons in Hm as [[= -> ->]|Hm]; [exact Hb|]). by apply not_elem_of_nil in Hm.
Qed.

(** A handler does what the player sees of its command. *)
Lemma does_dispatch fuel m s :
  settled s → ctrl_cmd m ≠ CMD_RELEASE →
  Does s (player_view out s m).1 (player_view out s m).2 (dispatch fuel m).
Proof.
  intros Hs Hm. unfold dispatch, player_view.
  destruct (Z.eqb_spec (ctrl_cmd m) CMD_START) as [->|_]; [by apply does_start|].
  destruct (ctrl_cmd m =? CMD_PAUSE).
  { pose proof (does_pause s Hs) as H. by destruct Hs as [->|[->| ->]]. }
  destruct (ctrl_cmd m =? CMD_RESUME).
  { pose proof (does_resume s Hs) as H. by destruct Hs as [->|[->| ->]]. }
  destruct (ctrl_cmd m =? CMD_STOP).
  { pose proof (does_stop s Hs) as H. by destruct Hs as [->|[->| ->]]. }
  destruct (ctrl_cmd m =? CMD_MUTE); [|destruct (ctrl_cmd m =? CMD_SET_VOL);
    [|destruct (ctrl_cmd m =? CMD_SET_LRVOL)]]; cbn [fst snd].
  1-3: destruct (negb (has_arg m =? 0)); cbn [andb]; [|apply does_ret]; apply does_out_fn; try done;
    [by intros w [_ _ _ Hout]; rewrite Hout|].
  - apply (does_bind _ s _ [_] []); [by apply does_aout|]. intros _. quiet_go.
  - by apply does_aout.
  - by apply does_aout.
  - destruct (ctrl_cmd m =? CMD_CHANNEL_SWAP); [apply does_hw; set_solver|].
    destruct (ctrl_cmd m =? CMD_LEFT_MONO); [apply does_hw; set_solver|].
    destruct (ctrl_cmd m =? CMD_RIGHT_MONO); [apply does_hw; set_solver|].
    destruct (ctrl_cmd m =? CMD_STEREO); [apply does_hw; set_solver|].
    rewrite (proj2 (Z.eqb_neq _ CMD_RELEASE)) by done. apply does_ret.
Qed.

Lemma player_view_settled m s : settled s → settled (player_view out s m).1.
Proof.
  intros Hs. unfold player_view. repeat case_match; cbn [fst]; try done; unfold settled; auto.
Qed.

(** The part of the loop before the command is fetched. *)
Lemma does_preamble fuel s : Does s s [] (adec_reset_track;; adec_flag_check fuel;; yield).
Proof.
  intros w Hw. destruct (does_yield s w Hw) as (t & w1 & Hy & Hw1 & Hp1 & He1).
  destruct (does_yield s w1 Hw1) as (t' & w2 & Hy2 & Hw2 & Hp2 & He2).
  destruct (does_yield s w2 Hw2) as (t'' & w3 & Hy3 & Hw3 & Hp3 & He3).
  exists t'', w3. rewrite app_nil_r in *. split; [|split; [done|]; split; congruence].
  unfold adec_reset_track, adec_flag_check, read_auto_mute, mbind, lm_bind, get_audec, gets.
  rewrite Hy, (proj1 (cm_steady _ _ _ Hw1)). cbn [Z.eqb negb andb].
  unfold mret, lm_ret. rewrite Hy2, (cm_auto_mute _ _ _ Hw2). cbn [Z.eqb negb andb]. by rewrite Hy3.
Qed.

(** One pass over a queue that is not empty. *)
Lemma loop_body_pops fuel s w c cs :
  settled s → calm out s w → pool_holds (message_pool (audec w)) (c :: cs) → ctrl_cmd c ≠ CMD_RELEASE →
  ∃ w', loop_body fuel o w = Done (Some c) w' ∧ calm out (player_view out s c).1 w' ∧
    pool_holds (message_pool (audec w')) cs ∧ effects w' = effects w ++ (player_view out s c).2.
Proof.
  intros Hs Hw Hp Hc. destruct (does_preamble fuel s w Hw) as (t & w1 & Hpre & Hw1 & Hp1 & He1).
  rewrite app_nil_r in He1.
  rewrite <- Hp1 in Hp. pose proof (get_owned _ _ _ Hp) as (p & q & Hg & Hp0 & Hpo & Hpc & Hq).
  set (w2 := w1 <| audec := audec w1 <| message_pool := q |> |>).
  assert (calm out s w2) as Hw2 by (by destruct Hw1).
  destruct (does_dispatch fuel c s Hs Hc w2 Hw2) as (u & w3 & Hd & Hw3 & Hp3 & He3).
  destruct (free_owned q cs ∅ p Hpo Hq) as (q' & Hfree & Hq').
  exists (w3 <| audec := audec w3 <| message_pool := q' |> |>).
  split; [|split; [by destruct Hw3|]; split; [done|]; by rewrite <- He1].
  unfold loop_body. unfold mbind, lm_bind in *.
  destruct (adec_reset_track o w) as [? wa| |]; try done.
  destruct (adec_flag_check fuel o wa) as [? wb| |]; try done. rewrite Hpre.
  unfold on_pool at 1. rewrite Hg. rewrite (proj2 (Z.eqb_neq p 0)) by done.
  unfold on_pool at 1, mbind, cm_bind, cm_get, cm_lift. simpl. rewrite Hpc.
  match goal with |- context [dispatch fuel c o ?x] => change x with w2 end.
  rewrite Hd. unfold on_pool. rewrite Hp3. simpl. by rewrite Hfree.
Qed.

(** The last pass: RELEASE ends the loop. *)
Lemma loop_body_release fuel s w c cs :
  calm out s w → pool_holds (message_pool (audec w)) (c :: cs) → ctrl_cmd c = CMD_RELEASE →
  ∃ w', loop_body fuel o w = Done (Some c) w' ∧ state (audec w') = TERMINATED ∧
    pool_holds (message_pool (audec w')) cs ∧ effects w' = effects w.
Proof.
  intros Hw Hp Hc. destruct (does_preamble fuel s w Hw) as (t & w1 & Hpre & Hw1 & Hp1 & He1).
  rewrite app_nil_r in He1.
  rewrite <- Hp1 in Hp. pose proof (get_owned _ _ _ Hp) as (p & q & Hg & Hp0 & Hpo & Hpc & Hq).
  destruct (free_owned q cs ∅ p Hpo Hq) as (q' & Hfree & Hq').
  eexists. split.
  - unfold loop_body. unfold mbind, lm_bind in *.
    destruct (adec_reset_track o w) as [? wa| |]; try done.
    destruct (adec_flag_check fuel o wa) as [? wb| |]; try done. rewrite Hpre.
    unfold on_pool at 1. rewrite Hg. rewrite (proj2 (Z.eqb_neq p 0)) by done.
    unfold on_pool at 1, mbind, cm_bind, cm_get, cm_lift. simpl. rewrite Hpc.
    unfold dispatch. rewrite Hc. cbn -[on_pool adec_message_free].
    unfold on_pool. simpl. rewrite Hfree. done.
  - done.
Qed.

(** A queue of commands that ends with the first RELEASE is handled in order
    to its end. *)
Lemma loop_run_order fuel s w l c rest :
  settled s → calm out s w → pool_holds (message_pool (audec w)) (l ++ c :: rest) →
  Forall (λ m, ctrl_cmd m ≠ CMD_RELEASE) l → ctrl_cmd c = CMD_RELEASE →
  (length l < fuel)%nat →
  ∃ w', loop_run fuel o w = Done (l ++ [c]) w' ∧ state (audec w') = TERMINATED ∧
    pool_holds (message_pool (audec w')) rest ∧ effects w' = effects w ++ player_views out s l.
Proof.
  revert fuel s w. induction l as [|m l IH]; intros fuel s w Hs Hw Hp Hl Hc Hf;
    (destruct fuel as [|fuel]; [simpl in Hf; lia|]); cbn [loop_run app player_views].
  - destruct (loop_body_release fuel s w c rest Hw Hp Hc) as (w' & Hb & Hst & Hp' & He).
    exists w'. rewrite app_nil_r. split; [|done]. unfold mbind, lm_bind, gets. rewrite Hb, Hst. done.
  - apply Forall_cons in Hl as [Hm Hl].
    destruct (loop_body_pops fuel s w m (l ++ c :: rest) Hs Hw Hp Hm) as (w1 & Hb & Hw1 & Hp1 & He1).
    pose proof (player_view_settled m s Hs) as Hs1. simpl in Hf.
    destruct (IH fuel _ w1 Hs1 Hw1 Hp1 Hl Hc) as (w' & Hr & Hst & Hp' & He'); [lia|].
    exists w'. split; [|by rewrite He', He1, app_assoc]. unfold mbind, lm_bind, gets. rewrite Hb.
    rewrite (cm_state _ _ _ Hw1).
    replace (state_is _ TERMINATED) with false by (by destruct Hs1 as [->|[->| ->]]). by rewrite Hr.
Qed.
End order.

(** [C12] Commands are handled in order, and each by its handler.  On a decoder
    that plays, is paused or is stopped, with an output that can be muted, no
    track switch or format change pending, a control device that opens, and
    no other thread acting, let the queue hold commands [l] and then a
    RELEASE.  The loop takes exactly these commands in the order they were
    sent, ends right after the RELEASE and leaves the commands behind it in
    the pool; the calls of the output, the settings of the control device
    and the events for the clock that it has made are exactly, and in this
    order, those the commands ask for ([player_views]): a pause only while
    playing, a resume only while paused, a stop only once, mute and volumes
    with their arguments, and the channel mode each command names. *)
Theorem commands_in_order (o : oracle) (fuel : nat) (s : adec_state_t) (w : world) (l : list adec_cmd_t)
    (c : adec_cmd_t) (rest : list adec_cmd_t) :
  (∀ n a, o_env o n a = a) → (∀ n, 0 ≤ o_int o n (HwOpen AUDIO_CTRL_DEVICE)) →
  settled s → calm (aout_ops (audec w)) s w →
  pool_holds (message_pool (audec w)) (l ++ c :: rest) →
  Forall (λ m, ctrl_cmd m ≠ CMD_RELEASE) l → ctrl_cmd c = CMD_RELEASE →
  (length l < fuel)%nat →
  ∃ w', loop_run fuel o w = Done (l ++ [c]) w' ∧ state (audec w') = TERMINATED ∧
    pool_holds (message_pool (audec w')) rest ∧
    effects w' = effects w ++ player_views (aout_ops (audec w)) s l.
Proof. intros Henv Hhw. by apply loop_run_order. Qed.

(** An instance that plays, with commands queued. *)
Definition playing_start : aml_audio_dec_t :=
  zero_audec <| state := ACTIVE |> <| aout_ops := zero_aout <| aout_mute := true |> <| aout_set_volume := true |> |>.

Definition playing_calls : list ctl_call := [CallSetVolume 7; CallSwap; CallPause; CallStop; CallRelease].

Definition playing_audec : aml_audio_dec_t :=
  foldl (ctl_step (first_fit [8; 16; 24; 32; 40]) (λ _, 0)) playing_start playing_calls.

(** A schedule of calls that all succeed queues their commands. *)
Lemma ctl_steps_queue malloc obs l a cs :
  malloc_ok malloc → (∀ k, obs k ≤ MESSAGE_NUM_MAX) → pool_holds (message_pool a) cs →
  (∀ c a, c ∈ l → call_ok c a) → (∀ c a, c ∈ l → ctl_reads c a = None) →
  (∀ n, (n < length l)%nat →
     malloc (cmds (message_pool (foldl (ctl_step malloc obs) a (take n l)))) ≠ 0) →
  pool_holds (message_pool (foldl (ctl_step malloc obs) a l)) (foldl (λ q c, ctl_queue c 0 q) cs l).
Proof.
  intros Hm Ho. revert a cs. induction l as [|c l IH]; intros a cs Ha Hok Hn Hf; [done|]. cbn [foldl].
  destruct (ctl_exec_spec malloc obs c a cs) as (r & a1 & He & _ & Hp & Hans); [done|done|apply Hok; set_solver|done|].
  assert (r = 0) as ->.
  { unfold ctl_answers in Hans. rewrite Hn in Hans by set_solver. destruct Hans as [?|(_ & _ & H0)]; [done|].
    destruct (Hf 0%nat); [simpl; lia|done]. }
  assert (ctl_step malloc obs a c = a1) as E by (unfold ctl_step; by rewrite He). rewrite E. apply IH; [done|..].
  - intros c' a' Hc. apply Hok. set_solver.
  - intros c' a' Hc. apply Hn. set_solver.
  - intros n Hl. rewrite <- E. apply (Hf (S n)). simpl. lia.
Qed.

Lemma playing_audec_pool :
  pool_holds (message_pool playing_audec)
    ([mk_cmd 0 1 CMD_SET_VOL 7 0; mk_cmd 0 0 CMD_CHANNEL_SWAP 0 0; mk_cmd 0 0 CMD_PAUSE 0 0; mk_cmd 0 0 CMD_STOP 0 0]
     ++ mk_cmd 0 0 CMD_RELEASE 0 0 :: []).
Proof.
  apply (ctl_steps_queue _ _ playing_calls _ []); [apply first_fit_ok|done|apply empty_world_holds|..].
  - intros c a Hc. unfold playing_calls in Hc. set_unfold. naive_solver.
  - intros c a Hc. unfold playing_calls in Hc. set_unfold. naive_solver.
  - intros n Hn. do 5 (destruct n as [|n]; [by vm_compute|]). simpl in Hn. lia.
Qed.

Lemma commands_in_order_witness :
  ∃ w', loop_run 5 (quiet_oracle "")
      (mk_w playing_audec (mk_statics 0 0 0 0 0) 0 []) =
    Done ([mk_cmd 0 1 CMD_SET_VOL 7 0; mk_cmd 0 0 CMD_CHANNEL_SWAP 0 0; mk_cmd 0 0 CMD_PAUSE 0 0; mk_cmd 0 0 CMD_STOP 0 0]
      ++ [mk_cmd 0 0 CMD_RELEASE 0 0]) w' ∧
    state (audec w') = TERMINATED ∧ pool_holds (message_pool (audec w')) [] ∧
    effects w' = [] ++ [OutCall (AoutSetVolume 7); HwSetting AMAUDIO_IOC_SET_CHANNEL_SWAP;
      ClockEvent (PStr "AUDIO_PAUSE"); OutCall AoutPause; OutCall (AoutMute 1); OutCall AoutStop].
Proof.
  apply (commands_in_order (quiet_oracle "") 5 ACTIVE).
  - done.
  - done.
  - by left.
  - split; done.
  - apply playing_audec_pool.
  - by repeat constructor.
  - done.
  - simpl. lia.
Defined.

(** ** A format change while paused *)

(** The state and the calls of the output so far. *)
Definition traced (s : adec_state_t) (cs : list aout_call) (w : world) : Prop :=
  state (audec w) = s ∧ aout_calls w = cs.

Definition call_of (r : req) : list aout_call :=
  match r with Aout AoutLatency => [] | Aout c => [c] | _ => [] end.

Lemma traced_req r a s cs w : traced s cs w → traced s (cs ++ call_of r) (record_req r a w).
Proof.
  intros [Hs <-]. split; [done|]. unfold aout_calls. simpl. rewrite omap_app. f_equal.
  by destruct r as [| | | | | |[]| | | | | | | | | | | | | | | |].
Qed.

Lemma wp_traced_ask o I r s cs Q w :
  traced s cs w → (∀ a w', traced s (cs ++ call_of r) w' → Q a w') → wp o I (ask r) Q w.
Proof. intros Hw HQ. apply wp_ask. intros a. by apply HQ, traced_req. Qed.

Lemma wp_traced_upd o I f s s' cs Q w :
  traced s cs w → (∀ a, state a = s → state (f a) = s') → (∀ w', traced s' cs w' → Q tt w') →
  wp o I (upd f) Q w.
Proof. intros [Hs Hc] Hf HQ. wp_steps. apply HQ. split; [by apply Hf|done]. Qed.

(** A change of the stream format that is noticed while the decoder is
    paused initialises the output again but does not start it; the next
    RESUME then resumes an output that was never started, and the decoder
    takes itself for playing.  This holds for every answer of the system. *)
Theorem reset_track_while_paused (o : oracle) (w : world) :
  (∀ n a, o_env o n a = a) → state (audec w) = PAUSED →
  format_changed_flag (audec w) ≠ 0 → need_stop (audec w) = 0 →
  aout_mute (aout_ops (audec w)) = true →
  ∃ w', (adec_reset_track;; resume_adec) o w = Done tt w' ∧ state (audec w') = ACTIVE ∧
    aout_calls w' =
      aout_calls w ++ [AoutMute 1; AoutPause; AoutStop; AoutInit; AoutResume].
Proof.
  intros Henv Hs Hf Hn Hmute.
  destruct (wp_done o (λ _, False) (adec_reset_track;; resume_adec)
    (λ _ w', traced ACTIVE
      (aout_calls w ++ [AoutMute 1; AoutPause; AoutStop; AoutInit; AoutResume]) w') w)
    as ([] & w' & Hr & Hq); [tauto| |by exists w'].
  unfold adec_reset_track, resume_adec, aout, ignore, gettime, adec_pts_resume.
  wp_steps. apply wp_yield. wp_steps. cbn [audec set_field]. rewrite Henv, Hs, Hn, Hmute.
  rewrite (proj2 (Z.eqb_neq _ _)) by done. change (_ <=? _) with true.
  change (0 =? 0) with true. cbn [negb andb].
  set (w1 := mk_w _ _ _ _). assert (traced PAUSED (aout_calls w) w1) as H1 by done.
  clearbody w1. clear Hs Hf Hn Hmute. revert H1. generalize (aout_calls w). clear w. intros cs H1.
  do 3 (wp_step; eapply wp_traced_ask; [eassumption|]; intros ? ? ?). wp_step.
  eapply (wp_traced_upd _ _ _ PAUSED PAUSED);
    [eassumption|intros x Hx; by destruct (g_bst x)|]. intros w5 H5. wp_step.
  eapply wp_traced_ask; [eassumption|]. intros a6 w6 H6. wp_step. wp_step. rewrite (proj1 H6).
  st_eval. wp_step. wp_step.
  eapply (wp_traced_upd _ _ _ PAUSED PAUSED); [eassumption|done|]. intros w7 H7.
  wp_step. wp_step. rewrite (proj1 H7). st_eval. wp_step.
  eapply (wp_traced_upd _ _ _ PAUSED ACTIVE); [eassumption|done|]. intros w8 H8. wp_step.
  eapply wp_traced_ask; [eassumption|]. intros a9 w9 H9. wp_step.
  apply wp_ask_opt. intros v. wp_step.
  eapply (wp_traced_upd _ _ _ ACTIVE ACTIVE); [by apply traced_req|done|]. intros w10 H10.
  wp_step. wp_step. eapply wp_traced_ask; [eassumption|]. intros a11 w11 H11. wp_step. wp_step.
  eapply wp_traced_ask; [eassumption|]. intros a12 w12 H12. wp_step.
  simpl in H12. by rewrite !app_nil_r, <- !app_assoc in H12.
Qed.

Definition paused_world : world :=
  ready_world <| audec := audec ready_world <| state := PAUSED |>
                            <| format_changed_flag := 2 |> |>.

Lemma reset_track_while_paused_witness :
  ∃ w', (adec_reset_track;; resume_adec) (quiet_oracle "") paused_world = Done tt w' ∧
    state (audec w') = ACTIVE ∧ aout_calls w' =
      aout_calls paused_world ++ [AoutMute 1; AoutPause; AoutStop; AoutInit; AoutResume].
Proof. apply reset_track_while_paused; done. Defined.
