(* ===== verification/Lifetime.v ===== *)
(** The life of a decoder instance: [audio_decode_init] (adec-external-ctrl.c)
    followed by the thread it creates (adec-internal-mgt.c).

    The creation asks the system many questions and writes the instance in
    between; [Quiet] computations leave the instance and the two devices
    alone, which is all the theorem needs to know of the choice of the
    decoder.  The thread is run after the creation has returned: what the
    creation writes after [pthread_create] (the thread's id) is not read by
    the thread. *)

From S2P Require Import Prelude PcmBuffer MessagePool Audec Dsp Rely PtsMgt DecoderSelect AdecControl MsgLoop.

(** The settings the player reads are lists of type names. *)
Definition settings_ok (o : oracle) : Prop :=
  ∀ n name s, o_str o n (Property name) = Some s →
    ∃ l, s = join_types l ∧ Forall type_name l.

Definition still (w w' : world) : Prop :=
  audec w' = audec w ∧ fd_replay (log w') = fd_replay (log w) ∧
  dev_replay (log w') = dev_replay (log w).

#[export] Instance still_preorder : PreOrder still.
Proof.
  split; [by intros w|]. intros w1 w2 w3 (H1 & H2 & H3) (H4 & H5 & H6).
  split_and!; congruence.
Qed.

Create HintDb quiet.

Section quiet.
Context (o : oracle) (I : world → Prop) (Hset : settings_ok o).

Definition Quiet {A} (m : LM A) : Prop :=
  ∀ (Q : A → world → Prop) w, (∀ a w', still w w' → Q a w') → wp o I m Q w.

Lemma still_req r a w : neutral_req r = true → still w (record_req r a w).
Proof.
  intros Hr. split_and!; [done|..]; simpl.
  - destruct (fd_replay (log w)); simpl; [by apply neutral_req_fd|done].
  - destruct (dev_replay (log w)); simpl; [by apply neutral_req_dev|done].
Qed.

Lemma quiet_ret {A} (a : A) : Quiet (mret a).
Proof. intros Q w HQ. wp_steps. by apply HQ. Qed.

Lemma quiet_bind {A B} (m : LM A) (f : A → LM B) :
  Quiet m → (∀ a, Quiet (f a)) → Quiet (m ≫= f).
Proof.
  intros Hm Hf Q w HQ. wp_step. apply Hm. intros a w1 H1. apply Hf. intros b w2 H2.
  apply HQ. by etrans.
Qed.

Lemma quiet_ask r : neutral_req r = true → Quiet (ask r).
Proof. intros Hr Q w HQ. apply wp_ask. intros a. by apply HQ, still_req. Qed.

Lemma quiet_ask_str r : neutral_req r = true → Quiet (ask_str r).
Proof. intros Hr Q w HQ. apply wp_ask_str. intros a. by apply HQ, still_req. Qed.

Lemma quiet_gets {A} (f : aml_audio_dec_t → A) : Quiet (gets f).
Proof. intros Q w HQ. wp_steps. by apply HQ. Qed.

Lemma quiet_gets_glob {A} (f : statics → A) : Quiet (gets_glob f).
Proof. intros Q w HQ. wp_steps. by apply HQ. Qed.

Lemma quiet_upd_glob f : Quiet (upd_glob f).
Proof. intros Q w HQ. wp_steps. by apply HQ. Qed.

Lemma quiet_match_lm t l : Forall type_name l → Quiet (match_lm t (join_types l)).
Proof.
  intros Hl. unfold match_lm, match_types. rewrite match_loop_list by (done || lia).
  apply quiet_ret.
Qed.

Lemma quiet_match_one t s : type_name s → Quiet (match_lm t s).
Proof. intros Hs. apply (quiet_match_lm t [s]). by constructor. Qed.

Lemma quiet_match_property t name : Quiet (match_property t name).
Proof.
  intros Q w HQ. unfold match_property. wp_step. apply wp_ask_str_exact.
  pose proof (still_req (Property name) 0 w eq_refl) as Hw.
  pose proof (Hset (tick w) name) as Hs.
  destruct (o_str o (tick w) (Property name)) as [s|]; [|wp_steps; by apply HQ].
  destruct (Hs s eq_refl) as (l & -> & Hl). destruct (String.eqb _ _); [wp_steps; by apply HQ|].
  apply (quiet_match_lm t l Hl Q). intros b w' Hw'. apply HQ. by etrans.
Qed.

Lemma quiet_set_props ws : Quiet (set_props ws).
Proof.
  induction ws as [|[n v] ws IH]; cbn [set_props]; [apply quiet_ret|].
  apply quiet_bind; [by apply quiet_ask|done].
Qed.

#[local] Hint Resolve quiet_ret quiet_gets quiet_gets_glob quiet_upd_glob
  quiet_match_property quiet_set_props : quiet.

Ltac quiet_go :=
  repeat first
    [ progress intros
    | lazymatch goal with
      | |- Quiet (_ ≫= _) => apply quiet_bind
      | |- Quiet (ask _) => apply quiet_ask; reflexivity
      | |- Quiet (ask_str _) => apply quiet_ask_str; reflexivity
      | |- Quiet (match_lm _ _) =>
          first [ apply quiet_match_one; split; [simpl; lia|reflexivity] | fail ]
      | |- Quiet (if ?b then _ else _) => destruct b
      | |- Quiet (let _ := _ in _) => cbv zeta
      end
    | solve [eauto with quiet] ].

Lemma quiet_set_multichs_prop : Quiet set_multichs_prop.
Proof.
  unfold set_multichs_prop. quiet_go. destruct a2 as [s|]; [|apply quiet_ret].
  destruct (caps_props_spec a (read_bytes s)) as (ws & -> & _). apply quiet_set_props.
Qed.

Lemma quiet_arm_setting b t : Quiet (arm_setting b t).
Proof.
  unfold arm_setting, by_firmware. apply quiet_bind; [apply quiet_set_multichs_prop|].
  intros _. apply quiet_bind.
  - apply (quiet_match_lm t ["ac3"; "eac3"]%string).
    repeat constructor; simpl; lia.
  - quiet_go.
Qed.
#[local] Hint Resolve quiet_arm_setting : quiet.

Lemma quiet_set_audio_decoder b : Quiet (set_audio_decoder b).
Proof. unfold set_audio_decoder, base_decoder, config_bool. quiet_go. Qed.

(** What the creation has prepared for the decoder's thread. *)
Definition prepared (w w' : world) : Prop :=
  fd_replay (log w') = fd_replay (log w) ∧ dev_replay (log w') = dev_replay (log w) ∧
  state (audec w') = state (audec w) ∧ pool_ok ∅ (audec w') ∧
  out_steady (audec w') ∧
  (audio_decoder (glob w') = AUDIO_ARC_DECODER → dsp_file_fd (adsp_ops (audec w')) = -1).

Lemma wp_create_thread wfd fmt Q w :
  pool_ok ∅ (audec w) → out_steady (audec w) →
  (∀ r w', prepared w w' → Q r w') → wp o I (create_thread wfd fmt) Q w.
Proof.
  intros Hk Hc HQ. unfold create_thread, get_audio_decoder, ignore. wp_steps.
  generalize (thread_loop (audio_decoder (glob w)) wfd fmt). intros loop.
  destruct (Z.eqb_spec (audio_decoder (glob w)) AUDIO_ARC_DECODER) as [Hdec|Hdec]; wp_steps;
    destruct (String.eqb loop "adec_armdec_loop"); wp_steps.
  all: repeat (apply wp_ask; intros ?; wp_steps).
  all: destruct (String.eqb loop "adec_wfddec_msg_loop"); wp_steps;
    destruct (_ =? 0); wp_steps; apply HQ.
  all: split_and!; try done; simpl; (destruct (fd_replay (log w)), (dev_replay (log w)); done).
Qed.

Lemma wp_audiodec_init b Q w :
  message_pool (audec w) = zero_msgs →
  (∀ r w', prepared w w' → Q r w') → wp o I (audiodec_init b) Q w.
Proof.
  intros Hp HQ. unfold audiodec_init, get_output_func, config_bool.
  wp_step. eapply wp_intro; [unfold on_pool; rewrite Hp; reflexivity|].
  wp_steps. apply quiet_set_audio_decoder. intros r1 w1 (Ha1 & Hf1 & Hd1).
  wp_steps. apply wp_ask. intros wfd. wp_steps. apply wp_create_thread.
  - exists []. simpl. rewrite Ha1. apply empty_world_holds.
  - split; [done|]. cbn. by rewrite Ha1.
  - intros r w' (Hf & Hd & Hs & H). apply HQ.
    destruct (still_req (ConfigBool "vendor.media.libplayer.wfd") wfd w1 eq_refl) as (_ & Hf2 & Hd2).
    split_and!; [etrans; [exact Hf|by etrans]|etrans; [exact Hd|by etrans]| |apply H..].
    rewrite Hs. simpl. by rewrite Ha1.
Qed.

End quiet.

Lemma fill_audec_some info :
  length (i_extradata info) = 4096%nat →
  ∃ a, fill_audec info = Some a ∧ state a = IDLE ∧ message_pool a = zero_msgs.
Proof.
  intros Hl. unfold fill_audec. match goal with |- context [copy_extradata _ ?a0] =>
    destruct (copy_extradata_spec info a0) as (a & Ha & _); [done..|] end.
  exists a. split; [done|]. revert Ha. unfold copy_extradata.
  destruct (_ && _); [|by intros [= <-]].
  destruct (slice _ _ _) as [src|]; [|done]. cbn [mbind option_bind].
  destruct (splice _ _ _) as [dst|]; [|done]. by intros [= <-].
Qed.


(** The blocks and the thread are granted, and the player of [demo_sched]
    drives the instance. *)
Definition life_oracle : oracle :=
  mk_oracle (λ n r, match r with
                    | Malloc _ => 1
                    | ThreadCreate _ => 7
                    | _ => o_int demo_oracle n r
                    end)
    (o_opt demo_oracle) (o_str demo_oracle) (o_env demo_oracle).

Definition demo_info : arm_audio_info :=
  mk_info 48000 2 0 0 0 0 3 2 (replicate 4096 7) 0 0 0 0 1.

Definition empty_instance : world := mk_w zero_audec (mk_statics 0 0 0 (-1) 0) 0 [].

Lemma life_oracle_settings : settings_ok life_oracle.
Proof.
  intros n name s [= <-]. exists ["amadec_mpeg"%string]. split; [done|].
  repeat constructor; simpl; lia.
Qed.

(** The creation succeeds and chooses the DSP decoder. *)
Example life_oracle_init :
  match audio_decode_init (mk_build true false) false demo_info life_oracle empty_instance with
  | Done (r, handle, _) w1 => r = 0 ∧ audio_decoder (glob w1) = AUDIO_ARC_DECODER
  | _ => False
  end.
Proof. by vm_compute. Qed.

