(* ===== verification/Resample.v ===== *)
(** The resampler of the output, audio_out/aml_resample.c and aml_resample.h.

    The control block [af_resample_ctl_t] keeps the interpolation tables, the
    input samples that do not fill a block yet and the output samples the
    caller did not ask for yet.  Samples are interleaved 16-bit numbers.
    [None] is an access outside an array, a read of a variable that was not
    written, or a signed overflow.

    [adsp_ops.dsp_read] is the interface [PcmSource]; the ring of
    PcmBuffer.v implements it.  What the functions ask from the system is the
    record [rs_env], given to each call; what they tell it is the list [sent].
    [taken] lists the bytes received from the source, read by read, and
    [samples] the samples made of them. *)

From S2P Require Import Prelude PcmBuffer.

Definition RESAMPLE_DELTA_NUMSAMPS : Z := 1.
Definition DEFAULT_NUMSAMPS_PERCH : Z := 128.
Definition MAX_NUMSAMPS_PERCH : Z := DEFAULT_NUMSAMPS_PERCH + RESAMPLE_DELTA_NUMSAMPS.
Definition DEFAULT_NUMCH : Z := 2.

Definition RESAMPLE_TYPE_NONE : Z := 0.
Definition RESAMPLE_TYPE_DOWN : Z := 1.
Definition RESAMPLE_TYPE_UP : Z := 2.

Definition MAXCH_NUMBER : Z := 8.
Definition MAXFRAMESIZE : Z := 8192.

Definition Q14_INT_GET (value : Z) : Z := Z.shiftr value 14.
Definition Q14_FRA_GET (value : Z) : Z := Z.land value 0x3fff.

Record af_resample_ctl_t := mk_ctl {
  SampNumIn : Z;
  SampNumOut : Z;
  InterpolateCoefArray : list Z;
  InterpolateIndexArray : list Z;
  ReservedBuf : list Z;
  ReservedSampsValid : Z;
  OutSampReserveBuf : list Z;
  OutSampReserveLen : Z;
  InitFlag : Z;
  LastResamType : Z;
  resample_type : Z;
  enable_resample : Z
}.

#[export] Instance af_resample_ctl_eta : Eta af_resample_ctl_t := λ r,
  mk_ctl (SampNumIn r) (SampNumOut r) (InterpolateCoefArray r) (InterpolateIndexArray r)
    (ReservedBuf r) (ReservedSampsValid r) (OutSampReserveBuf r) (OutSampReserveLen r)
    (InitFlag r) (LastResamType r) (resample_type r) (enable_resample r).

Definition zero_ctl : af_resample_ctl_t :=
  mk_ctl 0 0 (replicate 129 0) (replicate 129 0) (replicate 258 0) 0 (replicate 258 0) 0 0 0 0 0.

(** What a source of PCM bytes promises: a read of at most [n] bytes gives a
    result no larger than [n], and as many bytes as the result says. *)
Class PcmSource (S : Type) := {
  src_read : Z → S → option ((Z * list Z) * S);
  src_ok : S → Prop;
  src_read_ok n s :
    src_ok s → 0 ≤ n < 2 ^ 31 →
    ∃ r bs s', src_read n s = Some ((r, bs), s') ∧ src_ok s' ∧ r ≤ n ∧ zlen bs = Z.max 0 r
}.

(** What is told to the system. *)
Inductive rs_event :=
| UtilsIoctl (fd delta : Z)
| UtilsClose (fd : Z)
| SysfsType (val : Z)
| SysfsEnable (val : Z)
| PcmDump (bytes : Z)
| PcmOpen
| PcmClose (fd : Z).

(** What one call asks from the system: the property resampledelta, the
    configuration wfd, the result of opening the utils device and of its
    ioctl, and of [audiodsp_format_update] and [audiodsp_get_pcm_left_len]. *)
Record rs_env := mk_env {
  env_delta : option Z;
  env_wfd : bool;
  env_utils_fd : Z;
  env_ioctl : Z;
  env_format_changed : Z;
  env_left_len : Z
}.

Record rs_world (S : Type) := mk_rs {
  ctl : af_resample_ctl_t;
  src : S;
  bytes_readed : Z;
  date_temp : list Z;
  pcm_left_len : Z;
  pcmfd : Z;
  sent : list rs_event;
  samples : list Z;
  taken : list Z
}.
Arguments mk_rs {_} _ _ _ _ _ _ _ _ _.
Arguments ctl {_} _.
Arguments src {_} _.
Arguments bytes_readed {_} _.
Arguments date_temp {_} _.
Arguments pcm_left_len {_} _.
Arguments pcmfd {_} _.
Arguments sent {_} _.
Arguments samples {_} _.
Arguments taken {_} _.

#[export] Instance rs_world_eta {S} : Eta (rs_world S) := λ r,
  mk_rs (ctl r) (src r) (bytes_readed r) (date_temp r) (pcm_left_len r) (pcmfd r)
    (sent r) (samples r) (taken r).

(** ** The interpolation tables *)

(** [for (i = 1; i <= SampNumOut - 2; i++)]: [n] rounds from [i]. *)
Fixpoint coef_loop (n : nat) (i step_i step_forward insert_pos_int : Z)
    (pCoefArray pindex : list Z) : option (list Z * list Z) :=
  match n with
  | O => Some (pCoefArray, pindex)
  | S n =>
      step_forward ← int_ok (step_forward + step_i);
      insert_pos_int ← int_ok (insert_pos_int + Q14_INT_GET step_forward);
      pindex ← aset pindex i (i16 insert_pos_int);
      pCoefArray ← aset pCoefArray i (Q14_FRA_GET step_forward);
      coef_loop n (i + 1) step_i (Q14_FRA_GET step_forward) insert_pos_int pCoefArray pindex
  end.

(** [for (i = 0; i < SampNumOut; i++) { pindex[i] = i; pCoefArray[i] = 0; }] *)
Fixpoint identity_loop (n : nat) (i : Z) (pCoefArray pindex : list Z) :
    option (list Z * list Z) :=
  match n with
  | O => Some (pCoefArray, pindex)
  | S n =>
      pindex ← aset pindex i (i16 i);
      pCoefArray ← aset pCoefArray i 0;
      identity_loop n (i + 1) pCoefArray pindex
  end.

(** [(((SampNumIn - 1)) << 14) / (SampNumOut - 1)]: a negative number is not
    shifted, and nothing is divided by zero. *)
Definition coef_step (SampNumIn SampNumOut : Z) : option Z :=
  if SampNumIn - 1 <? 0 then None else
  if SampNumOut - 1 =? 0 then None else
  n ← int_ok (Z.shiftl (SampNumIn - 1) 14);
  Some (n /c (SampNumOut - 1)).

Definition af_resample_linear_coef_get (c : af_resample_ctl_t) : option af_resample_ctl_t :=
  step_i ← coef_step (SampNumIn c) (SampNumOut c);
  if SampNumIn c =? SampNumOut c then
    '(pCoefArray, pindex) ← identity_loop (Z.to_nat (SampNumOut c)) 0
                              (InterpolateCoefArray c) (InterpolateIndexArray c);
    Some (c <| InterpolateCoefArray := pCoefArray |> <| InterpolateIndexArray := pindex |>)
  else
    '(pCoefArray, pindex) ← coef_loop (Z.to_nat (SampNumOut c - 2)) 1 step_i 0 0
                              (InterpolateCoefArray c) (InterpolateIndexArray c);
    pindex ← aset pindex 0 0;
    pCoefArray ← aset pCoefArray 0 0;
    pindex ← aset pindex (SampNumOut c - 1) (i16 (SampNumOut c - 1));
    pCoefArray ← aset pCoefArray (SampNumOut c - 1) 0;
    Some (c <| InterpolateCoefArray := pCoefArray |> <| InterpolateIndexArray := pindex |>).

(** ** One block

    [buf16_in] is a local array: a cell that was not written is [None]. *)

Definition get_init (buf16_in : list (option Z)) (i : Z) : option Z := mjoin (aget buf16_in i).

(** [buf16_in[index] = data[off + NumCh * index + ChId]] *)
Fixpoint fill_loop (n : nat) (index : Z) (data : list Z) (off NumCh ChId : Z)
    (buf16_in : list (option Z)) : option (list (option Z)) :=
  match n with
  | O => Some buf16_in
  | S n =>
      x ← aget data (off + NumCh * index + ChId);
      buf16_in ← aset buf16_in index (Some x);
      fill_loop n (index + 1) data off NumCh ChId buf16_in
  end.

(** The product is an [int] in the first block of a call and an [int64_t] in
    the others. *)
Fixpoint interp_loop (wide : bool) (n : nat) (index : Z) (pcoef pindex : list Z)
    (buf16_in : list (option Z)) (out : list Z) (output_offset NumCh ChId : Z) :
    option (list Z) :=
  match n with
  | O => Some out
  | S n =>
      pos ← aget pindex index;
      c ← aget pcoef index;
      a ← get_init buf16_in pos;
      b ← get_init buf16_in (pos + 1);
      p ← (if wide then int64_ok (c * (b - a)) else int_ok (c * (b - a)));
      out ← aset out (output_offset + NumCh * index + ChId) (i16 (a + Q14_INT_GET p));
      interp_loop wide n (index + 1) pcoef pindex buf16_in out output_offset NumCh ChId
  end.

Definition block_channel (wide : bool) (c : af_resample_ctl_t) (data : list Z) (off : Z)
    (buf16_in : list (option Z)) (out : list Z) (output_offset NumCh ChId : Z) :
    option (list (option Z) * list Z) :=
  let buf16_in_valid := i16 (SampNumIn c) in
  buf16_in ← fill_loop (Z.to_nat buf16_in_valid) 0 data off NumCh ChId buf16_in;
  out ← interp_loop wide (Z.to_nat (SampNumOut c - 1)) 0 (InterpolateCoefArray c)
          (InterpolateIndexArray c) buf16_in out output_offset NumCh ChId;
  last ← get_init buf16_in (buf16_in_valid - 1);
  out ← aset out (output_offset + NumCh * (SampNumOut c - 1) + ChId) last;
  Some (buf16_in, out).

Fixpoint block_channels (wide : bool) (n : nat) (c : af_resample_ctl_t) (data : list Z)
    (off : Z) (buf16_in : list (option Z)) (out : list Z) (output_offset NumCh ChId : Z) :
    option (list (option Z) * list Z) :=
  match n with
  | O => Some (buf16_in, out)
  | S n =>
      '(buf16_in, out) ← block_channel wide c data off buf16_in out output_offset NumCh ChId;
      block_channels wide n c data off buf16_in out output_offset NumCh (ChId + 1)
  end.

(** [while (NumSampsPerCh_Rest > SampNumIn)], with the blocks of [data_in]. *)
Fixpoint rest_loop (fuel : nat) (c : af_resample_ctl_t) (data_in : list Z)
    (NumSampsPerCh_Rest input_offset output_offset NumCh : Z) (buf16_in : list (option Z))
    (out : list Z) : option (Z * Z * Z * list Z) :=
  if NumSampsPerCh_Rest >? SampNumIn c then
    match fuel with
    | O => None
    | S fuel =>
        '(buf16_in, out) ← block_channels true (Z.to_nat NumCh) c data_in input_offset
                             buf16_in out output_offset NumCh 0;
        rest_loop fuel c data_in (NumSampsPerCh_Rest - SampNumIn c)
          (input_offset + SampNumIn c * NumCh) (output_offset + SampNumOut c * NumCh)
          NumCh buf16_in out
    end
  else Some (NumSampsPerCh_Rest, input_offset, output_offset, out).

(** ** The operations *)

Section ops.
Context {Src : Type} `{PcmSource Src}.
Implicit Types (e : rs_env).

Definition get_ctl : CM (rs_world Src) af_resample_ctl_t := cm_gets ctl.
Definition set_ctl (c : af_resample_ctl_t) : CM (rs_world Src) unit := cm_modify (λ w, w <| ctl := c |>).
Definition tell (ev : rs_event) : CM (rs_world Src) unit := cm_modify (λ w, w <| sent := ev :: sent w |>).

Definition af_get_resample_enable_flag : CM (rs_world Src) Z := c ← get_ctl; mret (enable_resample c).
Definition af_get_resample_type : CM (rs_world Src) Z := c ← get_ctl; mret (resample_type c).
Definition af_set_resample_type (val : Z) : CM (rs_world Src) Z :=
  c ← get_ctl; set_ctl (c <| resample_type := val |>);; mret 1.

Definition audiodsp_set_pcm_resample_delta (e : rs_env) (resample_num_delta : Z) : CM (rs_world Src) Z :=
  if env_utils_fd e >=? 0 then
    tell (UtilsIoctl (env_utils_fd e) resample_num_delta);;
    tell (UtilsClose (env_utils_fd e));;
    mret (if env_ioctl e <? 0 then -1 else 0)
  else mret (-1).

(** The numbers of samples of a block for a resample type. *)
Definition samps_num (c : af_resample_ctl_t) (ty delta : Z) : option af_resample_ctl_t :=
  if ty =? RESAMPLE_TYPE_NONE then
    Some (c <| SampNumIn := DEFAULT_NUMSAMPS_PERCH |> <| SampNumOut := DEFAULT_NUMSAMPS_PERCH |>)
  else if ty =? RESAMPLE_TYPE_DOWN then
    n ← int_ok (DEFAULT_NUMSAMPS_PERCH + delta);
    Some (c <| SampNumIn := n |> <| SampNumOut := DEFAULT_NUMSAMPS_PERCH |>)
  else if ty =? RESAMPLE_TYPE_UP then
    n ← int_ok (DEFAULT_NUMSAMPS_PERCH - delta);
    Some (c <| SampNumIn := n |> <| SampNumOut := DEFAULT_NUMSAMPS_PERCH |>)
  else Some c.

Definition af_resample_set_SampsNumRatio (e : rs_env) : CM (rs_world Src) unit :=
  ty ← af_get_resample_type;
  let delta := default RESAMPLE_DELTA_NUMSAMPS (env_delta e) in
  let delta := if env_wfd e then 2 else delta in
  audiodsp_set_pcm_resample_delta e delta;;
  c ← get_ctl;
  c ← cm_lift (samps_num (c <| LastResamType := i16 ty |>) ty delta);
  c ← cm_lift (af_resample_linear_coef_get c);
  set_ctl (c <| ReservedSampsValid := 0 |> <| OutSampReserveLen := 0 |> <| InitFlag := 1 |>).

Definition af_get_delta_inputsampnum (Nch : Z) : CM (rs_world Src) Z :=
  c ← get_ctl; mret (SampNumIn c * Nch - ReservedSampsValid c).

(** [memcpy] to [buf + at], then [memmove] of what is left to the front. *)
Definition copy_front (stored : list Z) (valid num : Z) (buf : list Z) (off : Z) :
    option (list Z * list Z) :=
  xs ← slice stored 0 num;
  buf ← splice buf off xs;
  ys ← slice stored num (valid - num);
  stored ← splice stored 0 ys;
  Some (stored, buf).

(** Returns [*num] and the buffer. *)
Definition af_get_unpro_inputsampnum (buf : list Z) (off num : Z) : CM (rs_world Src) (Z * list Z) :=
  c ← get_ctl;
  if num >=? ReservedSampsValid c then
    xs ← cm_lift (slice (ReservedBuf c) 0 (ReservedSampsValid c));
    buf ← cm_lift (splice buf off xs);
    set_ctl (c <| ReservedSampsValid := 0 |>);;
    mret (ReservedSampsValid c, buf)
  else
    '(stored, buf) ← cm_lift (copy_front (ReservedBuf c) (ReservedSampsValid c) num buf off);
    set_ctl (c <| ReservedBuf := stored |>
               <| ReservedSampsValid := i16 (ReservedSampsValid c - num) |>);;
    mret (num, buf).

(** Returns [*len] and the buffer. *)
Definition af_get_pcm_in_resampler (buf : list Z) (off len : Z) : CM (rs_world Src) (Z * list Z) :=
  c ← get_ctl;
  if (len >=? 0) && (len <? OutSampReserveLen c) then
    '(stored, buf) ← cm_lift (copy_front (OutSampReserveBuf c) (OutSampReserveLen c) len buf off);
    set_ctl (c <| OutSampReserveBuf := stored |>
               <| OutSampReserveLen := i16 (OutSampReserveLen c - len) |>);;
    mret (len, buf)
  else if len >=? OutSampReserveLen c then
    xs ← cm_lift (slice (OutSampReserveBuf c) 0 (OutSampReserveLen c));
    buf ← cm_lift (splice buf off xs);
    set_ctl (c <| OutSampReserveLen := 0 |>);;
    mret (OutSampReserveLen c, buf)
  else
    set_ctl (c <| OutSampReserveLen := 0 |>);; mret (len, buf).

(** Reads the samples [data_in] (as many as [*NumSamp_in]) and writes to
    [out] from [base]; returns [*NumSamp_out] and [out]. *)
Definition af_resample_process_linear_inner (e : rs_env) (data_in : list Z) (out : list Z)
    (base NumCh : Z) : CM (rs_world Src) (Z * list Z) :=
  c0 ← get_ctl;
  if NumCh =? 0 then cm_fail else
  let NumSamp_in := zlen data_in in
  let NumSampsPerCh_in := NumSamp_in /c NumCh in
  let NumSampsPerCh_Pre := ReservedSampsValid c0 /c NumCh in
  (if InitFlag c0 =? 0 then af_resample_set_SampsNumRatio e else mret tt);;
  c ← get_ctl;
  if NumSampsPerCh_Pre + NumSampsPerCh_in <? SampNumIn c then
    pre ← cm_lift (splice (ReservedBuf c) (ReservedSampsValid c) data_in);
    set_ctl (c <| ReservedBuf := pre |>
               <| ReservedSampsValid := i16 (ReservedSampsValid c + NumSamp_in) |>);;
    mret (0, out)
  else
    let rest := NumSampsPerCh_Pre + NumSampsPerCh_in - SampNumIn c in
    let input_offset := (SampNumIn c - NumSampsPerCh_Pre) * NumCh in
    let output_offset := OutSampReserveLen c in
    xs ← cm_lift (slice data_in 0 input_offset);
    pre ← cm_lift (splice (ReservedBuf c) (ReservedSampsValid c) xs);
    held ← cm_lift (slice (OutSampReserveBuf c) 0 (OutSampReserveLen c));
    out ← cm_lift (splice out base held);
    '(buf16_in, out) ← cm_lift (block_channels false (Z.to_nat NumCh) c pre 0
        (replicate (Z.to_nat MAX_NUMSAMPS_PERCH) None) out (base + output_offset) NumCh 0);
    let output_offset := output_offset + SampNumOut c * NumCh in
    '(rest, input_offset, out_end, out) ← cm_lift (rest_loop (Z.to_nat NumSamp_in) c data_in
        rest input_offset (base + output_offset) NumCh buf16_in out);
    let output_offset := out_end - base in
    let cur := output_offset %c (DEFAULT_NUMSAMPS_PERCH * NumCh) in
    kept ← cm_lift (slice out (base + output_offset - cur) cur);
    held ← cm_lift (splice (OutSampReserveBuf c) 0 kept);
    let c := c <| OutSampReserveBuf := held |> <| OutSampReserveLen := i16 cur |> in
    if input_offset <? NumSamp_in then
      ys ← cm_lift (slice data_in input_offset (rest * NumCh));
      pre ← cm_lift (splice pre 0 ys);
      set_ctl (c <| ReservedBuf := pre |> <| ReservedSampsValid := i16 (rest * NumCh) |>);;
      mret (output_offset - cur, out)
    else
      set_ctl (c <| ReservedBuf := pre |> <| ReservedSampsValid := 0 |>);;
      mret (output_offset - cur, out).

Definition af_resample_stop_process (e : rs_env) : CM (rs_world Src) unit :=
  c ← get_ctl;
  (if negb (InitFlag c =? 0) then audiodsp_set_pcm_resample_delta e 0;; mret tt else mret tt);;
  set_ctl (c <| InitFlag := 0 |> <| LastResamType := 0 |>).

(** ** Reading from the source *)

(** [adsp_ops.dsp_read]; all bytes it delivers are [taken]. *)
Definition dsp_read (n : Z) : CM (rs_world Src) (Z * list Z) := λ w,
  match src_read n (src w) with
  | Some (r, s) => Some (r, w <| src := s |> <| taken := taken w ++ r.2 |>)
  | None => None
  end.

(** [cap] is the room of the array read into. *)
Fixpoint pcm_read_loop (fuel : nat) (cap len cnt : Z) (acc : list Z) : CM (rs_world Src) (list Z) :=
  if cnt <? len then
    match fuel with
    | O => cm_fail
    | S fuel =>
        '(r, bs) ← dsp_read (len - cnt);
        if r <=? 0 then mret acc else
        if cap <? cnt + r then cm_fail else
        pcm_read_loop fuel cap len (cnt + r) (acc ++ bs)
    end
  else mret acc.

(** Returns the samples read; an odd byte at the end is not one. *)
Definition dsp_pcm_read (cap len : Z) : CM (rs_world Src) (list Z) :=
  bs ← pcm_read_loop (Z.to_nat len) cap len 0 [];
  cm_modify (λ w, w <| bytes_readed := i64 (bytes_readed w + zlen bs) |>
                    <| samples := samples w ++ shorts_of bs |>);;
  mret (shorts_of bs).

(** ** The entry point

    [while (NumSamp_out >= DEFAULT_NUMSAMPS_PERCH * NumCh)]: the result says
    whether the loop left through [goto resample_out]. *)
Fixpoint blocks_loop (fuel : nat) (e : rs_env) (NumCh NumSamp_out outbuf_offset : Z) :
    CM (rs_world Src) (bool * Z * Z) :=
  if NumSamp_out >=? DEFAULT_NUMSAMPS_PERCH * NumCh then
    match fuel with
    | O => cm_fail
    | S fuel =>
        delta ← af_get_delta_inputsampnum NumCh;
        data_in ← dsp_pcm_read (MAX_NUMSAMPS_PERCH * DEFAULT_NUMCH * 2) (i32 (delta * 2));
        d ← cm_gets date_temp;
        '(pcm_cnt, d) ← af_resample_process_linear_inner e data_in d outbuf_offset NumCh;
        cm_modify (λ w, w <| date_temp := d |>);;
        if pcm_cnt =? 0 then mret (true, NumSamp_out, outbuf_offset) else
        blocks_loop fuel e NumCh (NumSamp_out - pcm_cnt) (outbuf_offset + pcm_cnt)
    end
  else mret (false, NumSamp_out, outbuf_offset).

(** The last block, of which the caller gets a part: returns the new
    [outbuf_offset]. *)
Definition last_block (e : rs_env) (NumCh NumSamp_out outbuf_offset : Z) :
    CM (rs_world Src) Z :=
  delta ← af_get_delta_inputsampnum NumCh;
  data_in ← dsp_pcm_read (MAX_NUMSAMPS_PERCH * DEFAULT_NUMCH * 2) (i32 (delta * 2));
  '(pcm_cnt, outbuftmp16) ← af_resample_process_linear_inner e data_in
      (replicate (Z.to_nat (MAX_NUMSAMPS_PERCH * DEFAULT_NUMCH)) 0) 0 NumCh;
  if pcm_cnt =? 0 then mret outbuf_offset else
  d ← cm_gets date_temp;
  xs ← cm_lift (slice outbuftmp16 0 NumSamp_out);
  d ← cm_lift (splice d outbuf_offset xs);
  c ← get_ctl;
  ys ← cm_lift (slice outbuftmp16 NumSamp_out (pcm_cnt - NumSamp_out));
  held ← cm_lift (splice (OutSampReserveBuf c) 0 ys);
  cm_modify (λ w, w <| date_temp := d |>);;
  set_ctl (c <| OutSampReserveBuf := held |> <| OutSampReserveLen := i16 (pcm_cnt - NumSamp_out) |>);;
  mret (outbuf_offset + NumSamp_out).

(** The branch that resamples: [n] samples are asked for. *)
Definition resample_branch (e : rs_env) (NumCh n : Z) : CM (rs_world Src) Z :=
  c ← get_ctl;
  (if InitFlag c =? 0 then af_resample_set_SampsNumRatio e else mret tt);;
  d ← cm_gets date_temp;
  '(got, d) ← af_get_pcm_in_resampler d 0 n;
  cm_modify (λ w, w <| date_temp := d |>);;
  '(out, remain, outbuf_offset) ← blocks_loop (Z.to_nat n) e NumCh (n - got) got;
  if out : bool then mret outbuf_offset else
  if remain >? 0 then last_block e NumCh remain outbuf_offset else mret outbuf_offset.

(** Bytes stored over samples: an odd last byte replaces the low half. *)
Definition store_bytes (d : list Z) (off : Z) (bs : list Z) : option (list Z) :=
  d ← splice d off (shorts_of bs);
  match last bs with
  | Some lo =>
      if Nat.odd (length bs) then
        x ← aget d (off + zlen (shorts_of bs));
        aset d (off + zlen (shorts_of bs)) (i16 (lo + 256 * Z.shiftr x 8))
      else Some d
  | None => Some d
  end.

(** The branch that does not resample: it hands out what the resampler holds
    and reads the rest as it is. *)
Definition drain_branch (e : rs_env) (n : Z) : CM (rs_world Src) Z :=
  c ← get_ctl;
  d ← cm_gets date_temp;
  '(got, d) ← (if OutSampReserveLen c >? 0 then af_get_pcm_in_resampler d 0 n else mret (0, d));
  c ← get_ctl;
  '(got2, d) ← (if ReservedSampsValid c >? 0 then af_get_unpro_inputsampnum d got (n - got)
                else mret (0, d));
  cm_modify (λ w, w <| date_temp := d |>);;
  c ← get_ctl;
  (if (OutSampReserveLen c =? 0) && (ReservedSampsValid c =? 0)
   then af_resample_stop_process e else mret tt);;
  let remain := n - got - got2 in
  let outbuf_offset := got + got2 in
  if remain >? 0 then
    '(len, bs) ← dsp_read (i32 (remain * 2));
    d ← cm_gets date_temp;
    d ← cm_lift (store_bytes d outbuf_offset bs);
    cm_modify (λ w, w <| date_temp := d |>
                      <| bytes_readed := i64 (bytes_readed w + len) |>
                      <| samples := samples w ++ shorts_of bs |>);;
    mret (i32 (outbuf_offset + u64 len / 2))
  else mret outbuf_offset.

(** [memset] of [n] bytes over samples. *)
Definition zero_bytes (d : list Z) (n : Z) : option (list Z) :=
  d ← splice d 0 (replicate (Z.to_nat (n /c 2)) 0);
  if n %c 2 =? 1 then
    x ← aget d (n /c 2); aset d (n /c 2) (Z.land x (-256))
  else Some d.

(** The silence after a change of format. *)
Definition mute_left (e : rs_env) (size : Z) : CM (rs_world Src) unit :=
  w ← cm_get;
  let remain := if env_format_changed e >? 0 then env_left_len e else pcm_left_len w in
  if remain >=? 0 then
    if remain >? i32 size then
      d ← cm_lift (zero_bytes (date_temp w) size);
      cm_put (w <| date_temp := d |> <| pcm_left_len := i32 (remain - size) |>)
    else
      d ← cm_lift (zero_bytes (date_temp w) remain);
      cm_put (w <| date_temp := d |> <| pcm_left_len := -1 |>)
  else cm_put (w <| pcm_left_len := remain |>).

(** [buffer] has room for [size] bytes.  Returns the new [*size] and what was
    copied to the buffer. *)
Definition af_resample_api_normal (e : rs_env) (size Chnum : Z) :
    CM (rs_world Src) (Z * list Z) :=
  resample_enable ← af_get_resample_enable_flag;
  let n := Z.min (size / 2) (MAXCH_NUMBER * MAXFRAMESIZE) in
  ty ← af_get_resample_type;
  c ← get_ctl;
  enable ← (if negb (resample_enable =? 0) then
              if negb (LastResamType c =? ty) then
                tell (SysfsType ty);;
                if (OutSampReserveLen c =? 0) && (ReservedSampsValid c =? 0) then
                  af_resample_stop_process e;; mret true
                else mret false
              else mret true
            else mret false);
  outbuf_offset ← (if enable : bool then resample_branch e Chnum n else drain_branch e n);
  let size' := u32 (outbuf_offset * 2) in
  d ← cm_gets date_temp;
  buffer ← cm_lift (slice d 0 (size' / 2));
  if size <? size' then cm_fail else
  fd ← cm_gets pcmfd;
  (if fd >=? 0 then tell (PcmDump size') else mret tt);;
  mute_left e size';;
  mret (size', buffer).

End ops.

(** ** Setting up and stopping

    The fields of the decoder instance the two functions touch. *)

Record av_fields := mk_av {
  tsync_mode : Z;
  pcrtsync_enable : Z;
  fill_trackzero_thrsh : Z;
  pcrmaster_droppcm_thsh : Z
}.

#[export] Instance av_fields_eta : Eta av_fields := λ r,
  mk_av (tsync_mode r) (pcrtsync_enable r) (fill_trackzero_thrsh r) (pcrmaster_droppcm_thsh r).

Definition TSYNC_MODE_PCRMASTER : Z := 2.
Definition TIME_UNIT90K : Z := 90000.

(** The properties read: the text of pcrtsync_enable, the numbers of the
    others, and the descriptor the dump file gets. *)
Record init_env := mk_ienv {
  ie_pcrtsync : option string;
  ie_enable : option Z;
  ie_fillzero : option Z;
  ie_dolby : bool;
  ie_droppcm : option Z;
  ie_dump_fd : Z
}.

Section setup.
Context {Src : Type}.

Definition af_resample_linear_init (p : init_env) (a : av_fields) : CM (rs_world Src) av_fields :=
  let off := match ie_pcrtsync p with
             | Some v => strcmp_eq v "0" || strcmp_eq v "false"
             | None => false
             end in
  let a := a <| pcrtsync_enable := if off then 0 else 1 |> in
  cm_modify (λ w, w <| ctl := zero_ctl |>);;
  if (tsync_mode a =? TSYNC_MODE_PCRMASTER) && negb (pcrtsync_enable a =? 0) then
    let enable := i16 (default 1 (ie_enable p)) in
    cm_modify (λ w, w <| ctl := ctl w <| enable_resample := enable |> |>
                      <| sent := SysfsEnable enable :: sent w |>);;
    let a := a <| fill_trackzero_thrsh := default (TIME_UNIT90K /c 2) (ie_fillzero p) |> in
    let a := if ie_dolby p then a <| fill_trackzero_thrsh := 27000 |> else a in
    let a := a <| pcrmaster_droppcm_thsh := default (TIME_UNIT90K /c 2) (ie_droppcm p) |> in
    cm_modify (λ w, if pcmfd w =? -1
                    then w <| pcmfd := ie_dump_fd p |> <| sent := PcmOpen :: sent w |> else w);;
    mret a
  else mret a.

Definition af_resample_linear_stop (a : av_fields) : CM (rs_world Src) unit :=
  if tsync_mode a =? TSYNC_MODE_PCRMASTER then
    cm_modify (λ w, w <| sent := SysfsEnable 0 :: sent w |>);;
    cm_modify (λ w, if pcmfd w >=? 0
                    then w <| pcmfd := -1 |> <| sent := PcmClose (pcmfd w) :: sent w |> else w)
  else mret tt.

End setup.

(** ** What a block becomes

    Output sample [i] of a channel lies at [i * step] in units of 1/2^14 of
    an input sample. *)

Definition q14_step (num_in num_out : Z) : Z := (num_in - 1) * 2 ^ 14 / (num_out - 1).
Definition q14_pos (num_in num_out i : Z) : Z := i * q14_step num_in num_out / 2 ^ 14.
Definition q14_frac (num_in num_out i : Z) : Z := (i * q14_step num_in num_out) mod 2 ^ 14.

Definition lerp (a b f : Z) : Z := a + f * (b - a) / 2 ^ 14.

(** Sample [j] of channel [ch] of an interleaved block. *)
Definition chan_at (b : list Z) (n ch j : Z) : Z := default 0 (aget b (n * j + ch)).

Definition sample_at (num_in num_out n : Z) (b : list Z) (k : Z) : Z :=
  let i := k / n in
  let ch := k mod n in
  if i =? num_out - 1 then chan_at b n ch (num_in - 1) else
  lerp (chan_at b n ch (q14_pos num_in num_out i))
       (chan_at b n ch (q14_pos num_in num_out i + 1)) (q14_frac num_in num_out i).

Definition resample_block (num_in num_out n : Z) (b : list Z) : list Z :=
  (λ k, sample_at num_in num_out n b (Z.of_nat k)) <$> seq 0 (Z.to_nat (num_out * n)).

Lemma q14_int_get v : Q14_INT_GET v = v / 2 ^ 14.
Proof. unfold Q14_INT_GET. by rewrite Z.shiftr_div_pow2. Qed.

Lemma q14_fra_get v : Q14_FRA_GET v = v mod 2 ^ 14.
Proof. unfold Q14_FRA_GET. change 0x3fff with (Z.ones 14). by rewrite Z.land_ones. Qed.

Section tables.
Context (num_in num_out : Z).
Hypothesis Hin : 2 ≤ num_in ≤ MAX_NUMSAMPS_PERCH.
Hypothesis Hout : 2 ≤ num_out ≤ MAX_NUMSAMPS_PERCH.
Abbreviation step := (q14_step num_in num_out).
Abbreviation pos := (q14_pos num_in num_out).
Abbreviation frac := (q14_frac num_in num_out).

Lemma step_bounds : 0 ≤ step ≤ 2 ^ 21.
Proof using Hin Hout.
  unfold q14_step, MAX_NUMSAMPS_PERCH, DEFAULT_NUMSAMPS_PERCH, RESAMPLE_DELTA_NUMSAMPS in *.
  split; [apply Z.div_pos; lia|].
  transitivity ((num_in - 1) * 2 ^ 14); [|lia].
  apply Z.div_le_upper_bound; [lia|].
  rewrite <- (Z.mul_1_l (_ * 2 ^ 14)) at 1. apply Z.mul_le_mono_nonneg_r; lia.
Qed.

Lemma coef_step_eq : coef_step num_in num_out = Some step.
Proof using Hin Hout.
  unfold coef_step, MAX_NUMSAMPS_PERCH, DEFAULT_NUMSAMPS_PERCH, RESAMPLE_DELTA_NUMSAMPS in *.
  destruct (Z.ltb_spec (num_in - 1) 0); [lia|]. destruct (Z.eqb_spec (num_out - 1) 0); [lia|].
  rewrite Z.shiftl_mul_pow2 by lia.
  rewrite int_ok_some by (unfold INT_MIN, INT_MAX; lia). simpl.
  unfold c_div, q14_step. by rewrite Z.quot_div_nonneg by lia.
Qed.

(** A position inside the block leaves a neighbour to its right. *)
Lemma pos_bounds i : 0 ≤ i < num_out - 1 → 0 ≤ pos i ≤ num_in - 2.
Proof using Hin Hout.
  intros Hi. pose proof step_bounds. unfold q14_pos.
  split; [apply Z.div_pos; nia|].
  assert (step * (num_out - 1) ≤ (num_in - 1) * 2 ^ 14).
  { unfold q14_step. rewrite Z.mul_comm. apply Z.mul_div_le.
    unfold MAX_NUMSAMPS_PERCH in *. lia. }
  destruct (Z.eq_dec step 0) as [E|]; [rewrite E, Z.mul_0_r, Z.div_0_l; lia|].
  assert (i * step < (num_in - 1) * 2 ^ 14) by nia.
  assert (i * step / 2 ^ 14 < num_in - 1) by (apply Z.div_lt_upper_bound; lia). lia.
Qed.

Lemma frac_bounds i : 0 ≤ frac i < 2 ^ 14.
Proof. apply Z.mod_pos_bound. lia. Qed.

(** One round of the table loop. *)
Lemma q14_next i :
  pos i + Q14_INT_GET (frac i + step) = pos (i + 1) ∧
  Q14_FRA_GET (frac i + step) = frac (i + 1).
Proof.
  rewrite q14_int_get, q14_fra_get. unfold q14_pos, q14_frac.
  set (s := step). replace ((i + 1) * s) with (i * s + s) by ring. split.
  - rewrite (Z.div_mod (i * s) (2 ^ 14)) at 3 by lia.
    rewrite <- Z.add_assoc, (Z.mul_comm (2 ^ 14)), Z.div_add_l by lia. done.
  - by rewrite Zplus_mod_idemp_l.
Qed.

End tables.

(** The tables the loops read agree with the closed form. *)
Definition tables_ok (c : af_resample_ctl_t) : Prop :=
  ∀ i, 0 ≤ i < SampNumOut c - 1 →
    aget (InterpolateIndexArray c) i = Some (q14_pos (SampNumIn c) (SampNumOut c) i) ∧
    aget (InterpolateCoefArray c) i = Some (q14_frac (SampNumIn c) (SampNumOut c) i).

Section table_loops.
Context (num_in num_out : Z).
Hypothesis Hin : 2 ≤ num_in ≤ MAX_NUMSAMPS_PERCH.
Hypothesis Hout : 2 ≤ num_out ≤ MAX_NUMSAMPS_PERCH.
Abbreviation pos := (q14_pos num_in num_out).
Abbreviation frac := (q14_frac num_in num_out).

Lemma coef_loop_spec n i coefs idx :
  1 ≤ i → i + Z.of_nat n ≤ num_out - 1 → zlen coefs = 129 → zlen idx = 129 →
  ∃ coefs' idx',
    coef_loop n i (q14_step num_in num_out) (frac (i - 1)) (pos (i - 1)) coefs idx
      = Some (coefs', idx') ∧
    zlen coefs' = 129 ∧ zlen idx' = 129 ∧
    ∀ j, (i ≤ j < i + Z.of_nat n → aget idx' j = Some (pos j) ∧ aget coefs' j = Some (frac j)) ∧
         (¬ i ≤ j < i + Z.of_nat n → aget idx' j = aget idx j ∧ aget coefs' j = aget coefs j).
Proof using Hin Hout.
  revert i coefs idx. induction n as [|n IH]; intros i coefs idx Hi Hn Hc Hx.
  { eexists _, _. repeat split; try done; intros; exfalso; lia. }
  pose proof (frac_bounds num_in num_out (i - 1)). pose proof (step_bounds _ _ Hin Hout).
  pose proof (pos_bounds _ _ Hin Hout i ltac:(lia)).
  destruct (q14_next num_in num_out (i - 1)) as [E1 E2]. rewrite Z.sub_add in E1, E2.
  assert (MAX_NUMSAMPS_PERCH = 129) by done.
  cbn [coef_loop]. rewrite int_ok_some by (unfold INT_MIN, INT_MAX; lia). simpl.
  rewrite E1, int_ok_some by (unfold INT_MIN, INT_MAX; lia). simpl.
  rewrite i16_small, aset_some by lia. simpl. rewrite aset_some by lia. simpl.
  rewrite E2.
  destruct (IH (i + 1) (<[Z.to_nat i := frac i]> coefs) (<[Z.to_nat i := pos i]> idx))
    as (c' & x' & Hr & Hlc & Hlx & HH); [lia|lia|zlens|zlens|].
  rewrite ?Z.add_simpl_r in Hr.
  eexists c', x'. split; [exact Hr|]. split_and!; [done..|]. intros j.
  destruct (HH j) as [H1' H2']. split; intros Hj.
  - destruct (Z.eq_dec j i) as [->|]; [|apply H1'; lia].
    destruct H2' as [-> ->]; [lia|]. by rewrite !aget_insert_eq by lia.
  - destruct H2' as [-> ->]; [lia|]. by rewrite !aget_insert_ne by lia.
Qed.

Lemma identity_loop_spec n i coefs idx :
  0 ≤ i → i + Z.of_nat n ≤ 129 → zlen coefs = 129 → zlen idx = 129 →
  ∃ coefs' idx', identity_loop n i coefs idx = Some (coefs', idx') ∧
    zlen coefs' = 129 ∧ zlen idx' = 129 ∧
    ∀ j, (i ≤ j < i + Z.of_nat n → aget idx' j = Some j ∧ aget coefs' j = Some 0) ∧
         (¬ i ≤ j < i + Z.of_nat n → aget idx' j = aget idx j ∧ aget coefs' j = aget coefs j).
Proof.
  revert i coefs idx. induction n as [|n IH]; intros i coefs idx Hi Hn Hc Hx.
  { eexists _, _. repeat split; try done; intros; exfalso; lia. }
  cbn [identity_loop]. rewrite i16_small, aset_some by lia. simpl.
  rewrite aset_some by lia. simpl.
  destruct (IH (i + 1) (<[Z.to_nat i := 0]> coefs) (<[Z.to_nat i := i]> idx))
    as (c' & x' & Hr & Hlc & Hlx & HH); [lia|lia|zlens|zlens|].
  rewrite ?Z.add_simpl_r in Hr.
  eexists c', x'. split; [exact Hr|]. split_and!; [done..|]. intros j.
  destruct (HH j) as [H1' H2']. split; intros Hj.
  - destruct (Z.eq_dec j i) as [->|]; [|apply H1'; lia].
    destruct H2' as [-> ->]; [lia|]. by rewrite !aget_insert_eq by lia.
  - destruct H2' as [-> ->]; [lia|]. by rewrite !aget_insert_ne by lia.
Qed.

Lemma q14_same i : num_in = num_out → pos i = i ∧ frac i = 0.
Proof using Hin Hout.
  intros <-. unfold q14_pos, q14_frac, q14_step.
  rewrite (Z.mul_comm (_ - 1)), Z.div_mul by lia.
  by rewrite Z.div_mul, Z.mod_mul by lia.
Qed.

End table_loops.

(** [c'] is [c] with other tables. *)
Definition same_but_tables (c c' : af_resample_ctl_t) : Prop :=
  c' = c <| InterpolateCoefArray := InterpolateCoefArray c' |>
         <| InterpolateIndexArray := InterpolateIndexArray c' |>.

Lemma coef_get_spec c :
  2 ≤ SampNumIn c ≤ MAX_NUMSAMPS_PERCH → 2 ≤ SampNumOut c ≤ MAX_NUMSAMPS_PERCH →
  zlen (InterpolateCoefArray c) = 129 → zlen (InterpolateIndexArray c) = 129 →
  ∃ c', af_resample_linear_coef_get c = Some c' ∧ same_but_tables c c' ∧ tables_ok c' ∧
    zlen (InterpolateCoefArray c') = 129 ∧ zlen (InterpolateIndexArray c') = 129.
Proof.
  intros Hin Hout Hc Hx. assert (MAX_NUMSAMPS_PERCH = 129) by done.
  unfold af_resample_linear_coef_get. rewrite coef_step_eq by done. simpl.
  destruct (Z.eqb_spec (SampNumIn c) (SampNumOut c)) as [E|].
  - destruct (identity_loop_spec (Z.to_nat (SampNumOut c)) 0 _ _ ltac:(lia) ltac:(lia) Hc Hx)
      as (c' & x' & -> & Hlc & Hlx & HH). simpl.
    eexists. split; [done|]. split_and!; [done| |done..].
    intros i Hi. simpl in *. destruct (q14_same _ _ Hin Hout i E) as [-> ->].
    apply HH. lia.
  - destruct (coef_loop_spec _ _ Hin Hout (Z.to_nat (SampNumOut c - 2)) 1 _ _ ltac:(lia)
      ltac:(lia) Hc Hx) as (c' & x' & Hr & Hlc & Hlx & HH).
    change (coef_loop _ 1 _ 0 0 _ _) with
      (coef_loop (Z.to_nat (SampNumOut c - 2)) 1 (q14_step (SampNumIn c) (SampNumOut c))
         (q14_frac (SampNumIn c) (SampNumOut c) (1 - 1))
         (q14_pos (SampNumIn c) (SampNumOut c) (1 - 1))
         (InterpolateCoefArray c) (InterpolateIndexArray c)).
    rewrite Hr. simpl.
    repeat (rewrite aset_some by zlens; simpl).
    eexists. split; [done|]. split_and!; [done| |simpl; zlens..].
    intros i Hi. simpl in *. rewrite !(aget_insert_ne _ (SampNumOut c - 1)) by lia.
    destruct (Z.eq_dec i 0) as [->|].
    + rewrite !(aget_insert_eq _ 0) by lia. done.
    + rewrite !(aget_insert_ne _ 0) by lia. apply HH. lia.
Qed.

(** ** Writing a block

    [painted P v off len out out']: [out'] is [out] with the cells [off + k]
    ([k] below [len], [P k]) set to [v k]. *)

Definition painted (P : Z → bool) (v : Z → Z) (off len : Z) (out out' : list Z) : Prop :=
  zlen out' = zlen out ∧
  ∀ j, 0 ≤ j → aget out' j =
    if (off <=? j) && (j <? off + len) && P (j - off) then Some (v (j - off)) else aget out j.

Lemma painted_none v off len out : painted (λ _, false) v off len out out.
Proof. split; [done|]. intros j _. by rewrite andb_false_r. Qed.

Lemma painted_ext P P' v off len out out' :
  (∀ k, 0 ≤ k < len → P k = P' k) → painted P v off len out out' → painted P' v off len out out'.
Proof.
  intros HP [Hl H]. split; [done|]. intros j Hj. rewrite H by done.
  destruct (Z.leb_spec off j); [|done]. destruct (Z.ltb_spec j (off + len)); [|done].
  by rewrite HP by lia.
Qed.

Lemma painted_set P v off len out out' k :
  painted P v off len out out' → 0 ≤ off → off + len ≤ zlen out → 0 ≤ k < len →
  ∃ out'', aset out' (off + k) (v k) = Some out'' ∧
    painted (λ x, (x =? k) || P x) v off len out out''.
Proof.
  intros [Hl H] Hoff Hlen Hk. eexists. rewrite aset_some by lia. split; [done|].
  split; [zlens|]. intros j Hj. destruct (Z.eq_dec j (off + k)) as [->|].
  - rewrite aget_insert_eq by lia. rewrite Z.add_simpl_l, Z.eqb_refl. simpl.
    by rewrite (proj2 (Z.leb_le _ _)), (proj2 (Z.ltb_lt _ _)) by lia.
  - rewrite aget_insert_ne, H by lia. by rewrite (proj2 (Z.eqb_neq (j - off) k)) by lia.
Qed.

Lemma aget_gen (v : Z → Z) n j :
  aget ((λ k, v (Z.of_nat k)) <$> seq 0 n) j =
    if (0 <=? j) && (j <? Z.of_nat n) then Some (v j) else None.
Proof.
  unfold aget. destruct (Z.leb_spec 0 j); [|done]. simpl.
  rewrite list_lookup_fmap. destruct (Z.ltb_spec j (Z.of_nat n)).
  - rewrite lookup_seq_lt by lia. simpl. by rewrite Z2Nat.id by lia.
  - by rewrite lookup_seq_ge by lia.
Qed.

Lemma painted_splice v off n out out' :
  painted (λ _, true) v off (Z.of_nat n) out out' → 0 ≤ off → off + Z.of_nat n ≤ zlen out →
  splice out off ((λ k, v (Z.of_nat k)) <$> seq 0 n) = Some out'.
Proof.
  intros [Hl H] Hoff Hn. set (xs := _ <$> _).
  assert (zlen xs = Z.of_nat n) as Hx by (unfold xs, zlen; by rewrite length_fmap, length_seq).
  destruct (splice out off xs) as [l|] eqn:Hs.
  - f_equal. apply aget_ext. intros j Hj. rewrite (aget_splice _ _ _ _ _ Hs Hj), H, Hx by done.
    rewrite andb_true_r. destruct (Z.leb_spec off j); [|done].
    destruct (Z.ltb_spec j (off + Z.of_nat n)); [|done]. simpl.
    unfold xs. rewrite aget_gen.
    by rewrite (proj2 (Z.leb_le _ _)), (proj2 (Z.ltb_lt _ _)) by lia.
  - exfalso. rewrite splice_some in Hs by lia. done.
Qed.

(** The cells of the channels before [ch], and those of [ch] before [m]. *)
Definition written (n ch m k : Z) : bool :=
  (k mod n <? ch) || ((k mod n =? ch) && (k / n <? m)).

Lemma div_mod_at n i ch : 0 ≤ ch < n → (n * i + ch) / n = i ∧ (n * i + ch) mod n = ch.
Proof.
  intros. rewrite (Z.mul_comm n i), Z.div_add_l, (Z.add_comm _ ch), Z_mod_plus_full by lia.
  rewrite Z.div_small, Z.mod_small by lia. lia.
Qed.

Lemma written_next n ch m k :
  0 ≤ ch < n → (k =? n * m + ch) || written n ch m k = written n ch (m + 1) k.
Proof.
  intros Hc. unfold written.
  destruct (Z.eqb_spec k (n * m + ch)) as [->|Hne].
  - destruct (div_mod_at n m ch Hc) as [-> ->]. simpl.
    rewrite Z.eqb_refl, (proj2 (Z.ltb_lt m _)) by lia. by rewrite orb_true_r.
  - simpl. destruct (Z.eqb_spec (k mod n) ch) as [E|]; [|done]. f_equal. simpl.
    assert (k / n ≠ m). { intros <-. apply Hne. rewrite <- E. apply Z.div_mod. lia. }
    destruct (Z.ltb_spec (k / n) m), (Z.ltb_spec (k / n) (m + 1)); lia || done.
Qed.

Lemma written_channel n ch m k :
  0 < n → 0 ≤ k < m * n → written n ch m k = written n (ch + 1) 0 k.
Proof.
  intros Hn Hk. assert (0 ≤ k / n < m).
  { split; [apply Z.div_pos; lia|apply Z.div_lt_upper_bound; lia]. }
  unfold written. rewrite (proj2 (Z.ltb_lt (k / n) m)), (proj2 (Z.ltb_ge (k / n) 0)) by lia.
  rewrite andb_false_r, andb_true_r, orb_false_r.
  destruct (Z.ltb_spec (k mod n) ch), (Z.eqb_spec (k mod n) ch), (Z.ltb_spec (k mod n) (ch + 1));
    try done; lia.
Qed.

(** An interpolated sample lies between its two neighbours. *)
Lemma lerp_between a b f :
  0 ≤ f < 2 ^ 14 → Z.min a b ≤ lerp a b f ≤ Z.max a b.
Proof.
  intros Hf. unfold lerp. destruct (Z.le_ge_cases a b).
  - assert (0 ≤ f * (b - a) / 2 ^ 14) by (apply Z.div_pos; nia).
    assert (f * (b - a) / 2 ^ 14 ≤ b - a) by (apply Z.div_le_upper_bound; nia). lia.
  - assert (f * (b - a) / 2 ^ 14 ≤ 0) by (apply Z.div_le_upper_bound; nia).
    assert (b - a ≤ f * (b - a) / 2 ^ 14) by (apply Z.div_le_lower_bound; nia). lia.
Qed.

Lemma lerp_16 a b f : is16 a → is16 b → 0 ≤ f < 2 ^ 14 → is16 (lerp a b f).
Proof. unfold is16. intros. pose proof (lerp_between a b f). lia. Qed.

Lemma fill_loop_spec n index data off N ch buf :
  0 ≤ index → index + Z.of_nat n ≤ zlen buf →
  (∀ j, index ≤ j < index + Z.of_nat n → is_Some (aget data (off + N * j + ch))) →
  ∃ buf', fill_loop n index data off N ch buf = Some buf' ∧ zlen buf' = zlen buf ∧
    ∀ j, aget buf' j = if (index <=? j) && (j <? index + Z.of_nat n)
                       then Some (aget data (off + N * j + ch)) else aget buf j.
Proof.
  revert index buf. induction n as [|n IH]; intros index buf Hi Hn Hd.
  { eexists. split; [done|]. split; [done|]. intros j.
    destruct (Z.leb_spec index j), (Z.ltb_spec j (index + Z.of_nat 0)); done || lia. }
  cbn [fill_loop]. destruct (Hd index) as [x Hx]; [lia|]. rewrite Hx. simpl.
  rewrite aset_some by lia. simpl.
  destruct (IH (index + 1) (<[Z.to_nat index := Some x]> buf)) as (buf' & -> & Hl & Hb);
    [lia|zlens|intros; apply Hd; lia|].
  eexists. split; [done|]. split; [zlens|]. intros j. rewrite Hb.
  destruct (Z.eq_dec j index) as [->|].
  - rewrite aget_insert_eq, Hx by lia.
    rewrite (proj2 (Z.leb_gt (index + 1) index)), Z.leb_refl by lia. simpl.
    by rewrite (proj2 (Z.ltb_lt index _)) by lia.
  - rewrite aget_insert_ne by lia. replace (index + 1 + Z.of_nat n)
      with (index + Z.of_nat (S n)) by lia.
    destruct (Z.leb_spec (index + 1) j), (Z.leb_spec index j); done || lia.
Qed.

(** A block of interleaved 16-bit samples at [off] in [data]. *)
Record block_at (num_in N : Z) (data : list Z) (off : Z) (b : list Z) : Prop := {
  block_slice : slice data off (num_in * N) = Some b;
  block_16 : Forall is16 b
}.

Lemma slice_range {A} (l : list A) i n b :
  slice l i n = Some b → 0 ≤ i ∧ 0 ≤ n ∧ i + n ≤ zlen l ∧ zlen b = n.
Proof.
  unfold slice. destruct (Z.leb_spec 0 i); [|done]. destruct (Z.leb_spec 0 n); [|done].
  destruct (Z.leb_spec (i + n) (zlen l)); [|done]. intros [= <-]. zlens.
Qed.

Section block.
Context (c : af_resample_ctl_t) (N : Z) (data : list Z) (off : Z) (b : list Z) (wide : bool).
Hypothesis Hin : 2 ≤ SampNumIn c ≤ MAX_NUMSAMPS_PERCH.
Hypothesis Hout : 2 ≤ SampNumOut c ≤ MAX_NUMSAMPS_PERCH.
Hypothesis Htab : tables_ok c.
Hypothesis HN : 0 < N.
Hypothesis Hb : block_at (SampNumIn c) N data off b.
Abbreviation val := (sample_at (SampNumIn c) (SampNumOut c) N b).
Abbreviation size := (SampNumOut c * N).

Lemma chan_at_data ch j :
  0 ≤ ch < N → 0 ≤ j < SampNumIn c →
  aget data (off + N * j + ch) = Some (chan_at b N ch j) ∧ is16 (chan_at b N ch j).
Proof using Hin Hout Hb HN.
  intros Hc Hj. destruct Hb as [Hs H16]. destruct (slice_range _ _ _ _ Hs) as (?&?&?&Hl).
  assert (0 ≤ N * j + ch < SampNumIn c * N) by nia.
  rewrite <- Z.add_assoc, <- (aget_slice _ _ _ _ _ Hs) by done. unfold chan_at.
  destruct (aget_some b (N * j + ch)) as [x Hx]; [lia|]. rewrite Hx. split; [done|].
  unfold aget in Hx. destruct (_ <=? _); [|done].
  by apply (Forall_lookup_1 _ _ _ _ H16 Hx).
Qed.

(** One channel has been copied to [buf16_in]. *)
Definition channel_in (ch : Z) (buf : list (option Z)) : Prop :=
  ∀ j, 0 ≤ j < SampNumIn c → get_init buf j = Some (chan_at b N ch j).

Lemma sample_value m ch :
  0 ≤ ch < N → 0 ≤ m < SampNumOut c - 1 →
  val (N * m + ch) = lerp (chan_at b N ch (q14_pos (SampNumIn c) (SampNumOut c) m))
    (chan_at b N ch (q14_pos (SampNumIn c) (SampNumOut c) m + 1))
    (q14_frac (SampNumIn c) (SampNumOut c) m).
Proof.
  intros Hc Hm. unfold sample_at. destruct (div_mod_at N m ch Hc) as [-> ->].
  by rewrite (proj2 (Z.eqb_neq m _)) by lia.
Qed.

Lemma interp_loop_spec n m ch buf out out' o :
  0 ≤ ch < N → 0 ≤ m → m + Z.of_nat n = SampNumOut c - 1 → channel_in ch buf →
  0 ≤ o → o + size ≤ zlen out → painted (written N ch m) val o size out out' →
  ∃ out'', interp_loop wide n m (InterpolateCoefArray c) (InterpolateIndexArray c) buf out'
             o N ch = Some out'' ∧
    painted (written N ch (SampNumOut c - 1)) val o size out out''.
Proof using Hin Hout Htab HN Hb.
  revert m out'. induction n as [|n IH]; intros m out' Hc Hm Hn Hbuf Ho Hlen Hp.
  { eexists. split; [done|]. by replace (SampNumOut c - 1) with m by lia. }
  cbn [interp_loop]. destruct (Htab m) as [-> ->]; [lia|]. simpl.
  pose proof (pos_bounds _ _ Hin Hout m ltac:(lia)) as Hpos.
  pose proof (frac_bounds (SampNumIn c) (SampNumOut c) m) as Hf.
  rewrite !Hbuf by lia. simpl.
  destruct (chan_at_data ch (q14_pos (SampNumIn c) (SampNumOut c) m) Hc) as [_ Ha]; [lia|].
  destruct (chan_at_data ch (q14_pos (SampNumIn c) (SampNumOut c) m + 1) Hc) as [_ Hb']; [lia|].
  pose proof (sample_value m ch Hc ltac:(lia)) as Hv.
  set (x := chan_at _ _ _ (q14_pos _ _ _)) in *. set (y := chan_at _ _ _ (_ + 1)) in *.
  set (f := q14_frac _ _ _) in *.
  assert (- 2 ^ 31 ≤ f * (y - x) ≤ INT_MAX) by (unfold is16, INT_MAX in *; nia).
  replace (if wide then _ else _) with (Some (f * (y - x)))
    by (destruct wide; [by rewrite int64_ok_some by (unfold INT_MAX in *; lia)|
                        by rewrite int_ok_some by (unfold INT_MIN; lia)]). simpl.
  rewrite q14_int_get. change (x + _) with (lerp x y f).
  rewrite i16_small by (by apply lerp_16). rewrite <- Hv, <- Z.add_assoc.
  destruct (painted_set _ _ _ _ _ _ (N * m + ch) Hp) as (o2 & -> & Hp2); [done|done|nia|].
  simpl. apply IH; [done|lia|lia|done..|].
  eapply painted_ext; [|exact Hp2]. intros k _. by apply written_next.
Qed.

Lemma block_channel_spec ch buf out out' o :
  0 ≤ ch < N → zlen buf = MAX_NUMSAMPS_PERCH → 0 ≤ o → o + size ≤ zlen out →
  painted (written N ch 0) val o size out out' →
  ∃ buf' out'', block_channel wide c data off buf out' o N ch = Some (buf', out'') ∧
    zlen buf' = MAX_NUMSAMPS_PERCH ∧ painted (written N (ch + 1) 0) val o size out out''.
Proof using Hin Hout Htab HN Hb.
  intros Hc Hlb Ho Hlen Hp. assert (MAX_NUMSAMPS_PERCH = 129) by done.
  unfold block_channel. rewrite i16_small by lia.
  destruct (fill_loop_spec (Z.to_nat (SampNumIn c)) 0 data off N ch buf) as (buf' & -> & Hl & Hg);
    [lia|lia|intros j Hj; destruct (chan_at_data ch j Hc) as [-> _]; [lia|done]|]. simpl.
  assert (channel_in ch buf') as Hbuf.
  { intros j Hj. unfold get_init. rewrite Hg.
    rewrite (proj2 (Z.leb_le _ _)), (proj2 (Z.ltb_lt _ _)) by lia. simpl.
    by destruct (chan_at_data ch j Hc) as [-> _]. }
  destruct (interp_loop_spec (Z.to_nat (SampNumOut c - 1)) 0 ch buf' out out' o)
    as (out1 & -> & Hp1); [done|lia|lia|done..|]. simpl.
  rewrite Hbuf by lia. simpl.
  assert (val (N * (SampNumOut c - 1) + ch) = chan_at b N ch (SampNumIn c - 1)) as <-.
  { unfold sample_at. destruct (div_mod_at N (SampNumOut c - 1) ch Hc) as [-> ->].
    by rewrite Z.eqb_refl. }
  rewrite <- Z.add_assoc.
  destruct (painted_set _ _ _ _ _ _ (N * (SampNumOut c - 1) + ch) Hp1) as (o2 & -> & Hp2);
    [done|done|nia|]. simpl.
  eexists _, _. split; [done|]. split; [lia|]. eapply painted_ext; [|exact Hp2].
  intros k Hk. cbv beta. rewrite written_next, Z.sub_add by done. by apply written_channel.
Qed.

Lemma block_channels_spec n ch buf out out' o :
  0 ≤ ch → ch + Z.of_nat n = N → zlen buf = MAX_NUMSAMPS_PERCH → 0 ≤ o →
  o + size ≤ zlen out → painted (written N ch 0) val o size out out' →
  ∃ buf' out'', block_channels wide n c data off buf out' o N ch = Some (buf', out'') ∧
    zlen buf' = MAX_NUMSAMPS_PERCH ∧ painted (λ _, true) val o size out out''.
Proof using Hin Hout Htab HN Hb.
  revert ch buf out'. induction n as [|n IH]; intros ch buf out' Hc Hn Hlb Ho Hlen Hp.
  { eexists _, _. split; [done|]. split; [done|]. eapply painted_ext; [|exact Hp].
    intros k _. unfold written. pose proof (Z.mod_pos_bound k N).
    by rewrite (proj2 (Z.ltb_lt _ _)) by lia. }
  cbn [block_channels].
  destruct (block_channel_spec ch buf out out' o) as (buf1 & out1 & -> & Hl1 & Hp1); [lia|done..|].
  simpl. apply IH; done || lia.
Qed.

(** The loop over the channels writes the resampled block. *)
Lemma block_spec buf out o :
  zlen buf = MAX_NUMSAMPS_PERCH → 0 ≤ o → o + size ≤ zlen out →
  ∃ buf' out', block_channels wide (Z.to_nat N) c data off buf out o N 0 = Some (buf', out') ∧
    zlen buf' = MAX_NUMSAMPS_PERCH ∧
    splice out o (resample_block (SampNumIn c) (SampNumOut c) N b) = Some out'.
Proof using Hin Hout Htab HN Hb.
  intros Hlb Ho Hlen.
  destruct (block_channels_spec (Z.to_nat N) 0 buf out out o) as (buf' & out' & Hr & Hl & Hp);
    [lia|lia|done..| |].
  { eapply painted_ext; [|apply painted_none]. intros k Hk. unfold written.
    pose proof (Z.mod_pos_bound k N). pose proof (Z.div_pos k N).
    rewrite (proj2 (Z.ltb_ge (k mod N) 0)), (proj2 (Z.ltb_ge (k / N) 0)) by lia.
    by rewrite andb_false_r. }
  eexists _, _. split; [exact Hr|]. split; [done|]. unfold resample_block.
  apply painted_splice; rewrite ?Z2Nat.id by nia; [done|done|lia].
Qed.

End block.

(** A resampled sample lies between two neighbours of its channel. *)
Lemma sample_between num_in num_out N b k :
  2 ≤ num_in ≤ MAX_NUMSAMPS_PERCH → 2 ≤ num_out ≤ MAX_NUMSAMPS_PERCH → 0 < N →
  0 ≤ k < num_out * N →
  ∃ j, 0 ≤ j < num_in - 1 ∧
    let x := chan_at b N (k mod N) j in
    let y := chan_at b N (k mod N) (j + 1) in
    Z.min x y ≤ sample_at num_in num_out N b k ≤ Z.max x y.
Proof.
  intros Hin Hout HN Hk. unfold sample_at. destruct (Z.eqb_spec (k / N) (num_out - 1)) as [E|E].
  - exists (num_in - 2). split; [lia|]. replace (num_in - 2 + 1) with (num_in - 1) by lia. lia.
  - assert (0 ≤ k / N < num_out - 1).
    { split; [apply Z.div_pos; lia|].
      assert (k / N < num_out) by (apply Z.div_lt_upper_bound; lia). lia. }
    pose proof (pos_bounds _ _ Hin Hout (k / N) ltac:(done)).
    exists (q14_pos num_in num_out (k / N)). split; [lia|].
    apply lerp_between, frac_bounds.
Qed.

(** [C11] The table-driven fixed point loops compute linear interpolation: with
    the tables [af_resample_linear_coef_get] builds, the loop over the
    channels turns a block of 16-bit samples into the closed form
    [resample_block], in its place in the output and nowhere else, without
    leaving an array or overflowing; every sample written lies between two
    neighbouring samples of its channel. *)
Theorem block_interpolated (c0 c : af_resample_ctl_t) (wide : bool) (N : Z) (data : list Z)
    (off : Z) (b : list Z) (buf : list (option Z)) (out : list Z) (o : Z) :
  2 ≤ SampNumIn c0 ≤ MAX_NUMSAMPS_PERCH → 2 ≤ SampNumOut c0 ≤ MAX_NUMSAMPS_PERCH →
  zlen (InterpolateCoefArray c0) = 129 → zlen (InterpolateIndexArray c0) = 129 →
  af_resample_linear_coef_get c0 = Some c →
  0 < N → slice data off (SampNumIn c0 * N) = Some b → Forall is16 b →
  zlen buf = MAX_NUMSAMPS_PERCH → 0 ≤ o → o + SampNumOut c0 * N ≤ zlen out →
  ∃ buf' out', block_channels wide (Z.to_nat N) c data off buf out o N 0 = Some (buf', out') ∧
    splice out o (resample_block (SampNumIn c0) (SampNumOut c0) N b) = Some out' ∧
    ∀ k, 0 ≤ k < SampNumOut c0 * N → ∃ j, 0 ≤ j < SampNumIn c0 - 1 ∧
      let x := chan_at b N (k mod N) j in
      let y := chan_at b N (k mod N) (j + 1) in
      Z.min x y ≤ sample_at (SampNumIn c0) (SampNumOut c0) N b k ≤ Z.max x y.
Proof.
  intros Hin Hout Hl1 Hl2 Hget HN Hb H16 Hbuf Ho Hroom.
  destruct (coef_get_spec c0 Hin Hout Hl1 Hl2) as (c' & E & Hsame & Htab & _).
  rewrite Hget in E. injection E as <-.
  assert (SampNumIn c = SampNumIn c0 ∧ SampNumOut c = SampNumOut c0) as [Ei Eo]
    by (rewrite Hsame; done). rewrite <- Ei, <- Eo in *.
  destruct (block_spec c N data off b wide Hin Hout Htab HN (Build_block_at _ _ _ _ _ Hb H16)
    buf out o Hbuf Ho Hroom) as (buf' & out' & E & _ & Hs).
  exists buf', out'. split_and!; [done|done|]. intros k Hk. by apply sample_between.
Qed.

(** Four output samples for five input samples of two channels. *)
Lemma block_interpolated_witness :
  ∃ buf' out', block_channels false 2
      (default zero_ctl (af_resample_linear_coef_get
         (zero_ctl <| SampNumIn := 5 |> <| SampNumOut := 4 |>)))
      [0; 0; 300; -3; 600; -6; 900; -9; 1200; -12] 0 (replicate 129 None) (replicate 8 7) 0 2 0
    = Some (buf', out') ∧
    splice (replicate 8 7) 0 (resample_block 5 4 2 [0; 0; 300; -3; 600; -6; 900; -9; 1200; -12])
    = Some out' ∧ out' = [0; 0; 399; -4; 799; -8; 1200; -12].
Proof.
  pose (c0 := zero_ctl <| SampNumIn := 5 |> <| SampNumOut := 4 |>).
  destruct (block_interpolated c0 (default zero_ctl (af_resample_linear_coef_get c0)) false 2
    [0; 0; 300; -3; 600; -6; 900; -9; 1200; -12] 0 [0; 0; 300; -3; 600; -6; 900; -9; 1200; -12]
    (replicate 129 None) (replicate 8 7) 0) as (buf' & out' & E & Hs & _); try done.
  - by repeat constructor.
  - exists buf', out'. split; [exact E|]. split; [exact Hs|].
    vm_compute in Hs. injection Hs as <-. reflexivity.
Defined.
