(* ===== verification/ResampleStream.v ===== *)
(** The resampler as a stream transducer: the invariant of its state, what one
    call of [af_resample_api_normal] does to the stream of samples, and runs
    of calls. *)

From S2P Require Import Prelude PcmBuffer Resample.

(** ** The state between calls *)

Definition running (c : af_resample_ctl_t) : Prop :=
  2 ≤ SampNumIn c ≤ MAX_NUMSAMPS_PERCH ∧ SampNumOut c = DEFAULT_NUMSAMPS_PERCH ∧ tables_ok c.

(** The invariant of the control block for [N] channels. *)
Record rs_inv (N : Z) (c : af_resample_ctl_t) : Prop := {
  inv_coefs : zlen (InterpolateCoefArray c) = 129;
  inv_index : zlen (InterpolateIndexArray c) = 129;
  inv_reserved : zlen (ReservedBuf c) = 258;
  inv_held : zlen (OutSampReserveBuf c) = 258;
  inv_16 : Forall is16 (ReservedBuf c);
  inv_run : InitFlag c ≠ 0 → running c;
  inv_out_len : 0 ≤ OutSampReserveLen c < DEFAULT_NUMSAMPS_PERCH * N;
  inv_in_len : 0 ≤ ReservedSampsValid c;
  inv_full : InitFlag c ≠ 0 → ReservedSampsValid c ≤ SampNumIn c * N;
  inv_stopped : InitFlag c = 0 → ReservedSampsValid c = 0 ∧ OutSampReserveLen c = 0;
  inv_none : InitFlag c ≠ 0 → LastResamType c = RESAMPLE_TYPE_NONE →
             SampNumIn c = DEFAULT_NUMSAMPS_PERCH
}.

(** The samples waiting on either side. *)
Definition pend_in (c : af_resample_ctl_t) : list Z :=
  take (Z.to_nat (ReservedSampsValid c)) (ReservedBuf c).
Definition pend_out (c : af_resample_ctl_t) : list Z :=
  take (Z.to_nat (OutSampReserveLen c)) (OutSampReserveBuf c).

(** [c'] differs from [c] in the waiting samples only. *)
Definition same_mode (c c' : af_resample_ctl_t) : Prop :=
  SampNumIn c' = SampNumIn c ∧ SampNumOut c' = SampNumOut c ∧ InitFlag c' = InitFlag c ∧
  LastResamType c' = LastResamType c ∧ resample_type c' = resample_type c ∧
  enable_resample c' = enable_resample c.

Definition resampled (num_in N : Z) (blocks : list (list Z)) : list Z :=
  concat (resample_block num_in DEFAULT_NUMSAMPS_PERCH N <$> blocks).

(** A step of the stream: the samples [xs] come in, [blocks] of them are
    resampled, [em] goes out. *)
Record transduced (N : Z) (c : af_resample_ctl_t) (xs : list Z) (blocks : list (list Z))
    (em : list Z) (c' : af_resample_ctl_t) : Prop := {
  td_size : Forall (λ b, zlen b = SampNumIn c * N) blocks;
  td_in : pend_in c ++ xs = concat blocks ++ pend_in c';
  td_out : pend_out c ++ resampled (SampNumIn c) N blocks = em ++ pend_out c'
}.

Lemma splice_is {A} (l : list A) i xs :
  0 ≤ i → i + zlen xs ≤ zlen l → ∃ l', splice l i xs = Some l' ∧ zlen l' = zlen l.
Proof.
  intros. destruct (splice l i xs) as [l'|] eqn:E.
  - exists l'. split; [done|]. unfold zlen. by rewrite (splice_length _ _ _ _ E).
  - by rewrite splice_some in E by done.
Qed.

(** A part of an array whose beginning is known. *)
Lemma slice_prefix {A} (l p x : list A) e i n :
  take (Z.to_nat e) l = p ++ x → zlen p ≤ i → 0 ≤ n → i + n ≤ e → e ≤ zlen l →
  slice l i n = Some (take (Z.to_nat n) (drop (Z.to_nat (i - zlen p)) x)).
Proof.
  intros Ht Hp Hn He Hl. pose proof (zlen_nonneg p). rewrite slice_some by lia. f_equal.
  rewrite <- (take_drop (Z.to_nat e) l), Ht.
  rewrite <- app_assoc, drop_app_ge by (unfold zlen in *; lia).
  assert (length (p ++ x) = Z.to_nat e) as Hlen
    by (rewrite <- Ht, length_take; unfold zlen in *; lia). rewrite length_app in Hlen.
  unfold zlen in *. replace (Z.to_nat i - length p)%nat with (Z.to_nat (i - Z.of_nat (length p)))
    by lia.
  rewrite drop_app_le by lia. rewrite take_app_le; [done|]. rewrite length_drop. lia.
Qed.

Lemma resample_block_length num_in num_out N b :
  0 ≤ num_out * N → zlen (resample_block num_in num_out N b) = num_out * N.
Proof.
  intros. unfold resample_block, zlen. rewrite length_fmap, length_seq. lia.
Qed.

Lemma concat_length {A} (bs : list (list A)) k :
  Forall (λ b, zlen b = k) bs → zlen (concat bs) = Z.of_nat (length bs) * k.
Proof.
  induction 1 as [|b bs Hb _ IH]; [done|]. cbn [concat]. rewrite zlen_app, IH, Hb.
  cbn [length]. lia.
Qed.

Lemma resampled_length num_in N bs :
  0 ≤ N → zlen (resampled num_in N bs) =
  Z.of_nat (length bs) * (DEFAULT_NUMSAMPS_PERCH * N).
Proof.
  intros HN. unfold resampled. rewrite (concat_length _ (DEFAULT_NUMSAMPS_PERCH * N)).
  - by rewrite length_fmap.
  - apply Forall_fmap, Forall_true. intros b. apply resample_block_length.
    unfold DEFAULT_NUMSAMPS_PERCH. lia.
Qed.

(** [out'] extends [out] at [at] with [x]. *)
Record wrote (out : list Z) (base : Z) (x : list Z) (out' : list Z) : Prop := {
  wrote_len : zlen out' = zlen out;
  wrote_take : take (Z.to_nat (base + zlen x)) out' = take (Z.to_nat base) out ++ x
}.

Lemma wrote_splice out base x out' y :
  wrote out base x out' → 0 ≤ base → base + zlen x + zlen y ≤ zlen out →
  ∃ out'', splice out' (base + zlen x) y = Some out'' ∧ wrote out base (x ++ y) out''.
Proof.
  intros [Hl Ht] Hb Hy. pose proof (zlen_nonneg x).
  destruct (splice_is out' (base + zlen x) y) as (o2 & Hs & Hl2); [lia..|].
  exists o2. split; [done|]. split; [lia|].
  rewrite (take_splice _ _ _ _ _ Hs), Ht, <- app_assoc; [done|].
  rewrite zlen_app. unfold zlen in *. lia.
Qed.

Lemma wrote_nil out base : 0 ≤ base → wrote out base [] out.
Proof. split; [done|]. unfold zlen. simpl. by rewrite Z.add_0_r, app_nil_r. Qed.

Lemma wrote_app_l out base x y out' :
  0 ≤ base ≤ zlen out → wrote out base (x ++ y) out' → wrote out base x out'.
Proof.
  intros Hb [Hl Ht]. split; [done|]. apply (f_equal (take (Z.to_nat (base + zlen x)))) in Ht.
  rewrite take_take, Nat.min_l in Ht by (rewrite zlen_app; unfold zlen; lia). rewrite Ht.
  rewrite app_assoc. apply take_app_length'. rewrite length_app, length_take.
  unfold zlen in *. lia.
Qed.

Lemma drop_block {A} (l : list A) i n :
  0 ≤ i → 0 ≤ n → i + n ≤ zlen l →
  ∃ b, slice l i n = Some b ∧ zlen b = n ∧
    drop (Z.to_nat i) l = b ++ drop (Z.to_nat (i + n)) l.
Proof.
  intros. eexists. rewrite slice_some by done. split; [done|]. split; [zlens|].
  rewrite Z2Nat.inj_add, <- drop_drop by lia. by rewrite take_drop.
Qed.

Lemma rest_loop_spec fuel c data rest io base N buf out x out' :
  running c → 0 < N → (Z.to_nat rest ≤ fuel)%nat → 0 ≤ rest → 0 ≤ io → 0 ≤ base →
  zlen data = io + rest * N → Forall is16 data → zlen buf = MAX_NUMSAMPS_PERCH →
  base + zlen x + rest / SampNumIn c * (DEFAULT_NUMSAMPS_PERCH * N) ≤ zlen out →
  wrote out base x out' →
  ∃ rest' io' blocks out'',
    rest_loop fuel c data rest io (base + zlen x) N buf out' =
      Some (rest', io', base + zlen (x ++ resampled (SampNumIn c) N blocks), out'') ∧
    0 ≤ rest' ≤ SampNumIn c ∧ 0 ≤ io' ∧ zlen data = io' + rest' * N ∧
    Forall (λ b, zlen b = SampNumIn c * N) blocks ∧
    drop (Z.to_nat io) data = concat blocks ++ drop (Z.to_nat io') data ∧
    wrote out base (x ++ resampled (SampNumIn c) N blocks) out''.
Proof.
  intros (Hin & Hout & Htab) HN. revert rest io x out' buf.
  induction fuel as [|fuel IH]; intros rest io x out' buf Hf Hrest Hio Hbase Hlen H16 Hbuf Hroom Hw;
    cbn [rest_loop]; rewrite Z.gtb_ltb.
  { rewrite (proj2 (Z.ltb_ge _ _)) by lia.
    eexists rest, io, [], out'. simpl. rewrite app_nil_r. split_and!; done || lia. }
  destruct (Z.ltb_spec (SampNumIn c) rest) as [Hr|Hr].
  2: { eexists rest, io, [], out'. simpl. rewrite app_nil_r. split_and!; done || lia. }
  assert (DEFAULT_NUMSAMPS_PERCH = 128 ∧ MAX_NUMSAMPS_PERCH = 129) as [] by done.
  destruct (drop_block data io (SampNumIn c * N)) as (b & Hb & Hbl & Hdrop); [lia|nia|nia|].
  assert (Forall is16 b) as Hb16.
  { rewrite slice_some in Hb by nia. injection Hb as <-. by apply Forall_take, Forall_drop. }
  assert (1 + (rest - SampNumIn c) / SampNumIn c = rest / SampNumIn c) as Hdiv.
  { replace (rest - SampNumIn c) with (rest + -1 * SampNumIn c) by ring.
    rewrite Z.div_add by lia. lia. }
  assert (0 ≤ (rest - SampNumIn c) / SampNumIn c) by (apply Z.div_pos; lia).
  set (r := resample_block (SampNumIn c) DEFAULT_NUMSAMPS_PERCH N b).
  assert (zlen r = 128 * N) as Hrl.
  { apply (resample_block_length _ 128). lia. }
  pose proof (wrote_len _ _ _ _ Hw). pose proof (zlen_nonneg x).
  destruct (block_spec c N data io b true Hin ltac:(lia) Htab HN (Build_block_at _ _ _ _ _ Hb Hb16)
    buf out' (base + zlen x)) as (buf1 & out1 & -> & Hbuf1 & Hs1); [done|lia|rewrite Hout; nia|].
  simpl. rewrite Hout in *. fold r in Hs1.
  destruct (wrote_splice _ _ _ _ r Hw) as (o1 & Hs1' & Hw1); [done|nia|].
  rewrite Hs1 in Hs1'. injection Hs1' as <-.
  destruct (IH (rest - SampNumIn c) (io + SampNumIn c * N) (x ++ r) out1 buf1)
    as (rest' & io' & blocks & out2 & Hrun & Hr' & Hio' & Hlen' & Hsz & Hd & Hw2);
    [lia|lia|nia|lia|lia|done|done|rewrite zlen_app; nia|done|].
  eexists rest', io', (b :: blocks), out2. simpl.
  unfold resampled in *. cbn [fmap list_fmap concat]. fold r.
  rewrite app_assoc. split_and!; try (done || lia); [|by constructor|].
  - rewrite <- Hrun. f_equal. rewrite zlen_app. lia.
  - by rewrite Hdrop, Hd, app_assoc.
Qed.

(** Whole samples per channel, or no more than one block. *)
Definition fed (N : Z) (c : af_resample_ctl_t) (n : Z) : Prop :=
  (ReservedSampsValid c mod N = 0 ∧ n mod N = 0) ∨ ReservedSampsValid c + n ≤ SampNumIn c * N.

Lemma fed_parts N c n :
  0 < N → 0 ≤ ReservedSampsValid c → 0 ≤ n → fed N c n →
  let p := ReservedSampsValid c / N in
  let q := n / N in
  (p + q < SampNumIn c → ReservedSampsValid c + n ≤ SampNumIn c * N) ∧
  (SampNumIn c ≤ p + q → ReservedSampsValid c = p * N ∧ n = q * N).
Proof.
  intros HN HR Hn Hfed p q. subst p q. unfold fed in Hfed. set (R := ReservedSampsValid c) in *.
  pose proof (Z.div_mod R N ltac:(lia)). pose proof (Z.div_mod n N ltac:(lia)).
  pose proof (Z.mod_pos_bound R N ltac:(lia)). pose proof (Z.mod_pos_bound n N ltac:(lia)).
  destruct Hfed as [[]|]; split; intros; nia.
Qed.

(** ** The operations one by one *)

Lemma wrote_slice out base x out' i n :
  wrote out base x out' → 0 ≤ base ≤ zlen out → base + zlen x ≤ zlen out → 0 ≤ i → 0 ≤ n →
  i + n ≤ zlen x →
  slice out' (base + i) n = Some (take (Z.to_nat n) (drop (Z.to_nat i) x)).
Proof.
  intros [Hl Ht] Hb Hx Hi Hn Hin.
  assert (zlen (take (Z.to_nat base) out) = base) as Hp by zlens.
  rewrite (slice_prefix _ _ _ _ _ _ Ht) by lia. by rewrite Hp, Z.add_simpl_l.
Qed.

Lemma zlen_take {A} (l : list A) n : 0 ≤ n ≤ zlen l → zlen (take (Z.to_nat n) l) = n.
Proof. zlens. Qed.

Lemma slice_0 {A} (l : list A) n : 0 ≤ n ≤ zlen l → slice l 0 n = Some (take (Z.to_nat n) l).
Proof. intros. by rewrite slice_some by lia. Qed.

Lemma splice_16 l i xs l' :
  splice l i xs = Some l' → Forall is16 l → Forall is16 xs → Forall is16 l'.
Proof.
  unfold splice. destruct (_ && _); [|done]. intros [= <-] Hl Hx.
  rewrite !Forall_app. split; [by apply Forall_take|]. split; [done|by apply Forall_drop].
Qed.

Section spec.
Context {Src : Type} `{PcmSource Src}.
Implicit Types (w : rs_world Src) (e : rs_env).

Lemma bind_get_ctl {B} (f : _ → CM (rs_world Src) B) w : (get_ctl ≫= f) w = f (ctl w) w.
Proof. done. Qed.
Lemma bind_set_ctl {B} c (f : _ → CM (rs_world Src) B) w :
  (set_ctl c ≫= f) w = f tt (w <| ctl := c |>).
Proof. done. Qed.

(** The samples do not fill a block. *)
Lemma inner_append e w data out base N :
  1 ≤ N ≤ 2 → rs_inv N (ctl w) → InitFlag (ctl w) ≠ 0 → Forall is16 data →
  fed N (ctl w) (zlen data) →
  ReservedSampsValid (ctl w) / N + zlen data / N < SampNumIn (ctl w) →
  ∃ c', af_resample_process_linear_inner e data out base N w =
          Some ((0, out), w <| ctl := c' |>) ∧
    rs_inv N c' ∧ same_mode (ctl w) c' ∧ transduced N (ctl w) data [] [] c' ∧
    ReservedSampsValid c' = ReservedSampsValid (ctl w) + zlen data ∧
    OutSampReserveLen c' = OutSampReserveLen (ctl w).
Proof.
  intros HN [] Hinit H16 Hfed Hlt. destruct (inv_run0 Hinit) as (Hin & Hout & Htab).
  assert (DEFAULT_NUMSAMPS_PERCH = 128 ∧ MAX_NUMSAMPS_PERCH = 129) as [] by done.
  pose proof (zlen_nonneg data) as Hd.
  destruct (fed_parts N (ctl w) (zlen data)) as [Hsmall _]; [lia|done..|].
  specialize (Hsmall Hlt). specialize (inv_full0 Hinit).
  unfold af_resample_process_linear_inner. rewrite bind_get_ctl.
  rewrite (proj2 (Z.eqb_neq N 0)), (proj2 (Z.eqb_neq (InitFlag _) 0)) by lia.
  rewrite bind_ret, bind_get_ctl. unfold c_div.
  rewrite !Z.quot_div_nonneg by lia. rewrite (proj2 (Z.ltb_lt _ _) Hlt).
  destruct (splice_is (ReservedBuf (ctl w)) (ReservedSampsValid (ctl w)) data)
    as (pre & Hpre & Hlpre); [lia|nia|].
  rewrite (bind_lift _ _ _ _ Hpre), bind_set_ctl, i16_small by nia.
  eexists. split; [done|]. split; [|split; [by repeat split|]].
  - constructor; cbn; try done; [lia|by eapply splice_16|lia].
  - split; [|split; done]. split; cbn; [done|..].
    + unfold pend_in. cbn. rewrite (take_splice _ _ _ _ _ Hpre); [done|]. unfold zlen in *. lia.
    + unfold resampled. cbn. by rewrite app_nil_r.
Qed.

(** The first block: the waiting samples and the first ones of [data]. *)
Lemma first_block c data out base N :
  running c → 1 ≤ N ≤ 2 → rs_inv N c → Forall is16 data → 0 ≤ base →
  ReservedSampsValid c ≤ SampNumIn c * N ≤ ReservedSampsValid c + zlen data →
  base + OutSampReserveLen c + DEFAULT_NUMSAMPS_PERCH * N ≤ zlen out →
  let io := SampNumIn c * N - ReservedSampsValid c in
  let b0 := pend_in c ++ take (Z.to_nat io) data in
  ∃ pre out1 buf out2,
    slice data 0 io = Some (take (Z.to_nat io) data) ∧
    splice (ReservedBuf c) (ReservedSampsValid c) (take (Z.to_nat io) data) = Some pre ∧
    slice (OutSampReserveBuf c) 0 (OutSampReserveLen c) = Some (pend_out c) ∧
    splice out base (pend_out c) = Some out1 ∧
    block_channels false (Z.to_nat N) c pre 0 (replicate (Z.to_nat MAX_NUMSAMPS_PERCH) None)
      out1 (base + OutSampReserveLen c) N 0 = Some (buf, out2) ∧
    zlen buf = MAX_NUMSAMPS_PERCH ∧ zlen pre = 258 ∧ Forall is16 pre ∧
    zlen b0 = SampNumIn c * N ∧
    wrote out base (pend_out c ++ resample_block (SampNumIn c) DEFAULT_NUMSAMPS_PERCH N b0) out2.
Proof.
  intros (Hin & Hout & Htab) HN [] H16 Hbase HR Hroom.
  assert (DEFAULT_NUMSAMPS_PERCH = 128 ∧ MAX_NUMSAMPS_PERCH = 129) as [] by done.
  set (io := SampNumIn c * N - ReservedSampsValid c). cbv zeta.
  set (xs := take (Z.to_nat io) data). set (b0 := pend_in c ++ xs).
  assert (zlen xs = io) as Hxs by (apply zlen_take; lia).
  assert (zlen (pend_out c) = OutSampReserveLen c) as Hpo by (apply zlen_take; lia).
  destruct (splice_is (ReservedBuf c) (ReservedSampsValid c) xs) as (pre & Hpre & Hlpre); [lia|nia|].
  assert (Forall is16 pre) by (eapply splice_16; [exact Hpre|done|by apply Forall_take]).
  assert (take (Z.to_nat (SampNumIn c * N)) pre = b0) as Hb0
    by (rewrite (take_splice _ _ _ _ _ Hpre); [done|unfold zlen in *; lia]).
  assert (block_at (SampNumIn c) N pre 0 b0) as Hblk.
  { split; [rewrite slice_0 by nia; by rewrite Hb0|rewrite <- Hb0; by apply Forall_take]. }
  destruct (wrote_splice out base [] out (pend_out c)) as (out1 & Ho1 & Hw1);
    [by apply wrote_nil|done|unfold zlen at 1; simpl; lia|].
  unfold zlen at 1 in Ho1. simpl in Ho1, Hw1. rewrite Z.add_0_r in Ho1.
  destruct (block_spec c N pre 0 b0 false Hin ltac:(lia) Htab ltac:(lia) Hblk
    (replicate (Z.to_nat MAX_NUMSAMPS_PERCH) None) out1 (base + OutSampReserveLen c))
    as (buf & out2 & Hrun & Hbuf & Hs2); [done|lia|destruct Hw1; nia|].
  rewrite Hout in Hs2. set (r := resample_block _ _ _ _) in *.
  assert (zlen r = 128 * N) by (apply (resample_block_length _ 128); lia).
  destruct (wrote_splice _ _ _ _ r Hw1) as (o2 & Ho2 & Hw2); [done|lia|].
  rewrite Hpo in Ho2. rewrite Hs2 in Ho2. injection Ho2 as <-.
  eexists pre, out1, buf, out2. split_and!; try done.
  - apply slice_0. lia.
  - apply slice_0. lia.
  - lia.
  - rewrite <- Hb0. apply zlen_take. nia.
Qed.

Lemma wrote_fits out base x out' :
  wrote out base x out' → 0 ≤ base ≤ zlen out → base + zlen x ≤ zlen out.
Proof.
  intros [Hl Ht] Hb. apply (f_equal length) in Ht.
  rewrite length_take, length_app, length_take in Ht. unfold zlen in *. lia.
Qed.

(** What stays in [OutSampReserveBuf] when [y] has been written. *)
Lemma keep_tail c N out base y out' k :
  1 ≤ N ≤ 2 → rs_inv N c → wrote out base y out' → 0 ≤ base ≤ zlen out →
  0 ≤ k → zlen y = OutSampReserveLen c + k * (DEFAULT_NUMSAMPS_PERCH * N) →
  let cur := zlen y %c (DEFAULT_NUMSAMPS_PERCH * N) in
  let em := take (Z.to_nat (k * (DEFAULT_NUMSAMPS_PERCH * N))) y in
  ∃ kept held,
    cur = OutSampReserveLen c ∧ slice out' (base + zlen y - cur) cur = Some kept ∧
    splice (OutSampReserveBuf c) 0 kept = Some held ∧ zlen held = 258 ∧
    y = em ++ kept ∧ take (Z.to_nat cur) held = kept ∧ wrote out base em out' ∧
    zlen em = k * (DEFAULT_NUMSAMPS_PERCH * N).
Proof.
  intros HN [] Hw Hbase Hk Hlen cur em. pose proof (wrote_fits _ _ _ _ Hw Hbase). assert (DEFAULT_NUMSAMPS_PERCH = 128) as HD by done.
  assert (cur = OutSampReserveLen c) as Hcur.
  { unfold cur, c_rem. rewrite Z.rem_mod_nonneg by (pose proof (zlen_nonneg y); lia).
    rewrite Hlen, Z_mod_plus_full. apply Z.mod_small. lia. }
  set (kept := drop (Z.to_nat (k * (DEFAULT_NUMSAMPS_PERCH * N))) y).
  assert (y = em ++ kept) as Hsplit by (symmetry; apply take_drop).
  assert (zlen em = k * (DEFAULT_NUMSAMPS_PERCH * N)) as Hem by (apply zlen_take; nia).
  assert (zlen kept = OutSampReserveLen c) as Hkept
    by (rewrite Hsplit, zlen_app in Hlen; lia).
  destruct (splice_is (OutSampReserveBuf c) 0 kept) as (held & Hh & Hlh); [lia|lia|].
  exists kept, held. split_and!; try done.
  - rewrite Hcur. replace (base + zlen y - OutSampReserveLen c)
      with (base + k * (DEFAULT_NUMSAMPS_PERCH * N)) by lia.
    rewrite (wrote_slice _ _ _ _ _ _ Hw) by nia. fold kept. f_equal.
    apply take_ge. unfold zlen in *. lia.
  - lia.
  - rewrite (take_splice _ _ _ _ _ Hh); [done|]. unfold zlen in *. lia.
  - apply (wrote_app_l _ _ _ kept); [done|]. by rewrite <- Hsplit.
Qed.

(** What is left of the input goes to [ReservedBuf]. *)
Lemma save_rest {A} c N data pre io rest held w (a : A) :
  1 ≤ N ≤ 2 → rs_inv N c → InitFlag c ≠ 0 → Forall is16 data → Forall is16 pre →
  zlen pre = 258 → zlen held = 258 → 0 ≤ rest ≤ SampNumIn c → 0 ≤ io →
  zlen data = io + rest * N →
  let c1 := c <| OutSampReserveBuf := held |> <| OutSampReserveLen := OutSampReserveLen c |> in
  ∃ c', (if io <? zlen data then
           ys ← cm_lift (slice data io (rest * N));
           pre ← cm_lift (splice pre 0 ys);
           set_ctl (c1 <| ReservedBuf := pre |> <| ReservedSampsValid := i16 (rest * N) |>);;
           mret a
         else set_ctl (c1 <| ReservedBuf := pre |> <| ReservedSampsValid := 0 |>);; mret a) w
        = Some (a, w <| ctl := c' |>) ∧
    rs_inv N c' ∧ same_mode c c' ∧ pend_in c' = drop (Z.to_nat io) data ∧
    OutSampReserveBuf c' = held ∧ OutSampReserveLen c' = OutSampReserveLen c.
Proof.
  intros HN [] Hinit H16 Hp16 Hlp Hlh Hrest Hio Hlen c1.
  destruct (inv_run0 Hinit) as (Hin & Hout & Htab).
  assert (MAX_NUMSAMPS_PERCH = 129) by done. specialize (inv_full0 Hinit).
  destruct (Z.ltb_spec io (zlen data)).
  - assert (slice data io (rest * N) = Some (drop (Z.to_nat io) data)) as E.
    { rewrite slice_some by nia. f_equal. apply take_ge. rewrite length_drop. unfold zlen in *. lia. }
    assert (zlen (drop (Z.to_nat io) data) = rest * N) as Hl by zlens.
    destruct (splice_is pre 0 (drop (Z.to_nat io) data)) as (pre' & Hp' & Hl'); [lia|nia|].
    rewrite (bind_lift _ _ _ _ E), (bind_lift _ _ _ _ Hp'), bind_set_ctl, i16_small by nia.
    eexists. split; [done|]. split; [|split; [by repeat split|]].
    + constructor; cbn; try (done || lia || nia).
      eapply splice_16; [exact Hp'|done|by apply Forall_drop].
    + split_and!; try done. unfold pend_in. cbn.
      rewrite (take_splice _ _ _ _ _ Hp'); [done|]. unfold zlen in *. lia.
  - rewrite bind_set_ctl. eexists. split; [done|]. split; [|split; [by repeat split|]].
    + constructor; cbn; try (done || lia || nia).
    + split_and!; try done. unfold pend_in. cbn. symmetry. apply drop_ge. unfold zlen in *. lia.
Qed.

Lemma div_less_one a b : 0 < b → (a - b) / b + 1 = a / b.
Proof.
  intros. replace a with (a - b + 1 * b) at 2 by ring. by rewrite Z.div_add by lia.
Qed.

Lemma pend_out_size c :
  0 ≤ OutSampReserveLen c ≤ zlen (OutSampReserveBuf c) → zlen (pend_out c) = OutSampReserveLen c.
Proof. intros. unfold pend_out. apply zlen_take. lia. Qed.

(** The samples fill a block, and maybe more. *)
Lemma inner_blocks e w data out base N :
  1 ≤ N ≤ 2 → rs_inv N (ctl w) → InitFlag (ctl w) ≠ 0 → Forall is16 data →
  fed N (ctl w) (zlen data) → 0 ≤ base →
  base + OutSampReserveLen (ctl w) +
    (ReservedSampsValid (ctl w) / N + zlen data / N) / SampNumIn (ctl w) *
    (DEFAULT_NUMSAMPS_PERCH * N) ≤ zlen out →
  SampNumIn (ctl w) ≤ ReservedSampsValid (ctl w) / N + zlen data / N →
  ∃ blocks em out' c', af_resample_process_linear_inner e data out base N w =
          Some ((zlen em, out'), w <| ctl := c' |>) ∧
    rs_inv N c' ∧ same_mode (ctl w) c' ∧ transduced N (ctl w) data blocks em c' ∧
    wrote out base em out' ∧ blocks ≠ [] ∧
    zlen em = Z.of_nat (length blocks) * (DEFAULT_NUMSAMPS_PERCH * N) ∧
    OutSampReserveLen c' = OutSampReserveLen (ctl w).
Proof.
  intros HN [] Hinit H16 Hfed Hbase Hroom Hge.
  destruct (inv_run0 Hinit) as (Hin & Hout & Htab).
  assert (DEFAULT_NUMSAMPS_PERCH = 128 ∧ MAX_NUMSAMPS_PERCH = 129) as [] by done.
  pose proof (zlen_nonneg data) as Hd.
  destruct (fed_parts N (ctl w) (zlen data)) as [_ Hwhole]; [lia|done..|].
  destruct (Hwhole Hge) as [HR Hn]. specialize (inv_full0 Hinit).
  unfold af_resample_process_linear_inner. rewrite bind_get_ctl.
  rewrite (proj2 (Z.eqb_neq N 0)), (proj2 (Z.eqb_neq (InitFlag _) 0)) by lia.
  rewrite bind_ret, bind_get_ctl. unfold c_div.
  rewrite !Z.quot_div_nonneg by lia. rewrite (proj2 (Z.ltb_ge _ _) Hge).
  set (c := ctl w) in *. set (p := ReservedSampsValid c / N) in *. set (q := zlen data / N) in *.
  replace ((SampNumIn c - p) * N) with (SampNumIn c * N - ReservedSampsValid c) by (rewrite HR; ring).
  set (io := SampNumIn c * N - ReservedSampsValid c) in *.
  assert (0 ≤ io ≤ zlen data) as Hio by (unfold io; nia).
  pose proof (div_less_one (p + q) (SampNumIn c) ltac:(lia)) as Hdiv.
  assert (0 ≤ (p + q - SampNumIn c) / SampNumIn c) by (apply Z.div_pos; lia).
  destruct (first_block c data out base N) as
    (pre & out1 & buf & out2 & E1 & E2 & E3 & E4 & E5 & Hbuf & Hlpre & Hpre16 & Hb0 & Hw2);
    [exact (conj Hin (conj Hout Htab))|done|by constructor|done|done|nia|nia|]. fold io in E1, E2, Hb0, Hw2.
  rewrite (bind_lift _ _ _ _ E1), (bind_lift _ _ _ _ E2), (bind_lift _ _ _ _ E3),
    (bind_lift _ _ _ _ E4), (bind_lift _ _ _ _ E5). cbv beta iota zeta.
  set (b0 := pend_in c ++ take (Z.to_nat io) data) in *. set (x := pend_out c ++ _) in *.
  assert (zlen x = OutSampReserveLen c + SampNumOut c * N) as Hx
    by (unfold x; rewrite zlen_app, resample_block_length, Hout, pend_out_size by lia; done).
  destruct (rest_loop_spec (Z.to_nat (zlen data)) c data (p + q - SampNumIn c) io base N buf out x
    out2) as (rest' & io' & blocks & out3 & E6 & Hr' & Hio' & Hlen' & Hsz & Hdrop & Hw3);
    [exact (conj Hin (conj Hout Htab))|lia|nia|lia|lia|lia|nia|done|done|nia|done|].
  rewrite <- Hx, (bind_lift _ _ _ _ E6). cbv beta iota zeta. rewrite Z.add_simpl_l.
  set (y := x ++ resampled _ _ _) in *.
  assert (y = pend_out c ++ resampled (SampNumIn c) N (b0 :: blocks)) as Hy
    by (unfold y, x; by rewrite <- app_assoc).
  destruct (keep_tail c N out base y out3 (Z.of_nat (length (b0 :: blocks))))
    as (kept & held & Hcur & E7 & E8 & Hheld & Hem & Hkept & Hw & Hlem);
    [done|by constructor|done|nia|lia|rewrite Hy, zlen_app, resampled_length, pend_out_size by lia; done|].
  set (em := take _ y) in *. rewrite (bind_lift _ _ _ _ E7), (bind_lift _ _ _ _ E8).
  rewrite Hcur in *. rewrite (i16_small (OutSampReserveLen c)) by nia.
  replace (zlen y - OutSampReserveLen c) with (zlen em)
    by (rewrite Hem, zlen_app, <- Hkept, zlen_take by lia; lia).
  destruct (save_rest c N data pre io' rest' held w (zlen em, out3))
    as (c' & Hrun & Hinv & Hmode & Hpi & Hob & Hol); [done|by constructor|done..|].
  exists (b0 :: blocks), em, out3, c'. split_and!; try done. constructor.
  - by constructor.
  - rewrite Hpi. cbn [concat]. unfold b0. rewrite <- !app_assoc, <- Hdrop. by rewrite take_drop.
  - rewrite <- Hy, Hem. unfold pend_out. by rewrite Hob, Hol, Hkept.
Qed.

(** ** Composition *)

Lemma transduced_trans N c1 c2 c3 xs bl em xs' bl' em' :
  same_mode c1 c2 → transduced N c1 xs bl em c2 → transduced N c2 xs' bl' em' c3 →
  transduced N c1 (xs ++ xs') (bl ++ bl') (em ++ em') c3.
Proof.
  intros (Hm & _) [S1 I1 O1] [S2 I2 O2]. rewrite Hm in S2, O2. split.
  - by apply Forall_app.
  - by rewrite app_assoc, I1, <- app_assoc, I2, concat_app, app_assoc.
  - unfold resampled in *. rewrite fmap_app, concat_app, app_assoc, O1, <- app_assoc, O2.
    by rewrite app_assoc.
Qed.

Lemma same_mode_trans c1 c2 c3 : same_mode c1 c2 → same_mode c2 c3 → same_mode c1 c3.
Proof. unfold same_mode. naive_solver congruence. Qed.

Lemma wrote_trans out base x out' y out'' :
  0 ≤ base → wrote out base x out' → wrote out' (base + zlen x) y out'' →
  wrote out base (x ++ y) out''.
Proof.
  intros Hb [L1 T1] [L2 T2]. split; [lia|].
  by rewrite zlen_app, Z.add_assoc, T2, T1, app_assoc.
Qed.

(** No more than one block is fed. *)
Lemma inner_once e w data out base N :
  1 ≤ N ≤ 2 → rs_inv N (ctl w) → InitFlag (ctl w) ≠ 0 → Forall is16 data →
  ReservedSampsValid (ctl w) + zlen data ≤ SampNumIn (ctl w) * N → 0 ≤ base →
  base + OutSampReserveLen (ctl w) + DEFAULT_NUMSAMPS_PERCH * N ≤ zlen out →
  ∃ blocks em out' c', af_resample_process_linear_inner e data out base N w =
          Some ((zlen em, out'), w <| ctl := c' |>) ∧
    rs_inv N c' ∧ same_mode (ctl w) c' ∧ transduced N (ctl w) data blocks em c' ∧
    wrote out base em out' ∧ OutSampReserveLen c' = OutSampReserveLen (ctl w) ∧
    (em = [] ∧ ReservedSampsValid c' = ReservedSampsValid (ctl w) + zlen data ∧
       ReservedSampsValid (ctl w) / N + zlen data / N < SampNumIn (ctl w) ∨
     zlen em = DEFAULT_NUMSAMPS_PERCH * N ∧ pend_in c' = []).
Proof.
  intros HN Hinv Hinit H16 Hone Hbase Hroom. pose proof Hinv as [].
  destruct (inv_run0 Hinit) as (Hin & Hout & Htab). pose proof (zlen_nonneg data).
  set (R := ReservedSampsValid (ctl w)) in *.
  pose proof (Z.div_mod R N ltac:(lia)). pose proof (Z.div_mod (zlen data) N ltac:(lia)).
  pose proof (Z.mod_pos_bound R N ltac:(lia)). pose proof (Z.mod_pos_bound (zlen data) N ltac:(lia)).
  destruct (Z.lt_ge_cases (R / N + zlen data / N) (SampNumIn (ctl w))) as [Hlt|Hge].
  - destruct (inner_append e w data out base N) as (c' & E & I' & M & T & ER & EO);
      [done..|by right|done|].
    exists [], [], out, c'. split_and!; try done; [by apply wrote_nil|by left].
  - assert (R / N + zlen data / N = SampNumIn (ctl w)) as Heq by nia.
    destruct (inner_blocks e w data out base N)
      as (bl & em & out' & c' & E & I' & M & T & Hw & Hne & Hlem & EO);
      [done..|by right|done| |done|]. { fold R. rewrite Heq, Z.div_same by lia. lia. }
    exists bl, em, out', c'. split_and!; try done. right.
    pose proof (f_equal zlen (td_in _ _ _ _ _ _ T)) as Hl. rewrite !zlen_app in Hl.
    rewrite (concat_length _ _ (td_size _ _ _ _ _ _ T)) in Hl.
    assert (zlen (pend_in (ctl w)) = R) as HR.
    { unfold pend_in. rewrite zlen_take; [done|]. specialize (inv_full0 Hinit).
      assert (MAX_NUMSAMPS_PERCH = 129) by done. nia. }
    pose proof (zlen_nonneg (pend_in c')).
    assert (0 < Z.of_nat (length bl)) by (destruct bl; [done|simpl; lia]).
    assert (Z.of_nat (length bl) = 1) as Hb1 by nia. rewrite Hb1 in Hlem, Hl. split; [lia|].
    apply nil_length_inv. unfold zlen in *. lia.
Qed.

(** ** Reading from the source *)

(** The source delivers everything it is asked for. *)
Definition generous : Prop :=
  ∀ n (s : Src), src_ok s → 0 < n → ∃ bs s', src_read n s = Some ((n, bs), s').

Lemma pcm_read_loop_spec fuel cap len cnt acc w :
  src_ok (src w) → (Z.to_nat (len - cnt) ≤ fuel)%nat → 0 ≤ cnt ≤ len → len ≤ cap → len < 2 ^ 31 →
  zlen acc = cnt →
  ∃ bs s' tk, pcm_read_loop fuel cap len cnt acc w = Some (bs, w <| src := s' |> <| taken := tk |>) ∧ src_ok s' ∧
    zlen bs ≤ len ∧ (generous → zlen bs = len).
Proof.
  revert cnt acc w. induction fuel as [|fuel IH]; intros cnt acc w Hs Hf Hc Hcap Hlen Hacc;
    cbn [pcm_read_loop].
  { rewrite (proj2 (Z.ltb_ge _ _)) by lia. exists acc, (src w), (taken w). destruct w. by split_and!; try lia. }
  destruct (Z.ltb_spec cnt len).
  2: { exists acc, (src w), (taken w). destruct w. by split_and!; try lia. }
  destruct (src_read_ok (len - cnt) (src w) Hs) as (r & bs & s' & Er & Hs' & Hr & Hbs); [lia|].
  set (w1 := w <| src := s' |> <| taken := taken w ++ bs |>). rewrite (cm_bind_some _ _ _ (r, bs) w1) by (unfold dsp_read; by rewrite Er).
  cbv beta iota. destruct (Z.leb_spec r 0).
  - exists acc, s', (taken w ++ bs). split_and!; [done|done|lia|]. intros Hg.
    destruct (Hg (len - cnt) (src w) Hs) as (bs2 & s2 & E2); [lia|]. rewrite Er in E2.
    injection E2. lia.
  - rewrite (proj2 (Z.ltb_ge _ _)) by lia.
    destruct (IH (cnt + r) (acc ++ bs) w1) as (bs' & s2 & tk & -> & Hok & Hle & Hg);
      [done|lia|lia|lia|lia|rewrite zlen_app; lia|].
    exists bs', s2, tk. split_and!; try done.
Qed.

Lemma dsp_pcm_read_spec cap len w :
  src_ok (src w) → 0 ≤ len ≤ cap → len < 2 ^ 31 →
  ∃ xs s' b tk, dsp_pcm_read cap len w =
      Some (xs, w <| src := s' |> <| bytes_readed := b |> <| samples := samples w ++ xs |> <| taken := tk |>) ∧
    src_ok s' ∧ Forall is16 xs ∧ zlen xs ≤ len / 2 ∧ (generous → zlen xs = len / 2).
Proof.
  intros Hs Hlen Hmax. unfold dsp_pcm_read.
  destruct (pcm_read_loop_spec (Z.to_nat len) cap len 0 [] w) as (bs & s' & tk & E & Hok & Hle & Hg);
    [done|lia|lia|lia|lia|done|].
  rewrite (cm_bind_some _ _ _ _ _ E). destruct (shorts_of_16 bs) as [H16 Hl].
  exists (shorts_of bs), s', (i64 (bytes_readed w + zlen bs)), tk.
  split; [done|]. split_and!; [done|done|rewrite Hl; by apply Z.div_le_mono|].
  intros ?. rewrite Hl. f_equal. auto.
Qed.

(** ** The entry point *)

Record world_ok (N : Z) (w : rs_world Src) : Prop := {
  wo_inv : rs_inv N (ctl w);
  wo_src : src_ok (src w);
  wo_temp : zlen (date_temp w) = MAXCH_NUMBER * MAXFRAMESIZE
}.

(** From [w] to [w']: [xs] is read, [blocks] are resampled, [em] is written to
    [date_temp] at [off]. *)
Record carried (N off : Z) (w : rs_world Src) (xs : list Z) (blocks : list (list Z)) (em : list Z)
    (w' : rs_world Src) : Prop := {
  mv_ok : world_ok N w';
  mv_mode : same_mode (ctl w) (ctl w');
  mv_samples : samples w' = samples w ++ xs;
  mv_stream : transduced N (ctl w) xs blocks em (ctl w');
  mv_out : wrote (date_temp w) off em (date_temp w')
}.

Lemma carried_trans N off w1 w2 w3 xs bl em xs' bl' em' :
  0 ≤ off → carried N off w1 xs bl em w2 → carried N (off + zlen em) w2 xs' bl' em' w3 →
  carried N off w1 (xs ++ xs') (bl ++ bl') (em ++ em') w3.
Proof.
  intros Hoff [] []. split; [done|by eapply same_mode_trans| |by eapply transduced_trans|
    by eapply wrote_trans]. by rewrite mv_samples1, mv_samples0, app_assoc.
Qed.

Lemma pend_in_length N c : 1 ≤ N ≤ 2 → rs_inv N c → zlen (pend_in c) = ReservedSampsValid c.
Proof.
  intros HN []. apply zlen_take. assert (MAX_NUMSAMPS_PERCH = 129) by done.
  destruct (Z.eq_dec (InitFlag c) 0) as [E|E].
  - destruct (inv_stopped0 E). lia.
  - destruct (inv_run0 E) as (? & _). specialize (inv_full0 E). nia.
Qed.

Lemma pend_out_length N c : 1 ≤ N ≤ 2 → rs_inv N c → zlen (pend_out c) = OutSampReserveLen c.
Proof.
  intros HN []. apply zlen_take. assert (DEFAULT_NUMSAMPS_PERCH = 128) by done. nia.
Qed.

(** How much is asked from the source. *)
Lemma delta_bounds N c :
  1 ≤ N ≤ 2 → rs_inv N c → InitFlag c ≠ 0 →
  0 ≤ SampNumIn c * N - ReservedSampsValid c ∧
  i32 ((SampNumIn c * N - ReservedSampsValid c) * 2) =
    (SampNumIn c * N - ReservedSampsValid c) * 2 ∧
  (SampNumIn c * N - ReservedSampsValid c) * 2 ≤ MAX_NUMSAMPS_PERCH * DEFAULT_NUMCH * 2.
Proof.
  intros HN [] Hinit. destruct (inv_run0 Hinit) as (Hin & _). specialize (inv_full0 Hinit).
  assert (MAX_NUMSAMPS_PERCH = 129 ∧ DEFAULT_NUMCH = 2) as [] by done.
  split; [lia|]. split; [apply i32_small; nia|nia].
Qed.

(** One read and one call of the inner function, with the output at [base] of
    [out]. *)
Lemma feed_spec e N w out base :
  1 ≤ N ≤ 2 → world_ok N w → InitFlag (ctl w) ≠ 0 → OutSampReserveLen (ctl w) = 0 → 0 ≤ base →
  base + DEFAULT_NUMSAMPS_PERCH * N ≤ zlen out →
  ∃ xs w1 bl em out' c',
    dsp_pcm_read (MAX_NUMSAMPS_PERCH * DEFAULT_NUMCH * 2)
      (i32 ((SampNumIn (ctl w) * N - ReservedSampsValid (ctl w)) * 2)) w = Some (xs, w1) ∧
    ctl w1 = ctl w ∧ date_temp w1 = date_temp w ∧ samples w1 = samples w ++ xs ∧ src_ok (src w1) ∧
    af_resample_process_linear_inner e xs out base N w1 =
      Some ((zlen em, out'), w1 <| ctl := c' |>) ∧
    rs_inv N c' ∧ same_mode (ctl w) c' ∧ transduced N (ctl w) xs bl em c' ∧
    wrote out base em out' ∧ OutSampReserveLen c' = 0 ∧
    (em = [] ∨ zlen em = DEFAULT_NUMSAMPS_PERCH * N) ∧
    (generous → ReservedSampsValid (ctl w) mod N = 0 →
     em ≠ [] ∧ ReservedSampsValid c' mod N = 0).
Proof.
  intros HN [Hinv Hsrc Htemp] Hinit Hout Hbase Hroom.
  destruct (delta_bounds N _ HN Hinv Hinit) as (Hd0 & Hd1 & Hd2). rewrite Hd1.
  assert (MAX_NUMSAMPS_PERCH * DEFAULT_NUMCH * 2 = 516) by done.
  set (delta := SampNumIn (ctl w) * N - ReservedSampsValid (ctl w)) in *.
  destruct (dsp_pcm_read_spec (MAX_NUMSAMPS_PERCH * DEFAULT_NUMCH * 2) (delta * 2) w)
    as (xs & s' & b & tk & E & Hs' & H16 & Hle & Hg); [done|lia|lia|].
  rewrite Z.div_mul in Hle, Hg by lia. set (w1 := _ <| taken := _ |>) in E.
  destruct (inner_once e w1 xs out base N) as (bl & em & out' & c' & E2 & I' & M & T & Hw & Ho & Hem);
    [done|exact Hinv|done|done|unfold delta in *; simpl; lia|done|simpl; lia|].
  exists xs, w1, bl, em, out', c'. simpl in *. split_and!; try done; [lia|naive_solver|].
  intros Hgen Hmod. specialize (Hg Hgen). set (R := ReservedSampsValid (ctl w)) in *.
  assert (R = N * (R / N)) as HR by (pose proof (Z.div_mod R N); lia).
  destruct Hem as [(-> & _ & Hlt)|[Hl Hp]].
  - exfalso. rewrite Hg in Hlt. unfold delta in Hlt. rewrite HR in Hlt at 2.
    replace (SampNumIn (ctl w) * N - N * (R / N)) with ((SampNumIn (ctl w) - R / N) * N) in Hlt by ring.
    rewrite Z.div_mul in Hlt by lia. lia.
  - split; [intros ->; unfold zlen, DEFAULT_NUMSAMPS_PERCH in Hl; simpl in Hl; lia|].
    rewrite <- (pend_in_length N c' HN I'), Hp. by rewrite Z.mod_0_l by lia.
Qed.

Lemma bind_delta {B} N (f : Z → CM (rs_world Src) B) w :
  (af_get_delta_inputsampnum N ≫= f) w =
  f (SampNumIn (ctl w) * N - ReservedSampsValid (ctl w)) w.
Proof. done. Qed.

Lemma carried_refl N off w : 0 ≤ off → world_ok N w → carried N off w [] [] [] w.
Proof.
  intros. split; [done|by repeat split|by rewrite app_nil_r| |by apply wrote_nil].
  split; [done|by rewrite app_nil_r|]. unfold resampled. cbn. by rewrite app_nil_r.
Qed.

Lemma mod_sub_0 a b n : 0 < n → a mod n = 0 → b mod n = 0 → (a - b) mod n = 0.
Proof.
  intros Hn Ha%Z.mod_divide Hb%Z.mod_divide; [|lia..].
  apply Z.mod_divide; [lia|]. by apply Z.divide_sub_r.
Qed.

Lemma mod_add_0 a b n : 0 < n → a mod n = 0 → b mod n = 0 → (a + b) mod n = 0.
Proof.
  intros Hn Ha%Z.mod_divide Hb%Z.mod_divide; [|lia..].
  apply Z.mod_divide; [lia|]. by apply Z.divide_add_r.
Qed.

Lemma mod_block_0 n : 0 < n → (DEFAULT_NUMSAMPS_PERCH * n) mod n = 0.
Proof. intros. apply Z.mod_mul. lia. Qed.

(** Whole frames wait on either side. *)
Definition aligned (N : Z) (c : af_resample_ctl_t) : Prop :=
  ReservedSampsValid c mod N = 0 ∧ OutSampReserveLen c mod N = 0.

Lemma blocks_loop_spec fuel e N n off w :
  1 ≤ N ≤ 2 → world_ok N w → InitFlag (ctl w) ≠ 0 → OutSampReserveLen (ctl w) = 0 →
  0 ≤ off → 0 ≤ n → off + n ≤ MAXCH_NUMBER * MAXFRAMESIZE → (Z.to_nat n ≤ fuel)%nat →
  ∃ stop w' xs bl em,
    blocks_loop fuel e N n off w = Some ((stop, n - zlen em, off + zlen em), w') ∧
    carried N off w xs bl em w' ∧ zlen em ≤ n ∧ OutSampReserveLen (ctl w') = 0 ∧
    (stop = false → n - zlen em < DEFAULT_NUMSAMPS_PERCH * N) ∧
    (generous → aligned N (ctl w) → stop = false ∧ aligned N (ctl w') ∧ zlen em mod N = 0).
Proof.
  intros HN. assert (DEFAULT_NUMSAMPS_PERCH = 128) as HD by done.
  revert n off w. induction fuel as [|fuel IH]; intros n off w Hok Hinit Hol Hoff Hn Hsum Hf;
    cbn [blocks_loop]; rewrite Z.geb_leb.
  all: destruct (Z.leb_spec (DEFAULT_NUMSAMPS_PERCH * N) n) as [Hle|Hgt]; [|
    exists false, w, [], [], []; split; [unfold zlen; simpl; by rewrite Z.sub_0_r, Z.add_0_r|];
    split_and!; [by apply carried_refl|unfold zlen; simpl; lia|done|intros; unfold zlen; simpl; lia|
                 intros; split_and!; [done|done|by rewrite Z.mod_0_l by lia]]].
  { lia. }
  rewrite bind_delta.
  destruct (feed_spec e N w (date_temp w) off) as
    (xs & w1 & bl & em & d' & c' & E1 & Hc1 & Hd1 & Ht1 & Hs1 & E2 & I' & M & T & Hw & Ho' & Hem & Hg);
    [done..|destruct Hok; lia|].
  rewrite (cm_bind_some _ _ _ _ _ E1), cm_gets_bind, Hd1, (cm_bind_some _ _ _ _ _ E2).
  rewrite cm_modify_bind. set (w2 := _ <| date_temp := d' |>).
  assert (carried N off w xs bl em w2) as Hmv.
  { destruct Hok. split; cbn; try done. split; cbn; try done. by destruct Hw; lia. }
  destruct Hem as [->|Hem].
  - exists true, w2, xs, bl, []. split; [unfold zlen; simpl; by rewrite Z.sub_0_r, Z.add_0_r|].
    split_and!; [done|unfold zlen; simpl; lia|done|done|]. intros Hgen [Hal _].
    by destruct (Hg Hgen Hal).
  - rewrite (proj2 (Z.eqb_neq (zlen em) 0)) by lia.
    destruct (IH (n - zlen em) (off + zlen em) w2)
      as (stop & w' & xs' & bl' & em' & -> & Hmv' & Hle' & Ho2 & Hstop & Hg');
      [by destruct Hmv|by unfold w2; cbn; destruct M as (_ & _ & -> & _)|done|lia|lia|lia|lia|].
    exists stop, w', (xs ++ xs'), (bl ++ bl'), (em ++ em'). rewrite zlen_app, Z.sub_add_distr, Z.add_assoc.
    split_and!; [done|by eapply carried_trans|lia|done|done|].
    intros Hgen Hal. destruct (Hg Hgen (proj1 Hal)) as [_ Hal'].
    destruct (Hg' Hgen) as (? & ? & ?); [split; cbn; [done|rewrite Ho'; by apply Z.mod_0_l; lia]|].
    split_and!; try done. apply mod_add_0; [lia| |done]. rewrite Hem. apply mod_block_0. lia.
Qed.

(** Samples of the output are put back. *)
Lemma put_back_inv N c held k :
  rs_inv N c → (InitFlag c = 0 → k = 0) → zlen held = 258 →
  0 ≤ k < DEFAULT_NUMSAMPS_PERCH * N →
  rs_inv N (c <| OutSampReserveBuf := held |> <| OutSampReserveLen := k |>).
Proof. intros [] ???. constructor; cbn; try (done || lia || naive_solver). Qed.

Lemma put_back_stream N c xs bl x y c' held :
  transduced N c xs bl (x ++ y) c' → OutSampReserveLen c' = 0 →
  take (length y) held = y →
  transduced N c xs bl x
    (c' <| OutSampReserveBuf := held |> <| OutSampReserveLen := zlen y |>).
Proof.
  intros [] Ho Hh. split; [done|done|]. rewrite td_out0. unfold pend_out. cbn.
  rewrite Ho. unfold zlen. by rewrite Nat2Z.id, Hh, app_nil_r.
Qed.

Lemma last_block_spec e N n off w :
  1 ≤ N ≤ 2 → world_ok N w → InitFlag (ctl w) ≠ 0 → OutSampReserveLen (ctl w) = 0 →
  0 ≤ off → 0 < n < DEFAULT_NUMSAMPS_PERCH * N → off + n ≤ MAXCH_NUMBER * MAXFRAMESIZE →
  ∃ w' xs bl em,
    last_block e N n off w = Some (off + zlen em, w') ∧ carried N off w xs bl em w' ∧
    zlen em ≤ n ∧
    (generous → aligned N (ctl w) → n mod N = 0 → zlen em = n ∧ aligned N (ctl w')).
Proof.
  intros HN Hok Hinit Hol Hoff Hn Hsum. assert (DEFAULT_NUMSAMPS_PERCH = 128) as HD by done.
  unfold last_block. rewrite bind_delta.
  set (tmp := replicate (Z.to_nat (MAX_NUMSAMPS_PERCH * DEFAULT_NUMCH)) 0).
  assert (zlen tmp = 258) as Htmp by done.
  destruct (feed_spec e N w tmp 0) as
    (xs & w1 & bl & em & t' & c' & E1 & Hc1 & Hd1 & Ht1 & Hs1 & E2 & I' & M & T & Hw & Ho' & Hem & Hg);
    [done..|lia|nia|].
  rewrite (cm_bind_some _ _ _ _ _ E1), (cm_bind_some _ _ _ _ _ E2).
  destruct Hem as [->|Hem].
  { exists (w1 <| ctl := c' |>), xs, bl, []. split; [unfold zlen; simpl; by rewrite Z.add_0_r|].
    destruct Hok. split_and!; [|unfold zlen; simpl; lia|intros Hgen [Hal _]; by destruct (Hg Hgen Hal)].
    split; cbn; try done; [split; cbn; [done..|by rewrite Hd1]|rewrite Hd1; by apply wrote_nil]. }
  rewrite (proj2 (Z.eqb_neq (zlen em) 0)), cm_gets_bind by lia. cbn [date_temp ctl].
  pose proof (wrote_fits _ _ _ _ Hw ltac:(lia)) as Hfit.
  set (x := take (Z.to_nat n) em). set (y := drop (Z.to_nat n) em).
  assert (zlen x = n) as Hx by (apply zlen_take; lia).
  assert (zlen y = zlen em - n) as Hy by (unfold y; zlens).
  assert (slice t' 0 n = Some x) as Ex by (by apply (wrote_slice _ _ _ _ 0 n Hw); lia).
  assert (slice t' n (zlen em - n) = Some y) as Ey.
  { rewrite <- (Z.add_0_l n) at 1. rewrite (wrote_slice _ _ _ _ n (zlen em - n) Hw) by lia.
    f_equal. apply take_ge. fold y. unfold zlen in *. lia. }
  destruct Hok as [_ _ Htemp]. pose proof I' as [].
  destruct (wrote_splice (date_temp w) off [] (date_temp w) x) as (d' & Ed & Hwd);
    [by apply wrote_nil|done|unfold zlen at 1; simpl; lia|].
  unfold zlen at 1 in Ed. simpl in Ed, Hwd. rewrite Z.add_0_r in Ed.
  destruct (splice_is (OutSampReserveBuf c') 0 y) as (held & Eh & Hlh); [lia|lia|].
  rewrite (bind_lift _ _ _ _ Ex). cbn. rewrite Hd1, (bind_lift _ _ _ _ Ed), bind_get_ctl. cbn.
  rewrite (bind_lift _ _ _ _ Ey), (bind_lift _ _ _ _ Eh), cm_modify_bind, bind_set_ctl.
  rewrite i16_small by lia.
  eexists _, xs, bl, x. rewrite Hx. split; [done|].
  assert (InitFlag c' ≠ 0) by (by destruct M as (_ & _ & -> & _)).
  assert (take (length y) held = y) as Hty.
  { rewrite (take_splice _ _ _ _ _ Eh); [done|]. simpl. lia. }
  rewrite <- Hy. split_and!; [split; cbn; try done|lia|].
  - split; cbn; [apply put_back_inv; lia || done|done|destruct Hwd; lia].
  - apply put_back_stream; [|done|done]. unfold x, y. by rewrite take_drop.
  - intros Hgen Hal Hmod. split; [done|]. destruct (Hg Hgen (proj1 Hal)) as [_ HR'].
    split; cbn; [done|]. rewrite Hy, Hem. apply mod_sub_0; [lia| |done]. apply mod_block_0. lia.
Qed.

(** The number of input samples of a block. *)
Definition delta_of (e : rs_env) : Z :=
  if env_wfd e then 2 else default RESAMPLE_DELTA_NUMSAMPS (env_delta e).
Definition num_in (e : rs_env) (ty : Z) : Z :=
  if ty =? RESAMPLE_TYPE_NONE then DEFAULT_NUMSAMPS_PERCH
  else if ty =? RESAMPLE_TYPE_DOWN then DEFAULT_NUMSAMPS_PERCH + delta_of e
  else DEFAULT_NUMSAMPS_PERCH - delta_of e.

Definition ratio_ok (e : rs_env) (ty : Z) : Prop :=
  (ty = RESAMPLE_TYPE_NONE ∨ ty = RESAMPLE_TYPE_DOWN ∨ ty = RESAMPLE_TYPE_UP) ∧
  2 ≤ num_in e ty ≤ MAX_NUMSAMPS_PERCH.

(** [w'] agrees with [w] on the samples. *)
Definition same_data (w w' : rs_world Src) : Prop :=
  src w' = src w ∧ date_temp w' = date_temp w ∧ samples w' = samples w.

Lemma set_delta_spec e d w :
  ∃ r l, audiodsp_set_pcm_resample_delta e d w = Some (r, w <| sent := l |>).
Proof.
  unfold audiodsp_set_pcm_resample_delta. destruct (_ >=? _); [by eexists _, _|].
  exists (-1), (sent w). by destruct w.
Qed.

Lemma samps_num_spec e c ty :
  ratio_ok e ty →
  samps_num c ty (delta_of e) =
    Some (c <| SampNumIn := num_in e ty |> <| SampNumOut := DEFAULT_NUMSAMPS_PERCH |>).
Proof.
  intros [Hty Hin]. unfold samps_num, num_in in *.
  assert (MAX_NUMSAMPS_PERCH = 129) by done.
  destruct Hty as [->|[->| ->]]; cbn [Z.eqb Pos.eqb RESAMPLE_TYPE_NONE RESAMPLE_TYPE_DOWN
    RESAMPLE_TYPE_UP] in *; [done|..];
    rewrite int_ok_some by (unfold INT_MIN, INT_MAX; lia); done.
Qed.

Lemma set_ratio_spec e N w :
  1 ≤ N ≤ 2 → rs_inv N (ctl w) → ratio_ok e (resample_type (ctl w)) →
  ∃ w', af_resample_set_SampsNumRatio e w = Some (tt, w') ∧ same_data w w' ∧
    rs_inv N (ctl w') ∧ InitFlag (ctl w') = 1 ∧
    SampNumIn (ctl w') = num_in e (resample_type (ctl w)) ∧
    LastResamType (ctl w') = resample_type (ctl w) ∧
    resample_type (ctl w') = resample_type (ctl w) ∧
    enable_resample (ctl w') = enable_resample (ctl w) ∧
    pend_in (ctl w') = [] ∧ pend_out (ctl w') = [].
Proof.
  intros HN [] Hr. pose proof Hr as [Hty Hin].
  unfold af_resample_set_SampsNumRatio, af_get_resample_type.
  set (ty := resample_type (ctl w)) in *.
  rewrite (cm_bind_some _ _ w ty w) by done. fold (delta_of e). cbv zeta.
  destruct (set_delta_spec e (delta_of e) w) as (r & l & E). rewrite (cm_bind_some _ _ _ _ _ E).
  rewrite bind_get_ctl, (bind_lift _ _ _ _ (samps_num_spec e _ ty Hr)).
  assert (- 2 ^ 15 ≤ ty < 2 ^ 15) by (by destruct Hty as [->|[->| ->]]).
  rewrite i16_small by done.
  assert (MAX_NUMSAMPS_PERCH = 129 ∧ DEFAULT_NUMSAMPS_PERCH = 128) as [HM HD] by done.
  set (c1 := _ <| SampNumOut := _ |>).
  destruct (coef_get_spec c1) as (c2 & E2 & Hsame & Htab & Hl1 & Hl2); [done|cbn; lia|done..|].
  rewrite (bind_lift _ _ _ _ E2). rewrite Hsame. eexists. split; [done|].
  split; [done|]. split; [|done]. constructor; cbn; try done; [|lia|intros; lia|].
  - intros _. split; [done|]. split; [done|]. rewrite Hsame in Htab. exact Htab.
  - intros _ Hn. unfold num_in. rewrite Hn. done.
Qed.

(** The output samples held back are handed out first. *)
Lemma get_pcm_spec N w d off n :
  1 ≤ N ≤ 2 → rs_inv N (ctl w) → 0 ≤ n → 0 ≤ off → off + n ≤ zlen d →
  ∃ em d' c', af_get_pcm_in_resampler d off n w = Some ((zlen em, d'), w <| ctl := c' |>) ∧
    rs_inv N c' ∧ same_mode (ctl w) c' ∧ pend_out (ctl w) = em ++ pend_out c' ∧
    pend_in c' = pend_in (ctl w) ∧ wrote d off em d' ∧
    ReservedSampsValid c' = ReservedSampsValid (ctl w) ∧
    OutSampReserveLen c' = OutSampReserveLen (ctl w) - zlen em ∧
    zlen em = Z.min n (OutSampReserveLen (ctl w)).
Proof.
  intros HN Hinv Hn Hoff Hroom. pose proof (pend_out_length N _ HN Hinv) as Hpl.
  pose proof Hinv as []. assert (DEFAULT_NUMSAMPS_PERCH = 128) as HD by done.
  set (L := OutSampReserveLen (ctl w)) in *. set (B := OutSampReserveBuf (ctl w)) in *.
  unfold af_get_pcm_in_resampler. rewrite bind_get_ctl. fold L B.
  rewrite !Z.geb_leb, (proj2 (Z.leb_le 0 n)) by lia.
  set (em := take (Z.to_nat (Z.min n L)) B).
  assert (zlen em = Z.min n L) as Hem by (apply zlen_take; lia).
  destruct (wrote_splice d off [] d em) as (d' & Ed & Hw);
    [by apply wrote_nil|done|unfold zlen at 1; simpl; lia|].
  unfold zlen at 1 in Ed. simpl in Ed, Hw. rewrite Z.add_0_r in Ed.
  destruct (Z.ltb_spec n L) as [Hlt|Hge]; cbn [andb].
  - set (ys := take (Z.to_nat (L - n)) (drop (Z.to_nat n) B)).
    assert (zlen ys = L - n) as Hys by (unfold ys; zlens).
    destruct (splice_is B 0 ys) as (held & Eh & Hlh); [lia|lia|].
    assert (copy_front B L n d off = Some (held, d')) as ->.
    { unfold copy_front. rewrite slice_0 by lia. unfold em in Ed. rewrite Z.min_l in Ed by lia.
      simpl. rewrite Ed. simpl. rewrite slice_some by lia. simpl. fold ys. by rewrite Eh. }
    rewrite (bind_lift _ _ _ _ eq_refl), bind_set_ctl, i16_small by lia.
    exists em, d'. eexists. rewrite Hem, Z.min_l in * by lia.
    split; [done|]. split; [apply put_back_inv; try (done || lia); intros E; destruct (inv_stopped0 E); lia|].
    split; [by repeat split|]. split_and!; try done; cbn.
    unfold pend_out. cbn. fold L B. rewrite (take_splice _ _ _ _ _ Eh) by (unfold zlen in *; lia).
    unfold em, ys. rewrite Z.min_l by lia. simpl. rewrite take_take_drop. f_equal. lia.
  - rewrite (proj2 (Z.leb_le L n)) by lia. unfold em in Ed, Hem. rewrite Z.min_r in Ed, Hem by lia.
    rewrite slice_0 by lia. rewrite (bind_lift _ _ _ _ eq_refl), (bind_lift _ _ _ _ Ed), bind_set_ctl.
    exists em, d'. eexists. unfold em in *. rewrite Z.min_r in * by lia. rewrite Hem.
    split; [done|]. split; [apply (put_back_inv N (ctl w) B 0); done || lia|].
    split; [by repeat split|]. split_and!; try done; cbn; [|lia].
    unfold pend_out. cbn. by rewrite app_nil_r.
Qed.

(** The input samples that wait are handed out as they are. *)
Lemma get_unpro_spec N w d off n :
  1 ≤ N ≤ 2 → rs_inv N (ctl w) → 0 ≤ n → 0 ≤ off → off + n ≤ zlen d →
  ∃ em d' c', af_get_unpro_inputsampnum d off n w = Some ((zlen em, d'), w <| ctl := c' |>) ∧
    rs_inv N c' ∧ same_mode (ctl w) c' ∧ pend_in (ctl w) = em ++ pend_in c' ∧
    pend_out c' = pend_out (ctl w) ∧ wrote d off em d' ∧
    OutSampReserveLen c' = OutSampReserveLen (ctl w) ∧
    ReservedSampsValid c' = ReservedSampsValid (ctl w) - zlen em ∧
    zlen em = Z.min n (ReservedSampsValid (ctl w)).
Proof.
  intros HN Hinv Hn Hoff Hroom. pose proof (pend_in_length N _ HN Hinv) as Hpl.
  pose proof Hinv as []. set (L := ReservedSampsValid (ctl w)) in *.
  set (B := ReservedBuf (ctl w)) in *. unfold pend_in in Hpl at 1. fold L B in Hpl.
  assert (L ≤ 258) as HL by zlens. clear Hpl.
  unfold af_get_unpro_inputsampnum. rewrite bind_get_ctl, Z.geb_leb. fold L B.
  set (em := take (Z.to_nat (Z.min n L)) B).
  assert (zlen em = Z.min n L) as Hem by (apply zlen_take; lia).
  destruct (wrote_splice d off [] d em) as (d' & Ed & Hw);
    [by apply wrote_nil|done|unfold zlen at 1; simpl; lia|].
  unfold zlen at 1 in Ed. simpl in Ed, Hw. rewrite Z.add_0_r in Ed.
  destruct (Z.leb_spec L n) as [Hge|Hlt].
  - unfold em in Ed, Hem. rewrite Z.min_r in Ed, Hem by lia.
    rewrite slice_0 by lia. rewrite (bind_lift _ _ _ _ eq_refl), (bind_lift _ _ _ _ Ed), bind_set_ctl.
    exists em, d'. eexists. unfold em in *. rewrite Z.min_r in * by lia. rewrite Hem.
    split; [done|]. split.
    { constructor; cbn; try (done || lia). }
    split; [by repeat split|]. split_and!; try done; cbn; [|lia].
    unfold pend_in. cbn. by rewrite app_nil_r.
  - set (ys := take (Z.to_nat (L - n)) (drop (Z.to_nat n) B)).
    assert (zlen ys = L - n) as Hys by (unfold ys; zlens).
    destruct (splice_is B 0 ys) as (held & Eh & Hlh); [lia|lia|].
    assert (copy_front B L n d off = Some (held, d')) as ->.
    { unfold copy_front. rewrite slice_0 by lia. unfold em in Ed. rewrite Z.min_l in Ed by lia.
      simpl. rewrite Ed. simpl. rewrite slice_some by lia. simpl. fold ys. by rewrite Eh. }
    rewrite (bind_lift _ _ _ _ eq_refl), bind_set_ctl, i16_small by lia.
    exists em, d'. eexists. rewrite Hem, Z.min_l in * by lia.
    split; [done|]. split.
    { constructor; cbn; try (done || lia).
      eapply splice_16; [exact Eh|done|]. by apply Forall_take, Forall_drop. }
    split; [by repeat split|]. split_and!; try done; cbn.
    unfold pend_in. cbn. fold L B. rewrite (take_splice _ _ _ _ _ Eh) by (unfold zlen in *; lia).
    unfold em, ys. rewrite Z.min_l by lia. simpl. rewrite take_take_drop. f_equal. lia.
Qed.

(** What a call does to the stream: it resamples blocks of the present ratio,
    or it hands the samples through. *)
Inductive call_effect (N : Z) (c : af_resample_ctl_t) (xs buf : list Z) (c' : af_resample_ctl_t) :
    Prop :=
| eff_resample bl :
    enable_resample c ≠ 0 → InitFlag c' ≠ 0 → LastResamType c' = resample_type c →
    Forall (λ b, zlen b = SampNumIn c' * N) bl →
    pend_in c ++ xs = concat bl ++ pend_in c' →
    pend_out c ++ resampled (SampNumIn c') N bl = buf ++ pend_out c' →
    call_effect N c xs buf c'
| eff_pass :
    enable_resample c = 0 ∨ LastResamType c ≠ resample_type c →
    pend_out c ++ pend_in c ++ xs = buf ++ pend_out c' ++ pend_in c' →
    call_effect N c xs buf c'.

Lemma stopped_empty N c : rs_inv N c → InitFlag c = 0 → pend_in c = [] ∧ pend_out c = [].
Proof.
  intros [] E. destruct (inv_stopped0 E) as [HR HO]. unfold pend_in, pend_out.
  by rewrite HR, HO.
Qed.

(** The state in which the resampling starts. *)
Lemma resample_init e N w :
  1 ≤ N ≤ 2 → world_ok N w → ratio_ok e (resample_type (ctl w)) →
  (InitFlag (ctl w) ≠ 0 → LastResamType (ctl w) = resample_type (ctl w)) →
  ∃ w1, (if InitFlag (ctl w) =? 0 then af_resample_set_SampsNumRatio e else mret tt) w =
          Some (tt, w1) ∧
    same_data w w1 ∧ world_ok N w1 ∧ InitFlag (ctl w1) ≠ 0 ∧
    LastResamType (ctl w1) = resample_type (ctl w) ∧
    resample_type (ctl w1) = resample_type (ctl w) ∧
    enable_resample (ctl w1) = enable_resample (ctl w) ∧
    pend_in (ctl w1) = pend_in (ctl w) ∧ pend_out (ctl w1) = pend_out (ctl w).
Proof.
  intros HN [Hinv Hsrc Htemp] Hr Hlast. destruct (Z.eqb_spec (InitFlag (ctl w)) 0) as [E|E].
  - destruct (set_ratio_spec e N w HN Hinv Hr)
      as (w1 & E1 & (Hs & Hd & Ht) & I1 & Hi & _ & Hl & Hty & Hen & Hpi & Hpo).
    destruct (stopped_empty N _ Hinv E) as [-> ->].
    exists w1. split_and!; try done; [split; [done|by rewrite Hs|by rewrite Hd]|lia].
  - exists w. split_and!; try done. auto.
Qed.

Lemma aligned_pend N c c' :
  1 ≤ N ≤ 2 → rs_inv N c → rs_inv N c' → pend_in c' = pend_in c → pend_out c' = pend_out c →
  aligned N c → aligned N c'.
Proof.
  intros HN I I' Hi Ho [H1 H2]. split.
  - by rewrite <- (pend_in_length N c' HN I'), Hi, (pend_in_length N c HN I).
  - by rewrite <- (pend_out_length N c' HN I'), Ho, (pend_out_length N c HN I).
Qed.

(** The samples held back, as a step of the stream. *)
Lemma hand_out_spec N w n :
  1 ≤ N ≤ 2 → world_ok N w → 0 ≤ n ≤ MAXCH_NUMBER * MAXFRAMESIZE →
  ∃ em d' c', af_get_pcm_in_resampler (date_temp w) 0 n w =
                Some ((zlen em, d'), w <| ctl := c' |>) ∧
    carried N 0 w [] [] em (w <| ctl := c' |> <| date_temp := d' |>) ∧ zlen em ≤ n ∧
    (zlen em < n → OutSampReserveLen c' = 0) ∧
    (n mod N = 0 → aligned N (ctl w) → zlen em mod N = 0 ∧ aligned N c').
Proof.
  intros HN [Hinv Hsrc Htemp] Hn.
  destruct (get_pcm_spec N w (date_temp w) 0 n)
    as (em & d' & c' & E & I' & M & Hpo & Hpi & Hw & HR & HO & Hem); [done|done|lia|lia|lia|].
  exists em, d', c'. split; [done|]. split.
  { split; cbn; try done; [split; cbn; [done|done|destruct Hw; lia]|by rewrite app_nil_r|].
    split; [done|by rewrite Hpi, app_nil_r|]. unfold resampled. cbn. by rewrite app_nil_r. }
  split_and!; [lia|lia|]. intros Hmod [A1 A2].
  assert (zlen em mod N = 0) as Hm by (rewrite Hem; destruct (Z.min_spec n (OutSampReserveLen (ctl w)))
    as [[_ ->]|[_ ->]]; done).
  split; [done|]. split; [by rewrite HR|]. rewrite HO. apply mod_sub_0; done || lia.
Qed.

Lemma resample_loop_spec e N n w :
  1 ≤ N ≤ 2 → world_ok N w → InitFlag (ctl w) ≠ 0 → 0 ≤ n ≤ MAXCH_NUMBER * MAXFRAMESIZE →
  ∃ w' xs bl em,
    (d ← cm_gets date_temp;
     '(got, d) ← af_get_pcm_in_resampler d 0 n;
     cm_modify (λ w, w <| date_temp := d |>);;
     '(out, remain, outbuf_offset) ← blocks_loop (Z.to_nat n) e N (n - got) got;
     if out : bool then mret outbuf_offset else
     if remain >? 0 then last_block e N remain outbuf_offset else mret outbuf_offset) w =
      Some (zlen em, w') ∧
    carried N 0 w xs bl em w' ∧ zlen em ≤ n ∧
    (generous → aligned N (ctl w) → n mod N = 0 → zlen em = n ∧ aligned N (ctl w')).
Proof.
  intros HN Hok Hinit Hn. assert (DEFAULT_NUMSAMPS_PERCH = 128) as HD by done.
  destruct (hand_out_spec N w n HN Hok Hn) as (em0 & d & c1 & E0 & Hmv0 & Hle0 & Hz0 & Ha0).
  pose proof (zlen_nonneg em0). rewrite cm_gets_bind, (cm_bind_some _ _ _ _ _ E0).
  cbv beta iota. rewrite cm_modify_bind. set (w1 := _ <| date_temp := d |>) in *.
  assert (InitFlag (ctl w1) ≠ 0) by (by destruct (mv_mode _ _ _ _ _ _ _ Hmv0) as (_ & _ & -> & _)).
  destruct (Z.eq_dec (zlen em0) n) as [Heq|Hne].
  { rewrite Heq, Z.sub_diag. assert (blocks_loop (Z.to_nat n) e N 0 n w1 = Some (false, 0, n, w1)) as Eb
      by (destruct (Z.to_nat n); cbn [blocks_loop]; rewrite Z.geb_leb, (proj2 (Z.leb_gt _ _)) by lia; done).
    rewrite (cm_bind_some _ _ _ _ _ Eb). exists w1, [], [], em0.
    split_and!; [by rewrite Heq|done|lia|]. intros _ Hal Hmod. by destruct (Ha0 Hmod Hal). }
  destruct (blocks_loop_spec (Z.to_nat n) e N (n - zlen em0) (zlen em0) w1)
    as (stop & w2 & xs1 & bl1 & em1 & Eb & Hmv1 & Hle1 & Ho2 & Hstop & Hg1);
    [done|by destruct Hmv0|done|apply Hz0; lia|lia..|].
  pose proof (zlen_nonneg em1). rewrite (cm_bind_some _ _ _ _ _ Eb). cbv beta iota.
  pose proof (carried_trans _ _ _ _ _ _ _ _ _ _ _ (Z.le_refl 0) Hmv0 Hmv1) as Hmv.
  assert (InitFlag (ctl w2) ≠ 0) by (by destruct (mv_mode _ _ _ _ _ _ _ Hmv1) as (_ & _ & -> & _)).
  destruct stop.
  { exists w2, ([] ++ xs1), ([] ++ bl1), (em0 ++ em1). rewrite zlen_app.
    split_and!; [done|done|lia|]. intros Hgen Hal Hmod. destruct (Ha0 Hmod Hal) as [_ Hal1].
    by destruct (Hg1 Hgen Hal1). }
  rewrite Z.gtb_ltb. destruct (Z.ltb_spec 0 (n - zlen em0 - zlen em1)).
  2: { exists w2, ([] ++ xs1), ([] ++ bl1), (em0 ++ em1). rewrite zlen_app.
    split_and!; [done|done|lia|]. intros Hgen Hal Hmod. destruct (Ha0 Hmod Hal) as [_ Hal1].
    destruct (Hg1 Hgen Hal1) as (_ & ? & _). split; [lia|done]. }
  destruct (last_block_spec e N (n - zlen em0 - zlen em1) (zlen em0 + zlen em1) w2)
    as (w3 & xs2 & bl2 & em2 & -> & Hmv2 & Hle2 & Hg2);
    [done|by destruct Hmv1|done|done|lia|specialize (Hstop eq_refl); lia|lia|].
  rewrite <- (zlen_app em0 em1) in Hmv2.
  exists w3, (([] ++ xs1) ++ xs2), (([] ++ bl1) ++ bl2), ((em0 ++ em1) ++ em2). rewrite !zlen_app.
  split_and!; [done|eapply carried_trans; [lia|done|by rewrite Z.add_0_l]|lia|].
  intros Hgen Hal Hmod. destruct (Ha0 Hmod Hal) as [Hm0 Hal1].
  destruct (Hg1 Hgen Hal1) as (_ & Hal2 & Hm1).
  destruct (Hg2 Hgen Hal2) as [? ?]; [by repeat (apply mod_sub_0; [lia| |done])|]. split; [lia|done].
Qed.

Lemma resample_branch_spec e N n w :
  1 ≤ N ≤ 2 → world_ok N w → ratio_ok e (resample_type (ctl w)) → enable_resample (ctl w) ≠ 0 →
  (InitFlag (ctl w) ≠ 0 → LastResamType (ctl w) = resample_type (ctl w)) →
  0 ≤ n ≤ MAXCH_NUMBER * MAXFRAMESIZE →
  ∃ w' xs em, resample_branch e N n w = Some (zlen em, w') ∧
    world_ok N w' ∧ samples w' = samples w ++ xs ∧ wrote (date_temp w) 0 em (date_temp w') ∧
    call_effect N (ctl w) xs em (ctl w') ∧ resample_type (ctl w') = resample_type (ctl w) ∧
    enable_resample (ctl w') = enable_resample (ctl w) ∧ zlen em ≤ n ∧
    (generous → aligned N (ctl w) → n mod N = 0 → zlen em = n ∧ aligned N (ctl w')).
Proof.
  intros HN Hok Hr Hen Hlast Hn. unfold resample_branch. rewrite bind_get_ctl.
  destruct (resample_init e N w HN Hok Hr Hlast)
    as (w1 & E1 & (Hs & Hd & Ht) & Hok1 & Hi & Hl & Hty & Hen1 & Hpi & Hpo).
  rewrite (cm_bind_some _ _ _ _ _ E1).
  destruct (resample_loop_spec e N n w1 HN Hok1 Hi Hn) as (w' & xs & bl & em & -> & Hmv & Hle & Hg).
  exists w', xs, em. destruct Hmv as [Hok' (Mi & Mo & Mf & Ml & Mt & Me) Htk [T1 T2 T3] Hw].
  rewrite Mt, Me, Hty, Hen1, <- Ht, <- Hd. split_and!; try done.
  - apply (eff_resample _ _ _ _ _ bl); rewrite ?Mi, ?Mf, ?Ml, <- ?Hpi, <- ?Hpo; done.
  - intros Hgen Hal. apply Hg; [done|].
    eapply aligned_pend; [done|by destruct Hok|by destruct Hok1|done..].
Qed.

(** [read] of the source does not fail. *)
Definition never_fails : Prop :=
  ∀ n (s : Src) r bs s', src_ok s → 0 ≤ n → src_read n s = Some ((r, bs), s') → 0 ≤ r.

Lemma store_bytes_spec d off bs :
  0 ≤ off → 2 * off + zlen bs ≤ 2 * zlen d →
  ∃ d', store_bytes d off bs = Some d' ∧ wrote d off (shorts_of bs) d'.
Proof.
  intros Hoff Hroom. destruct (shorts_of_16 bs) as [_ Hl].
  assert (off + zlen (shorts_of bs) ≤ zlen d) as Hfit
    by (rewrite Hl; pose proof (Z.mul_div_le (zlen bs) 2); lia).
  destruct (wrote_splice d off [] d (shorts_of bs)) as (d1 & E1 & Hw);
    [by apply wrote_nil|done|unfold zlen at 1; simpl; lia|].
  unfold zlen at 1 in E1. simpl in E1, Hw. rewrite Z.add_0_r in E1.
  unfold store_bytes. rewrite E1. simpl. destruct (last bs) as [lo|]; [|by exists d1].
  destruct (Nat.odd (length bs)) eqn:Eo; [|by exists d1].
  apply Nat.odd_spec in Eo as [k Hk].
  assert (zlen bs = 2 * zlen (shorts_of bs) + 1) as Hodd.
  { rewrite Hl. unfold zlen. rewrite Hk.
    replace (Z.of_nat (2 * k + 1)) with (Z.of_nat k * 2 + 1) by lia.
    rewrite Z.div_add_l by lia. change (1 / 2) with 0. lia. }
  destruct Hw as [Hl1 Ht]. pose proof (zlen_nonneg (shorts_of bs)).
  destruct (aget_some d1 (off + zlen (shorts_of bs))) as [x ->]; [lia|]. simpl.
  rewrite aset_some by lia. eexists. split; [done|]. split; [zlens|].
  rewrite take_insert_ge by lia. exact Ht.
Qed.

Lemma stop_spec e N w :
  rs_inv N (ctl w) → OutSampReserveLen (ctl w) = 0 → ReservedSampsValid (ctl w) = 0 →
  ∃ w', af_resample_stop_process e w = Some (tt, w') ∧ same_data w w' ∧ rs_inv N (ctl w') ∧
    InitFlag (ctl w') = 0 ∧ pend_in (ctl w') = pend_in (ctl w) ∧
    pend_out (ctl w') = pend_out (ctl w) ∧ resample_type (ctl w') = resample_type (ctl w) ∧
    enable_resample (ctl w') = enable_resample (ctl w) ∧ LastResamType (ctl w') = 0.
Proof.
  intros [] HO HR. unfold af_resample_stop_process. rewrite bind_get_ctl.
  assert (∀ l, ∃ w', set_ctl (ctl w <| InitFlag := 0 |> <| LastResamType := 0 |>)
    (w <| sent := l |>) = Some (tt, w') ∧ same_data w w' ∧ rs_inv N (ctl w') ∧
    InitFlag (ctl w') = 0 ∧ pend_in (ctl w') = pend_in (ctl w) ∧
    pend_out (ctl w') = pend_out (ctl w) ∧ resample_type (ctl w') = resample_type (ctl w) ∧
    enable_resample (ctl w') = enable_resample (ctl w) ∧ LastResamType (ctl w') = 0) as Hset.
  { intros l. eexists. split; [done|]. split; [done|]. split; [|done].
    constructor; cbn; done || lia. }
  destruct (InitFlag (ctl w) =? 0); cbn [negb].
  - destruct (Hset (sent w)) as (w' & Hs & ?). exists w'. split; [|done].
    rewrite bind_ret. rewrite <- Hs. by destruct w.
  - destruct (set_delta_spec e 0 w) as (r & l & E).
    rewrite (cm_bind_some _ _ _ tt (w <| sent := l |>)); [apply Hset|].
    by rewrite (cm_bind_some _ _ _ _ _ E).
Qed.

(** The end of the branch without resampling: the rest comes from the source. *)
Lemma pass_rest_spec N off n w :
  never_fails → world_ok N w → 0 ≤ off → 0 < n → off + n ≤ MAXCH_NUMBER * MAXFRAMESIZE →
  ∃ w' xs,
    ('(len, bs) ← dsp_read (i32 (n * 2));
     d ← cm_gets date_temp;
     d ← cm_lift (store_bytes d off bs);
     cm_modify (λ w, w <| date_temp := d |> <| bytes_readed := i64 (bytes_readed w + len) |>
                       <| samples := samples w ++ shorts_of bs |>);;
     mret (i32 (off + u64 len / 2))) w = Some (off + zlen xs, w') ∧
    world_ok N w' ∧ ctl w' = ctl w ∧ samples w' = samples w ++ xs ∧
    wrote (date_temp w) off xs (date_temp w') ∧ zlen xs ≤ n ∧ (generous → zlen xs = n).
Proof.
  intros Hnf [Hinv Hsrc Htemp] Hoff Hn Hsum.
  assert (MAXCH_NUMBER * MAXFRAMESIZE = 65536) as HM by done. rewrite i32_small by lia.
  destruct (src_read_ok (n * 2) (src w) Hsrc) as (r & bs & s' & Er & Hs' & Hr & Hbs); [lia|].
  pose proof (Hnf (n * 2) (src w) r bs s' Hsrc ltac:(lia) Er) as Hr0.
  rewrite (cm_bind_some _ _ _ (r, bs) (w <| src := s' |> <| taken := taken w ++ bs |>)) by (unfold dsp_read; by rewrite Er).
  cbv beta iota. rewrite cm_gets_bind. destruct (shorts_of_16 bs) as [_ Hl].
  destruct (store_bytes_spec (date_temp w) off bs) as (d' & Ed & Hw); [done|lia|].
  cbn [date_temp]. rewrite (bind_lift _ _ _ _ Ed), cm_modify_bind.
  assert (0 ≤ r / 2 ≤ n) by (split; [apply Z.div_pos; lia|apply Z.div_le_upper_bound; lia]).
  rewrite u64_small, i32_small by (rewrite ?u64_small by lia; lia).
  eexists _, (shorts_of bs). rewrite Hl, Hbs, Z.max_r by lia. split; [done|].
  split; [split; cbn; [done|done|by destruct Hw; lia]|]. split_and!; try done; [lia|].
  intros Hgen. destruct (Hgen (n * 2) (src w) Hsrc) as (b2 & s2 & E2); [lia|].
  rewrite Er in E2. injection E2 as -> _ _. by rewrite Z.div_mul.
Qed.

Lemma drain_out_spec N n w :
  1 ≤ N ≤ 2 → rs_inv N (ctl w) → 0 ≤ n → n ≤ zlen (date_temp w) →
  ∃ em d' c', (if OutSampReserveLen (ctl w) >? 0 then
      af_get_pcm_in_resampler (date_temp w) 0 n else mret (0, date_temp w)) w =
      Some ((zlen em, d'), w <| ctl := c' |>) ∧ rs_inv N c' ∧ same_mode (ctl w) c' ∧
    pend_out (ctl w) = em ++ pend_out c' ∧ pend_in c' = pend_in (ctl w) ∧
    wrote (date_temp w) 0 em d' ∧ ReservedSampsValid c' = ReservedSampsValid (ctl w) ∧
    OutSampReserveLen c' = OutSampReserveLen (ctl w) - zlen em ∧
    zlen em = Z.min n (OutSampReserveLen (ctl w)).
Proof.
  intros HN Hinv Hn Hd. rewrite Z.gtb_ltb. destruct (Z.ltb_spec 0 (OutSampReserveLen (ctl w))).
  - apply get_pcm_spec; done || lia.
  - exists [], (date_temp w), (ctl w). destruct Hinv. unfold zlen. simpl.
    split_and!; try (done || lia || (by destruct w) || by apply wrote_nil).
Qed.

Lemma drain_in_spec N off n d w :
  1 ≤ N ≤ 2 → rs_inv N (ctl w) → 0 ≤ n → 0 ≤ off → off + n ≤ zlen d →
  ∃ em d' c', (if ReservedSampsValid (ctl w) >? 0 then af_get_unpro_inputsampnum d off n
      else mret (0, d)) w = Some ((zlen em, d'), w <| ctl := c' |>) ∧ rs_inv N c' ∧
    same_mode (ctl w) c' ∧ pend_in (ctl w) = em ++ pend_in c' ∧ pend_out c' = pend_out (ctl w) ∧
    wrote d off em d' ∧ OutSampReserveLen c' = OutSampReserveLen (ctl w) ∧
    ReservedSampsValid c' = ReservedSampsValid (ctl w) - zlen em ∧
    zlen em = Z.min n (ReservedSampsValid (ctl w)).
Proof.
  intros HN Hinv Hn Hoff Hd. rewrite Z.gtb_ltb. destruct (Z.ltb_spec 0 (ReservedSampsValid (ctl w))).
  - by apply get_unpro_spec.
  - exists [], d, (ctl w). destruct Hinv. unfold zlen. simpl.
    split_and!; try (done || lia || (by destruct w) || by apply wrote_nil).
Qed.

(** The waiting samples of both sides, handed out without resampling: [k]
    samples of [n], and the state after it. *)
Lemma drain_waiting_spec N n w :
  1 ≤ N ≤ 2 → world_ok N w → 0 ≤ n ≤ MAXCH_NUMBER * MAXFRAMESIZE →
  ∃ em1 em2 d1 d2 c1 c2,
    (if OutSampReserveLen (ctl w) >? 0 then af_get_pcm_in_resampler (date_temp w) 0 n
     else mret (0, date_temp w)) w = Some ((zlen em1, d1), w <| ctl := c1 |>) ∧
    (if ReservedSampsValid c1 >? 0 then af_get_unpro_inputsampnum d1 (zlen em1) (n - zlen em1)
     else mret (0, d1)) (w <| ctl := c1 |>) = Some ((zlen em2, d2), w <| ctl := c2 |>) ∧
    rs_inv N c2 ∧ same_mode (ctl w) c2 ∧ wrote (date_temp w) 0 (em1 ++ em2) d2 ∧
    zlen em1 + zlen em2 ≤ n ∧
    pend_out (ctl w) ++ pend_in (ctl w) = (em1 ++ em2) ++ pend_out c2 ++ pend_in c2 ∧
    (zlen em1 + zlen em2 < n → OutSampReserveLen c2 = 0 ∧ ReservedSampsValid c2 = 0) ∧
    (n mod N = 0 → aligned N (ctl w) → aligned N c2).
Proof.
  intros HN [Hinv Hsrc Htemp] Hn.
  destruct (drain_out_spec N n w) as (em1 & d1 & c1 & E1 & I1 & M1 & Po1 & Pi1 & W1 & R1 & O1 & L1);
    [done|done|lia|lia|]. pose proof (zlen_nonneg em1).
  destruct (drain_in_spec N (zlen em1) (n - zlen em1) d1 (w <| ctl := c1 |>))
    as (em2 & d2 & c2 & E2 & I2 & M2 & Pi2 & Po2 & W2 & O2 & R2 & L2);
    [done|done|lia|lia|destruct W1; lia|]. change (ctl (w <| ctl := c1 |>)) with c1 in *.
  exists em1, em2, d1, d2, c1, c2. pose proof (zlen_nonneg em2). destruct I1, I2.
  split_and!; try (done || lia).
  - by eapply same_mode_trans.
  - by apply (wrote_trans _ 0 _ d1); [lia|done|].
  - rewrite Po1, <- Pi1, Pi2, Po2. pose proof (f_equal zlen Pi2) as Hz.
    rewrite <- !app_assoc. f_equal. destruct (decide (pend_out c1 = [])) as [->|Hne]; [done|].
    assert (em2 = []) as ->; [|done]. apply nil_length_inv.
    assert (OutSampReserveLen c1 ≠ 0). { intros E. apply Hne. unfold pend_out. by rewrite E. }
    unfold zlen in *. lia.
  - intros Hmod [A1 A2].
    assert (zlen em1 mod N = 0) as Hm1
      by (rewrite L1; destruct (Z.min_spec n (OutSampReserveLen (ctl w))) as [[_ ->]|[_ ->]]; done).
    assert (zlen em2 mod N = 0) as Hm2.
    { rewrite L2, R1. destruct (Z.min_spec (n - zlen em1) (ReservedSampsValid (ctl w)))
        as [[_ ->]|[_ ->]]; [apply mod_sub_0; done || lia|done]. }
    split; [rewrite R2, R1|rewrite O2, O1]; apply mod_sub_0; done || lia.
Qed.

Lemma drain_branch_spec e N n w :
  never_fails → 1 ≤ N ≤ 2 → world_ok N w → 0 ≤ n ≤ MAXCH_NUMBER * MAXFRAMESIZE →
  ∃ w' xs em, drain_branch e n w = Some (zlen em, w') ∧
    world_ok N w' ∧ samples w' = samples w ++ xs ∧ wrote (date_temp w) 0 em (date_temp w') ∧
    pend_out (ctl w) ++ pend_in (ctl w) ++ xs = em ++ pend_out (ctl w') ++ pend_in (ctl w') ∧
    resample_type (ctl w') = resample_type (ctl w) ∧
    enable_resample (ctl w') = enable_resample (ctl w) ∧ zlen em ≤ n ∧
    (generous → aligned N (ctl w) → n mod N = 0 → zlen em = n ∧ aligned N (ctl w')).
Proof.
  intros Hnf HN Hok Hn. pose proof Hok as [Hinv Hsrc Htemp].
  destruct (drain_waiting_spec N n w HN Hok Hn)
    as (em1 & em2 & d1 & d2 & c1 & c2 & E1 & E2 & I2 & M & W & Hle & Hp & Hz & Ha).
  pose proof (zlen_nonneg em1). pose proof (zlen_nonneg em2).
  unfold drain_branch. rewrite bind_get_ctl, cm_gets_bind, (cm_bind_some _ _ _ _ _ E1).
  cbv beta iota. rewrite bind_get_ctl. cbn [ctl]. rewrite (cm_bind_some _ _ _ _ _ E2).
  cbv beta iota. rewrite cm_modify_bind, bind_get_ctl. set (w2 := _ <| date_temp := d2 |>).
  assert (∃ w3, (if (OutSampReserveLen (ctl w2) =? 0) && (ReservedSampsValid (ctl w2) =? 0)
      then af_resample_stop_process e else mret tt) w2 = Some (tt, w3) ∧ same_data w2 w3 ∧
      rs_inv N (ctl w3) ∧ pend_in (ctl w3) = pend_in c2 ∧ pend_out (ctl w3) = pend_out c2 ∧
      resample_type (ctl w3) = resample_type c2 ∧ enable_resample (ctl w3) = enable_resample c2)
    as (w3 & E3 & (S1 & S2 & S3) & I3 & Pi3 & Po3 & T3 & N3).
  { destruct (Z.eqb_spec (OutSampReserveLen (ctl w2)) 0) as [EO|]; [|by exists w2].
    destruct (Z.eqb_spec (ReservedSampsValid (ctl w2)) 0) as [ER|]; [|by exists w2].
    destruct (stop_spec e N w2 I2 EO ER) as (w3 & E & Sd & I3 & _ & ? & ? & ? & ? & _).
    exists w3. by split_and!. }
  destruct M as (_ & _ & _ & _ & Mt & Me).
  rewrite (cm_bind_some _ _ _ _ _ E3). rewrite Z.gtb_ltb.
  assert (world_ok N w3) as Hok3.
  { split; [done|by rewrite S1|rewrite S2; destruct W as [W _]; cbn; lia]. }
  destruct (Z.ltb_spec 0 (n - zlen em1 - zlen em2)) as [Hlt|Hge].
  - destruct (pass_rest_spec N (zlen em1 + zlen em2) (n - zlen em1 - zlen em2) w3)
      as (w4 & xs & -> & Hok4 & Hc4 & Ht4 & W4 & Hle4 & Hg4); [done|done|lia..|].
    exists w4, xs, ((em1 ++ em2) ++ xs). rewrite Hc4, !zlen_app.
    destruct (Hz ltac:(lia)) as [HO HR].
    assert (pend_out c2 = [] ∧ pend_in c2 = []) as [Eo Ei]
      by (unfold pend_out, pend_in; by rewrite HO, HR).
    rewrite Eo, Ei, app_nil_r in Hp. rewrite Pi3, Po3, Eo, Ei, Ht4, S3, T3, N3, !app_nil_r.
    split_and!; try done; [..|lia|].
    + eapply wrote_trans; [lia|exact W|]. rewrite zlen_app. rewrite S2 in W4. exact W4.
    + by rewrite <- Hp, app_assoc.
    + intros Hgen Hal Hmod. rewrite (Hg4 Hgen). split; [lia|].
      apply (aligned_pend N c2); try done. auto.
  - exists w3, [], (em1 ++ em2). rewrite zlen_app, !app_nil_r, Pi3, Po3, S2, S3, T3, N3.
    split_and!; try done. intros Hgen Hal Hmod. split; [lia|].
    apply (aligned_pend N c2); try done. auto.
Qed.

Lemma zero_bytes_spec d n :
  0 ≤ n ≤ 2 * zlen d → ∃ d', zero_bytes d n = Some d' ∧ zlen d' = zlen d.
Proof.
  intros Hn. unfold zero_bytes, c_div, c_rem. rewrite Z.quot_div_nonneg, Z.rem_mod_nonneg by lia.
  pose proof (Z.div_mod n 2 ltac:(lia)). pose proof (Z.mod_pos_bound n 2 ltac:(lia)).
  destruct (splice_is d 0 (replicate (Z.to_nat (n / 2)) 0)) as (d1 & -> & Hl);
    [lia|unfold zlen in *; rewrite length_replicate; lia|]. simpl.
  destruct (Z.eqb_spec (n mod 2) 1); [|by exists d1].
  destruct (aget_some d1 (n / 2)) as [x ->]; [lia|]. simpl. rewrite aset_some by lia.
  eexists. split; [done|zlens].
Qed.

Lemma mute_left_spec e size w :
  zlen (date_temp w) = MAXCH_NUMBER * MAXFRAMESIZE → 0 ≤ size ≤ 131072 →
  ∃ d l, mute_left e size w = Some (tt, w <| date_temp := d |> <| pcm_left_len := l |>) ∧
    zlen d = MAXCH_NUMBER * MAXFRAMESIZE.
Proof.
  intros Ht Hs. assert (MAXCH_NUMBER * MAXFRAMESIZE = 65536) as HM by done.
  unfold mute_left. rewrite (cm_bind_some _ _ w w w) by done. cbv zeta.
  set (l := if _ >? 0 then _ else _). rewrite i32_small, Z.geb_leb, Z.gtb_ltb by lia.
  destruct (Z.leb_spec 0 l); [|exists (date_temp w), l; by destruct w].
  destruct (Z.ltb_spec size l).
  - destruct (zero_bytes_spec (date_temp w) size) as (d & Ed & Hd); [lia|].
    rewrite (bind_lift _ _ _ _ Ed). eexists d, _. split; [done|lia].
  - destruct (zero_bytes_spec (date_temp w) l) as (d & Ed & Hd); [lia|].
    rewrite (bind_lift _ _ _ _ Ed). eexists d, _. split; [done|lia].
Qed.

(** The number of samples a call asks for. *)
Definition asked (size : Z) : Z := Z.min (size / 2) (MAXCH_NUMBER * MAXFRAMESIZE).

(** What the choice of the branch needs to know. *)
Definition branch_done (N n : Z) (w w' : rs_world Src) (xs em : list Z) : Prop :=
  world_ok N w' ∧ samples w' = samples w ++ xs ∧ wrote (date_temp w) 0 em (date_temp w') ∧
  call_effect N (ctl w) xs em (ctl w') ∧ resample_type (ctl w') = resample_type (ctl w) ∧
  enable_resample (ctl w') = enable_resample (ctl w) ∧ zlen em ≤ n ∧
  (generous → aligned N (ctl w) → n mod N = 0 → zlen em = n ∧ aligned N (ctl w')).

Lemma drain_done e N n w :
  never_fails → 1 ≤ N ≤ 2 → world_ok N w → 0 ≤ n ≤ MAXCH_NUMBER * MAXFRAMESIZE →
  enable_resample (ctl w) = 0 ∨ LastResamType (ctl w) ≠ resample_type (ctl w) →
  ∀ l, ∃ w' xs em, drain_branch e n (w <| sent := l |>) = Some (zlen em, w') ∧
    branch_done N n w w' xs em.
Proof.
  intros Hnf HN [] Hn Hwhy l.
  destruct (drain_branch_spec e N n (w <| sent := l |>))
    as (w' & xs & em & E & Hok & Ht & Hw & Hp & Hty & Hen & Hle & Hg); [done|done|by split|done|].
  exists w', xs, em. split; [done|]. split_and!; try done. by apply eff_pass.
Qed.

(** The choice of the branch and the branch. *)
Lemma branches_spec e N n w :
  never_fails → 1 ≤ N ≤ 2 → world_ok N w → 0 ≤ n ≤ MAXCH_NUMBER * MAXFRAMESIZE →
  (enable_resample (ctl w) ≠ 0 → ratio_ok e (resample_type (ctl w))) →
  ∃ w' xs em,
    (enable ← (if negb (enable_resample (ctl w) =? 0) then
              if negb (LastResamType (ctl w) =? resample_type (ctl w)) then
                tell (SysfsType (resample_type (ctl w)));;
                if (OutSampReserveLen (ctl w) =? 0) && (ReservedSampsValid (ctl w) =? 0) then
                  af_resample_stop_process e;; mret true
                else mret false
              else mret true
            else mret false);
     (if enable : bool then resample_branch e N n else drain_branch e n)) w =
      Some (zlen em, w') ∧ branch_done N n w w' xs em.
Proof.
  intros Hnf HN Hok Hn Hr. set (c := ctl w) in *.
  destruct (Z.eqb_spec (enable_resample c) 0) as [Een|Een]; cbn [negb].
  { rewrite bind_ret. destruct (drain_done e N n w) with (l := sent w)
      as (w' & xs & em & E & Hb); [done..|by left|].
    exists w', xs, em. split; [|done]. rewrite <- E. by destruct w. }
  specialize (Hr Een).
  destruct (Z.eqb_spec (LastResamType c) (resample_type c)) as [Ety|Ety]; cbn [negb].
  { rewrite bind_ret. by apply resample_branch_spec. }
  set (w1 := w <| sent := SysfsType (resample_type c) :: sent w |>).
  destruct (Z.eqb_spec (OutSampReserveLen c) 0) as [EO|EO]; [
    destruct (Z.eqb_spec (ReservedSampsValid c) 0) as [ER|ER]|].
  2,3: unfold tell; cbn [andb]; rewrite (cm_bind_some _ _ w false w1) by done;
    apply drain_done; try done; by right.
  cbn [andb]. destruct Hok as [Hinv Hsrc Htemp].
  destruct (stop_spec e N w1 Hinv EO ER)
    as (w2 & E2 & (S1 & S2 & S3) & I2 & Hi & Pi & Po & T2 & N2 & L2).
  rewrite (cm_bind_some _ _ w true w2)
    by (unfold tell; rewrite cm_modify_bind; fold w1; by rewrite (cm_bind_some _ _ _ _ _ E2)).
  change (ctl w1) with c in *.
  destruct (resample_branch_spec e N n w2) as
    (w' & xs & em & E & Hok' & Ht & Hw & Heff & Hty & Hen & Hle & Hg);
    [done|split; [done|by rewrite S1|by rewrite S2]|by rewrite T2|by rewrite N2|lia|done|].
  exists w', xs, em. split; [done|]. unfold branch_done. rewrite Hty, Hen, T2, N2, Ht, S3.
  rewrite S2 in Hw. fold c. split_and!; try done.
  - destruct Heff as [bl H1 H2 H3 H4 H5 H6|[H1|H1] H2].
    + apply (eff_resample _ _ _ _ _ bl); try done; [by rewrite H3, T2|by rewrite <- Pi|by rewrite <- Po].
    + by rewrite N2 in H1.
    + rewrite T2, L2 in H1. apply eff_pass; [by right|]. by rewrite <- Pi, <- Po.
  - intros Hgen Hal. apply Hg; [done|]. by apply (aligned_pend N c).
Qed.

(** One call. *)
Lemma api_normal_spec e N size w :
  never_fails → 1 ≤ N ≤ 2 → world_ok N w → 0 ≤ size < 2 ^ 32 →
  (enable_resample (ctl w) ≠ 0 → ratio_ok e (resample_type (ctl w))) →
  ∃ w' xs buf, af_resample_api_normal e size N w = Some ((2 * zlen buf, buf), w') ∧
    world_ok N w' ∧ samples w' = samples w ++ xs ∧ call_effect N (ctl w) xs buf (ctl w') ∧
    resample_type (ctl w') = resample_type (ctl w) ∧
    enable_resample (ctl w') = enable_resample (ctl w) ∧ zlen buf ≤ asked size ∧
    (generous → aligned N (ctl w) → asked size mod N = 0 →
     zlen buf = asked size ∧ aligned N (ctl w')).
Proof.
  intros Hnf HN Hok Hs Hr. assert (MAXCH_NUMBER * MAXFRAMESIZE = 65536) as HM by done.
  unfold af_resample_api_normal. fold (asked size).
  assert (0 ≤ asked size ≤ 65536 ∧ 2 * asked size ≤ size) as [Ha Ha2].
  { unfold asked. pose proof (Z.mul_div_le size 2). pose proof (Z.div_pos size 2). lia. }
  rewrite (cm_bind_some _ _ w (enable_resample (ctl w)) w) by done.
  rewrite (cm_bind_some _ _ w (resample_type (ctl w)) w), bind_get_ctl by done.
  destruct (branches_spec e N (asked size) w) as (w1 & xs & em & E & Hok1 & Hb); [done..|lia|done|].
  apply cm_bind_inv in E as (en & w0 & E0 & E). rewrite (cm_bind_some _ _ _ _ _ E0).
  rewrite (cm_bind_some _ _ _ _ _ E). pose proof (zlen_nonneg em).
  destruct Hb as (Ht & Hw & Heff & Hty & Hen & Hle & Hg).
  rewrite u32_small, cm_gets_bind by lia. rewrite (Z.mul_comm (zlen em)).
  assert (slice (date_temp w1) 0 (2 * zlen em / 2) = Some em) as Es.
  { rewrite Z.mul_comm, Z.div_mul by lia. destruct Hw as [Hl Htk]. destruct Hok.
    rewrite slice_0 by lia. f_equal. exact Htk. }
  rewrite (bind_lift _ _ _ _ Es), (proj2 (Z.ltb_ge _ _)), cm_gets_bind by lia.
  set (w2 := if pcmfd w1 >=? 0 then w1 <| sent := PcmDump (2 * zlen em) :: sent w1 |> else w1).
  rewrite (cm_bind_some _ _ w1 tt w2) by (unfold w2; by destruct (pcmfd w1 >=? 0)).
  assert (ctl w2 = ctl w1 ∧ src w2 = src w1 ∧ date_temp w2 = date_temp w1 ∧ samples w2 = samples w1)
    as (C2 & S2 & D2 & T2) by (unfold w2; by destruct (pcmfd w1 >=? 0)).
  destruct Hok1. destruct (mute_left_spec e (2 * zlen em) w2) as (d & l & Em & Hd);
    [by rewrite D2|lia|].
  rewrite (cm_bind_some _ _ _ _ _ Em). eexists _, xs, em. split; [done|].
  cbn. rewrite C2, T2. split_and!; try done. split; cbn; [by rewrite ?C2|by rewrite ?S2|done].
Qed.

(** ** Runs

    Between the calls the resampler is set up or stopped, the resample type
    is set and other threads act on the source. *)

Inductive rs_op :=
| Setup (p : init_env) (a : av_fields)
| Stop (a : av_fields)
| SetType (ty : Z)
| Feed (f : Src → Src)
| Fetch (e : rs_env) (size : Z).

Fixpoint rs_run (N : Z) (ops : list rs_op) : CM (rs_world Src) (list (list Z)) :=
  match ops with
  | [] => mret []
  | Setup p a :: ops => af_resample_linear_init p a;; rs_run N ops
  | Stop a :: ops => af_resample_linear_stop a;; rs_run N ops
  | SetType ty :: ops => af_set_resample_type ty;; rs_run N ops
  | Feed f :: ops => cm_modify (λ w, w <| src := f (src w) |>);; rs_run N ops
  | Fetch e size :: ops =>
      '(_, buf) ← af_resample_api_normal e size N;
      bufs ← rs_run N ops;
      mret (buf :: bufs)
  end.

Definition type_ok (ty : Z) : Prop :=
  ty = RESAMPLE_TYPE_NONE ∨ ty = RESAMPLE_TYPE_DOWN ∨ ty = RESAMPLE_TYPE_UP.

(** The arrays have room for one sample more than a block. *)
Definition rs_op_ok (op : rs_op) : Prop :=
  match op with
  | Setup _ _ | Stop _ => True
  | SetType ty => type_ok ty
  | Feed f => ∀ s, src_ok s → src_ok (f s)
  | Fetch e size => 0 ≤ size < 2 ^ 32 ∧ -1 ≤ delta_of e ≤ 1
  end.

(** The stream transducer a run implements: from the control block [c], the
    calls return [bufs] and consume the samples [xs]. *)
Inductive rs_spec (N : Z) : af_resample_ctl_t → list rs_op → list (list Z) → list Z →
    af_resample_ctl_t → Prop :=
| spec_nil c : rs_spec N c [] [] [] c
| spec_setup c p a enable ops bufs xs c' :
    rs_spec N (zero_ctl <| enable_resample := enable |>) ops bufs xs c' →
    rs_spec N c (Setup p a :: ops) bufs xs c'
| spec_stop c a ops bufs xs c' :
    rs_spec N c ops bufs xs c' → rs_spec N c (Stop a :: ops) bufs xs c'
| spec_type c ty ops bufs xs c' :
    rs_spec N (c <| resample_type := ty |>) ops bufs xs c' →
    rs_spec N c (SetType ty :: ops) bufs xs c'
| spec_feed c f ops bufs xs c' :
    rs_spec N c ops bufs xs c' → rs_spec N c (Feed f :: ops) bufs xs c'
| spec_fetch c c1 e size xs buf ops bufs xs' c' :
    call_effect N c xs buf c1 → zlen buf ≤ asked size →
    resample_type c1 = resample_type c → enable_resample c1 = enable_resample c →
    (InitFlag c1 ≠ 0 → LastResamType c1 = RESAMPLE_TYPE_NONE →
     SampNumIn c1 = DEFAULT_NUMSAMPS_PERCH) →
    rs_spec N c1 ops bufs xs' c' →
    rs_spec N c (Fetch e size :: ops) (buf :: bufs) (xs ++ xs') c'.

Lemma type_ratio_ok e ty : type_ok ty → -1 ≤ delta_of e ≤ 1 → ratio_ok e ty.
Proof.
  intros Hty Hd. split; [done|]. unfold num_in.
  assert (MAX_NUMSAMPS_PERCH = 129 ∧ DEFAULT_NUMSAMPS_PERCH = 128) as [] by done.
  destruct Hty as [->|[->| ->]]; cbn; lia.
Qed.

(** A call asks for whole frames. *)
Definition whole_frames (N : Z) (op : rs_op) : Prop :=
  match op with Fetch _ size => asked size mod N = 0 | _ => True end.

(** The sizes a run asks for. *)
Definition asked_sizes (ops : list rs_op) : list Z :=
  omap (λ op, match op with Fetch _ size => Some (asked size) | _ => None end) ops.

Lemma set_type_inv N c ty : rs_inv N c → rs_inv N (c <| resample_type := ty |>).
Proof. intros []. by constructor. Qed.

Lemma zero_inv N enable : 1 ≤ N → rs_inv N (zero_ctl <| enable_resample := enable |>).
Proof.
  intros HN. assert (DEFAULT_NUMSAMPS_PERCH = 128) by done.
  constructor; cbn; try (done || lia). apply (Forall_replicate is16 258). unfold is16. lia.
Qed.

(** Setting up drops what waits, and touches nothing of the stream. *)
Lemma setup_spec p a w :
  ∃ a' w' enable, af_resample_linear_init p a w = Some (a', w') ∧ same_data w w' ∧
    ctl w' = zero_ctl <| enable_resample := enable |>.
Proof.
  unfold af_resample_linear_init. rewrite cm_modify_bind.
  destruct (_ && _).
  - rewrite !cm_modify_bind. cbn. destruct (pcmfd w =? -1); by eexists _, _, _.
  - by eexists _, _, 0.
Qed.

Lemma stop_setup_spec a w :
  ∃ w', af_resample_linear_stop a w = Some (tt, w') ∧ same_data w w' ∧ ctl w' = ctl w.
Proof.
  unfold af_resample_linear_stop. destruct (_ =? _); [|by eexists].
  rewrite cm_modify_bind. unfold cm_modify. cbn. destruct (pcmfd w >=? 0); by eexists.
Qed.

Lemma rs_run_spec N ops w :
  never_fails → 1 ≤ N ≤ 2 → world_ok N w → type_ok (resample_type (ctl w)) → Forall rs_op_ok ops →
  ∃ bufs w' xs, rs_run N ops w = Some (bufs, w') ∧ world_ok N w' ∧ samples w' = samples w ++ xs ∧
    rs_spec N (ctl w) ops bufs xs (ctl w') ∧
    (generous → aligned N (ctl w) → Forall (whole_frames N) ops → zlen <$> bufs = asked_sizes ops).
Proof.
  intros Hnf HN. revert w. induction ops as [|op ops IH]; intros w Hok Hty Hops.
  { exists [], w, []. rewrite app_nil_r. split_and!; try done. constructor. }
  apply Forall_cons in Hops as [Hop Hops].
  destruct op as [p a|a|ty|f|e size]; cbn [rs_run].
  - destruct (setup_spec p a w) as (a' & w1 & en & E & (S1 & S2 & S3) & Hc).
    rewrite (cm_bind_some _ _ _ _ _ E). destruct Hok.
    destruct (IH w1) as (bufs & w' & xs & -> & Hok' & Ht & Hs & Hg);
      [split; [rewrite Hc; apply zero_inv; lia|by rewrite S1|by rewrite S2]|rewrite Hc; by left|done|].
    exists bufs, w', xs. rewrite Ht, S3. split_and!; try done; [rewrite Hc in Hs; by econstructor|].
    intros Hgen Hal [_ Hw]%Forall_cons. apply Hg; [done| |done]. rewrite Hc. by split.
  - destruct (stop_setup_spec a w) as (w1 & E & (S1 & S2 & S3) & Hc).
    rewrite (cm_bind_some _ _ _ _ _ E). destruct Hok.
    destruct (IH w1) as (bufs & w' & xs & -> & Hok' & Ht & Hs & Hg);
      [split; [by rewrite Hc|by rewrite S1|by rewrite S2]|by rewrite Hc|done|].
    exists bufs, w', xs. rewrite Ht, S3. rewrite Hc in *. split_and!; try done; [by constructor|].
    intros Hgen Hal [_ Hw]%Forall_cons. by apply Hg.
  - set (w1 := w <| ctl := ctl w <| resample_type := ty |> |>).
    rewrite (cm_bind_some _ _ w 1 w1) by done.
    destruct (IH w1) as (bufs & w' & xs & -> & Hok' & Ht & Hs & Hg);
      [by destruct Hok; split; [apply set_type_inv|..]|done|done|].
    exists bufs, w', xs. split_and!; try done; [by constructor|].
    intros Hgen Hal [_ Hw]%Forall_cons. by apply Hg.
  - rewrite cm_modify_bind. destruct (IH (w <| src := f (src w) |>))
      as (bufs & w' & xs & -> & Hok' & Ht & Hs & Hg); [by destruct Hok; split; [..|apply Hop|]|done|done|].
    exists bufs, w', xs. split_and!; try done; [by constructor|].
    intros Hgen Hal [_ Hw]%Forall_cons. by apply Hg.
  - destruct Hop as [Hsize Hdelta].
    destruct (api_normal_spec e N size w) as
      (w1 & xs & buf & E & Hok1 & Ht1 & Heff & Hty1 & Hen1 & Hle & Hg1);
      [done..|intros _; by apply type_ratio_ok|].
    rewrite (cm_bind_some _ _ _ _ _ E). cbv beta iota.
    destruct (IH w1) as (bufs & w' & xs' & E2 & Hok' & Ht & Hs & Hg); [done|by rewrite Hty1|done|].
    rewrite (cm_bind_some _ _ _ _ _ E2).
    exists (buf :: bufs), w', (xs ++ xs'). split_and!; try done.
    + by rewrite Ht, Ht1, app_assoc.
    + eapply spec_fetch; try done. by destruct Hok1 as [[]].
    + intros Hgen Hal [Hw Hws]%Forall_cons. destruct (Hg1 Hgen Hal Hw) as [Hb Hal1].
      cbn. rewrite Hb. f_equal. by apply Hg.
Qed.

(** ** The ratio one *)

Lemma resample_block_same N b :
  1 ≤ N → zlen b = DEFAULT_NUMSAMPS_PERCH * N →
  resample_block DEFAULT_NUMSAMPS_PERCH DEFAULT_NUMSAMPS_PERCH N b = b.
Proof.
  intros HN Hb. assert (DEFAULT_NUMSAMPS_PERCH = 128 ∧ MAX_NUMSAMPS_PERCH = 129) as [HD HM] by done.
  apply aget_ext. intros k Hk. unfold resample_block. rewrite aget_gen, Z2Nat.id by nia.
  rewrite (proj2 (Z.leb_le 0 k) Hk), <- Hb. cbn [andb].
  destruct (Z.ltb_spec k (zlen b)) as [Hlt|Hge].
  2: { unfold aget. rewrite (proj2 (Z.leb_le 0 k) Hk). symmetry. apply lookup_ge_None.
       unfold zlen in Hge. lia. }
  destruct (aget_some b k) as [x Hx]; [done|]. rewrite Hx. f_equal.
  unfold sample_at. destruct (q14_same DEFAULT_NUMSAMPS_PERCH DEFAULT_NUMSAMPS_PERCH
    ltac:(lia) ltac:(lia) (k / N) eq_refl) as [-> ->].
  assert (chan_at b N (k mod N) (k / N) = x) as Hc
    by (unfold chan_at; by rewrite <- Z.div_mod, Hx by lia).
  destruct (Z.eqb_spec (k / N) (DEFAULT_NUMSAMPS_PERCH - 1)) as [<-|]; [done|].
  unfold lerp. by rewrite Hc, Z.mul_0_l, Z.div_0_l, Z.add_0_r.
Qed.

Lemma resampled_same N bl :
  1 ≤ N → Forall (λ b, zlen b = DEFAULT_NUMSAMPS_PERCH * N) bl →
  resampled DEFAULT_NUMSAMPS_PERCH N bl = concat bl.
Proof.
  intros HN. unfold resampled. induction 1 as [|b bl Hb _ IH]; [done|].
  cbn [fmap list_fmap concat]. rewrite IH, resample_block_same by done. done.
Qed.

Definition keeps_rate (op : rs_op) : Prop :=
  match op with SetType ty => ty = RESAMPLE_TYPE_NONE | Setup _ _ => False | _ => True end.

Lemma spec_identity N c ops bufs xs c' :
  1 ≤ N → rs_spec N c ops bufs xs c' → resample_type c = RESAMPLE_TYPE_NONE →
  Forall keeps_rate ops →
  pend_out c ++ pend_in c ++ xs = concat bufs ++ pend_out c' ++ pend_in c'.
Proof.
  intros HN. induction 1 as [c|c p a en ops bufs xs c' _ IH|c a ops bufs xs c' _ IH|c ty ops bufs xs c' _ IH|c f ops bufs xs c' _ IH|
    c c1 e size xs buf ops bufs xs' c' Heff _ Hty Hen H128 _ IH]; intros Ht Hk.
  - by rewrite app_nil_r.
  - apply Forall_cons in Hk as [[] _].
  - apply Forall_cons in Hk as [_ Hk]. by apply IH.
  - apply Forall_cons in Hk as [-> Hk]. by apply IH.
  - apply Forall_cons in Hk as [_ Hk]. by apply IH.
  - apply Forall_cons in Hk as [_ Hk]. specialize (IH ltac:(by rewrite Hty) Hk).
    cbn [concat]. rewrite <- app_assoc, <- IH. rewrite !app_assoc. f_equal.
    destruct Heff as [bl He Hi Hl Hsz Hin Hout|_ Hp]; rewrite <- !app_assoc; [|done].
    specialize (H128 Hi ltac:(by rewrite Hl)). rewrite H128 in *.
    rewrite Hin. rewrite resampled_same in Hout by done. by rewrite !app_assoc, Hout.
Qed.

(** ** Main theorems *)

(** [C30] As long as the source delivers what it is asked for, every call
    that asks for whole frames gets exactly what it asks for (at most the
    65536 samples of [date_temp]), through any change of the resample type. *)
Theorem resampler_fills_buffers (N : Z) (ops : list rs_op) (w : rs_world Src) :
  never_fails → generous → 1 ≤ N ≤ 2 → world_ok N w → type_ok (resample_type (ctl w)) →
  aligned N (ctl w) → Forall rs_op_ok ops → Forall (whole_frames N) ops →
  ∃ bufs w', rs_run N ops w = Some (bufs, w') ∧ zlen <$> bufs = asked_sizes ops.
Proof.
  intros Hnf Hgen HN Hok Hty Hal Hops Hw.
  destruct (rs_run_spec N ops w Hnf HN Hok Hty Hops) as (bufs & w' & xs & ? & _ & _ & _ & Hg).
  exists bufs, w'. auto.
Qed.

End spec.

(** ** The PCM ring as a source *)

#[export] Program Instance ring_source : PcmSource buffer_stream_t := {|
  src_read := read_pcm_buffer;
  src_ok s := ∃ L q, ring_rep s L q
|}.
Next Obligation.
  intros n s (L & q & Hr) Hn. destruct (read_sim s L q n Hr) as (s' & E & Hr').
  eexists _, _, s'. split; [exact E|]. split; [by eexists _, _|].
  unfold moved. rewrite u64_small by lia. unfold zlen. rewrite length_take. lia.
Qed.

Lemma ring_never_fails : never_fails (Src := buffer_stream_t).
Proof.
  intros n s r bs s' (L & q & Hr) _ E. destruct (read_sim s L q n Hr) as (s2 & E2 & _).
  cbn in E. rewrite E2 in E. injection E as <- _ _. lia.
Qed.

(** ** Where the calls fail *)

(** The state after [af_resample_linear_init], with the two settings. *)
Definition start {Src} (s : Src) (enable ty : Z) : rs_world Src :=
  mk_rs (zero_ctl <| enable_resample := enable |> <| resample_type := ty |>) s 0
    (replicate (Z.to_nat 65536) 0) (-1) (-1) [] [] [].

Lemma start_ok `{PcmSource Src} N (s : Src) enable ty :
  1 ≤ N ≤ 2 → src_ok s → world_ok N (start s enable ty).
Proof.
  intros HN Hs. split; [|done|].
  - cbn [start ctl]. apply (set_type_inv N (zero_ctl <| enable_resample := enable |>)).
    apply zero_inv. lia.
  - cbn [start date_temp]. unfold zlen. rewrite length_replicate, Z2Nat.id; done.
Qed.

(** A source of ever increasing bytes. *)
#[export] Program Instance ramp_source : PcmSource Z := {|
  src_read n s := Some ((n, (λ k, (s + Z.of_nat k) mod 256) <$> seq 0 (Z.to_nat n)), s + n);
  src_ok _ := True
|}.
Next Obligation.
  intros n s _ Hn. eexists _, _, _. split; [done|]. split; [done|]. split; [lia|].
  unfold zlen. rewrite length_fmap, length_seq. lia.
Qed.

Definition plain_env : rs_env := mk_env None false 3 0 0 0.
Definition wfd_env : rs_env := mk_env None true 3 0 0 0.

(** [C40] The two conditions on the outside are needed.  When [dsp_read]
    fails (-1) in a call that does not resample, the unsigned division turns
    the result into minus one sample, [*size] becomes 2^32 - 2 and the copy
    leaves both buffers.  With the wifi display setting a block to be slowed
    down has 130 input samples, one more than the arrays hold. *)
Theorem resampler_overruns :
  (∀ Src `{PcmSource Src} e N size (w : rs_world Src) s',
     1 ≤ N ≤ 2 → world_ok N w → 2 ≤ size < 2 ^ 32 → enable_resample (ctl w) = 0 →
     OutSampReserveLen (ctl w) = 0 → ReservedSampsValid (ctl w) = 0 →
     src_read (asked size * 2) (src w) = Some ((-1, []), s') →
     af_resample_api_normal e size N w = None) ∧
  af_resample_api_normal wfd_env 1024 2 (start 0 1 RESAMPLE_TYPE_DOWN) = None.
Proof.
  split; [|vm_compute; reflexivity].
  intros Src HS e N size w s' HN Hok Hsize Hen HO HR Hread.
  assert (MAXCH_NUMBER * MAXFRAMESIZE = 65536) as HM by done.
  assert (0 < asked size ≤ 65536) as Ha.
  { unfold asked. pose proof (Z.div_le_mono 2 size 2). change (2 / 2) with 1 in *. lia. }
  unfold af_resample_api_normal. fold (asked size).
  rewrite (cm_bind_some _ _ w 0 w) by (by rewrite <- Hen).
  rewrite (cm_bind_some _ _ w (resample_type (ctl w)) w), bind_get_ctl by done.
  cbn [negb Z.eqb]. rewrite bind_ret.
  destruct Hok as [Hinv Hsrc Htemp].
  pose (w0 := w <| date_temp := date_temp w |>).
  destruct (stop_spec e N w0 Hinv HO HR)
    as (w1 & E1 & (S1 & S2 & S3) & I1 & _).
  assert (drain_branch e (asked size) w = Some (-1, w1 <| src := s' |> <| taken := taken w1 ++ [] |> <| date_temp := date_temp w |>
    <| bytes_readed := i64 (bytes_readed w1 + -1) |> <| samples := samples w1 ++ [] |>)) as Hd.
  { unfold drain_branch. rewrite bind_get_ctl, cm_gets_bind, HO.
    change (0 >? 0) with false. cbv iota. rewrite bind_ret, bind_get_ctl, HR.
    change (0 >? 0) with false. cbv iota. rewrite bind_ret. cbv beta iota. rewrite cm_modify_bind, bind_get_ctl.
    rewrite (cm_bind_some _ _ _ tt w1) by (fold w0; change (ctl w0) with (ctl w); rewrite HO, HR; exact E1).
    rewrite Z.add_0_r, !Z.sub_0_r, Z.gtb_ltb, (proj2 (Z.ltb_lt _ _)), i32_small by lia.
    rewrite (cm_bind_some _ _ _ (-1, []) (w1 <| src := s' |> <| taken := taken w1 ++ [] |>))
      by (unfold dsp_read; rewrite S1; cbn; by rewrite Hread).
    cbv beta iota. rewrite cm_gets_bind. cbn. rewrite S2.
    unfold store_bytes. cbn. rewrite splice_some by (unfold zlen; simpl; lia). done. }
  rewrite (cm_bind_some _ _ _ _ _ Hd), cm_gets_bind. cbn [date_temp].
  unfold slice. rewrite (proj2 (Z.leb_gt _ (zlen _))); [done|]. cbn. rewrite Htemp, HM. done.
Qed.

(** ** The theorems at work *)

Definition ring_4k : buffer_stream_t := (init_buff fresh_stream 4096 (Some (replicate 4096 0))).2.

(** Another thread puts a frame into the ring. *)
Definition put_frame (s : buffer_stream_t) : buffer_stream_t :=
  match write_pcm_buffer [1; 2; 3; 4] 4 s with Some (_, s') => s' | None => s end.

Lemma ring_4k_ok : src_ok ring_4k.
Proof.
  exists 4096%nat, []. apply (init_buff_rep fresh_stream 4096 (replicate 4096 0)); [done|].
  unfold INT_MAX. lia.
Qed.

Lemma put_frame_ok s : src_ok s → src_ok (put_frame s).
Proof.
  intros (L & q & Hr). destruct (write_sim s L q [1; 2; 3; 4] 4 Hr) as (s' & E & Hr'); [done|].
  unfold put_frame. rewrite E. by eexists _, _.
Qed.

(** Three calls of different sizes on an endless source. *)
Lemma resampler_fills_buffers_witness :
  ∃ bufs w', rs_run 2 [Fetch plain_env 1200; SetType RESAMPLE_TYPE_UP; Fetch plain_env 512;
                       Fetch plain_env 4] (start 0 1 RESAMPLE_TYPE_DOWN) = Some (bufs, w') ∧
    zlen <$> bufs = [600; 256; 2].
Proof.
  apply (resampler_fills_buffers 2 [Fetch plain_env 1200; SetType RESAMPLE_TYPE_UP;
    Fetch plain_env 512; Fetch plain_env 4] (start 0 1 RESAMPLE_TYPE_DOWN)).
  - intros n s r bs s' _ Hn E. cbn in E. injection E as <- _ _. exact Hn.
  - intros n s _ Hn. by eexists _, _.
  - lia.
  - apply start_ok; [lia|done].
  - right; left; reflexivity.
  - split; reflexivity.
  - rewrite !Forall_cons. split_and!; cbn; try done. by right; right.
  - repeat constructor.
Defined.

(** A source whose reads fail. *)
#[export] Program Instance dead_source : PcmSource unit := {|
  src_read n s := Some ((-1, []), s);
  src_ok _ := True
|}.
Next Obligation. intros n s _ Hn. eexists _, _, _. split_and!; [done|done|lia|done]. Qed.

Lemma resampler_overruns_witness :
  af_resample_api_normal plain_env 1024 2 (start tt 0 RESAMPLE_TYPE_NONE) = None.
Proof.
  apply (proj1 resampler_overruns unit dead_source plain_env 2 1024 _ tt); try done.
  apply (start_ok 2 tt 0 RESAMPLE_TYPE_NONE); done.
Defined.
