(* ===== verification/ResampleBytes.v ===== *)
(** The bytes of the resampler (Resample.v, ResampleStream.v): a source that
    delivers whole samples loses none of its bytes on the way through the
    calls. *)

From S2P Require Import Prelude PcmBuffer Resample ResampleStream.

Section bytes.
Context {Src : Type} `{PcmSource Src}.

(** ** From bytes to samples

    The samples of a run are the bytes taken, when the source delivers whole
    samples. *)

(** From a state with [P], a read of an even number of bytes delivers an even
    number and leads to a state with [P]. *)
Definition whole_samples (P : Src → Prop) : Prop :=
  ∀ n s r bs s', P s → Z.even n = true → src_read n s = Some ((r, bs), s') →
    Z.even (Z.max 0 r) = true ∧ zlen bs = Z.max 0 r ∧ P s'.

(** What other threads do to the source keeps [P]. *)
Definition feeds_whole (P : Src → Prop) (op : rs_op) : Prop :=
  match op with Feed f => ∀ s, P s → P (f s) | _ => True end.

Section ledger.
Context (P : Src → Prop) (Hwhole : whole_samples P).

(** From [w] to [w'] the bytes [bytes] were taken, and all became samples. *)
Record ledger (w w' : rs_world Src) : Prop := {
  lg_bytes : ∃ bytes, taken w' = taken w ++ bytes ∧ samples w' = samples w ++ shorts_of bytes ∧
    Z.even (zlen bytes) = true;
  lg_src : P (src w')
}.

Lemma ledger_refl w : P (src w) → ledger w w.
Proof. intros Hw. split; [|done]. exists []. by rewrite !app_nil_r. Qed.

Lemma even_length (l : list Z) : Z.even (zlen l) = true → Nat.Even (length l).
Proof.
  intros [k Hk]%Z.even_spec. exists (Z.to_nat k). unfold zlen in Hk. lia.
Qed.

Lemma ledger_trans w1 w2 w3 : ledger w1 w2 → ledger w2 w3 → ledger w1 w3.
Proof.
  intros [(b1 & T1 & S1 & E1) _] [(b2 & T2 & S2 & E2) H3]. split; [|done]. exists (b1 ++ b2).
  rewrite T2, T1, S2, S1, shorts_of_app by (by apply even_length). rewrite !app_assoc. split_and!; [done..|].
  by rewrite zlen_app, Z.even_add, E1, E2.
Qed.

(** [m] accounts for the bytes it takes. *)
Definition Accounts {A} (m : CM (rs_world Src) A) : Prop :=
  ∀ w a w', P (src w) → m w = Some (a, w') → ledger w w'.

Lemma acc_ret {A} (a : A) : Accounts (mret a).
Proof. intros w x w' Hw [= _ <-]. by apply ledger_refl. Qed.
Lemma acc_fail {A} : Accounts (@cm_fail (rs_world Src) A).
Proof. by intros w x w' Hw. Qed.
Lemma acc_gets {A} (f : rs_world Src → A) : Accounts (cm_gets f).
Proof. intros w x w' Hw [= _ <-]. by apply ledger_refl. Qed.
Lemma acc_get : Accounts cm_get.
Proof. intros w x w' Hw [= _ <-]. by apply ledger_refl. Qed.
Lemma acc_lift {A} (x : option A) : Accounts (cm_lift x).
Proof. intros w y w' Hw. destruct x; [|done]. intros [= _ <-]. by apply ledger_refl. Qed.
Lemma acc_bind {A B} (m : CM (rs_world Src) A) (f : A → CM (rs_world Src) B) :
  Accounts m → (∀ a, Accounts (f a)) → Accounts (m ≫= f).
Proof.
  intros Hm Hf w b w' Hw. unfold mbind, cm_bind. destruct (m w) as [[a w1]|] eqn:E; [|done]. intros E2.
  pose proof (Hm _ _ _ Hw E) as H1. eapply ledger_trans; [exact H1|]. eapply Hf; [|exact E2]. apply H1.
Qed.
Lemma acc_modify f :
  (∀ w, src (f w) = src w ∧ taken (f w) = taken w ∧ samples (f w) = samples w) → Accounts (cm_modify f).
Proof.
  intros Hf w x w' Hw [= _ <-]. destruct (Hf w) as (E1 & E2 & E3). split; [|by rewrite E1].
  exists []. by rewrite !app_nil_r.
Qed.

Ltac acc_go :=
  repeat first
    [ progress intros
    | lazymatch goal with
      | |- Accounts (_ ≫= _) => apply acc_bind
      | |- Accounts (mret _) => apply acc_ret
      | |- Accounts cm_fail => apply acc_fail
      | |- Accounts (cm_gets _) => apply acc_gets
      | |- Accounts get_ctl => apply acc_gets
      | |- Accounts (cm_lift _) => apply acc_lift
      | |- Accounts (cm_modify _) => apply acc_modify; intros ?; try case_match; split_and!; reflexivity
      | |- Accounts (set_ctl _) => apply acc_modify; intros ?; split_and!; reflexivity
      | |- Accounts (tell _) => apply acc_modify; intros ?; split_and!; reflexivity
      | |- Accounts (if ?b then _ else _) => destruct b
      | |- Accounts (let '(_, _) := ?x in _) => destruct x
      end ].

Lemma acc_delta e k : Accounts (audiodsp_set_pcm_resample_delta e k).
Proof. unfold audiodsp_set_pcm_resample_delta. acc_go. Qed.
Lemma acc_ratio e : Accounts (af_resample_set_SampsNumRatio e).
Proof. unfold af_resample_set_SampsNumRatio, af_get_resample_type. acc_go. apply acc_delta. Qed.
Lemma acc_stop e : Accounts (af_resample_stop_process e).
Proof. unfold af_resample_stop_process. acc_go. apply acc_delta. Qed.
Lemma acc_unpro buf off num : Accounts (af_get_unpro_inputsampnum buf off num).
Proof. unfold af_get_unpro_inputsampnum. acc_go. Qed.
Lemma acc_in_resampler buf off len : Accounts (af_get_pcm_in_resampler buf off len).
Proof. unfold af_get_pcm_in_resampler. acc_go. Qed.
Lemma acc_inner e xs out base N : Accounts (af_resample_process_linear_inner e xs out base N).
Proof. unfold af_resample_process_linear_inner. cbv zeta. acc_go. apply acc_ratio. Qed.

(** The bytes the loop has collected are the bytes it has taken. *)
Lemma read_loop_takes fuel cap len cnt acc w bs w' :
  P (src w) → Z.even len = true → Z.even cnt = true → Z.even (zlen acc) = true →
  pcm_read_loop fuel cap len cnt acc w = Some (bs, w') →
  ∃ new, bs = acc ++ new ∧ taken w' = taken w ++ new ∧ samples w' = samples w ∧ Z.even (zlen bs) = true ∧
    P (src w').
Proof.
  revert cnt acc w. induction fuel as [|fuel IH]; intros cnt acc w Hw Hl Hc Ha; cbn [pcm_read_loop].
  { destruct (cnt <? len); [done|]. intros [= <- <-]. exists []. by rewrite !app_nil_r. }
  destruct (Z.ltb_spec cnt len) as [Hlt|]; [|intros [= <- <-]; exists []; by rewrite !app_nil_r].
  unfold mbind, cm_bind, dsp_read. destruct (src_read (len - cnt) (src w)) as [[[r b] s]|] eqn:E; [|done].
  destruct (Hwhole (len - cnt) (src w) r b s) as (Hr & Hb & Hs); [done|by rewrite Z.even_sub, Hl, Hc|done|].
  cbn [fst snd]. destruct (Z.leb_spec r 0) as [H0|H0].
  - assert (b = []) as -> by (apply nil_length_inv; unfold zlen in Hb; lia).
    intros [= <- <-]. exists []. by rewrite !app_nil_r.
  - rewrite Z.max_r in Hr, Hb by lia. destruct (cap <? cnt + r); [done|]. intros E2.
    destruct (IH (cnt + r) (acc ++ b) (w <| src := s |> <| taken := taken w ++ b |>)) as (new & -> & T & S & Ev & HP);
      [done|done|by rewrite Z.even_add, Hc, Hr|by rewrite zlen_app, Z.even_add, Ha, Hb, Hr|done|].
    exists (b ++ new). rewrite T, S. cbn. by rewrite !app_assoc.
Qed.

Lemma even_twice k : Z.even (i32 (k * 2)) = true.
Proof.
  apply Z.even_spec. unfold i32, wraps. rewrite Z.mod_eq by done.
  exists (k - 2 ^ 31 * ((k * 2 + 2 ^ (32 - 1)) / 2 ^ 32)). change (2 ^ 32) with (2 * 2 ^ 31). ring.
Qed.

Lemma acc_pcm_read cap k : Accounts (dsp_pcm_read cap (i32 (k * 2))).
Proof.
  intros w xs w' Hw. unfold dsp_pcm_read, mbind, cm_bind.
  destruct (pcm_read_loop _ _ _ _ _ _) as [[bs w1]|] eqn:E; [|done]. intros [= _ <-].
  destruct (read_loop_takes (Z.to_nat (i32 (k * 2))) cap (i32 (k * 2)) 0 [] w bs w1) as (new & -> & T & S & Ev & HP);
    [done|apply even_twice|done..|].
  split; [|done]. exists new. cbn. by rewrite T, S.
Qed.

Lemma acc_blocks fuel e N n off : Accounts (blocks_loop fuel e N n off).
Proof.
  revert n off. induction fuel as [|fuel IH]; intros n off; cbn [blocks_loop]; [acc_go|].
  unfold af_get_delta_inputsampnum. acc_go; [apply acc_pcm_read|apply acc_inner|apply IH].
Qed.

Lemma acc_last e N n off : Accounts (last_block e N n off).
Proof. unfold last_block, af_get_delta_inputsampnum. acc_go; [apply acc_pcm_read|apply acc_inner]. Qed.

Lemma acc_resample e N n : Accounts (resample_branch e N n).
Proof.
  unfold resample_branch. acc_go; [apply acc_ratio|apply acc_in_resampler|apply acc_blocks|apply acc_last].
Qed.

(** The read of the branch that does not resample. *)
Lemma acc_pass k off :
  Accounts ('(len, bs) ← dsp_read (i32 (k * 2));
    d ← cm_gets date_temp;
    d ← cm_lift (store_bytes d off bs);
    cm_modify (λ w, w <| date_temp := d |> <| bytes_readed := i64 (bytes_readed w + len) |>
                      <| samples := samples w ++ shorts_of bs |>);;
    mret (i32 (off + u64 len / 2))).
Proof.
  intros w a w' Hw. unfold mbind, cm_bind, dsp_read, cm_gets, cm_lift, cm_modify.
  destruct (src_read (i32 (k * 2)) (src w)) as [[[r bs] s]|] eqn:E; [|done].
  destruct (Hwhole _ _ _ _ _ Hw (even_twice k) E) as (Hr & Hb & Hs).
  cbn. destruct (store_bytes _ _ _); [|done]. intros [= _ <-]. split; [|done]. exists bs. by rewrite Hb.
Qed.

Lemma acc_drain e n : Accounts (drain_branch e n).
Proof.
  unfold drain_branch. apply acc_bind; [acc_go|]. intros c. apply acc_bind; [acc_go|]. intros d.
  apply acc_bind; [acc_go; apply acc_in_resampler|]. intros [got d1]. apply acc_bind; [acc_go|]. intros c1.
  apply acc_bind; [acc_go; apply acc_unpro|]. intros [got2 d2]. do 2 (apply acc_bind; [acc_go|]; intros ?).
  apply acc_bind; [acc_go; apply acc_stop|]. intros _. cbv zeta. destruct (_ >? 0); [apply acc_pass|apply acc_ret].
Qed.

Lemma acc_mute e size : Accounts (mute_left e size).
Proof.
  intros w a w' Hw. unfold mute_left, mbind, cm_bind, cm_get, cm_lift, cm_put. cbv zeta.
  destruct (_ >=? 0); [destruct (_ >? _); destruct (zero_bytes _ _); try done|];
    intros [= _ <-]; (split; [|done]); exists []; by rewrite !app_nil_r.
Qed.

Lemma acc_api e size N : Accounts (af_resample_api_normal e size N).
Proof.
  unfold af_resample_api_normal, af_get_resample_enable_flag, af_get_resample_type. cbv zeta.
  acc_go; first [apply acc_stop|apply acc_resample|apply acc_drain|apply acc_mute].
Qed.

Lemma acc_run N ops : Forall (feeds_whole P) ops → Accounts (rs_run N ops).
Proof.
  induction 1 as [|op ops Hop _ IH]; cbn [rs_run]; [apply acc_ret|].
  destruct op as [p a|a|ty|f|e size]; (apply acc_bind; [|intros; try exact IH]).
  - unfold af_resample_linear_init. acc_go.
  - unfold af_resample_linear_stop. acc_go.
  - unfold af_set_resample_type. acc_go.
  - intros w x w' Hw [= _ <-]. split; [|by apply Hop]. exists []. by rewrite !app_nil_r.
  - apply acc_api.
  - acc_go. exact IH.
Qed.
End ledger.


(** [C9] For one or two channels and a source that never fails and delivers
    whole samples (an even number of bytes per read), with a resample delta
    of at most one sample, however the resample type changes and the calls
    are cut: a run of the resampler does not leave its arrays or overflow,
    keeps its invariant, and is a run of the stream transducer on exactly the
    bytes the source has delivered: a call either resamples whole blocks of
    the waiting and new input samples, of which it hands out the oldest
    output samples, or passes the samples on as they are; nothing is lost,
    repeated or reordered. *)
Theorem resampler_refines_stream (P : Src → Prop) (N : Z) (ops : list rs_op) (w : rs_world Src) :
  never_fails → whole_samples P → P (src w) → Forall (feeds_whole P) ops →
  1 ≤ N ≤ 2 → world_ok N w → type_ok (resample_type (ctl w)) → Forall rs_op_ok ops →
  ∃ bufs w' bytes, rs_run N ops w = Some (bufs, w') ∧ world_ok N w' ∧
    taken w' = taken w ++ bytes ∧ Z.even (zlen bytes) = true ∧
    rs_spec N (ctl w) ops bufs (shorts_of bytes) (ctl w').
Proof.
  intros Hnf Hwh HP Hf HN Hok Hty Hops.
  destruct (rs_run_spec N ops w Hnf HN Hok Hty Hops) as (bufs & w' & xs & E & Hok' & Hs & Hspec & _).
  destruct (acc_run P Hwh N ops Hf w bufs w' HP E) as [(bytes & T & S & Ev) _].
  assert (xs = shorts_of bytes) as -> by (rewrite Hs in S; by apply app_inv_head in S).
  by exists bufs, w', bytes.
Qed.

(** [C29] While the resample type is NONE the resampler is the identity on the
    stream, enabled or not and in the middle of a switch, for a source that
    never fails and delivers whole samples: what the calls return, followed
    by what waits inside, is what waited before followed by the samples of
    all the bytes the source has delivered. *)
Theorem resampler_identity (P : Src → Prop) (N : Z) (ops : list rs_op) (w : rs_world Src) :
  never_fails → whole_samples P → P (src w) → Forall (feeds_whole P) ops →
  1 ≤ N ≤ 2 → world_ok N w → resample_type (ctl w) = RESAMPLE_TYPE_NONE →
  Forall rs_op_ok ops → Forall keeps_rate ops →
  ∃ bufs w' bytes, rs_run N ops w = Some (bufs, w') ∧
    taken w' = taken w ++ bytes ∧ Z.even (zlen bytes) = true ∧
    pend_out (ctl w) ++ pend_in (ctl w) ++ shorts_of bytes =
      concat bufs ++ pend_out (ctl w') ++ pend_in (ctl w').
Proof.
  intros Hnf Hwh HP Hf HN Hok Hty Hops Hk.
  destruct (rs_run_spec N ops w Hnf HN Hok ltac:(by left) Hops) as (bufs & w' & xs & E & _ & Hs & Hspec & _).
  destruct (acc_run P Hwh N ops Hf w bufs w' HP E) as [(bytes & T & S & Ev) _].
  assert (xs = shorts_of bytes) as -> by (rewrite Hs in S; by apply app_inv_head in S).
  exists bufs, w', bytes. split_and!; try done. apply (spec_identity N _ ops); [lia|done..].
Qed.
End bytes.

(** ** The PCM ring delivers whole samples *)

Definition even_ring (s : buffer_stream_t) : Prop :=
  ∃ L q, ring_rep s L q ∧ Z.even (Z.of_nat L) = true ∧ Z.even (zlen q) = true.

Lemma even_u64 n : Z.even n = true → Z.even (u64 n) = true.
Proof.
  intros [k ->]%Z.even_spec. apply Z.even_spec. unfold u64, wrapu. rewrite Z.mod_eq by done.
  exists (k - 2 ^ 63 * (2 * k / 2 ^ 64)). change (2 ^ 64) with (2 * 2 ^ 63) at 1. ring.
Qed.

Lemma moved_even n avail :
  Z.even n = true → Z.even avail = true → 0 ≤ avail → Z.even (Z.of_nat (moved n avail)) = true.
Proof.
  intros Hn%even_u64 Ha H0. unfold moved. pose proof (u64_range n).
  rewrite Z2Nat.id by lia. by destruct (Z.min_spec (u64 n) avail) as [[_ ->]|[_ ->]].
Qed.

Lemma moved_within n (q : list Z) : (moved n (zlen q) ≤ length q)%nat.
Proof. unfold moved. pose proof (Z.le_min_r (u64 n) (zlen q)). unfold zlen in *. lia. Qed.

Lemma ring_whole : whole_samples even_ring.
Proof.
  intros n s r bs s' (L & q & Hr & HL & Hq) Hn E. destruct (read_sim s L q n Hr) as (s2 & E2 & Hr2).
  cbn in E. rewrite E2 in E. injection E as <- <- <-.
  pose proof (moved_even n (zlen q) Hn Hq (zlen_nonneg q)) as Hm. rewrite Z.max_r by lia.
  pose proof (moved_within n q) as Hle. split_and!; [done| |].
  - unfold zlen in *. rewrite length_take. lia.
  - exists L, (drop (moved n (zlen q)) q). split_and!; [done|done|].
    unfold zlen in *. rewrite length_drop, Nat2Z.inj_sub, Z.even_sub, Hm, Hq by done. done.
Qed.

Lemma put_frame_even s : even_ring s → even_ring (put_frame s).
Proof.
  intros (L & q & Hr & HL & Hq). destruct (write_sim s L q [1; 2; 3; 4] 4 Hr) as (s' & E & Hr'); [done|].
  unfold put_frame. rewrite E. eexists _, _. split_and!; [done|done|].
  pose proof (rr_fits _ _ _ Hr) as Hfit.
  assert (Z.even (Z.of_nat (moved 4 (Z.of_nat L - zlen q))) = true) as Hm
    by (apply moved_even; [done|by rewrite Z.even_sub, HL, Hq|unfold zlen; lia]).
  assert (moved 4 (Z.of_nat L - zlen q) ≤ 4)%nat by (unfold moved; change (u64 4) with 4; lia).
  rewrite zlen_app, Z.even_add, Hq. unfold zlen in *. rewrite length_take. cbn [length].
  by rewrite Nat.min_l, Hm.
Qed.

Lemma ring_4k_even : even_ring ring_4k.
Proof.
  exists 4096%nat, []. split_and!; [|done|done].
  apply (init_buff_rep fresh_stream 4096 (replicate 4096 0)); [done|]. unfold INT_MAX. lia.
Qed.

(** ** The theorems at work *)

Definition sample_ops : list (@rs_op buffer_stream_t) :=
  [Feed put_frame; Fetch plain_env 1200; SetType RESAMPLE_TYPE_UP; Feed put_frame;
   Fetch plain_env 512].

Lemma sample_ops_ok : Forall rs_op_ok sample_ops.
Proof.
  unfold sample_ops. rewrite !Forall_cons. split_and!; cbn; try done; try (intros s; apply put_frame_ok).
  by right; right.
Qed.

(** Frames arrive between two calls and the rate changes. *)
Lemma resampler_refines_stream_witness :
  ∃ bufs w' bytes, rs_run 2 sample_ops (start ring_4k 1 RESAMPLE_TYPE_DOWN) = Some (bufs, w') ∧
    world_ok 2 w' ∧ taken w' = [] ++ bytes ∧ Z.even (zlen bytes) = true ∧
    rs_spec 2 (ctl (start ring_4k 1 RESAMPLE_TYPE_DOWN)) sample_ops bufs (shorts_of bytes) (ctl w').
Proof.
  apply (resampler_refines_stream even_ring 2 sample_ops (start ring_4k 1 RESAMPLE_TYPE_DOWN)).
  - exact ring_never_fails.
  - exact ring_whole.
  - apply ring_4k_even.
  - repeat constructor; cbn; intros s; apply put_frame_even.
  - lia.
  - apply start_ok; [lia|apply ring_4k_ok].
  - right; left; reflexivity.
  - apply sample_ops_ok.
Defined.

Definition steady_ops : list (@rs_op buffer_stream_t) :=
  [Feed put_frame; Fetch plain_env 2; Feed put_frame; Fetch plain_env 1024].

(** Two frames pass an enabled resampler. *)
Lemma resampler_identity_witness :
  ∃ bufs w' bytes, rs_run 2 steady_ops (start ring_4k 1 RESAMPLE_TYPE_NONE) = Some (bufs, w') ∧
    taken w' = [] ++ bytes ∧ Z.even (zlen bytes) = true ∧ [] ++ [] ++ shorts_of bytes = concat bufs ++ pend_out (ctl w') ++ pend_in (ctl w').
Proof.
  apply (resampler_identity even_ring 2 steady_ops (start ring_4k 1 RESAMPLE_TYPE_NONE)).
  - exact ring_never_fails.
  - exact ring_whole.
  - apply ring_4k_even.
  - repeat constructor; cbn; intros s; apply put_frame_even.
  - lia.
  - apply start_ok; [lia|apply ring_4k_ok].
  - reflexivity.
  - repeat constructor; cbn; try lia; try done; intros s; apply put_frame_ok.
  - repeat constructor.
Defined.

(** A source whose reads deliver at most three bytes. *)
#[export] Program Instance odd_source : PcmSource bool := {|
  src_read n s := Some ((Z.max 0 (Z.min n 3), take (Z.to_nat (Z.min n 3)) [1; 2; 3]), s);
  src_ok _ := True
|}.
Next Obligation.
  intros n s _ Hn. eexists _, _, _. split_and!; [done|done|lia|]. unfold zlen. rewrite length_take. cbn [length]. lia.
Qed.

(** An odd byte that is read without resampling is handed out to nobody. *)
Example odd_byte_lost :
  (λ x, (x.1.2, samples x.2, taken x.2)) <$>
    af_resample_api_normal plain_env 1024 2 (start true 0 RESAMPLE_TYPE_NONE)
  = Some ([513], [513], [1; 2; 3]).
Proof. vm_compute. reflexivity. Qed.
