(* ===== verification/UioRead.v ===== *)
(** The stream input of the software decoders, adec_read.c: the registers of
    the AIFIFO mapped through /dev/uio0.

    The device answers each register read at the current tick; reading the
    get-bits register pops the next byte of the stream.  The exit request of
    the thread pool is an answer too.  The static variables of the file, the
    descriptor of the instance and the mutex are the state; [buf] is what
    [read_buffer] has stored through its pointer.  A wait without an end stops
    for lack of fuel ([UWait]). *)

From S2P Require Import Prelude.

Record uio_dev := mk_dev {
  dev_level : nat → Z;
  dev_avail : nat → Z;
  dev_ready : nat → bool;
  dev_gbit : nat → Z;
  dev_exit : nat → bool
}.

(** What [uio_init] gets from the system: [open], the four numbers of sysfs,
    the page size and [mmap] ([None] is MAP_FAILED). *)
Record uio_env := mk_uenv {
  ue_open : Z;
  ue_addr : Z;
  ue_size : Z;
  ue_offset : Z;
  ue_addr_offset : Z;
  ue_pagesize : Z;
  ue_mmap : option Z
}.

Inductive uio_event :=
| UOpen (fd : Z) | UMap (addr size : Z) | UClose (fd : Z) | UUnmap (addr size : Z).

Record uio_state := mk_uio {
  memmap : option Z;
  phys_size : Z;
  reg_base : Z;
  fd_uio : Z;
  uio_mutex : bool;
  utick : nat;
  popped : nat;
  buf : list Z;
  uevents : list uio_event
}.

#[export] Instance uio_state_eta : Eta uio_state := λ r,
  mk_uio (memmap r) (phys_size r) (reg_base r) (fd_uio r) (uio_mutex r) (utick r) (popped r)
    (buf r) (uevents r).

Inductive ures (A : Type) := UDone (a : A) (s : uio_state) | UWait (s : uio_state).
Arguments UDone {_} _ _.
Arguments UWait {_} _.

Definition UM (A : Type) : Type := uio_dev → uio_state → ures A.

#[export] Instance um_ret : MRet UM := λ A a _ s, UDone a s.
#[export] Instance um_bind : MBind UM := λ A B f m d s,
  match m d s with UDone a s' => f a d s' | UWait s' => UWait s' end.

Definition sample {A} (f : uio_dev → nat → A) : UM A := λ d s,
  UDone (f d (utick s)) (s <| utick := S (utick s) |>).
Definition umodify (f : uio_state → uio_state) : UM unit := λ _ s, UDone tt (f s).
Definition ugets {A} (f : uio_state → A) : UM A := λ _ s, UDone (f s) s.
Definition ustuck {A} : UM A := λ _ s, UWait s.

(** [pthread_mutex_lock]: taken twice it never returns. *)
Definition lock : UM unit := λ _ s,
  if uio_mutex s then UWait s else UDone tt (s <| uio_mutex := true |>).
Definition unlock : UM unit := umodify (λ s, s <| uio_mutex := false |>).

(** [amthreadpool_thread_usleep] *)
Definition pause : UM unit := umodify (λ s, s <| utick := S (utick s) |>).

(** ** Mapping the registers *)

Definition AIU_AIFIFO_CTRL : Z := 0x1580.

(** [(n + pagesize - 1) & ~(pagesize - 1)] *)
Definition page_up (n pagesize : Z) : Z := Z.land (n + pagesize - 1) (Z.lnot (pagesize - 1)).

Definition uio_init (e : uio_env) : UM Z :=
  umodify (λ s, s <| memmap := None |> <| phys_size := 0 |>);;
  lock;;
  umodify (λ s, s <| fd_uio := ue_open e |>);;
  if ue_open e <? 0 then unlock;; mret (-1) else
  umodify (λ s, s <| uevents := UOpen (ue_open e) :: uevents s |>);;
  let size := i32 (page_up (i32 (ue_size e)) (ue_pagesize e)) in
  umodify (λ s, s <| phys_size := size |> <| memmap := ue_mmap e |>);;
  match ue_mmap e with
  | None => unlock;; mret (-1)
  | Some m =>
      umodify (λ s, s <| uevents := UMap m size :: uevents s |>);;
      let phys_offset := i32 (ue_offset e) in
      let phys_offset :=
        if phys_offset =? 0
        then Z.land (Z.shiftl (AIU_AIFIFO_CTRL + i32 (ue_addr_offset e)) 2) (ue_pagesize e - 1)
        else phys_offset in
      umodify (λ s, s <| reg_base := m + phys_offset |>);;
      unlock;;
      mret 0
  end.

Definition uio_deinit : UM Z :=
  lock;;
  fd ← ugets fd_uio;
  (if fd >=? 0 then umodify (λ s, s <| uevents := UClose fd :: uevents s |>) else mret tt);;
  umodify (λ s, s <| fd_uio := -1 |>);;
  m ← ugets memmap;
  size ← ugets phys_size;
  match m with
  | Some a => if negb (a =? 0) then umodify (λ s, s <| uevents := UUnmap a size :: uevents s |>)
              else mret tt
  | None => mret tt
  end;;
  umodify (λ s, s <| memmap := None |> <| phys_size := 0 |>);;
  unlock;;
  mret 0.

(** ** Reading *)

Definition EXTRA_DATA_SIZE : Z := 128.

Definition read_avail : UM Z := i ← sample dev_avail; mret (i32 i).

(** [while (bytes * 8 < bits)] *)
Fixpoint waiting_loop (fuel : nat) (bytes bits : Z) : UM unit :=
  if i32 (bytes * 8) <? bits then
    match fuel with
    | O => ustuck
    | S fuel =>
        x ← sample dev_exit;
        if x : bool then mret tt else
        pause;;
        bytes ← read_avail;
        waiting_loop fuel bytes bits
    end
  else mret tt.

Definition waiting_bits (fuel : nat) (bits : Z) : UM unit :=
  bytes ← read_avail; waiting_loop fuel bytes bits.

(** [while (bytes == 0)]: [None] is the jump to [out]. *)
Fixpoint data_loop (fuel rounds : nat) (bytes space wait_times : Z) : UM (option Z) :=
  if bytes =? 0 then
    match rounds with
    | O => ustuck
    | S rounds =>
        waiting_bits fuel (if space >? 128 then 128 * 8 else space * 8);;
        bytes ← read_avail;
        let wait_times := wait_times + 1 in
        if wait_times >? 10 then mret None else
        x ← sample dev_exit;
        if x : bool then mret None else
        data_loop fuel rounds bytes space wait_times
    end
  else mret (Some bytes).

(** [while (!AIFIFO_READY)]: [None] is the fatal error. *)
Fixpoint ready_loop (rounds : nat) (fifo_ready_wait : Z) : UM (option Z) :=
  r ← sample dev_ready;
  if r : bool then mret (Some fifo_ready_wait) else
  match rounds with
  | O => ustuck
  | S rounds =>
      let fifo_ready_wait := fifo_ready_wait + 1 in
      pause;;
      if fifo_ready_wait >? 100 then mret None else
      x ← sample dev_exit;
      if x : bool then mret None else
      ready_loop rounds fifo_ready_wait
  end.

(** Eight bits are asked for and read: [*p++ = tmp & 0xff]. *)
Definition pop_byte : UM unit := λ d s,
  UDone tt (s <| popped := S (popped s) |>
              <| buf := buf s ++ [Z.land (dev_gbit d (popped s)) 0xff] |>).

(** [for (i = 0; i < bytes; i++)]: false is the fatal error. *)
Fixpoint byte_loop (n : nat) : UM bool :=
  match n with
  | O => mret true
  | S n =>
      r ← ready_loop 101 0;
      match r with
      | None => mret false
      | Some _ => pop_byte;; byte_loop n
      end
  end.

(** [for (len = 0; len < size;)]: [None] is the fatal error. *)
Fixpoint read_loop (fuel rounds : nat) (size len : Z) : UM (option Z) :=
  if len <? size then
    match rounds with
    | O => ustuck
    | S rounds =>
        let space := size - len in
        bytes ← read_avail;
        got ← data_loop fuel 11 bytes space 0;
        match got with
        | None => mret (Some len)
        | Some bytes =>
            let bytes := if space <? bytes then space else bytes in
            ok ← byte_loop (Z.to_nat bytes);
            if ok : bool then read_loop fuel rounds size (len + bytes) else mret None
        end
    end
  else mret (Some len).

(** [buffer] has room for [size] bytes; [buf] is what was stored. *)
Definition read_buffer (fuel : nat) (size : Z) : UM Z :=
  umodify (λ s, s <| buf := [] |>);;
  lock;;
  m ← ugets memmap;
  match m with
  | None => unlock;; mret 0
  | Some _ =>
      l ← sample dev_level;
      let iii := i32 (l - EXTRA_DATA_SIZE) in
      if size >=? iii then unlock;; mret 0 else
      r ← read_loop fuel (Z.to_nat size) size 0;
      unlock;;
      mret (default 0 r)
  end.

(** ** The stream of bytes *)

(** The [n] bytes the device hands out after the first [k]. *)
Definition stream (d : uio_dev) (k n : nat) : list Z :=
  (λ i, Z.land (dev_gbit d i) 0xff) <$> seq k n.

(** From [s] to [s'] nothing but time passed and [n] bytes were stored. *)
Record stored (d : uio_dev) (s : uio_state) (n : nat) (s' : uio_state) : Prop := {
  st_popped : popped s' = (popped s + n)%nat;
  st_buf : buf s' = buf s ++ stream d (popped s) n;
  st_time : (utick s ≤ utick s')%nat;
  st_rest : memmap s' = memmap s ∧ phys_size s' = phys_size s ∧ reg_base s' = reg_base s ∧
            fd_uio s' = fd_uio s ∧ uio_mutex s' = uio_mutex s ∧ uevents s' = uevents s
}.

Lemma stored_trans d s1 s2 s3 n m : stored d s1 n s2 → stored d s2 m s3 → stored d s1 (n + m) s3.
Proof.
  intros [P1 B1 T1 R1] [P2 B2 T2 R2]. split; [lia| |lia|naive_solver congruence].
  rewrite B2, B1, P1, <- app_assoc. unfold stream. by rewrite seq_app, fmap_app.
Qed.

Lemma stored_tick d s t : (utick s ≤ t)%nat → stored d s 0 (s <| utick := t |>).
Proof. intros. split; cbn; [lia|by rewrite app_nil_r|done|done]. Qed.

(** [uspec d s m P Q]: from [s], [m] ends with [Q], or waits in a state with
    [P]. *)
Definition uspec (d : uio_dev) (s : uio_state) {A} (m : UM A) (P : uio_state → Prop)
    (Q : A → uio_state → Prop) : Prop :=
  match m d s with UDone a s' => Q a s' | UWait s' => P s' end.

Lemma uspec_bind {A B} d s (m : UM A) (f : A → UM B) P Q :
  uspec d s m P (λ a s', uspec d s' (f a) P Q) → uspec d s (m ≫= f) P Q.
Proof. unfold uspec, mbind, um_bind. by destruct (m d s). Qed.

Lemma uspec_mono {A} d s (m : UM A) (P P' : uio_state → Prop) (Q Q' : A → uio_state → Prop) :
  uspec d s m P Q → (∀ s', P s' → P' s') → (∀ a s', Q a s' → Q' a s') → uspec d s m P' Q'.
Proof. unfold uspec. destruct (m d s); auto. Qed.

Lemma uspec_ret {A} d s (a : A) (P : uio_state → Prop) (Q : A → uio_state → Prop) :
  Q a s → uspec d s (mret a) P Q.
Proof. done. Qed.

Lemma uspec_sample {A} d s (f : uio_dev → nat → A) (P : uio_state → Prop) Q :
  Q (f d (utick s)) (s <| utick := S (utick s) |>) → uspec d s (sample f) P Q.
Proof. done. Qed.

Lemma uspec_umodify d s f (P : uio_state → Prop) Q : Q tt (f s) → uspec d s (umodify f) P Q.
Proof. done. Qed.

Lemma uspec_elim {A} d s (m : UM A) P Q :
  uspec d s m P Q → match m d s with UDone a s' => Q a s' | UWait s' => P s' end.
Proof. done. Qed.

#[local] Opaque uspec.

Ltac ustep :=
  lazymatch goal with
  | |- uspec _ _ (_ ≫= _) _ _ => apply uspec_bind
  | |- uspec _ _ (mret _) _ _ => apply uspec_ret
  | |- uspec _ _ (sample _) _ _ => apply uspec_sample
  | |- uspec _ _ (umodify _) _ _ => apply uspec_umodify
  | |- uspec _ _ pause _ _ => apply uspec_umodify
  | |- uspec _ _ unlock _ _ => apply uspec_umodify
  | |- uspec _ _ read_avail _ _ => unfold read_avail
  end; cbv beta.
Ltac usteps := repeat ustep.

(** The device: the counters are small non-negative numbers, as those of a
    fifo are. *)
Definition dev_ok (d : uio_dev) : Prop :=
  (∀ t, 0 ≤ dev_avail d t < 2 ^ 28) ∧ (∀ t, 0 ≤ dev_level d t < 2 ^ 31).

Section reading.
Context (d : uio_dev) (Hd : dev_ok d).

(** Time passes, nothing else. *)
Definition idle (s s' : uio_state) : Prop := stored d s 0 s'.

Lemma idle_refl s : idle s s.
Proof. split; [lia|by rewrite app_nil_r|done|done]. Qed.

Lemma idle_step s s' t : idle s s' → (utick s' ≤ t)%nat → idle s (s' <| utick := t |>).
Proof. intros H Ht. by apply (stored_trans _ _ _ _ 0 0 H), stored_tick. Qed.

Ltac ticks := repeat (apply idle_step; [|cbn; lia]); done.

Lemma waiting_loop_spec fuel bytes bits s0 s :
  idle s0 s → uspec d s (waiting_loop fuel bytes bits) (idle s0) (λ _, idle s0).
Proof.
  revert bytes s. induction fuel as [|fuel IH]; intros bytes s Hs; cbn [waiting_loop];
    destruct (_ <? _); try (by apply uspec_ret); [done|].
  usteps. destruct (dev_exit d _); usteps; [ticks|]. apply IH. ticks.
Qed.

Lemma read_avail_ok t : 0 ≤ i32 (dev_avail d t) < 2 ^ 28.
Proof using Hd. destruct Hd as [Ha _]. specialize (Ha t). rewrite i32_small; lia. Qed.

Lemma data_loop_spec fuel rounds bytes space w s0 s :
  idle s0 s → 0 ≤ bytes → 0 ≤ w ≤ 10 → 11 ≤ Z.of_nat rounds + w →
  uspec d s (data_loop fuel rounds bytes space w) (idle s0)
    (λ r s', idle s0 s' ∧ ∀ b, r = Some b → 0 < b).
Proof using Hd.
  revert bytes w s. induction rounds as [|rounds IH]; intros bytes w s Hs Hb Hw Hr;
    cbn [data_loop]; destruct (Z.eqb_spec bytes 0); try (apply uspec_ret; split; [done|];
    intros b [= <-]; lia); [lia|].
  unfold waiting_bits. usteps.
  eapply uspec_mono; [apply (waiting_loop_spec _ _ _ s0); ticks|done|].
  intros [] s1 Hs1; cbv beta in Hs1. usteps. pose proof (read_avail_ok (utick s1)).
  rewrite Z.gtb_ltb. destruct (Z.ltb_spec 10 (w + 1)); usteps; [split; [ticks|done]|].
  destruct (dev_exit d _); usteps; [split; [ticks|done]|].
  apply IH; [ticks|lia..].
Qed.

Lemma ready_loop_spec rounds w s0 s :
  idle s0 s → 0 ≤ w ≤ 100 → 101 ≤ Z.of_nat rounds + w →
  uspec d s (ready_loop rounds w) (λ _, False)
    (λ r s', idle s0 s' ∧ (r = None → ∃ t, dev_ready d t = false)).
Proof.
  revert w s. induction rounds as [|rounds IH]; intros w s Hs Hw Hr; cbn [ready_loop]; usteps;
    destruct (dev_ready d (utick s)) eqn:E; usteps; try (split; [ticks|done]); [lia|].
  rewrite Z.gtb_ltb. destruct (Z.ltb_spec 100 (w + 1)); usteps; [split; [ticks|eauto]|].
  destruct (dev_exit d _); usteps; [split; [ticks|eauto]|]. apply IH; [ticks|lia..].
Qed.

Lemma pop_byte_spec s0 s n (P : uio_state → Prop) :
  stored d s0 n s → uspec d s pop_byte P (λ _, stored d s0 (S n)).
Proof.
  intros Hs. replace (S n) with (n + 1)%nat by lia.
  assert (stored d s 1 (s <| popped := S (popped s) |>
    <| buf := buf s ++ [Z.land (dev_gbit d (popped s)) 0xff] |>)) as H1
    by (split; cbn; [lia|done|done|done]).
  exact (stored_trans _ _ _ _ _ _ Hs H1).
Qed.

Lemma byte_loop_spec n k s0 s :
  stored d s0 k s →
  uspec d s (byte_loop n) (λ _, False)
    (λ ok s', ∃ m, stored d s0 (k + m) s' ∧ (m ≤ n)%nat ∧
      if ok : bool then m = n else ∃ t, dev_ready d t = false).
Proof.
  revert k s. induction n as [|n IH]; intros k s Hs; cbn [byte_loop]; usteps.
  { exists 0%nat. by rewrite Nat.add_0_r. }
  eapply uspec_mono; [apply (ready_loop_spec _ _ s s); [apply idle_refl|lia|lia]|done|].
  intros r s1 [H1 Hr]. pose proof (stored_trans _ _ _ _ _ _ Hs H1) as Hs1.
  rewrite Nat.add_0_r in Hs1. destruct r as [w|]; usteps.
  - eapply uspec_mono; [apply (pop_byte_spec s0 _ k (λ _, False)); exact Hs1|done|]. intros [] s2 Hs2; cbv beta in Hs2.
    eapply uspec_mono; [by apply IH|done|]. intros ok s3 (m & Hs3 & Hm & Hok).
    exists (S m). rewrite <- Nat.add_succ_comm. split_and!; [done|lia|]. destruct ok; [lia|done].
  - exists 0%nat. rewrite Nat.add_0_r. split_and!; [done|lia|auto].
Qed.

Lemma read_loop_spec fuel rounds size len s0 s :
  stored d s0 (Z.to_nat len) s → 0 ≤ len ≤ size → size < 2 ^ 31 → size - len ≤ Z.of_nat rounds →
  uspec d s (read_loop fuel rounds size len)
    (λ s', ∃ n, stored d s0 n s' ∧ Z.of_nat n < size)
    (λ r s', ∃ n, stored d s0 n s' ∧ Z.of_nat n ≤ size ∧
      match r with Some l => l = Z.of_nat n | None => ∃ t, dev_ready d t = false end).
Proof using Hd.
  revert len s. induction rounds as [|rounds IH]; intros len s Hs Hlen Hsize Hr; cbn [read_loop];
    destruct (Z.ltb_spec len size); usteps; try (exists (Z.to_nat len); split_and!; done || lia).
  set (s1 := s <| utick := S (utick s) |>).
  assert (idle s s1) as H1 by (unfold s1; apply stored_tick; lia).
  pose proof (read_avail_ok (utick s)).
  eapply uspec_mono; [apply (data_loop_spec _ _ _ _ _ s1 s1); [apply idle_refl|lia..]| |].
  { intros s2 H2. exists (Z.to_nat len). split; [|lia].
    pose proof (stored_trans _ _ _ _ _ _ Hs (stored_trans _ _ _ _ _ _ H1 H2)) as H3.
    by rewrite Nat.add_0_r in H3. }
  intros got s2 [H2 Hgot].
  pose proof (stored_trans _ _ _ _ _ _ Hs (stored_trans _ _ _ _ _ _ H1 H2)) as Hs2.
  rewrite Nat.add_0_r in Hs2. destruct got as [b|]; usteps.
  2: { exists (Z.to_nat len). split_and!; done || lia. }
  specialize (Hgot b eq_refl). set (k := if _ <? b then _ else b).
  assert (0 < k ≤ size - len) by (unfold k; destruct (Z.ltb_spec (size - len) b); lia).
  eapply uspec_mono; [by apply (byte_loop_spec (Z.to_nat k) (Z.to_nat len) s0 s2)|done|].
  intros ok s3 (m & Hs3 & Hm & Hok). destruct ok; usteps.
  - apply IH; [|lia..]. by replace (Z.to_nat (len + k)) with (Z.to_nat len + m)%nat by lia.
  - exists (Z.to_nat len + m)%nat. split_and!; [done|lia|done].
Qed.

End reading.

(** ** A fifo that fills up *)

(** Nothing is there before time [T], at least 128 bytes are from then on; the
    fifo is always ready and nobody asks the thread to leave. *)
Record fills_at (d : uio_dev) (T : nat) : Prop := {
  fa_empty t : (t < T)%nat → dev_avail d t = 0;
  fa_full t : (T ≤ t)%nat → 128 ≤ dev_avail d t;
  fa_ready t : dev_ready d t = true;
  fa_exit t : dev_exit d t = false
}.

Section filling.
Context (d : uio_dev) (T : nat) (Hd : dev_ok d) (HT : fills_at d T).

Lemma avail_value t : i32 (dev_avail d t) = dev_avail d t.
Proof using Hd. destruct Hd as [Ha _]. specialize (Ha t). apply i32_small. lia. Qed.

Ltac ticks := repeat (apply idle_step; [|cbn; lia]); done || apply idle_refl.

(** [bytes] was read at the previous tick. *)
Lemma waiting_loop_done fuel t bits s0 s :
  idle d s0 s → utick s = S t → 0 < bits ≤ 1024 → (T < utick s + fuel)%nat →
  uspec d s (waiting_loop fuel (i32 (dev_avail d t)) bits) (λ _, False)
    (λ _ s', idle d s0 s' ∧ (T ≤ utick s')%nat).
Proof using Hd HT.
  revert t s. induction fuel as [|fuel IH]; intros t s Hs Ht Hbits Hf; cbn [waiting_loop];
    rewrite avail_value; pose proof (proj1 Hd t);
    (destruct (decide (T ≤ t)%nat) as [Hle|Hlt];
     [pose proof (fa_full d T HT t Hle); rewrite i32_small by lia;
      rewrite (proj2 (Z.ltb_ge _ _)) by lia; apply uspec_ret; split; [done|lia]|]); [lia|].
  rewrite (fa_empty d T HT t) by lia. change (i32 (0 * 8)) with 0.
  rewrite (proj2 (Z.ltb_lt _ _)) by lia. usteps. rewrite (fa_exit d T HT). usteps.
  apply (IH (S (S (utick s)))); [ticks|done|done|cbn; lia].
Qed.

Lemma data_loop_done fuel t space s0 s :
  idle d s0 s → utick s = S t → 0 < space → (T ≤ fuel)%nat →
  uspec d s (data_loop fuel 11 (i32 (dev_avail d t)) space 0) (λ _, False)
    (λ r s', idle d s0 s' ∧ ∃ b, r = Some b ∧ 0 < b).
Proof using Hd HT.
  intros Hs Ht Hsp Hf. cbn [data_loop]. destruct (Z.eqb_spec (i32 (dev_avail d t)) 0).
  2: { apply uspec_ret. split; [done|]. eexists. split; [done|]. pose proof (read_avail_ok d Hd t). lia. }
  unfold waiting_bits. usteps.
  eapply uspec_mono; [apply (waiting_loop_done _ _ _ s0); [ticks|done| |cbn; lia]|done|].
  { rewrite Z.gtb_ltb. destruct (Z.ltb_spec 128 space); lia. }
  intros [] s1 [Hs1 HT1]. usteps. cbn [Z.gtb Z.compare Pos.compare]. rewrite avail_value.
  pose proof (fa_full d T HT _ HT1). rewrite Z.gtb_ltb. change (10 <? 0 + 1) with false. cbv iota.
  usteps. rewrite (fa_exit d T HT). destruct (Z.eqb_spec (dev_avail d (utick s1)) 0); [lia|].
  usteps. split; [ticks|]. eexists. split; [done|lia].
Qed.

Lemma read_loop_done fuel rounds size len s0 s :
  stored d s0 (Z.to_nat len) s → 0 ≤ len ≤ size → size < 2 ^ 31 → size - len ≤ Z.of_nat rounds →
  (T ≤ fuel)%nat →
  uspec d s (read_loop fuel rounds size len) (λ _, False)
    (λ r s', r = Some size ∧ stored d s0 (Z.to_nat size) s').
Proof using Hd HT.
  revert len s. induction rounds as [|rounds IH]; intros len s Hs Hlen Hsize Hr Hf; cbn [read_loop];
    destruct (Z.ltb_spec len size); usteps;
    try (assert (len = size) as <- by lia; split; done); [lia|].
  eapply uspec_mono; [apply (data_loop_done _ _ _ s); [apply stored_tick|..]; cbn; done || lia|done|].
  intros got s1 (H1 & b & -> & Hb). usteps.
  pose proof (stored_trans _ _ _ _ _ _ Hs H1) as Hs1. rewrite Nat.add_0_r in Hs1.
  set (k := if _ <? b then _ else b).
  assert (0 < k ≤ size - len) by (unfold k; destruct (Z.ltb_spec (size - len) b); lia).
  eapply uspec_mono; [by apply (byte_loop_spec d (Z.to_nat k) (Z.to_nat len) s0 s1)|done|].
  intros ok s2 (m & Hs2 & Hm & Hok). destruct ok; usteps.
  - apply IH; [|lia..]. by replace (Z.to_nat (len + k)) with (Z.to_nat len + m)%nat by lia.
  - destruct Hok as [t Ht]. by rewrite (fa_ready d T HT) in Ht.
Qed.

End filling.

(** ** Main theorems *)

Lemma read_buffer_unfold fuel size d s :
  uio_mutex s = false →
  read_buffer fuel size d s =
    let s1 := s <| buf := [] |> <| uio_mutex := true |> in
    match memmap s with
    | None => UDone 0 (s1 <| uio_mutex := false |>)
    | Some _ =>
        let s2 := s1 <| utick := S (utick s) |> in
        if size >=? i32 (dev_level d (utick s) - EXTRA_DATA_SIZE)
        then UDone 0 (s2 <| uio_mutex := false |>)
        else match read_loop fuel (Z.to_nat size) size 0 d s2 with
             | UDone r s' => UDone (default 0 r) (s' <| uio_mutex := false |>)
             | UWait s' => UWait s'
             end
    end.
Proof.
  intros Hm. unfold read_buffer, umodify, lock, mbind, um_bind. cbn. rewrite Hm. cbn.
  destruct (memmap s); [|done]. cbn. destruct (_ >=? _); [done|].
  by destruct (read_loop _ _ _ _ _ _).
Qed.

(** [C26] Whatever a device answers whose counters are in range (less than 256
    MB available and a level below 2^31: [dev_ok]; [overfull] shows a counter
    out of range), a call of [read_buffer] that returns has
    released the mutex and kept the mapping; the bytes it stored are the next
    bytes of the stream in order, never more than asked for, and the result
    is their number, or 0: nothing was read, or the fifo was not ready in the
    middle and the bytes already taken from it are lost.  A call that does not
    return has stored less than it was asked for and holds the mutex. *)
Theorem read_buffer_stream (d : uio_dev) (fuel : nat) (size : Z) (s : uio_state) :
  dev_ok d → uio_mutex s = false → 0 ≤ size < 2 ^ 31 →
  match read_buffer fuel size d s with
  | UDone r s' =>
      uio_mutex s' = false ∧ memmap s' = memmap s ∧ fd_uio s' = fd_uio s ∧
      ∃ n, popped s' = (popped s + n)%nat ∧ buf s' = stream d (popped s) n ∧ Z.of_nat n ≤ size ∧
        (r = Z.of_nat n ∨ r = 0 ∧ ∃ t, dev_ready d t = false)
  | UWait s' =>
      uio_mutex s' = true ∧
      ∃ n, popped s' = (popped s + n)%nat ∧ buf s' = stream d (popped s) n ∧ Z.of_nat n < size
  end.
Proof.
  intros Hd Hm Hsize. rewrite read_buffer_unfold by done. cbv zeta.
  destruct (memmap s) as [m|] eqn:Em; cbn.
  2: { split_and!; try done. exists 0%nat. cbn. split_and!; try (done || lia || by left). }
  destruct (_ >=? _); cbn.
  { split_and!; try done. exists 0%nat. cbn. split_and!; try (done || lia || by left). }
  set (s2 := mk_uio _ _ _ _ _ _ _ _ _).
  pose proof (uspec_elim _ _ _ _ _ (read_loop_spec d Hd fuel (Z.to_nat size) size 0 s2 s2
    (idle_refl d s2) ltac:(lia) ltac:(lia) ltac:(lia))) as H.
  destruct (read_loop _ _ _ _ _ _) as [r s'|s'].
  - destruct H as (n & [P B _ (M & _ & _ & F & L & _)] & Hn & Hr).
    cbn in *. rewrite M, F. split_and!; try done. exists n. split_and!; try done.
    destruct r as [l|]; [left|right]; done.
  - destruct H as (n & [P B _ (M & _ & _ & F & L & _)] & Hn).
    cbn in *. split; [done|]. exists n. done.
Qed.

(** [C27] A call of [read_buffer] on mapped registers with enough data
    announced returns exactly the bytes it was asked for, the next ones of the
    stream, once the fifo fills, however late that is. *)
Theorem read_buffer_completes (d : uio_dev) (T fuel : nat) (size : Z) (s : uio_state) :
  dev_ok d → fills_at d T → (T ≤ fuel)%nat → uio_mutex s = false → memmap s ≠ None →
  0 ≤ size < dev_level d (utick s) - EXTRA_DATA_SIZE →
  ∃ s', read_buffer fuel size d s = UDone size s' ∧
    buf s' = stream d (popped s) (Z.to_nat size) ∧ zlen (buf s') = size ∧
    popped s' = (popped s + Z.to_nat size)%nat.
Proof.
  intros Hd HT Hf Hm Hmap Hsize. rewrite read_buffer_unfold by done. cbv zeta.
  destruct (memmap s) as [m|] eqn:Em; [|done].
  pose proof (proj2 Hd (utick s)) as Hl. unfold EXTRA_DATA_SIZE in *.
  rewrite i32_small, Z.geb_leb, (proj2 (Z.leb_gt _ _)) by lia. cbn.
  set (s2 := mk_uio _ _ _ _ _ _ _ _ _).
  pose proof (uspec_elim _ _ _ _ _ (read_loop_done d T Hd HT fuel (Z.to_nat size) size 0 s2 s2
    (idle_refl d s2) ltac:(lia) ltac:(lia) ltac:(lia) Hf)) as H.
  destruct (read_loop _ _ _ _ _ _) as [r s'|s']; [|done]. destruct H as (-> & [P B _ _]). eexists. split; [done|].
  cbn in *. rewrite B. split_and!; try done.
  unfold stream, zlen. rewrite length_fmap, length_seq. lia.
Qed.

(** ** The life of the mapping *)

(** How often a descriptor is open, and a range mapped. *)
Fixpoint open_count (fd : Z) (l : list uio_event) : Z :=
  match l with
  | [] => 0
  | UOpen f :: l => open_count fd l + Z.b2z (f =? fd)
  | UClose f :: l => open_count fd l - Z.b2z (f =? fd)
  | _ :: l => open_count fd l
  end.

Fixpoint map_count (addr size : Z) (l : list uio_event) : Z :=
  match l with
  | [] => 0
  | UMap a n :: l => map_count addr size l + Z.b2z ((a =? addr) && (n =? size))
  | UUnmap a n :: l => map_count addr size l - Z.b2z ((a =? addr) && (n =? size))
  | _ :: l => map_count addr size l
  end.

Fixpoint reads (fuel : nat) (sizes : list Z) : UM (list Z) :=
  match sizes with
  | [] => mret []
  | n :: sizes => r ← read_buffer fuel n; rs ← reads fuel sizes; mret (r :: rs)
  end.

(** A thread maps the registers, reads, and releases them. *)
Definition uio_session (e : uio_env) (fuel : nat) (sizes : list Z) : UM (Z * list Z) :=
  r ← uio_init e;
  rs ← reads fuel sizes;
  uio_deinit;;
  mret (r, rs).

(** The mapping of [s'] is that of [s]. *)
Definition same_map (s s' : uio_state) : Prop :=
  memmap s' = memmap s ∧ phys_size s' = phys_size s ∧ fd_uio s' = fd_uio s ∧
  uio_mutex s' = uio_mutex s ∧ uevents s' = uevents s.

Lemma read_buffer_keeps d fuel size s :
  dev_ok d → uio_mutex s = false → 0 ≤ size < 2 ^ 31 →
  match read_buffer fuel size d s with
  | UDone r s' => same_map s s' ∧ (memmap s = None → r = 0)
  | UWait _ => True
  end.
Proof.
  intros Hd Hm Hsize. rewrite read_buffer_unfold by done. cbv zeta. unfold same_map.
  destruct (memmap s) as [m|] eqn:Em; cbn; [|by rewrite Hm].
  destruct (_ >=? _); cbn; [by rewrite Hm|].
  set (s2 := mk_uio _ _ _ _ _ _ _ _ _).
  pose proof (uspec_elim _ _ _ _ _ (read_loop_spec d Hd fuel (Z.to_nat size) size 0 s2 s2
    (idle_refl d s2) ltac:(lia) ltac:(lia) ltac:(lia))) as H.
  destruct (read_loop _ _ _ _ _ _) as [r s'|s']; [|done].
  destruct H as (n & [_ _ _ (M & ? & _ & F & L & ?)] & _). cbn in *.
  split; [split_and!; congruence|congruence].
Qed.

Lemma reads_keep d fuel sizes s :
  dev_ok d → uio_mutex s = false → Forall (λ n, 0 ≤ n < 2 ^ 31) sizes →
  match reads fuel sizes d s with
  | UDone rs s' => same_map s s' ∧ (memmap s = None → Forall (λ r, r = 0) rs)
  | UWait _ => True
  end.
Proof.
  intros Hd. revert s. induction sizes as [|n sizes IH]; intros s Hm Hs; cbn [reads]; [done|].
  apply Forall_cons in Hs as [Hn Hs]. unfold mbind, um_bind.
  pose proof (read_buffer_keeps d fuel n s Hd Hm Hn) as H.
  destruct (read_buffer fuel n d s) as [r s1|]; [|done]. destruct H as [(M & P & F & L & E) Hr].
  specialize (IH s1 ltac:(by rewrite L) Hs).
  destruct (reads fuel sizes d s1) as [rs s2|]; [|done]. destruct IH as [(M2 & P2 & F2 & L2 & E2) Hrs].
  cbn. split; [unfold same_map; split_and!; congruence|]. intros Hnone.
  constructor; [auto|]. apply Hrs. congruence.
Qed.

(** A session leaves nothing behind: whatever [open] and [mmap] answer
    and whatever is read, when it ends every descriptor it opened is closed,
    the range it mapped is unmapped with the size it was mapped with, the
    mutex is free; where the mapping failed all reads return 0. *)
Theorem uio_session_releases (d : uio_dev) (e : uio_env) (fuel : nat) (sizes : list Z)
    (s : uio_state) :
  dev_ok d → uio_mutex s = false → ue_mmap e ≠ Some 0 → Forall (λ n, 0 ≤ n < 2 ^ 31) sizes →
  match uio_session e fuel sizes d s with
  | UDone (r, rs) s' =>
      (∀ fd, open_count fd (uevents s') = open_count fd (uevents s)) ∧
      (∀ a n, map_count a n (uevents s') = map_count a n (uevents s)) ∧
      memmap s' = None ∧ fd_uio s' = -1 ∧ uio_mutex s' = false ∧
      (r = 0 ∨ r = -1 ∧ Forall (λ x, x = 0) rs)
  | UWait _ => True
  end.
Proof.
  intros Hd Hm Hne Hs. unfold uio_session, mbind, um_bind.
  assert (∃ r s1, uio_init e d s = UDone r s1 ∧ uio_mutex s1 = false ∧
    (r = 0 ∨ r = -1 ∧ memmap s1 = None) ∧ fd_uio s1 = ue_open e ∧
    memmap s1 = (if ue_open e <? 0 then None else ue_mmap e) ∧
    uevents s1 = (if ue_open e <? 0 then [] else
                  match ue_mmap e with None => [] | Some a => [UMap a (phys_size s1)] end
                  ++ [UOpen (ue_open e)]) ++ uevents s) as (r & s1 & -> & L1 & Hr & F1 & M1 & E1).
  { unfold uio_init, lock, umodify, mbind, um_bind. cbn. rewrite Hm. cbn.
    destruct (ue_open e <? 0); cbn; [eexists _, _; split_and!; try done; auto|].
    destruct (ue_mmap e) as [a|]; cbn; eexists _, _; split_and!; try done; auto. }
  pose proof (reads_keep d fuel sizes s1 Hd L1 Hs) as Hk.
  destruct (reads fuel sizes d s1) as [rs s2|]; [|done].
  destruct Hk as [(M2 & P2 & F2 & L2 & E2) Hrs].
  unfold uio_deinit, lock, umodify, ugets, mbind, um_bind. rewrite L2, L1. cbn.
  rewrite F2, F1, M2, M1, E2, E1, P2, Z.geb_leb. destruct (Z.ltb_spec (ue_open e) 0) as [Hf|Hf].
  - rewrite (proj2 (Z.leb_gt _ _)) by lia. cbn. split_and!; try done. naive_solver.
  - rewrite (proj2 (Z.leb_le _ _)) by lia. cbn. destruct (ue_mmap e) as [a|]; cbn.
    + destruct (Z.eqb_spec a 0); [congruence|]. cbn. split_and!; try done; [intros; lia..|naive_solver].
    + split_and!; try done; [intros; lia|naive_solver].
Qed.

(** ** The theorems at work *)

(** A fifo that holds nothing for five ticks and 200 bytes afterwards. *)
Definition late_dev : uio_dev :=
  mk_dev (λ _, 1000) (λ t, if (t <? 5)%nat then 0 else 200) (λ _, true)
    (λ k, Z.of_nat k * 257) (λ _, false).

(** One that stops being ready. *)
Definition stuck_dev : uio_dev :=
  mk_dev (λ _, 1000) (λ _, 64) (λ t, (t <? 6)%nat) (λ k, Z.of_nat k) (λ _, false).

Definition mapped : uio_state := mk_uio (Some 4096) 4096 5632 3 false 0 0 [] [].
Definition unmapped : uio_state := mk_uio None 0 0 (-1) false 0 0 [] [].

Lemma late_dev_ok : dev_ok late_dev.
Proof.
  split; intros t; cbn [late_dev dev_avail dev_level]; [destruct (t <? 5)%nat; lia|lia].
Qed.

Lemma stuck_dev_ok : dev_ok stuck_dev.
Proof. split; intros t; cbn; lia. Qed.

(** The fifo gives four bytes of ten and stops: the call returns 0. *)
Lemma read_buffer_stream_witness :
  ∃ s', read_buffer 3 10 stuck_dev mapped = UDone 0 s' ∧
    buf s' = [0; 1; 2; 3] ∧ popped s' = 4%nat ∧ uio_mutex s' = false.
Proof.
  pose proof (read_buffer_stream stuck_dev 3 10 mapped stuck_dev_ok eq_refl ltac:(lia)) as H.
  destruct (read_buffer 3 10 stuck_dev mapped) as [r s'|s'] eqn:E; vm_compute in E; [|done].
  injection E as <- <-. eexists. split; [reflexivity|]. split; [reflexivity|].
  split; [reflexivity|]. exact (proj1 H).
Defined.

(** A counter out of range: all bits set, which [int bytes] takes for -1, makes
    [len] negative, and three bytes are stored into a buffer of two. *)
Definition wild_dev : uio_dev :=
  mk_dev (λ _, 1000) (λ t, if (t <? 2)%nat then 2 ^ 32 - 1 else 3) (λ _, true) (λ k, Z.of_nat k) (λ _, false).

Example overfull :
  match read_buffer 3 2 wild_dev mapped with UDone r s' => Some (r, buf s') | UWait _ => None end
  = Some (2, [0; 1; 2]).
Proof. vm_compute. reflexivity. Qed.

(** Three hundred bytes in two chunks. *)
Lemma read_buffer_completes_witness :
  ∃ s', read_buffer 5 300 late_dev mapped = UDone 300 s' ∧
    buf s' = stream late_dev 0 300 ∧ zlen (buf s') = 300 ∧ popped s' = 300%nat.
Proof.
  apply (read_buffer_completes late_dev 5 5 300 mapped).
  - exact late_dev_ok.
  - split; intros t; cbn [late_dev dev_avail dev_ready dev_exit]; try done; intros Ht.
    + by rewrite (proj2 (Nat.ltb_lt _ _)).
    + rewrite (proj2 (Nat.ltb_ge _ _)) by done. lia.
  - lia.
  - reflexivity.
  - discriminate.
  - cbn. unfold EXTRA_DATA_SIZE. lia.
Defined.

(** The registers are mapped, 20 bytes are read, everything is released. *)
Lemma uio_session_releases_witness :
  match uio_session (mk_uenv 7 0 60 0 0 4096 (Some 65536)) 9 [20] late_dev unmapped with
  | UDone (r, rs) s' =>
      (∀ fd, open_count fd (uevents s') = open_count fd []) ∧
      (∀ a n, map_count a n (uevents s') = map_count a n []) ∧
      memmap s' = None ∧ fd_uio s' = -1 ∧ uio_mutex s' = false ∧
      (r = 0 ∨ r = -1 ∧ Forall (λ x, x = 0) rs)
  | UWait _ => True
  end.
Proof.
  apply (uio_session_releases late_dev (mk_uenv 7 0 60 0 0 4096 (Some 65536)) 9 [20] unmapped).
  - exact late_dev_ok.
  - reflexivity.
  - discriminate.
  - repeat constructor; lia.
Defined.
