(* ===== verification/ThreadPool.v ===== *)
(** The thread pool of media/amavutils/amthreadpool.c.

    Every thread created through the pool has a block of thread data, listed
    by thread id in [threadpool_threadlist]; the threads started below one
    top-level thread share a pool, listed in [threadpool_list] under the id of
    that thread.  All three kinds of list are itemlists with
    [reject_same_item_data] set and no bound: they are used as finite maps
    from thread ids to pointers, and are [pid_map]s here; [pid_map_steps]
    says that the map operations are the steps of the queue that itemlist.c
    refines.  The functions take the locks of the lists one at a time; a call
    is one step of the model.

    [None] is an access to a block that is not live. *)

From S2P Require Import Prelude ListHead ItemList.

(** ** Lists of threads *)

Abbreviation pid_map := (gmap Z Z).

(** The item of a pair, as [itemlist_add_tail_data_ext] stores it. *)
Definition pid_item `{Allocator} (x : Z * Z) : item := mk_item x.1 ([x.2] ++ [junk]).

(** The queue of items [q] stands for the map [m]. *)
Definition holds `{Allocator} (q : list item) (m : pid_map) : Prop :=
  ∃ l, q = pid_item <$> l ∧ NoDup l.*1 ∧ list_to_map l = m.

Definition pm_add (pid p : Z) (room : bool) (m : pid_map) : Z * pid_map :=
  match m !! pid with
  | Some _ => (0, m)
  | None => if room then (0, <[pid := p]> m) else (-12, m)
  end.

(** ** Data *)

Definition MAX_THREAD_DEPTH : Z := 8.

Record threadpool_t := mk_tpool { pool_pid : Z; threadlist : pid_map }.

Record threadpool_thread_data_t := mk_tdata {
  td_pid : Z;
  ppid : list Z;
  td_pool : Z;
  on_required_exit : Z;
  thread_inited : Z
}.

#[export] Instance thread_data_eta : Eta threadpool_thread_data_t := λ r,
  mk_tdata (td_pid r) (ppid r) (td_pool r) (on_required_exit r) (thread_inited r).

Record tp_world := mk_tpw {
  threadpool_list : pid_map;
  threadpool_threadlist : pid_map;
  pools : gmap Z threadpool_t;
  threads : gmap Z threadpool_thread_data_t;
  sys_inited : Z
}.

#[export] Instance tp_world_eta : Eta tp_world := λ r,
  mk_tpw (threadpool_list r) (threadpool_threadlist r) (pools r) (threads r) (sys_inited r).

(** The allocator: what [malloc] returns for a pool or for thread data, and
    whether an item can be had. *)
Class TpAlloc := {
  tp_malloc : tp_world → option Z;
  item_room : tp_world → bool;
  tp_malloc_fresh w p :
    tp_malloc w = Some p → p ≠ NULL ∧ pools w !! p = None ∧ threads w !! p = None
}.

Section ops.
Context `{TpAlloc}.

Definition get_thread (t : Z) : CM tp_world threadpool_thread_data_t := λ w,
  (λ x, (x, w)) <$> threads w !! t.
Definition set_thread (t : Z) (x : threadpool_thread_data_t) : CM tp_world unit := λ w,
  match threads w !! t with
  | Some _ => Some (tt, w <| threads := <[t := x]> (threads w) |>)
  | None => None
  end.
Definition free_thread (t : Z) : CM tp_world unit := λ w,
  match threads w !! t with
  | Some _ => Some (tt, w <| threads := delete t (threads w) |>)
  | None => None
  end.
Definition get_pool (p : Z) : CM tp_world threadpool_t := λ w, (λ x, (x, w)) <$> pools w !! p.
Definition set_pool (p : Z) (x : threadpool_t) : CM tp_world unit := λ w,
  match pools w !! p with
  | Some _ => Some (tt, w <| pools := <[p := x]> (pools w) |>)
  | None => None
  end.
Definition free_pool (p : Z) : CM tp_world unit := λ w,
  match pools w !! p with
  | Some _ => Some (tt, w <| pools := delete p (pools w) |>)
  | None => None
  end.

(** The thread data of a thread id, or NULL. *)
Definition amthreadpool_findthead_thread_data (pid : Z) : CM tp_world Z :=
  cm_gets (λ w, default NULL (threadpool_threadlist w !! pid)).

(** [itemlist_add_tail_data_ext (&threadpool_list, ...)] and the like. *)
Definition add_to_pools (pid p : Z) : CM tp_world Z := λ w,
  let (r, m) := pm_add pid p (item_room w) (threadpool_list w) in
  Some (r, w <| threadpool_list := m |>).
Definition add_to_threads (pid t : Z) : CM tp_world Z := λ w,
  let (r, m) := pm_add pid t (item_room w) (threadpool_threadlist w) in
  Some (r, w <| threadpool_threadlist := m |>).
Definition add_to_pool (p pid t : Z) : CM tp_world Z :=
  pl ← get_pool p;
  room ← cm_gets item_room;
  let (r, m) := pm_add pid t room (threadlist pl) in
  set_pool p (mk_tpool (pool_pid pl) m);;
  mret r.

(** [self] is [pthread_self()]. *)
Definition amthreadpool_create_pool (self pid : Z) : CM tp_world Z :=
  w ← cm_get;
  match tp_malloc w with
  | None => mret NULL
  | Some pool =>
      let owner := if pid =? 0 then self else pid in
      cm_put (w <| pools := <[pool := mk_tpool owner ∅]> (pools w) |>);;
      add_to_pools owner pool;;
      mret pool
  end.

Definition amthreadpool_pool_add_thread (self pool pid thread : Z) : CM tp_world Z :=
  t ← get_thread thread;
  ret ← (if negb (pool =? NULL) then add_to_pool pool (td_pid t) thread
         else
           pool ← amthreadpool_create_pool self pid;
           t ← get_thread thread;
           set_thread thread (t <| td_pool := pool |>);;
           mret 0);
  ret2 ← add_to_threads (td_pid t) thread;
  mret (Z.lor ret ret2).

Definition amthreadpool_release (pid : Z) : CM tp_world Z :=
  poolitem ← cm_gets (λ w, threadpool_list w !! pid);
  match poolitem with
  | Some pool =>
      cm_modify (λ w, w <| threadpool_list := delete pid (threadpool_list w) |>);;
      get_pool pool;;
      free_pool pool;;
      mret 0
  | None => mret 0
  end.

Definition amthreadpool_pool_del_thread (pid : Z) : CM tp_world Z :=
  it ← cm_gets (λ w, threadpool_threadlist w !! pid);
  match it with
  | None => mret (-2)
  | Some t1 =>
      cm_modify (λ w, w <| threadpool_threadlist := delete pid (threadpool_threadlist w) |>);;
      t ← get_thread t1;
      pl ← get_pool (td_pool t);
      set_pool (td_pool t) (mk_tpool (pool_pid pl) (delete pid (threadlist pl)));;
      free_thread t1;;
      pl ← get_pool (td_pool t);
      (if pool_pid pl =? pid then amthreadpool_release pid else mret 0);;
      mret 0
  end.

(** The mutex is held for the assignment and the signal. *)
Definition amthreadpool_thread_wake_t (t trycancel : Z) : CM tp_world Z :=
  x ← get_thread t;
  set_thread t (x <| on_required_exit := trycancel |>);;
  mret 0.

(** [pthread_cond_timedwait] until the deadline: seconds and nanoseconds.
    [None] is a plain [usleep]. *)
Definition amthreadpool_thread_usleep_in (self us tv_sec tv_usec : Z) :
    CM tp_world (option (Z * Z)) :=
  t ← amthreadpool_findthead_thread_data self;
  if t =? NULL then mret None else
  x ← get_thread t;
  us64 ← (if on_required_exit x >? 1 then
            set_thread t (x <| on_required_exit := on_required_exit x - 1 |>);;
            mret (if us <? 100 * 1000 then 100 * 1000 else us)
          else mret us);
  mret (Some (tv_sec + (us64 + tv_usec) /c 1000000, ((us64 + tv_usec) * 1000) %c 1000000000)).

(** On 64-bit machines a plain [usleep], elsewhere the same wait; the variant
    for 32-bit Androids before API 21 is left out. *)
Definition amthreadpool_thread_usleep_in_monotonic (aarch64 : bool) (self us tv_sec tv_usec : Z) :
    CM tp_world (option (Z * Z)) :=
  if aarch64 then mret None else amthreadpool_thread_usleep_in self us tv_sec tv_usec.

(** [monotonic] is AMTHREADPOOL_SLEEP_US_MONOTONIC. *)
Definition amthreadpool_thread_usleep_debug (monotonic aarch64 : bool)
    (self us tv_sec tv_usec : Z) : CM tp_world (option (Z * Z)) :=
  if monotonic then amthreadpool_thread_usleep_in_monotonic aarch64 self us tv_sec tv_usec
  else amthreadpool_thread_usleep_in self us tv_sec tv_usec.

Definition amthreadpool_thread_wake (pid : Z) : CM tp_world Z :=
  t ← amthreadpool_findthead_thread_data pid;
  if t =? NULL then mret (-1) else
  x ← get_thread t;
  amthreadpool_thread_wake_t t (on_required_exit x).

Definition amthreadpool_on_require_exit (self pid : Z) : CM tp_world Z :=
  t ← amthreadpool_findthead_thread_data (if negb (pid =? 0) then pid else self);
  if t =? NULL then mret 0 else
  x ← get_thread t;
  mret (if on_required_exit x =? 0 then 0 else 1).

(** [FOR_EACH_ITEM_IN_ITEMLIST (&pool->threadlist, item)] *)
Fixpoint wake_all (ts : list (Z * Z)) (cancel : Z) : CM tp_world unit :=
  match ts with
  | [] => mret tt
  | t :: ts => amthreadpool_thread_wake_t t.2 cancel;; wake_all ts cancel
  end.

Definition amthreadpool_pool_thread_cancel_l1 (pid cancel allthreads : Z) : CM tp_world Z :=
  t ← amthreadpool_findthead_thread_data pid;
  if t =? NULL then mret 0 else
  x ← get_thread t;
  (if negb (allthreads =? 0) && negb (td_pool x =? NULL) then
     pl ← get_pool (td_pool x);
     if pool_pid pl =? pid then wake_all (map_to_list (threadlist pl)) cancel else mret tt
   else mret tt);;
  amthreadpool_thread_wake_t t cancel;;
  mret 0.

Definition amthreadpool_pool_thread_cancel (pid : Z) : CM tp_world Z :=
  amthreadpool_pool_thread_cancel_l1 pid 3 1.
Definition amthreadpool_pool_thread_uncancel (pid : Z) : CM tp_world Z :=
  amthreadpool_pool_thread_cancel_l1 pid 0 1.
Definition amthreadpool_thread_cancel (pid : Z) : CM tp_world Z :=
  amthreadpool_pool_thread_cancel_l1 pid 3 0.
Definition amthreadpool_thread_uncancel (pid : Z) : CM tp_world Z :=
  amthreadpool_pool_thread_cancel_l1 pid 0 0.

(** [for (i = 0; i < MAX_THREAD_DEPTH - 1; i++)]: the ancestors of the parent
    behind the parent itself. *)
Fixpoint copy_ppid (n : nat) (i : Z) (parent own : list Z) : option (list Z) :=
  match n with
  | O => Some own
  | S n =>
      p ← aget parent i;
      if p =? 0 then Some own else
      own ← aset own (i + 1) p;
      copy_ppid n (i + 1) parent own
  end.

(** Up to the start routine; [self] is the new thread. *)
Definition amthreadpool_start_thread (self t : Z) : CM tp_world unit :=
  x ← get_thread t;
  set_thread t (x <| td_pid := self |>);;
  p0 ← cm_lift (aget (ppid x) 0);
  thread_p ← amthreadpool_findthead_thread_data p0;
  pool ← (if negb (thread_p =? NULL) then
            xp ← get_thread thread_p;
            x ← get_thread t;
            own ← cm_lift (copy_ppid (Z.to_nat (MAX_THREAD_DEPTH - 1)) 0 (ppid xp) (ppid x));
            set_thread t (x <| ppid := own |> <| td_pool := td_pool xp |>);;
            mret (td_pool xp)
          else mret NULL);
  amthreadpool_pool_add_thread self pool self t;;
  x ← get_thread t;
  set_thread t (x <| thread_inited := 1 |>).

(** [created] is the result of [pthread_create] and the id of the new thread.
    The creator waits until the new thread has set [thread_inited]. *)
Definition amthreadpool_pthread_create_name (self : Z) (created : Z * Z) : CM tp_world Z :=
  w ← cm_get;
  match tp_malloc w with
  | None => mret (-100)
  | Some t =>
      cm_put (w <| threads := <[t := mk_tdata 0 (self :: replicate 7 0) NULL 0 0]> (threads w) |>);;
      (if created.1 =? 0 then amthreadpool_start_thread created.2 t else mret tt);;
      mret created.1
  end.

Definition amthreadpool_pthread_create (self : Z) (created : Z * Z) : CM tp_world Z :=
  amthreadpool_pthread_create_name self created.

(** [joined] is the result of [pthread_join]. *)
Definition amthreadpool_pthread_join (thid joined : Z) : CM tp_world Z :=
  amthreadpool_pool_del_thread thid;; mret joined.

Definition amthreadpool_system_init : CM tp_world Z :=
  w ← cm_get;
  if negb (sys_inited w =? 0) then mret 0 else
  cm_put (w <| sys_inited := sys_inited w + 1 |> <| threadpool_list := ∅ |>
            <| threadpool_threadlist := ∅ |>);;
  mret 0.

End ops.

(** ** The lists are maps *)

Section pid_maps.
Context `{Allocator}.

Lemma have_pid q m pid : holds q m → have pid q = bool_decide (is_Some (m !! pid)).
Proof.
  intros (l & -> & _ & <-). unfold have. induction l as [|[k v] l IH]; [done|].
  rewrite list_to_map_cons. cbn [fmap list_fmap existsb pid_item item_data fst].
  destruct (Z.eqb_spec k pid) as [->|Hne]; cbn [orb].
  - rewrite lookup_insert_eq. symmetry. by apply bool_decide_eq_true_2.
  - by rewrite IH, lookup_insert_ne by done.
Qed.

Lemma drop_pid q m pid : holds q m → holds (drop_data pid q) (delete pid m).
Proof.
  intros (l & -> & Hn & <-). induction l as [|[k v] l IH].
  { exists []. split_and!; [done|done|symmetry; apply delete_empty]. }
  rewrite list_to_map_cons. cbn [fmap list_fmap drop_data pid_item item_data fst] in *.
  apply NoDup_cons in Hn as [Hk Hn]. destruct (Z.eqb_spec k pid) as [->|Hne].
  - exists l. split_and!; [done|done|]. rewrite delete_insert_id; [done|].
    by apply not_elem_of_list_to_map_1.
  - destruct (IH Hn) as (l' & -> & Hn' & Hl'). exists ((k, v) :: l'). split; [done|].
    split; [|by rewrite list_to_map_cons, Hl', delete_insert_ne by done].
    cbn. constructor; [|done]. intros Hin.
    apply Hk. apply list_elem_of_fmap in Hin as ([k' v'] & -> & Hin). cbn in *.
    apply list_elem_of_fmap. exists (k', v'). split; [done|].
    apply (elem_of_list_to_map_1 l' k' v') in Hin; [|done]. rewrite Hl' in Hin.
    apply lookup_delete_Some in Hin as [_ Hin]. by apply elem_of_list_to_map_2.
Qed.

Lemma add_pid q m pid p :
  holds q m → m !! pid = None → holds (q ++ [mk_item pid ([p] ++ [junk])]) (<[pid := p]> m).
Proof.
  intros (l & -> & Hn & <-) Hp. exists (l ++ [(pid, p)]).
  rewrite fmap_app, fmap_app. split_and!; [done| |].
  - apply NoDup_app. split_and!; [done| |apply NoDup_singleton].
    intros x Hx ->%list_elem_of_singleton. by apply not_elem_of_list_to_map_2 in Hp.
  - rewrite list_to_map_snoc; [done|]. by apply not_elem_of_list_to_map_2.
Qed.

(** The operations on the maps are steps of the queue that [itemlist_refines_queue]
    shows the lists to implement. *)
Lemma pid_map_steps c q m pid p (room : bool) :
  max_items c = 0 → reject_same_item_data c ≠ 0 → holds q m →
  (∃ q', ilist_step c q (AddTailData pid [p]) ((pm_add pid p room m).1, None) q' ∧
         holds q' (pm_add pid p room m).2) ∧
  ilist_step c q (HaveMatchData pid) (if m !! pid is Some _ then 1 else 0, None) q ∧
  (∃ q', ilist_step c q (DelMatchData pid) (if m !! pid is Some _ then 0 else -1, None) q' ∧
         holds q' (delete pid m)).
Proof.
  intros Hmax Hrej Hh. pose proof (have_pid q m pid Hh) as Hhave.
  assert (is_full c (zlen q) = false) as Hfull by (unfold is_full; by rewrite Hmax).
  unfold pm_add. destruct (m !! pid) as [a|] eqn:E.
  - rewrite bool_decide_eq_true_2 in Hhave by done. split_and!.
    + exists q. split; [by constructor|done].
    + pose proof (step_have c q pid) as Hs. by rewrite Hhave in Hs.
    + exists (drop_data pid q). pose proof (step_del c q pid) as Hs. rewrite Hhave in Hs.
      split; [done|by apply drop_pid].
  - rewrite bool_decide_eq_false_2 in Hhave by (by intros []). split_and!.
    + destruct room; [|exists q; split; [apply step_add_nomem; by right|done]].
      eexists. split; [apply step_add; [by right|done]|by apply add_pid].
    + pose proof (step_have c q pid) as Hs. by rewrite Hhave in Hs.
    + exists (drop_data pid q). pose proof (step_del c q pid) as Hs. rewrite Hhave in Hs.
      split; [done|by apply drop_pid].
Qed.

End pid_maps.

(** ** The registry the pool promises

    A live thread has an owner, the top-level thread it descends from, and an
    exit request. *)

Abbreviation registry := (gmap Z (Z * Z)).

Definition owner_of (A : registry) (pid : Z) : option Z := fst <$> A !! pid.

Definition reg_create (self sub : Z) (A : registry) : registry :=
  <[sub := (default sub (owner_of A self), 0)]> A.

(** The request goes to one thread, or to all threads of an owner. *)
Definition reg_request (pid c : Z) (all : bool) (A : registry) : registry :=
  match A !! pid with
  | None => A
  | Some (o, _) =>
      if all && (o =? pid) then (λ x, if x.1 =? pid then (x.1, c) else x) <$> A
      else <[pid := (o, c)]> A
  end.

Definition reg_sleep (self : Z) (A : registry) : registry :=
  match A !! self with
  | Some (o, f) => if f >? 1 then <[self := (o, f - 1)]> A else A
  | None => A
  end.

(** A deadline in seconds and nanoseconds, from microseconds. *)
Definition deadline (us : Z) : Z * Z := (us / 1000000, us mod 1000000 * 1000).

(** A requested thread sleeps at least a tenth of a second. *)
Definition sleep_us (f us : Z) : Z := if f >? 1 then Z.max us 100000 else us.

Inductive tp_op :=
| Create (self sub : Z)
| Join (pid : Z)
| Request (pid c : Z) (all : bool)
| Wake (pid : Z)
| Sleep (self us tv_sec tv_usec : Z)
| Query (self pid : Z).

Definition reg_step (op : tp_op) (A : registry) : (Z * option (Z * Z)) * registry :=
  match op with
  | Create self sub => ((0, None), reg_create self sub A)
  | Join pid => ((0, None), delete pid A)
  | Request pid c all => ((0, None), reg_request pid c all A)
  | Wake pid => ((if A !! pid is Some _ then 0 else -1, None), A)
  | Sleep self us s u =>
      ((0, (λ x, deadline (s * 1000000 + u + sleep_us x.2 us)) <$> A !! self), reg_sleep self A)
  | Query self pid =>
      ((if A !! (if negb (pid =? 0) then pid else self) is Some (_, f)
        then (if f =? 0 then 0 else 1) else 0, None), A)
  end.

(** What the callers must respect: a new thread has a new id, a top-level
    thread is joined after the threads it owns, and times are times. *)
Definition op_allowed (op : tp_op) (A : registry) : Prop :=
  match op with
  | Create _ sub => sub ≠ 0 ∧ A !! sub = None
  | Join pid => map_Forall (λ pid' x, x.1 = pid → pid' = pid) A
  | Sleep _ us s u => 0 ≤ us ∧ 0 ≤ s ∧ 0 ≤ u
  | _ => True
  end.

Fixpoint reg_run (ops : list tp_op) (A : registry) : list (Z * option (Z * Z)) * registry :=
  match ops with
  | [] => ([], A)
  | op :: ops =>
      let (r, A) := reg_step op A in let (rs, A) := reg_run ops A in (r :: rs, A)
  end.

Fixpoint run_allowed (ops : list tp_op) (A : registry) : Prop :=
  match ops with
  | [] => True
  | op :: ops => op_allowed op A ∧ run_allowed ops (reg_step op A).2
  end.

#[export] Instance op_allowed_dec op A : Decision (op_allowed op A).
Proof. destruct op; apply _. Defined.

#[export] Instance run_allowed_dec ops A : Decision (run_allowed ops A).
Proof. revert A. induction ops; intros A; apply _. Defined.

Section refinement.
Context `{TpAlloc}.

Definition tp_step (op : tp_op) : CM tp_world (Z * option (Z * Z)) :=
  match op with
  | Create self sub => r ← amthreadpool_pthread_create self (0, sub); mret (r, None)
  | Join pid => r ← amthreadpool_pthread_join pid 0; mret (r, None)
  | Request pid c all =>
      r ← amthreadpool_pool_thread_cancel_l1 pid c (Z.b2z all); mret (r, None)
  | Wake pid => r ← amthreadpool_thread_wake pid; mret (r, None)
  | Sleep self us s u => d ← amthreadpool_thread_usleep_in self us s u; mret (0, d)
  | Query self pid => r ← amthreadpool_on_require_exit self pid; mret (r, None)
  end.

(** The memory [w] stands for the registry [A], and holds nothing else. *)
Record tp_rep (w : tp_world) (A : registry) : Prop := {
  rp_thread pid a : threadpool_threadlist w !! pid = Some a →
    ∃ t pl, threads w !! a = Some t ∧ td_pid t = pid ∧ a ≠ NULL ∧ length (ppid t) = 8%nat ∧
      pools w !! td_pool t = Some pl ∧ A !! pid = Some (pool_pid pl, on_required_exit t);
  rp_none pid : threadpool_threadlist w !! pid = None → A !! pid = None;
  rp_heap a t : threads w !! a = Some t → threadpool_threadlist w !! td_pid t = Some a;
  rp_pool p pl : pools w !! p = Some pl → p ≠ NULL ∧ threadpool_list w !! pool_pid pl = Some p ∧
    ∃ a t, threadpool_threadlist w !! pool_pid pl = Some a ∧ threads w !! a = Some t ∧
      td_pool t = p;
  rp_list pid p : threadpool_list w !! pid = Some p → ∃ pl, pools w !! p = Some pl ∧ pool_pid pl = pid;
  rp_members p pl pid a : pools w !! p = Some pl →
    threadlist pl !! pid = Some a ↔ pid ≠ pool_pid pl ∧ threadpool_threadlist w !! pid = Some a ∧
      ∃ t, threads w !! a = Some t ∧ td_pool t = p
}.

(** The allocator does not fail. *)
Definition roomy : Prop := ∀ w, item_room w = true ∧ tp_malloc w ≠ None.

Lemma rep_lookup w A pid o f :
  tp_rep w A → A !! pid = Some (o, f) →
  ∃ a t pl, threadpool_threadlist w !! pid = Some a ∧ a ≠ NULL ∧ threads w !! a = Some t ∧
    td_pid t = pid ∧ length (ppid t) = 8%nat ∧ pools w !! td_pool t = Some pl ∧ pool_pid pl = o ∧
    on_required_exit t = f.
Proof.
  intros Hr HA. destruct (threadpool_threadlist w !! pid) as [a|] eqn:E.
  - destruct (rp_thread w A Hr pid a E) as (t & pl & ? & ? & ? & ? & ? & HA2).
    rewrite HA in HA2. injection HA2 as -> ->. by exists a, t, pl.
  - rewrite (rp_none w A Hr pid E) in HA. done.
Qed.

Lemma rep_absent w A pid : tp_rep w A → A !! pid = None → threadpool_threadlist w !! pid = None.
Proof.
  intros Hr HA. destruct (threadpool_threadlist w !! pid) as [a|] eqn:E; [|done].
  destruct (rp_thread w A Hr pid a E) as (t & pl & ? & ? & ? & ? & ? & HA2). congruence.
Qed.

(** ** Requests *)

(** Setting the request of one thread. *)
Lemma rep_flag w A pid o f c a t :
  tp_rep w A → A !! pid = Some (o, f) → threadpool_threadlist w !! pid = Some a →
  threads w !! a = Some t →
  tp_rep (w <| threads := <[a := t <| on_required_exit := c |>]> (threads w) |>)
    (<[pid := (o, c)]> A).
Proof.
  intros Hr HA Ha Ht.
  assert (∀ a' t', (<[a := t <| on_required_exit := c |>]> (threads w)) !! a' = Some t' →
    ∃ t0, threads w !! a' = Some t0 ∧ td_pid t' = td_pid t0 ∧ td_pool t' = td_pool t0) as Hback.
  { intros a' t' [[<- <-]|[Hne Hl]]%lookup_insert_Some; [by exists t|by exists t']. }
  assert (∀ a' t0, threads w !! a' = Some t0 →
    ∃ t', (<[a := t <| on_required_exit := c |>]> (threads w)) !! a' = Some t' ∧
      td_pool t' = td_pool t0) as Hforth.
  { intros a' t0 Hl. destruct (decide (a' = a)) as [->|Hne].
    - eexists. rewrite lookup_insert_eq. split; [done|]. rewrite Ht in Hl. by injection Hl as <-.
    - exists t0. by rewrite lookup_insert_ne by done. }
  split; cbn.
  - intros pid' a' Ha'. destruct (rp_thread w A Hr pid' a' Ha') as (t' & pl & H1 & H2 & H3 & H4 & H5 & H6).
    destruct (decide (a' = a)) as [->|Hne].
    + rewrite Ht in H1. injection H1 as <-.
      assert (pid' = pid) as ->.
      { destruct (rp_thread w A Hr pid a Ha) as (t1 & ? & Ht1 & Hpid & _).
        rewrite Ht in Ht1. injection Ht1 as <-. congruence. }
      eexists _, pl. rewrite !lookup_insert_eq. split_and!; try done. cbn. congruence.
    + exists t', pl. rewrite lookup_insert_ne by done. split_and!; try done.
      rewrite lookup_insert_ne; [done|]. intros ->. congruence.
  - intros pid' Hn. rewrite lookup_insert_ne; [by apply (rp_none w A Hr)|]. intros ->. congruence.
  - intros a' t' Hl. destruct (Hback _ _ Hl) as (t0 & H1 & -> & _). by apply (rp_heap w A Hr).
  - intros p pl Hp. destruct (rp_pool w A Hr p pl Hp) as (H1 & H2 & a' & t' & H3 & H4 & H5).
    destruct (Hforth _ _ H4) as (t2 & H6 & H7). split_and!; try done.
    exists a', t2. split_and!; [done|done|by rewrite H7].
  - apply (rp_list w A Hr).
  - intros p pl pid' a' Hp. rewrite (rp_members w A Hr p pl pid' a' Hp).
    split; intros (? & ? & t' & H1 & H2); split_and!; try done.
    + destruct (Hforth _ _ H1) as (t2 & ? & E). exists t2. split; [done|by rewrite E].
    + destruct (Hback _ _ H1) as (t2 & ? & ? & E). exists t2. split; [done|by rewrite <-E].
Qed.

Lemma get_thread_ok w a t : threads w !! a = Some t → get_thread a w = Some (t, w).
Proof. unfold get_thread. by intros ->. Qed.
Lemma set_thread_ok w a t x :
  threads w !! a = Some t →
  set_thread a x w = Some (tt, w <| threads := <[a := x]> (threads w) |>).
Proof. unfold set_thread. by intros ->. Qed.
Lemma free_thread_ok w a t :
  threads w !! a = Some t →
  free_thread a w = Some (tt, w <| threads := delete a (threads w) |>).
Proof. unfold free_thread. by intros ->. Qed.
Lemma get_pool_ok w p pl : pools w !! p = Some pl → get_pool p w = Some (pl, w).
Proof. unfold get_pool. by intros ->. Qed.
Lemma set_pool_ok w p pl x :
  pools w !! p = Some pl → set_pool p x w = Some (tt, w <| pools := <[p := x]> (pools w) |>).
Proof. unfold set_pool. by intros ->. Qed.
Lemma free_pool_ok w p pl :
  pools w !! p = Some pl → free_pool p w = Some (tt, w <| pools := delete p (pools w) |>).
Proof. unfold free_pool. by intros ->. Qed.
Lemma find_listed w pid a :
  threadpool_threadlist w !! pid = Some a → amthreadpool_findthead_thread_data pid w = Some (a, w).
Proof. unfold amthreadpool_findthead_thread_data, cm_gets. by intros ->. Qed.
Lemma find_absent w A pid :
  tp_rep w A → A !! pid = None → amthreadpool_findthead_thread_data pid w = Some (NULL, w).
Proof.
  intros Hr HA. unfold amthreadpool_findthead_thread_data, cm_gets.
  by rewrite (rep_absent w A pid Hr HA).
Qed.
#[local] Hint Resolve get_thread_ok set_thread_ok free_thread_ok get_pool_ok set_pool_ok
  free_pool_ok find_listed find_absent : cmodel.

Lemma rep_eq w A B : tp_rep w A → A = B → tp_rep w B.
Proof. by intros ? <-. Qed.

Definition with_request (c : Z) (x : Z * Z) : Z * Z := (x.1, c).

Lemma alter_insert_some {X} (g : X → X) (m : gmap Z X) k x :
  m !! k = Some x → alter g k m = <[k := g x]> m.
Proof.
  intros E. apply map_eq. intros j. destruct (decide (k = j)) as [<-|Hne].
  - by rewrite lookup_alter_eq, lookup_insert_eq, E.
  - by rewrite lookup_alter_ne, lookup_insert_ne by done.
Qed.

(** The lists and the pools of two worlds are the same. *)
Definition same_lists (w w' : tp_world) : Prop :=
  threadpool_threadlist w' = threadpool_threadlist w ∧ pools w' = pools w ∧
  threadpool_list w' = threadpool_list w.

Lemma wake_t_rep w A pid a c :
  tp_rep w A → threadpool_threadlist w !! pid = Some a →
  ∃ w', amthreadpool_thread_wake_t a c w = Some (0, w') ∧ same_lists w w' ∧
    tp_rep w' (alter (with_request c) pid A).
Proof.
  intros Hr Ha. destruct (rp_thread w A Hr pid a Ha) as (t & pl & Ht & _ & _ & _ & _ & HA).
  pose proof (rep_flag w A pid _ _ c a t Hr HA Ha Ht) as Hr'.
  eexists. split; [|split; [|rewrite (alter_insert_some _ _ _ _ HA); exact Hr']]; [|done].
  unfold amthreadpool_thread_wake_t. by repeat cm_step.
Qed.

Lemma wake_all_rep ts : ∀ w A c,
  tp_rep w A → (∀ x, x ∈ ts → threadpool_threadlist w !! x.1 = Some x.2) →
  ∃ w', wake_all ts c w = Some (tt, w') ∧ same_lists w w' ∧
    tp_rep w' (foldl (λ A x, alter (with_request c) x.1 A) A ts).
Proof.
  induction ts as [|[pid a] ts IH]; intros w A c Hr Hts; [by exists w|].
  destruct (wake_t_rep w A pid a c Hr (Hts (pid, a) ltac:(left))) as (w1 & E1 & S1 & R1).
  destruct (IH w1 _ c R1) as (w2 & E2 & S2 & R2).
  { intros x Hx. destruct S1 as (-> & _). apply Hts. by right. }
  exists w2. split_and!; [|destruct S1 as (?&?&?), S2 as (?&?&?); split_and!; congruence|done].
  cbn [wake_all snd]. by cm_step.
Qed.

Lemma foldl_alter_lookup c (ts : list (Z * Z)) k : ∀ A : registry,
  foldl (λ A x, alter (with_request c) x.1 A) A ts !! k
  = if decide (k ∈ ts.*1) then with_request c <$> A !! k else A !! k.
Proof.
  induction ts as [|[pid a] ts IH]; intros A; [done|]. cbn [foldl fst].
  rewrite IH. destruct (decide (pid = k)) as [->|Hne].
  - rewrite lookup_alter_eq. rewrite (decide_True (P := k ∈ ((k, a) :: ts).*1)) by left.
    destruct (decide _); [|done]. by destruct (A !! k).
  - rewrite lookup_alter_ne by done.
    destruct (decide (k ∈ ts.*1)) as [Hi|Hi], (decide (k ∈ ((pid, a) :: ts).*1)) as [Hj|Hj];
      [done| | |done]; exfalso.
    + apply Hj. by right.
    + apply Hi. cbn in Hj. apply elem_of_cons in Hj as [->|?]; done.
Qed.

(** The threads of the pool of [pid] are those it owns. *)
Lemma owned_members w A pid p pl k x :
  tp_rep w A → pools w !! p = Some pl → pool_pid pl = pid → A !! k = Some x →
  x.1 = pid ↔ k = pid ∨ k ∈ (map_to_list (threadlist pl)).*1.
Proof.
  intros Hr Hp Ho HA. destruct x as [o f].
  destruct (rep_lookup w A k o f Hr HA) as (a & t & pl' & Ha & _ & Ht & Hk & _ & Hp' & <- & _).
  destruct (rp_pool w A Hr _ _ Hp) as (_ & Hl & a0 & t0 & Ha0 & Ht0 & Htp). cbn.
  split.
  - intros E. destruct (rp_pool w A Hr _ _ Hp') as (_ & Hl' & _).
    assert (td_pool t = p) as E2 by congruence.
    destruct (decide (k = pid)) as [?|Hne]; [by left|right].
    apply list_elem_of_fmap. exists (k, a). split; [done|]. apply elem_of_map_to_list.
    apply (rp_members w A Hr p pl k a Hp). split_and!; [congruence|done|by exists t].
  - intros [->|Hin].
    + subst pid. assert (a0 = a) as -> by congruence. rewrite Ht in Ht0. injection Ht0 as <-. congruence.
    + apply list_elem_of_fmap in Hin as ([k' a'] & -> & Hin%elem_of_map_to_list). cbn in *.
      apply (rp_members w A Hr p pl k' a' Hp) in Hin as (_ & Hl2 & t' & Ht' & E).
      assert (a' = a) as -> by congruence. rewrite Ht in Ht'. injection Ht' as <-. congruence.
Qed.

Lemma request_all w A pid p pl k c :
  tp_rep w A → pools w !! p = Some pl → pool_pid pl = pid →
  alter (with_request c) pid (foldl (λ A x, alter (with_request c) x.1 A) A
    (map_to_list (threadlist pl))) !! k
  = ((λ x, if x.1 =? pid then (x.1, c) else x) <$> A) !! k.
Proof.
  intros Hr Hp Ho. rewrite lookup_fmap.
  pose proof (λ x, owned_members w A pid p pl k x Hr Hp Ho) as Hm.
  destruct (decide (pid = k)) as [<-|Hne].
  - rewrite lookup_alter_eq, foldl_alter_lookup. destruct (A !! pid) as [x|]; [|by destruct (decide _)].
    pose proof (proj2 (Hm x eq_refl) (or_introl eq_refl)) as E. destruct x as [o f].
    cbn in E. subst o. by destruct (decide _); cbn; rewrite Z.eqb_refl.
  - rewrite lookup_alter_ne, foldl_alter_lookup by done.
    destruct (A !! k) as [x|]; [|by destruct (decide _)]. specialize (Hm x eq_refl).
    cbn. destruct (decide _) as [Hd|Hd], (Z.eqb_spec x.1 pid) as [He|He]; try done; exfalso.
    + by apply He, Hm; right.
    + apply Hm in He as [->|?]; done.
Qed.

Lemma step_request w A pid c all :
  tp_rep w A → ∃ w', tp_step (Request pid c all) w = Some ((0, None), w') ∧
    tp_rep w' (reg_request pid c all A).
Proof.
  intros Hr. unfold tp_step, amthreadpool_pool_thread_cancel_l1, reg_request.
  destruct (A !! pid) as [[o f]|] eqn:HA; last first.
  { exists w. unfold mbind, cm_bind. rewrite (find_absent w A pid Hr HA). done. }
  destruct (rep_lookup w A pid o f Hr HA) as (a & t & pl & Ha & Hnn & Ht & Hpid & _ & Hp & Ho & Hf).
  destruct (rp_pool w A Hr _ _ Hp) as (Hpn%Z.eqb_neq & _).
  assert (∃ w1, (if negb (Z.b2z all =? 0) && negb (td_pool t =? NULL) then
     pl ← get_pool (td_pool t);
     if pool_pid pl =? pid then wake_all (map_to_list (threadlist pl)) c else mret tt
   else mret tt) w = Some (tt, w1) ∧ same_lists w w1 ∧
   tp_rep w1 (if all && (o =? pid) then foldl (λ A x, alter (with_request c) x.1 A) A
                (map_to_list (threadlist pl)) else A)) as (w1 & E1 & S1 & R1).
  { rewrite Hpn, andb_true_r. destruct all; cbn; [|by exists w]. cm_step. rewrite Ho.
    destruct (o =? pid) eqn:E; [|by exists w]. apply wake_all_rep; [done|].
    intros [k x] Hx%elem_of_map_to_list. by apply (rp_members w A Hr _ pl k x Hp) in Hx as (_ & ? & _). }
  destruct (wake_t_rep w1 _ pid a c R1 ltac:(by destruct S1 as (-> & _))) as (w2 & E2 & S2 & R2).
  exists w2. split; [|].
  - unfold mbind, cm_bind in *. rewrite (find_listed w pid a Ha), (proj2 (Z.eqb_neq _ _) Hnn).
    rewrite (get_thread_ok w a t Ht), E1, E2. done.
  - eapply rep_eq; [exact R2|]. destruct (all && (o =? pid)) eqn:E.
    + apply andb_true_iff in E as [-> Eo%Z.eqb_eq]. apply map_eq. intros k.
      apply (request_all w A pid _ pl k c Hr Hp). congruence.
    + by rewrite (alter_insert_some _ _ _ _ HA).
Qed.

Lemma step_wake w A pid :
  tp_rep w A → ∃ w', tp_step (Wake pid) w = Some ((if A !! pid is Some _ then 0 else -1, None), w') ∧
    tp_rep w' A.
Proof.
  intros Hr. unfold tp_step, amthreadpool_thread_wake. destruct (A !! pid) as [[o f]|] eqn:HA; last first.
  { exists w. unfold mbind, cm_bind. rewrite (find_absent w A pid Hr HA). done. }
  destruct (rep_lookup w A pid o f Hr HA) as (a & t & pl & Ha & Hnn%Z.eqb_neq & Ht & _ & _ & _ & _ & Hf).
  destruct (wake_t_rep w A pid a f Hr Ha) as (w' & E & _ & R). exists w'. split.
  - unfold mbind, cm_bind. rewrite (find_listed w pid a Ha), Hnn, (get_thread_ok w a t Ht), Hf, E. done.
  - eapply rep_eq; [exact R|]. rewrite (alter_insert_some _ _ _ _ HA). by apply insert_id.
Qed.

Lemma step_query w A self pid :
  tp_rep w A → tp_step (Query self pid) w = Some ((reg_step (Query self pid) A).1, w).
Proof.
  intros Hr. unfold tp_step, amthreadpool_on_require_exit, mbind, cm_bind. cbn [reg_step fst].
  generalize (if negb (pid =? 0) then pid else self) as k. intros k.
  destruct (A !! k) as [[o f]|] eqn:HA; last by rewrite (find_absent w A k Hr HA).
  destruct (rep_lookup w A k o f Hr HA) as (a & t & pl & Ha & Hnn%Z.eqb_neq & Ht & _ & _ & _ & _ & Hf).
  by rewrite (find_listed w k a Ha), Hnn, (get_thread_ok w a t Ht), Hf.
Qed.

Lemma deadline_ok s u d :
  0 ≤ s → 0 ≤ u → 0 ≤ d →
  (s + (d + u) /c 1000000, ((d + u) * 1000) %c 1000000000) = deadline (s * 1000000 + u + d).
Proof.
  intros Hs Hu Hd. unfold deadline, c_div, c_rem.
  rewrite Z.quot_div_nonneg, Z.rem_mod_nonneg by lia. f_equal.
  - replace (s * 1000000 + u + d) with (d + u + s * 1000000) by lia.
    rewrite Z.div_add by lia. lia.
  - change 1000000000 with (1000000 * 1000). rewrite Z.mul_mod_distr_r by lia. f_equal.
    replace (s * 1000000 + u + d) with (d + u + s * 1000000) by lia.
    by rewrite Z.mod_add by lia.
Qed.

Lemma step_sleep w A self us s u :
  tp_rep w A → 0 ≤ us → 0 ≤ s → 0 ≤ u →
  ∃ w', tp_step (Sleep self us s u) w = Some ((reg_step (Sleep self us s u) A).1, w') ∧
    tp_rep w' (reg_sleep self A).
Proof.
  intros Hr Hus Hs Hu. cbn [reg_step fst]. unfold tp_step, amthreadpool_thread_usleep_in, reg_sleep.
  destruct (A !! self) as [[o f]|] eqn:HA; last first.
  { exists w. unfold mbind, cm_bind. rewrite (find_absent w A self Hr HA). done. }
  destruct (rep_lookup w A self o f Hr HA) as (a & t & pl & Ha & Hnn%Z.eqb_neq & Ht & _ & _ & _ & _ & Hf).
  cbn [fmap option_fmap option_map snd]. unfold mbind, cm_bind, sleep_us.
  rewrite (find_listed w self a Ha), Hnn, (get_thread_ok w a t Ht), Hf.
  destruct (f >? 1).
  - rewrite (set_thread_ok w a t _ Ht). cbn.
    rewrite deadline_ok by (zcase; lia). eexists. split; [|by apply rep_flag with f].
    destruct (Z.ltb_spec us (100 * 1000)); [by rewrite Z.max_r by lia|by rewrite Z.max_l by lia].
  - exists w. split; [|done]. cbn. by rewrite deadline_ok.
Qed.

(** ** Creation *)

Lemma rep_fresh w A a sub : tp_rep w A → threads w !! a = None → threadpool_threadlist w !! sub ≠ Some a.
Proof.
  intros Hr Hn E. destruct (rp_thread w A Hr sub a E) as (t & ? & Ht & _). congruence.
Qed.

Lemma add_member w A sub a x p pl pid b :
  tp_rep w A → A !! sub = None → threads w !! a = None → pools w !! p = Some pl → td_pool x = p →
  <[sub := a]> (threadlist pl) !! pid = Some b ↔
  pid ≠ pool_pid pl ∧ <[sub := a]> (threadpool_threadlist w) !! pid = Some b ∧
    ∃ t, <[a := x]> (threads w) !! b = Some t ∧ td_pool t = p.
Proof.
  intros Hr HA Ha Hp Hx. pose proof (rep_absent w A sub Hr HA) as Hs.
  destruct (decide (pid = sub)) as [->|Hne].
  - rewrite !lookup_insert_eq. split.
    + intros [= <-]. rewrite lookup_insert_eq. split_and!; [|done|by exists x].
      intros ->. destruct (rp_pool w A Hr p pl Hp) as (_ & _ & ? & ? & ? & _). congruence.
    + by intros (_ & ? & _).
  - rewrite !(lookup_insert_ne _ sub) by done. rewrite (rp_members w A Hr p pl pid b Hp).
    split; intros (H1 & H2 & t & H3 & H4); (split_and!; [done|done|]); exists t.
    + by rewrite lookup_insert_ne by congruence.
    + rewrite lookup_insert_ne in H3; [done|]. intros ->. by apply (rep_fresh w A b pid Hr Ha).
Qed.

(** A thread below a registered one joins its pool. *)
Lemma rep_add_child w A sub a x p pl f :
  tp_rep w A → A !! sub = None → threads w !! a = None → a ≠ NULL →
  pools w !! p = Some pl → x = mk_tdata sub f p 0 1 → length f = 8%nat →
  tp_rep (mk_tpw (threadpool_list w) (<[sub := a]> (threadpool_threadlist w))
      (<[p := mk_tpool (pool_pid pl) (<[sub := a]> (threadlist pl))]> (pools w))
      (<[a := x]> (threads w)) (sys_inited w))
    (<[sub := (pool_pid pl, 0)]> A).
Proof.
  intros Hr HA Ha Hn Hp -> Hf. pose proof (rep_absent w A sub Hr HA) as Hs.
  assert (∀ p' pl', (<[p := mk_tpool (pool_pid pl) (<[sub := a]> (threadlist pl))]> (pools w)) !! p'
    = Some pl' → ∃ pl0, pools w !! p' = Some pl0 ∧ pool_pid pl' = pool_pid pl0) as Hback.
  { intros p' pl' [[<- <-]|[Hne Hl]]%lookup_insert_Some; [by exists pl|by exists pl']. }
  assert (∀ p' pl0, pools w !! p' = Some pl0 → ∃ pl', (<[p := mk_tpool (pool_pid pl)
    (<[sub := a]> (threadlist pl))]> (pools w)) !! p' = Some pl' ∧ pool_pid pl' = pool_pid pl0) as Hforth.
  { intros p' pl0 Hl. destruct (decide (p' = p)) as [->|Hne].
    - eexists. rewrite lookup_insert_eq. split; [done|]. cbn. congruence.
    - exists pl0. by rewrite lookup_insert_ne by done. }
  split; cbn [threadpool_list threadpool_threadlist pools threads].
  - intros pid b [[<- <-]|[Hne Hb]]%lookup_insert_Some.
    + exists (mk_tdata sub f p 0 1), (mk_tpool (pool_pid pl) (<[sub := a]> (threadlist pl))).
      by rewrite !lookup_insert_eq.
    + destruct (rp_thread w A Hr pid b Hb) as (t & pl0 & H1 & H2 & H3 & H4 & H5 & H6).
      destruct (Hforth _ _ H5) as (pl' & H7 & H8). exists t, pl'.
      rewrite (lookup_insert_ne (threads w)), (lookup_insert_ne A), H8 by congruence. done.
  - intros pid [Hb ?]%lookup_insert_None. rewrite lookup_insert_ne by done. by apply (rp_none w A Hr).
  - intros b t [[<- <-]|[Hne Hl]]%lookup_insert_Some; [by rewrite lookup_insert_eq|].
    pose proof (rp_heap w A Hr b t Hl). rewrite lookup_insert_ne; [done|]. intros ->. congruence.
  - intros p' pl' Hl. destruct (Hback _ _ Hl) as (pl0 & H1 & ->).
    destruct (rp_pool w A Hr p' pl0 H1) as (H2 & H3 & b & t & H4 & H5 & H6). split_and!; try done.
    exists b, t. rewrite !lookup_insert_ne by congruence. done.
  - intros pid p' Hl. destruct (rp_list w A Hr pid p' Hl) as (pl0 & H1 & <-). by apply Hforth.
  - intros p' pl' pid b [[<- <-]|[Hne Hl]]%lookup_insert_Some; cbn.
    + apply (add_member w A); done.
    + rewrite (rp_members w A Hr p' pl' pid b Hl). split; intros (H1 & H2 & t & H3 & H4).
      * split_and!; [done|by rewrite lookup_insert_ne by congruence|].
        exists t. by rewrite lookup_insert_ne by congruence.
      * apply lookup_insert_Some in H2 as [[<- <-]|[H5 H6]].
        -- rewrite lookup_insert_eq in H3. injection H3 as <-. done.
        -- split_and!; [done|done|]. exists t. split; [|done].
           rewrite lookup_insert_ne in H3; [done|]. intros ->. by apply (rep_fresh w A b pid Hr Ha).
Qed.

(** A thread created outside the pools gets a pool of its own. *)
Lemma rep_add_root w A sub a p f :
  tp_rep w A → A !! sub = None → threads w !! a = None → a ≠ NULL →
  pools w !! p = None → p ≠ NULL → length f = 8%nat →
  tp_rep (mk_tpw (<[sub := p]> (threadpool_list w)) (<[sub := a]> (threadpool_threadlist w))
      (<[p := mk_tpool sub ∅]> (pools w)) (<[a := mk_tdata sub f p 0 1]> (threads w)) (sys_inited w))
    (<[sub := (sub, 0)]> A).
Proof.
  intros Hr HA Ha Hn Hp Hpn Hf. pose proof (rep_absent w A sub Hr HA) as Hs.
  split; cbn [threadpool_list threadpool_threadlist pools threads].
  - intros pid b [[<- <-]|[Hne Hb]]%lookup_insert_Some.
    + exists (mk_tdata sub f p 0 1), (mk_tpool sub ∅). by rewrite !lookup_insert_eq.
    + destruct (rp_thread w A Hr pid b Hb) as (t & pl0 & H1 & H2 & H3 & H4 & H5 & H6).
      exists t, pl0. by rewrite !lookup_insert_ne by congruence.
  - intros pid [Hb ?]%lookup_insert_None. rewrite lookup_insert_ne by done. by apply (rp_none w A Hr).
  - intros b t [[<- <-]|[Hne Hl]]%lookup_insert_Some; [by rewrite lookup_insert_eq|].
    pose proof (rp_heap w A Hr b t Hl). rewrite lookup_insert_ne; [done|]. intros ->. congruence.
  - intros p' pl' [[<- <-]|[Hne Hl]]%lookup_insert_Some.
    + split_and!; [done|by rewrite lookup_insert_eq|]. eexists _, _. by rewrite !lookup_insert_eq.
    + destruct (rp_pool w A Hr p' pl' Hl) as (H2 & H3 & b & t & H4 & H5 & H6).
      split_and!; [done|by rewrite lookup_insert_ne by congruence|].
      exists b, t. by rewrite !lookup_insert_ne by congruence.
  - intros pid p' [[<- <-]|[Hne Hl]]%lookup_insert_Some; [eexists; by rewrite lookup_insert_eq|].
    destruct (rp_list w A Hr pid p' Hl) as (pl0 & H1 & H2). exists pl0.
    by rewrite lookup_insert_ne by congruence.
  - intros p' pl' pid b [[<- <-]|[Hne Hl]]%lookup_insert_Some; cbn.
    + split; [done|]. intros (H1 & H2 & t & H3 & H4). exfalso.
      rewrite lookup_insert_ne in H2 by done.
      rewrite lookup_insert_ne in H3 by (intros ->; by apply (rep_fresh w A b pid Hr Ha)).
      destruct (rp_thread w A Hr pid b H2) as (t' & ? & ? & _ & _ & _ & ? & _). congruence.
    + rewrite (rp_members w A Hr p' pl' pid b Hl). split; intros (H1 & H2 & t & H3 & H4).
      * split_and!; [done|by rewrite lookup_insert_ne by congruence|].
        exists t. by rewrite lookup_insert_ne by congruence.
      * apply lookup_insert_Some in H2 as [[<- <-]|[H5 H6]].
        -- rewrite lookup_insert_eq in H3. injection H3 as <-. done.
        -- split_and!; [done|done|]. exists t. split; [|done].
           rewrite lookup_insert_ne in H3; [done|]. intros ->. by apply (rep_fresh w A b pid Hr Ha).
Qed.

Lemma copy_ppid_ok n : ∀ i parent own,
  length parent = 8%nat → length own = 8%nat → 0 ≤ i → i + Z.of_nat n ≤ 7 →
  ∃ own', copy_ppid n i parent own = Some own' ∧ length own' = 8%nat.
Proof.
  induction n as [|n IH]; intros i parent own Hp Ho Hi Hn; [by exists own|]. cbn [copy_ppid].
  destruct (aget_some parent i) as (p & ->); [unfold zlen; lia|]. cbn.
  destruct (p =? 0); [by exists own|].
  rewrite aset_some by (unfold zlen; lia). cbn. apply IH; [done| |lia|lia].
  by rewrite length_insert.
Qed.

Lemma add_to_pool_ok w p pl pid t :
  roomy → pools w !! p = Some pl → threadlist pl !! pid = None →
  add_to_pool p pid t w = Some (0,
    w <| pools := <[p := mk_tpool (pool_pid pl) (<[pid := t]> (threadlist pl))]> (pools w) |>).
Proof.
  intros Hroom Hp Hn. unfold add_to_pool, pm_add, cm_gets, mbind, cm_bind.
  by rewrite (get_pool_ok w p pl Hp), Hn, (proj1 (Hroom w)), (set_pool_ok w p pl _ Hp).
Qed.

Lemma add_to_threads_ok w pid t :
  roomy → threadpool_threadlist w !! pid = None →
  add_to_threads pid t w
  = Some (0, w <| threadpool_threadlist := <[pid := t]> (threadpool_threadlist w) |>).
Proof.
  intros Hroom Hn. unfold add_to_threads, pm_add. by rewrite Hn, (proj1 (Hroom w)).
Qed.

Lemma create_pool_ok w self pid :
  roomy → pid ≠ 0 → threadpool_list w !! pid = None →
  ∃ p, p ≠ NULL ∧ pools w !! p = None ∧ amthreadpool_create_pool self pid w = Some (p,
    w <| pools := <[p := mk_tpool pid ∅]> (pools w) |>
      <| threadpool_list := <[pid := p]> (threadpool_list w) |>).
Proof.
  intros Hroom H0%Z.eqb_neq Hn. destruct (tp_malloc w) as [p|] eqn:E; [|by destruct (Hroom w)].
  destruct (tp_malloc_fresh w p E) as (Hp & Hpp & _). exists p. split_and!; [done|done|].
  unfold amthreadpool_create_pool, cm_get, cm_put, add_to_pools, pm_add, mbind, cm_bind.
  rewrite E, H0. cbn. by rewrite Hn, (proj1 (Hroom _)).
Qed.

(** One step on a block found in the updated heap. *)
Ltac tp_find := cbn; first
  [ done | eassumption | rewrite lookup_insert_eq; reflexivity
  | rewrite !lookup_insert_ne by congruence; eassumption ].
Ltac tp_step := erewrite cm_bind_some by (first
  [ apply get_thread_ok | eapply set_thread_ok | apply get_pool_ok | eapply set_pool_ok
  | eapply free_thread_ok | eapply free_pool_ok | apply find_listed | apply add_to_pool_ok; [done| |] | apply add_to_threads_ok; [done|] ];
  tp_find); cbv beta.

Lemma rep_world w w' A : tp_rep w A → w = w' → tp_rep w' A.
Proof. by intros ? <-. Qed.

(** What a child of a registered thread leaves behind. *)
Lemma start_child w A self sub a o r :
  roomy → tp_rep w A → A !! self = Some (o, r) → A !! sub = None → sub ≠ 0 →
  threads w !! a = None → a ≠ NULL →
  ∃ w', amthreadpool_start_thread sub a (w <| threads := <[a := mk_tdata 0 (self :: replicate 7 0)
      NULL 0 0]> (threads w) |>) = Some (tt, w') ∧ tp_rep w' (<[sub := (o, 0)]> A).
Proof.
  intros Hroom Hr Hself Hsub H0 Ha Hn.
  destruct (rep_lookup w A self o r Hr Hself)
    as (b & t & pl & Hb & Hbn%Z.eqb_neq & Ht & _ & Hl & Hp & <- & _).
  destruct (rp_pool w A Hr _ _ Hp) as (Hpn%Z.eqb_neq & _).
  assert (a ≠ b) as Hab by congruence.
  destruct (copy_ppid_ok 7 0 (ppid t) (self :: replicate 7 0)) as (own & Hown & Hlen); [done|done|done|done|].
  pose proof (rep_absent w A sub Hr Hsub) as Hsn.
  assert (threadlist pl !! sub = None) as Hpl.
  { destruct (threadlist pl !! sub) as [x|] eqn:E; [|done].
    apply (rp_members w A Hr _ pl sub x Hp) in E as (_ & ? & _). congruence. }
  pose proof (rep_add_child w A sub a _ _ pl own Hr Hsub Ha Hn Hp eq_refl Hlen) as R.
  unfold amthreadpool_start_thread. do 2 tp_step. erewrite cm_bind_some by done. tp_step.
  rewrite Hbn. erewrite cm_bind_some; [|cbn [negb]; do 2 tp_step; cbn [ppid];
    erewrite cm_bind_some by (unfold cm_lift; change (copy_ppid _ _ _ _)
      with (copy_ppid 7 0 (ppid t) (self :: replicate 7 0)); by rewrite Hown); tp_step; reflexivity].
  erewrite cm_bind_some; [|unfold amthreadpool_pool_add_thread; tp_step; rewrite Hpn;
    cbn [negb td_pid]; do 2 tp_step; reflexivity].
  tp_step. erewrite set_thread_ok by tp_find. eexists. split; [reflexivity|].
  eapply rep_world; [exact R|]. cbn. by rewrite !insert_insert_eq.
Qed.

Lemma rep_no_pool w A sub : tp_rep w A → A !! sub = None → threadpool_list w !! sub = None.
Proof.
  intros Hr HA. destruct (threadpool_list w !! sub) as [p|] eqn:E; [|done].
  destruct (rp_list w A Hr sub p E) as (pl & Hp & <-).
  destruct (rp_pool w A Hr p pl Hp) as (_ & _ & b & ? & Hb & _).
  pose proof (rep_absent w A _ Hr HA). congruence.
Qed.

(** What a top-level thread leaves behind. *)
Lemma start_root w A self sub a :
  roomy → tp_rep w A → A !! self = None → A !! sub = None → sub ≠ 0 →
  threads w !! a = None → a ≠ NULL →
  ∃ w', amthreadpool_start_thread sub a (w <| threads := <[a := mk_tdata 0 (self :: replicate 7 0)
      NULL 0 0]> (threads w) |>) = Some (tt, w') ∧ tp_rep w' (<[sub := (sub, 0)]> A).
Proof.
  intros Hroom Hr Hself Hsub H0 Ha Hn. pose proof (rep_absent w A sub Hr Hsub) as Hsn.
  unfold amthreadpool_start_thread. do 2 tp_step. erewrite cm_bind_some by done.
  erewrite cm_bind_some by (unfold amthreadpool_findthead_thread_data, cm_gets; cbn;
    by rewrite (rep_absent w A self Hr Hself)).
  cbn [default NULL negb Z.eqb]. erewrite cm_bind_some by done.
  pose (w1 := w <| threads := <[a := mk_tdata sub (self :: replicate 7 0) NULL 0 0]> (threads w) |>).
  destruct (create_pool_ok w1 sub sub Hroom H0 (rep_no_pool w A sub Hr Hsub)) as (p & Hpn & Hp & E).
  pose proof (rep_add_root w A sub a p (self :: replicate 7 0) Hr Hsub Ha Hn Hp Hpn eq_refl) as R.
  rewrite insert_insert_eq. change (w <| threads := _ |>) with w1.
  erewrite cm_bind_some; [|unfold amthreadpool_pool_add_thread; tp_step; cbn [NULL negb Z.eqb td_pid];
    erewrite cm_bind_some; [|erewrite cm_bind_some by exact E; do 2 tp_step; reflexivity];
    tp_step; reflexivity].
  tp_step. erewrite set_thread_ok by tp_find. eexists. split; [reflexivity|].
  eapply rep_world; [exact R|]. cbn. by rewrite !insert_insert_eq.
Qed.

Lemma step_create w A self sub :
  roomy → tp_rep w A → sub ≠ 0 → A !! sub = None →
  ∃ w', tp_step (Create self sub) w = Some ((0, None), w') ∧ tp_rep w' (reg_create self sub A).
Proof.
  intros Hroom Hr H0 Hsub. destruct (tp_malloc w) as [a|] eqn:E; [|by destruct (Hroom w)].
  destruct (tp_malloc_fresh w a E) as (Hn & _ & Ha).
  assert (∃ w', amthreadpool_start_thread sub a (w <| threads := <[a := mk_tdata 0
      (self :: replicate 7 0) NULL 0 0]> (threads w) |>) = Some (tt, w') ∧
      tp_rep w' (reg_create self sub A)) as (w' & Es & R).
  { unfold reg_create, owner_of. destruct (A !! self) as [[o r]|] eqn:HA;
      [by apply start_child with r|by apply start_root]. }
  exists w'. split; [|done]. unfold tp_step, amthreadpool_pthread_create,
    amthreadpool_pthread_create_name, cm_get, cm_put, mbind, cm_bind.
  rewrite E. cbn -[amthreadpool_start_thread]. cbn in Es |- *. by rewrite Es.
Qed.

(** ** Joining *)

(** Two threads do not share their data. *)
Lemma rep_inj w A pid pid' a :
  tp_rep w A → threadpool_threadlist w !! pid = Some a → threadpool_threadlist w !! pid' = Some a →
  pid' = pid.
Proof.
  intros Hr H1 H2. destruct (rp_thread w A Hr pid a H1) as (t & ? & Ht & <- & _).
  destruct (rp_thread w A Hr pid' a H2) as (t' & ? & Ht' & <- & _). congruence.
Qed.

Lemma del_member w A pid a p pl pid' b :
  tp_rep w A → threadpool_threadlist w !! pid = Some a → pools w !! p = Some pl →
  delete pid (threadlist pl) !! pid' = Some b ↔
  pid' ≠ pool_pid pl ∧ delete pid (threadpool_threadlist w) !! pid' = Some b ∧
    ∃ t, delete a (threads w) !! b = Some t ∧ td_pool t = p.
Proof.
  intros Hr Ha Hp. rewrite !lookup_delete_Some, (rp_members w A Hr p pl pid' b Hp). split.
  - intros (H1 & H2 & H3 & t & H4 & H5). split_and!; [done|done|done|]. exists t. split; [|done].
    rewrite lookup_delete_ne; [done|]. intros <-. by apply H1; symmetry; apply (rep_inj w A _ _ a).
  - intros (H1 & (H2 & H3) & t & (_ & H4)%lookup_delete_Some & H5). split_and!; try done. by exists t.
Qed.

Lemma not_member w A pid a t p pl :
  tp_rep w A → threadpool_threadlist w !! pid = Some a → threads w !! a = Some t →
  pools w !! p = Some pl → td_pool t ≠ p → delete pid (threadlist pl) = threadlist pl.
Proof.
  intros Hr Ha Ht Hp Hne. apply delete_id. destruct (threadlist pl !! pid) as [b|] eqn:E; [|done].
  apply (rp_members w A Hr p pl pid b Hp) in E as (_ & Hb & t' & Ht' & <-). congruence.
Qed.

Lemma rep_del_child w A pid a t p pl :
  tp_rep w A → threadpool_threadlist w !! pid = Some a → threads w !! a = Some t →
  td_pool t = p → pools w !! p = Some pl → pool_pid pl ≠ pid →
  tp_rep (mk_tpw (threadpool_list w) (delete pid (threadpool_threadlist w))
      (<[p := mk_tpool (pool_pid pl) (delete pid (threadlist pl))]> (pools w))
      (delete a (threads w)) (sys_inited w))
    (delete pid A).
Proof.
  intros Hr Ha Ht Htp Hp Hne.
  assert (∀ p' pl', (<[p := mk_tpool (pool_pid pl) (delete pid (threadlist pl))]> (pools w)) !! p'
    = Some pl' → ∃ pl0, pools w !! p' = Some pl0 ∧ pool_pid pl' = pool_pid pl0) as Hback.
  { intros p' pl' [[<- <-]|[? Hl]]%lookup_insert_Some; [by exists pl|by exists pl']. }
  assert (∀ p' pl0, pools w !! p' = Some pl0 → ∃ pl', (<[p := mk_tpool (pool_pid pl)
    (delete pid (threadlist pl))]> (pools w)) !! p' = Some pl' ∧ pool_pid pl' = pool_pid pl0) as Hforth.
  { intros p' pl0 Hl. destruct (decide (p' = p)) as [->|?].
    - eexists. rewrite lookup_insert_eq. split; [done|]. cbn. congruence.
    - exists pl0. by rewrite lookup_insert_ne by done. }
  split; cbn [threadpool_list threadpool_threadlist pools threads].
  - intros pid' b [Hd Hb]%lookup_delete_Some.
    destruct (rp_thread w A Hr pid' b Hb) as (t' & pl0 & H1 & H2 & H3 & H4 & H5 & H6).
    destruct (Hforth _ _ H5) as (pl' & H7 & H8). exists t', pl'.
    rewrite (lookup_delete_ne A), H8 by done.
    rewrite lookup_delete_ne by (intros <-; by apply Hd; symmetry; apply (rep_inj w A _ _ a)). done.
  - intros pid' Hb%lookup_delete_None. apply lookup_delete_None.
    destruct Hb; [by left|right]. by apply (rp_none w A Hr).
  - intros b t' [Hd Hl]%lookup_delete_Some. pose proof (rp_heap w A Hr b t' Hl).
    rewrite lookup_delete_ne; [done|]. intros ->. congruence.
  - intros p' pl' Hl. destruct (Hback _ _ Hl) as (pl0 & H1 & ->).
    destruct (rp_pool w A Hr p' pl0 H1) as (H2 & H3 & b & t' & H4 & H5 & H6). split_and!; try done.
    exists b, t'. assert (pool_pid pl0 ≠ pid) as Hd by (intros E; rewrite E in *; congruence).
    rewrite !lookup_delete_ne; [done| |done]. intros <-. by apply Hd, (rep_inj w A _ _ a).
  - intros pid' p' Hl. destruct (rp_list w A Hr pid' p' Hl) as (pl0 & H1 & <-). by apply Hforth.
  - intros p' pl' pid' b [[<- <-]|[? Hl]]%lookup_insert_Some; [exact (del_member w A pid a p pl pid' b Hr Ha Hp)|].
    rewrite <- (del_member w A pid a p' pl' pid' b Hr Ha Hl).
    by rewrite (not_member w A pid a t p' pl' Hr Ha Ht Hl) by congruence.
Qed.

(** The last thread of a pool takes the pool with it. *)
Lemma rep_del_root w A pid a t p pl :
  tp_rep w A → threadpool_threadlist w !! pid = Some a → threads w !! a = Some t →
  td_pool t = p → pools w !! p = Some pl → pool_pid pl = pid →
  (∀ pid' f, A !! pid' = Some (pid, f) → pid' = pid) →
  tp_rep (mk_tpw (delete pid (threadpool_list w)) (delete pid (threadpool_threadlist w))
      (delete p (pools w)) (delete a (threads w)) (sys_inited w))
    (delete pid A).
Proof.
  intros Hr Ha Ht Htp Hp Ho Hlast.
  assert (∀ pid' b t', pid ≠ pid' → threadpool_threadlist w !! pid' = Some b →
    threads w !! b = Some t' → td_pool t' ≠ p) as Hother.
  { intros pid' b t' Hd Hb Ht' E. apply Hd. symmetry. apply (Hlast pid' (on_required_exit t')).
    destruct (rp_thread w A Hr pid' b Hb) as (t2 & pl2 & H1 & _ & _ & _ & H2 & ->). congruence. }
  assert (∀ p' pl', p ≠ p' → pools w !! p' = Some pl' → pool_pid pl' ≠ pid) as Howner.
  { intros p' pl' Hd Hl E. destruct (rp_pool w A Hr p' pl' Hl) as (_ & ? & _).
    destruct (rp_pool w A Hr p pl Hp) as (_ & ? & _). congruence. }
  split; cbn [threadpool_list threadpool_threadlist pools threads].
  - intros pid' b [Hd Hb]%lookup_delete_Some.
    destruct (rp_thread w A Hr pid' b Hb) as (t' & pl' & H1 & H2 & H3 & H4 & H5 & H6). exists t', pl'.
    rewrite (lookup_delete_ne A) by done.
    rewrite (lookup_delete_ne (pools w)) by (symmetry; by apply (Hother pid' b)).
    rewrite lookup_delete_ne by (intros <-; by apply Hd; symmetry; apply (rep_inj w A _ _ a)). done.
  - intros pid' Hb%lookup_delete_None. apply lookup_delete_None.
    destruct Hb; [by left|right]. by apply (rp_none w A Hr).
  - intros b t' [Hd Hl]%lookup_delete_Some. pose proof (rp_heap w A Hr b t' Hl).
    rewrite lookup_delete_ne; [done|]. intros ->. congruence.
  - intros p' pl' [Hd Hl]%lookup_delete_Some. pose proof (Howner p' pl' Hd Hl) as Hd'.
    destruct (rp_pool w A Hr p' pl' Hl) as (H2 & H3 & b & t' & H4 & H5 & H6).
    rewrite lookup_delete_ne by done. split_and!; try done.
    exists b, t'. rewrite !lookup_delete_ne; [done| |done]. intros <-. by apply Hd', (rep_inj w A _ _ a).
  - intros pid' p' [Hd Hl]%lookup_delete_Some. destruct (rp_list w A Hr pid' p' Hl) as (pl0 & H1 & H2).
    exists pl0. rewrite lookup_delete_ne; [done|]. intros ->. congruence.
  - intros p' pl' pid' b [Hd Hl]%lookup_delete_Some.
    rewrite <- (del_member w A pid a p' pl' pid' b Hr Ha Hl).
    by rewrite (not_member w A pid a t p' pl' Hr Ha Ht Hl) by congruence.
Qed.

Lemma release_ok w pid p pl :
  threadpool_list w !! pid = Some p → pools w !! p = Some pl →
  amthreadpool_release pid w = Some (0, w <| threadpool_list := delete pid (threadpool_list w) |>
    <| pools := delete p (pools w) |>).
Proof.
  intros Hl Hp. unfold amthreadpool_release. erewrite cm_bind_some by reflexivity. rewrite Hl.
  erewrite cm_bind_some by reflexivity. by do 2 tp_step.
Qed.

(** Up to the release of the pool. *)
Lemma del_thread_ok w pid a t pl :
  threadpool_threadlist w !! pid = Some a → threads w !! a = Some t →
  pools w !! td_pool t = Some pl →
  let w1 := mk_tpw (threadpool_list w) (delete pid (threadpool_threadlist w))
    (<[td_pool t := mk_tpool (pool_pid pl) (delete pid (threadlist pl))]> (pools w))
    (delete a (threads w)) (sys_inited w) in
  amthreadpool_pool_del_thread pid w
  = (if pool_pid pl =? pid then
       (λ r, (0, r.2)) <$> amthreadpool_release pid w1
     else Some (0, w1)).
Proof.
  intros Ha Ht Hp w1. unfold amthreadpool_pool_del_thread.
  erewrite cm_bind_some by reflexivity. rewrite Ha. erewrite cm_bind_some by reflexivity.
  do 5 tp_step.
  match goal with |- (_ ≫= _) ?x = _ => change x with w1 end. cbn [pool_pid].
  destruct (pool_pid pl =? pid); [|done]. unfold mbind, cm_bind.
  by destruct (amthreadpool_release pid w1) as [[? ?]|].
Qed.

Lemma step_join w A pid :
  tp_rep w A → (∀ pid' f, A !! pid' = Some (pid, f) → pid' = pid) →
  ∃ w', tp_step (Join pid) w = Some ((0, None), w') ∧ tp_rep w' (delete pid A).
Proof.
  intros Hr Hlast. unfold tp_step, amthreadpool_pthread_join.
  destruct (A !! pid) as [[o f]|] eqn:HA; last first.
  { exists w. rewrite delete_id by done. split; [|done].
    unfold amthreadpool_pool_del_thread, mbind, cm_bind, cm_gets.
    by rewrite (rep_absent w A pid Hr HA). }
  destruct (rep_lookup w A pid o f Hr HA) as (a & t & pl & Ha & _ & Ht & _ & _ & Hp & Ho & _).
  destruct (rp_pool w A Hr _ _ Hp) as (_ & Hl & _). unfold mbind, cm_bind.
  rewrite (del_thread_ok w pid a t pl Ha Ht Hp). destruct (Z.eqb_spec (pool_pid pl) pid) as [E|E].
  - pose proof (rep_del_root w A pid a t _ pl Hr Ha Ht eq_refl Hp E Hlast) as R.
    erewrite release_ok; [|rewrite <- E; exact Hl|apply lookup_insert_eq]. eexists. split; [reflexivity|].
    eapply rep_world; [exact R|]. cbn. by rewrite delete_insert_eq.
  - eexists. split; [reflexivity|]. by apply (rep_del_child w A pid a t).
Qed.

(** ** Whole runs *)

Fixpoint tp_run (ops : list tp_op) : CM tp_world (list (Z * option (Z * Z))) :=
  match ops with
  | [] => mret []
  | op :: ops => r ← tp_step op; rs ← tp_run ops; mret (r :: rs)
  end.

Lemma step_refines op w A :
  roomy → tp_rep w A → op_allowed op A →
  ∃ w', tp_step op w = Some ((reg_step op A).1, w') ∧ tp_rep w' (reg_step op A).2.
Proof.
  intros Hroom Hr Hop. destruct op as [self sub|pid|pid c all|pid|self us s u|self pid].
  - destruct Hop. by apply step_create.
  - apply step_join; [done|]. intros pid' f HA. by apply (Hop pid' _ HA).
  - by apply step_request.
  - by apply step_wake.
  - destruct Hop as (? & ? & ?). by apply step_sleep.
  - exists w. split; [by apply step_query|done].
Qed.

Lemma run_refines ops : ∀ w A,
  roomy → tp_rep w A → run_allowed ops A →
  ∃ w', tp_run ops w = Some ((reg_run ops A).1, w') ∧ tp_rep w' (reg_run ops A).2.
Proof.
  induction ops as [|op ops IH]; intros w A Hroom Hr Hops; [by exists w|].
  destruct Hops as [Hop Hops]. destruct (step_refines op w A Hroom Hr Hop) as (w1 & E1 & R1).
  destruct (IH w1 _ Hroom R1 Hops) as (w2 & E2 & R2). exists w2. cbn [tp_run reg_run].
  destruct (reg_step op A) as [r A1]. cbn [fst snd] in *. destruct (reg_run ops A1) as [rs A2].
  split; [|done]. by rewrite (cm_bind_some _ _ _ _ _ E1), (cm_bind_some _ _ _ _ _ E2).
Qed.

Lemma run_app ops1 ops2 w rs w1 :
  tp_run ops1 w = Some (rs, w1) →
  tp_run (ops1 ++ ops2) w = (λ r, (rs ++ r.1, r.2)) <$> tp_run ops2 w1.
Proof.
  revert w rs. induction ops1 as [|op ops1 IH]; intros w rs; cbn.
  - intros [= <- <-]. by destruct (tp_run ops2 w) as [[? ?]|].
  - intros (r & w2 & E1 & E2)%cm_bind_inv. apply cm_bind_inv in E2 as (rs' & w3 & E2 & [= <- <-]).
    rewrite (cm_bind_some _ _ _ _ _ E1). unfold mbind, cm_bind. rewrite (IH w2 rs' E2).
    by destruct (tp_run ops2 w3) as [[? ?]|].
Qed.

(** The program before its first thread: zeroed lists, no blocks. *)
Definition boot (w : tp_world) : Prop :=
  sys_inited w = 0 ∧ pools w = ∅ ∧ threads w = ∅.

Definition session (ops : list tp_op) : CM tp_world (list (Z * option (Z * Z))) :=
  amthreadpool_system_init;; tp_run ops.

Lemma boot_rep w :
  boot w → ∃ w', amthreadpool_system_init w = Some (0, w') ∧ tp_rep w' ∅.
Proof.
  intros (Hi & Hp & Ht). eexists. split.
  - unfold amthreadpool_system_init, cm_get, cm_put, mbind, cm_bind. rewrite Hi. cbn. reflexivity.
  - split; cbn; rewrite ?Hp, ?Ht; intros; done.
Qed.

Lemma session_refines ops w :
  roomy → boot w → run_allowed ops ∅ →
  ∃ w', session ops w = Some ((reg_run ops ∅).1, w') ∧ tp_rep w' (reg_run ops ∅).2.
Proof.
  intros Hroom (w1 & E & R)%boot_rep Hops. unfold session.
  rewrite (cm_bind_some _ _ _ _ _ E). by apply run_refines.
Qed.

Lemma session_app ops1 ops2 w rs w1 :
  session ops1 w = Some (rs, w1) →
  session (ops1 ++ ops2) w = (λ r, (rs ++ r.1, r.2)) <$> tp_run ops2 w1.
Proof.
  unfold session. intros (r & w2 & E1 & E2)%cm_bind_inv.
  rewrite (cm_bind_some _ _ _ _ _ E1). by apply run_app.
Qed.

Lemma rep_empty w :
  tp_rep w ∅ →
  threads w = ∅ ∧ pools w = ∅ ∧ threadpool_list w = ∅ ∧ threadpool_threadlist w = ∅.
Proof.
  intros R. assert (threadpool_threadlist w = ∅) as El.
  { apply map_empty. intros pid. by apply (rep_absent w ∅ pid R). }
  assert (pools w = ∅) as Ep.
  { apply map_empty. intros p. destruct (pools w !! p) as [pl|] eqn:E; [|done].
    destruct (rp_pool w ∅ R p pl E) as (_ & _ & b & ? & Hb & _). by rewrite El in Hb. }
  split_and!; [|done| |done].
  - apply map_empty. intros a. destruct (threads w !! a) as [t|] eqn:E; [|done].
    pose proof (rp_heap w ∅ R a t E) as Hl. by rewrite El in Hl.
  - apply map_empty. intros pid. destruct (threadpool_list w !! pid) as [p|] eqn:E; [|done].
    destruct (rp_list w ∅ R pid p E) as (pl & Hp & _). by rewrite Ep in Hp.
Qed.

(** [C8] As long as memory lasts ([roomy]: no allocation fails) and every
    [pthread_create] succeeds, from the first call on, every sequence of
    creations, joins, exit requests, wake-ups, sleeps and queries that joins a
    top-level thread only after the threads below it has a result, and it is
    the result of the registry: a created thread belongs to the top-level thread of its creator,
    a request to a top-level thread reaches every thread below it and a request
    to another thread only itself, a sleep of a requested thread uses up one
    request and never the last, and its deadline is the current time plus the
    delay, which the code lengthens to at least 100 ms (its comment announces
    less sleep; the theorem follows the code).  When all threads are joined no memory is left. *)
Theorem threadpool_refines_registry ops w :
  roomy → boot w → run_allowed ops ∅ →
  ∃ w', session ops w = Some ((reg_run ops ∅).1, w') ∧
    (∀ pid, owner_of (reg_run ops ∅).2 pid
      = (a ← threadpool_threadlist w' !! pid; t ← threads w' !! a; pool_pid <$> pools w' !! td_pool t)) ∧
    ((reg_run ops ∅).2 = ∅ →
      threads w' = ∅ ∧ pools w' = ∅ ∧ threadpool_list w' = ∅ ∧ threadpool_threadlist w' = ∅).
Proof.
  intros Hroom Hb Hops. destruct (session_refines ops w Hroom Hb Hops) as (w' & E & R).
  exists w'. split_and!; [done| |].
  - intros pid. unfold owner_of. destruct (threadpool_threadlist w' !! pid) as [a|] eqn:Ha.
    + destruct (rp_thread w' _ R pid a Ha) as (t & pl & Ht & _ & _ & _ & Hp & ->).
      cbn. rewrite Ht. cbn. by rewrite Hp.
    + by rewrite (rp_none w' _ R pid Ha).
  - intros H0. rewrite H0 in R. by apply rep_empty.
Qed.

(** ** Requests persist *)

Lemma reg_run_app ops1 ops2 A :
  reg_run (ops1 ++ ops2) A
  = ((reg_run ops1 A).1 ++ (reg_run ops2 (reg_run ops1 A).2).1, (reg_run ops2 (reg_run ops1 A).2).2).
Proof.
  revert A. induction ops1 as [|op ops1 IH]; intros A; cbn.
  - by destruct (reg_run ops2 A).
  - destruct (reg_step op A) as [r A1]. rewrite IH. by destruct (reg_run ops1 A1).
Qed.

Lemma run_allowed_app ops1 ops2 A :
  run_allowed (ops1 ++ ops2) A ↔ run_allowed ops1 A ∧ run_allowed ops2 (reg_run ops1 A).2.
Proof.
  revert A. induction ops1 as [|op ops1 IH]; intros A; cbn; [tauto|]. rewrite IH.
  destruct (reg_step op A) as [r A1]. cbn. destruct (reg_run ops1 A1). cbn. tauto.
Qed.

(** The operation neither joins [pid] nor takes a request of it or of its
    owner [o] back. *)
Definition keeps (pid o : Z) (op : tp_op) : Prop :=
  match op with
  | Join p => p ≠ pid
  | Request p c _ => 0 < c ∨ (p ≠ pid ∧ p ≠ o)
  | _ => True
  end.

Lemma request_keeps A pid o f p c all :
  A !! pid = Some (o, f) → 0 < f → 0 < c ∨ (p ≠ pid ∧ p ≠ o) →
  ∃ f', reg_request p c all A !! pid = Some (o, f') ∧ 0 < f'.
Proof.
  intros HA Hf Hk. unfold reg_request. destruct (A !! p) as [[o' f2]|] eqn:E; [|by exists f].
  destruct (all && (o' =? p)).
  - rewrite lookup_fmap, HA. cbn. destruct (Z.eqb_spec o p) as [->|?]; [|by exists f].
    exists c. split; [done|]. by destruct Hk as [?|[_ []]].
  - destruct (decide (p = pid)) as [->|Hne].
    + rewrite HA in E. injection E as <- <-. rewrite lookup_insert_eq. exists c.
      split; [done|]. by destruct Hk as [?|[[] _]].
    + rewrite lookup_insert_ne by done. by exists f.
Qed.

Lemma step_keeps op A pid o f :
  A !! pid = Some (o, f) → 0 < f → op_allowed op A → keeps pid o op →
  ∃ f', (reg_step op A).2 !! pid = Some (o, f') ∧ 0 < f'.
Proof.
  intros HA Hf Hop Hk. destruct op as [self sub|p|p c all|p|self us s u|self p]; cbn.
  - destruct Hop as [_ Hn]. exists f. unfold reg_create. by rewrite lookup_insert_ne by congruence.
  - exists f. by rewrite lookup_delete_ne by done.
  - by apply request_keeps with f.
  - by exists f.
  - unfold reg_sleep. destruct (A !! self) as [[o' f']|] eqn:E; [|by exists f].
    destruct (Z.gtb_spec f' 1); [|by exists f]. destruct (decide (self = pid)) as [->|?].
    + rewrite lookup_insert_eq. exists (f' - 1). rewrite HA in E. injection E as <- <-. split; [done|lia].
    + rewrite lookup_insert_ne by done. by exists f.
  - by exists f.
Qed.

Lemma run_keeps ops : ∀ A pid o f,
  A !! pid = Some (o, f) → 0 < f → run_allowed ops A → Forall (keeps pid o) ops →
  ∃ f', (reg_run ops A).2 !! pid = Some (o, f') ∧ 0 < f'.
Proof.
  induction ops as [|op ops IH]; intros A pid o f HA Hf Hops Hk; [by exists f|].
  apply Forall_cons in Hk as [Hk1 Hk]. destruct Hops as [Hop Hops].
  destruct (step_keeps op A pid o f HA Hf Hop Hk1) as (f' & HA' & Hf').
  destruct (IH _ _ _ _ HA' Hf' Hops Hk) as (f2 & ? & ?). exists f2. cbn.
  destruct (reg_step op A) as [r A1]. cbn in *. by destruct (reg_run ops A1).
Qed.


(** ** Joining a top-level thread first *)

Lemma join_dangling w A pid k f g :
  tp_rep w A → A !! pid = Some (pid, f) → A !! k = Some (pid, g) → k ≠ pid →
  ∃ w', tp_step (Join pid) w = Some ((0, None), w') ∧ tp_step (Join k) w' = None.
Proof.
  intros Hr HA Hk Hne.
  destruct (rep_lookup w A pid pid f Hr HA) as (a & t & pl & Ha & _ & Ht & _ & _ & Hp & Ho & _).
  destruct (rep_lookup w A k pid g Hr Hk) as (b & tk & plk & Hb & _ & Htk & _ & _ & Hpk & Hok & _).
  destruct (rp_pool w A Hr _ _ Hp) as (_ & Hl & _), (rp_pool w A Hr _ _ Hpk) as (_ & Hlk & _).
  assert (td_pool tk = td_pool t) as Ep by congruence.
  assert (a ≠ b) as Hab by (intros ->; by apply Hne, (rep_inj w A _ _ b)).
  unfold tp_step, amthreadpool_pthread_join. unfold mbind, cm_bind.
  rewrite (del_thread_ok w pid a t pl Ha Ht Hp), Ho, Z.eqb_refl.
  erewrite release_ok; [|rewrite <- Ho at 1; exact Hl|apply lookup_insert_eq].
  eexists. split; [reflexivity|]. unfold amthreadpool_pool_del_thread.
  unfold mbind, cm_bind, cm_gets, cm_modify, get_thread, get_pool. cbn.
  rewrite lookup_delete_ne, Hb by done. cbn. rewrite lookup_delete_ne, Htk by done. cbn.
  by rewrite Ep, lookup_delete_eq.
Qed.

(** The order of the joins matters: a pool is freed with its top-level
    thread, so a thread below it that is joined later reads freed memory. *)
Theorem owner_joined_first ops w pid k f g :
  roomy → boot w → run_allowed ops ∅ →
  (reg_run ops ∅).2 !! pid = Some (pid, f) → (reg_run ops ∅).2 !! k = Some (pid, g) → k ≠ pid →
  is_Some (session (ops ++ [Join pid]) w) ∧ session (ops ++ [Join pid; Join k]) w = None.
Proof.
  intros Hroom Hb Hops HA Hk Hne. destruct (session_refines ops w Hroom Hb Hops) as (w' & E & R).
  destruct (join_dangling w' _ pid k f g R HA Hk Hne) as (w2 & E1 & E2).
  rewrite !(session_app _ _ _ _ _ E). cbn [tp_run]. unfold mbind at 1 3, cm_bind.
  rewrite E1. split; [by eexists|]. unfold mbind, cm_bind in *. by rewrite E2.
Qed.

End refinement.

(** ** Witnesses *)

(** An allocator that never fails and always uses a new address. *)
#[export, program] Instance bump_alloc : TpAlloc := {|
  tp_malloc := λ w, Some (fresh_key (map_keys (pools w) ++ map_keys (threads w)));
  item_room := λ _, true
|}.
Next Obligation.
  intros w p [= <-]. split_and!; [apply fresh_key_pos|apply fresh_key_none..]; set_solver.
Qed.

Lemma bump_roomy : roomy.
Proof. done. Qed.

Definition boot_world : tp_world := mk_tpw ∅ ∅ ∅ ∅ 0.

Lemma boot_world_ok : boot boot_world.
Proof. done. Qed.

(** A program whose thread 10 starts 11, which starts 12. *)
Definition family : list tp_op := [Create 1 10; Create 10 11; Create 11 12; Request 10 3 true].

Lemma threadpool_refines_registry_witness :
  ∃ w', session (family ++ [Sleep 12 2000 5 999000; Query 1 12; Join 12; Join 11; Join 10; Wake 11])
    boot_world
  = Some ([(0, None); (0, None); (0, None); (0, None); (0, Some (6, 99000000)); (1, None);
           (0, None); (0, None); (0, None); (-1, None)], w') ∧ threads w' = ∅ ∧ pools w' = ∅.
Proof.
  destruct (threadpool_refines_registry
    (family ++ [Sleep 12 2000 5 999000; Query 1 12; Join 12; Join 11; Join 10; Wake 11]) boot_world
    bump_roomy boot_world_ok) as (w' & E & _ & Hend).
  { apply (bool_decide_eq_true_1 _). vm_compute. reflexivity. }
  exists w'. split; [rewrite E; vm_compute; reflexivity|].
  destruct Hend as (Ht & Hp & _); [vm_compute; reflexivity|exact (conj Ht Hp)].
Defined.


Lemma owner_joined_first_witness :
  is_Some (session (family ++ [Join 10]) boot_world) ∧
  session (family ++ [Join 10; Join 12]) boot_world = None.
Proof.
  apply (owner_joined_first family boot_world 10 12 3 3 bump_roomy boot_world_ok).
  - apply (bool_decide_eq_true_1 _). vm_compute. reflexivity.
  - vm_compute. reflexivity.
  - vm_compute. reflexivity.
  - done.
Defined.
