(* ===== verification/CodecDev.v ===== *)
(** The device layer of the codec library, media/amcodec/codec: the handles of
    codec_h_ctrl.c, with the two generations of driver commands, and the error
    codes of codec_msg.c.

    The kernel is a class: it answers the system calls, one question after the
    other.  The world keeps the open descriptors with the device they name,
    the log of the system calls and the descriptors that were used without
    being open.  A pointer argument is the content of the memory it points
    to, and the call answers the content afterwards. *)

From S2P Require Import Prelude MessagePool Audec.

(** ** Commands of the driver, amports/amstream.h *)

Definition ioc (dir size type nr : Z) : Z :=
  Z.lor (Z.lor (Z.lor (Z.shiftl dir 30) (Z.shiftl size 16)) (Z.shiftl type 8)) nr.
Definition _IO (nr : Z) : Z := ioc 0 0 83 nr.
Definition _IOW (nr : Z) : Z := ioc 1 4 83 nr.
Definition _IOR (nr : Z) : Z := ioc 2 4 83 nr.

Definition AMSTREAM_IOC_VB_START := _IOW 0x00.
Definition AMSTREAM_IOC_VB_SIZE := _IOW 0x01.
Definition AMSTREAM_IOC_AB_START := _IOW 0x02.
Definition AMSTREAM_IOC_AB_SIZE := _IOW 0x03.
Definition AMSTREAM_IOC_VFORMAT := _IOW 0x04.
Definition AMSTREAM_IOC_AFORMAT := _IOW 0x05.
Definition AMSTREAM_IOC_VID := _IOW 0x06.
Definition AMSTREAM_IOC_AID := _IOW 0x07.
Definition AMSTREAM_IOC_VB_STATUS := _IOR 0x08.
Definition AMSTREAM_IOC_AB_STATUS := _IOR 0x09.
Definition AMSTREAM_IOC_SYSINFO := _IOW 0x0a.
Definition AMSTREAM_IOC_ACHANNEL := _IOW 0x0b.
Definition AMSTREAM_IOC_SAMPLERATE := _IOW 0x0c.
Definition AMSTREAM_IOC_DATAWIDTH := _IOW 0x0d.
Definition AMSTREAM_IOC_TSTAMP := _IOW 0x0e.
Definition AMSTREAM_IOC_VDECSTAT := _IOR 0x0f.
Definition AMSTREAM_IOC_ADECSTAT := _IOR 0x10.
Definition AMSTREAM_IOC_PORT_INIT := _IO 0x11.
Definition AMSTREAM_IOC_TRICKMODE := _IOW 0x12.
Definition AMSTREAM_IOC_AUDIO_INFO := _IOW 0x13.
Definition AMSTREAM_IOC_TRICK_STAT := _IOR 0x14.
Definition AMSTREAM_IOC_AUDIO_RESET := _IO 0x15.
Definition AMSTREAM_IOC_SID := _IOW 0x16.
Definition AMSTREAM_IOC_VPAUSE := _IOW 0x17.
Definition AMSTREAM_IOC_AVTHRESH := _IOW 0x18.
Definition AMSTREAM_IOC_SYNCTHRESH := _IOW 0x19.
Definition AMSTREAM_IOC_SUB_RESET := _IOW 0x1a.
Definition AMSTREAM_IOC_SUB_LENGTH := _IOR 0x1b.
Definition AMSTREAM_IOC_SET_DEC_RESET := _IOW 0x1c.
Definition AMSTREAM_IOC_TS_SKIPBYTE := _IOW 0x1d.
Definition AMSTREAM_IOC_SUB_TYPE := _IOW 0x1e.
Definition AMSTREAM_IOC_APTS := _IOR 0x40.
Definition AMSTREAM_IOC_VPTS := _IOR 0x41.
Definition AMSTREAM_IOC_PCRSCR := _IOR 0x42.
Definition AMSTREAM_IOC_SYNCENABLE := _IOW 0x43.
Definition AMSTREAM_IOC_GET_SYNC_ADISCON := _IOR 0x44.
Definition AMSTREAM_IOC_SET_SYNC_ADISCON := _IOW 0x45.
Definition AMSTREAM_IOC_GET_SYNC_VDISCON := _IOR 0x46.
Definition AMSTREAM_IOC_SET_SYNC_VDISCON := _IOW 0x47.
Definition AMSTREAM_IOC_SET_PCRSCR := _IOW 0x4a.
Definition AMSTREAM_IOC_SUB_NUM := _IOR 0x50.
Definition AMSTREAM_IOC_SUB_INFO := _IOR 0x51.
Definition AMSTREAM_IOC_UD_LENGTH := _IOR 0x54.
Definition AMSTREAM_IOC_UD_POC := _IOR 0x55.
Definition AMSTREAM_IOC_APTS_LOOKUP := _IOR 0x81.
Definition GET_FIRST_APTS_FLAG := _IOR 0x82.
Definition AMSTREAM_IOC_GET_SYNC_ADISCON_DIFF := _IOR 0x83.
Definition AMSTREAM_IOC_GET_SYNC_VDISCON_DIFF := _IOR 0x84.
Definition AMSTREAM_IOC_SET_SYNC_ADISCON_DIFF := _IOW 0x85.
Definition AMSTREAM_IOC_SET_SYNC_VDISCON_DIFF := _IOW 0x86.
Definition AMSTREAM_IOC_GET_FREERUN_MODE := _IOR 0x87.
Definition AMSTREAM_IOC_SET_FREERUN_MODE := _IOW 0x88.
Definition AMSTREAM_IOC_SET_VSYNC_UPINT := _IOW 0x89.
Definition AMSTREAM_IOC_SET_DEMUX := _IOW 0x90.
Definition AMSTREAM_IOC_SET_DRMMODE := _IOW 0x91.
Definition AMSTREAM_IOC_TSTAMP_uS64 := _IOW 0x95.
Definition AMSTREAM_IOC_SET_VIDEO_DELAY_LIMIT_MS := _IOW 0xa0.
Definition AMSTREAM_IOC_GET_VIDEO_DELAY_LIMIT_MS := _IOR 0xa1.
Definition AMSTREAM_IOC_SET_AUDIO_DELAY_LIMIT_MS := _IOW 0xa2.
Definition AMSTREAM_IOC_GET_AUDIO_DELAY_LIMIT_MS := _IOR 0xa3.
Definition AMSTREAM_IOC_GET_AUDIO_CUR_DELAY_MS := _IOR 0xa4.
Definition AMSTREAM_IOC_GET_VIDEO_CUR_DELAY_MS := _IOR 0xa5.
Definition AMSTREAM_IOC_GET_AUDIO_AVG_BITRATE_BPS := _IOR 0xa6.
Definition AMSTREAM_IOC_GET_VIDEO_AVG_BITRATE_BPS := _IOR 0xa7.
Definition AMSTREAM_IOC_SET_APTS := _IOW 0xa8.
Definition AMSTREAM_IOC_GET_LAST_CHECKIN_APTS := _IOR 0xa9.
Definition AMSTREAM_IOC_GET_LAST_CHECKIN_VPTS := _IOR 0xaa.
Definition AMSTREAM_IOC_GET_LAST_CHECKOUT_APTS := _IOR 0xab.
Definition AMSTREAM_IOC_GET_LAST_CHECKOUT_VPTS := _IOR 0xac.
Definition AMSTREAM_IOC_GET_TRICK_VPTS := _IOR 0xf0.
Definition AMSTREAM_IOC_DISABLE_SLOW_SYNC := _IOW 0xf1.
Definition AMSTREAM_IOC_GET_AUDIO_CHECKIN_BITRATE_BPS := _IOR 0xf2.
Definition AMSTREAM_IOC_GET_VIDEO_CHECKIN_BITRATE_BPS := _IOR 0xf3.
Definition AMSTREAM_IOC_GET_VERSION := _IOR 0xc0.
Definition AMSTREAM_IOC_GET := ioc 3 16 83 0xc1.
Definition AMSTREAM_IOC_SET := ioc 1 16 83 0xc2.
Definition AMSTREAM_IOC_GET_EX := ioc 3 32 83 0xc3.
Definition AMSTREAM_IOC_SET_EX := ioc 1 32 83 0xc4.
Definition AMSTREAM_IOC_GET_PTR := ioc 3 16 83 0xc5.
Definition AMSTREAM_IOC_SET_PTR := ioc 1 16 83 0xc6.

Definition AMAUDIO_IOC_SET_RESAMPLE_ENA := ioc 1 8 65 0x19.
Definition AMAUDIO_IOC_GET_RESAMPLE_ENA := ioc 2 8 65 0x1a.
Definition AMAUDIO_IOC_SET_RESAMPLE_TYPE := ioc 1 8 65 0x1b.

Definition AMSTREAM_SET_VB_START : Z := 0x101.
Definition AMSTREAM_SET_VB_SIZE : Z := 0x102.
Definition AMSTREAM_SET_AB_START : Z := 0x103.
Definition AMSTREAM_SET_AB_SIZE : Z := 0x104.
Definition AMSTREAM_SET_VFORMAT : Z := 0x105.
Definition AMSTREAM_SET_AFORMAT : Z := 0x106.
Definition AMSTREAM_SET_VID : Z := 0x107.
Definition AMSTREAM_SET_AID : Z := 0x108.
Definition AMSTREAM_SET_SID : Z := 0x109.
Definition AMSTREAM_SET_ACHANNEL : Z := 0x10B.
Definition AMSTREAM_SET_SAMPLERATE : Z := 0x10C.
Definition AMSTREAM_SET_DATAWIDTH : Z := 0x10D.
Definition AMSTREAM_SET_TSTAMP : Z := 0x10E.
Definition AMSTREAM_SET_TSTAMP_US64 : Z := 0x10F.
Definition AMSTREAM_SET_APTS : Z := 0x110.
Definition AMSTREAM_PORT_INIT : Z := 0x111.
Definition AMSTREAM_SET_TRICKMODE : Z := 0x112.
Definition AMSTREAM_AUDIO_RESET : Z := 0x013.
Definition AMSTREAM_SUB_RESET : Z := 0x114.
Definition AMSTREAM_DEC_RESET : Z := 0x115.
Definition AMSTREAM_SET_TS_SKIPBYTE : Z := 0x116.
Definition AMSTREAM_SET_SUB_TYPE : Z := 0x117.
Definition AMSTREAM_SET_PCRSCR : Z := 0x118.
Definition AMSTREAM_SET_DEMUX : Z := 0x119.
Definition AMSTREAM_SET_VIDEO_DELAY_LIMIT_MS : Z := 0x11A.
Definition AMSTREAM_SET_AUDIO_DELAY_LIMIT_MS : Z := 0x11B.
Definition AMSTREAM_SET_DRMMODE : Z := 0x11C.
Definition AMSTREAM_SET_EOS : Z := 0x175.
Definition AMSTREAM_SET_PTR_AUDIO_INFO : Z := 0x300.
Definition AMSTREAM_GET_SUB_LENGTH : Z := 0x800.
Definition AMSTREAM_GET_UD_LENGTH : Z := 0x801.
Definition AMSTREAM_GET_APTS_LOOKUP : Z := 0x802.
Definition AMSTREAM_GET_FIRST_APTS_FLAG : Z := 0x803.
Definition AMSTREAM_GET_APTS : Z := 0x804.
Definition AMSTREAM_GET_VPTS : Z := 0x805.
Definition AMSTREAM_GET_PCRSCR : Z := 0x806.
Definition AMSTREAM_GET_LAST_CHECKIN_APTS : Z := 0x807.
Definition AMSTREAM_GET_LAST_CHECKIN_VPTS : Z := 0x808.
Definition AMSTREAM_GET_LAST_CHECKOUT_APTS : Z := 0x809.
Definition AMSTREAM_GET_LAST_CHECKOUT_VPTS : Z := 0x80A.
Definition AMSTREAM_GET_SUB_NUM : Z := 0x80B.
Definition AMSTREAM_GET_VIDEO_DELAY_LIMIT_MS : Z := 0x80C.
Definition AMSTREAM_GET_AUDIO_DELAY_LIMIT_MS : Z := 0x80D.
Definition AMSTREAM_GET_AUDIO_CUR_DELAY_MS : Z := 0x80E.
Definition AMSTREAM_GET_VIDEO_CUR_DELAY_MS : Z := 0x80F.
Definition AMSTREAM_GET_AUDIO_AVG_BITRATE_BPS : Z := 0x810.
Definition AMSTREAM_GET_VIDEO_AVG_BITRATE_BPS : Z := 0x811.
Definition AMSTREAM_GET_EX_VB_STATUS : Z := 0x900.
Definition AMSTREAM_GET_EX_AB_STATUS : Z := 0x901.
Definition AMSTREAM_GET_EX_VDECSTAT : Z := 0x902.
Definition AMSTREAM_GET_EX_ADECSTAT : Z := 0x903.
Definition AMSTREAM_GET_EX_UD_POC : Z := 0x904.
Definition AMSTREAM_GET_PTR_SUB_INFO : Z := 0xA00.

(** ** Data, codec_type.h *)

Inductive stream_type_t :=
| STREAM_TYPE_UNKNOWN | STREAM_TYPE_ES_VIDEO | STREAM_TYPE_ES_AUDIO | STREAM_TYPE_ES_SUB
| STREAM_TYPE_PS | STREAM_TYPE_TS | STREAM_TYPE_RM.

Record audio_info_t := mk_ai {
  ai_valid : Z;
  ai_sample_rate : Z;
  ai_channels : Z;
  ai_bitrate : Z;
  ai_codec_id : Z;
  ai_block_align : Z;
  ai_extradata_size : Z;
  ai_extradata : list Z
}.

#[export] Instance stream_type_eq_dec : EqDecision stream_type_t.
Proof. solve_decision. Defined.

(** [am_sysinfo] is the words of the structure; the fields of associated
    audio and of the subtitle reader are left out. *)
Record codec_para_t := mk_para {
  handle : Z;
  cntl_handle : Z;
  sub_handle : Z;
  audio_utils_handle : Z;
  stream_type : stream_type_t;
  cp_has_video : bool;
  has_audio : bool;
  has_sub : bool;
  noblock : bool;
  dv_enable : bool;
  video_type : Z;
  audio_type : Z;
  sub_type : Z;
  video_pid : Z;
  audio_pid : Z;
  sub_pid : Z;
  audio_channels : Z;
  audio_samplerate : Z;
  vbuf_size : Z;
  abuf_size : Z;
  am_sysinfo : list Z;
  audio_info : audio_info_t;
  packet_size : Z;
  cp_avsync_threshold : Z;
  adec_priv : Z;
  cp_SessionID : Z;
  cp_dspdec_not_supported : Z;
  switch_audio_flag : Z;
  automute_flag : Z;
  drmmode : Z
}.

#[export] Instance codec_para_eta : Eta codec_para_t := λ r,
  mk_para (handle r) (cntl_handle r) (sub_handle r) (audio_utils_handle r) (stream_type r)
    (cp_has_video r) (has_audio r) (has_sub r) (noblock r) (dv_enable r) (video_type r)
    (audio_type r) (sub_type r) (video_pid r) (audio_pid r) (sub_pid r) (audio_channels r)
    (audio_samplerate r) (vbuf_size r) (abuf_size r) (am_sysinfo r) (audio_info r)
    (packet_size r) (cp_avsync_threshold r) (adec_priv r) (cp_SessionID r)
    (cp_dspdec_not_supported r) (switch_audio_flag r) (automute_flag r) (drmmode r).

(** ** System calls *)

(** The argument of an ioctl: a number, memory, [am_ioctl_parm] with its data
    and command, [am_ioctl_parm_ex], [am_ioctl_parm_ptr] with the memory it
    points to. *)
Inductive carg :=
| ArgVal (v : Z)
| ArgMem (xs : list Z)
| ArgParm (data cmd : Z)
| ArgParmEx (cmd : Z)
| ArgParmPtr (mem : list Z) (cmd : Z).

Inductive sysreq :=
| SOpen (path : string) (flags : Z)
| SClose (fd : Z)
| SIoctl (fd cmd : Z) (arg : carg)
| SRead (fd n : Z)
| SWrite (fd : Z) (bytes : list Z)
| SPoll (fd timeout : Z)
| SSleep (ms : Z).

(** The answers.  [k_open] sees the open descriptors and answers a new one or
    an error; [k_ioctl] answers the result and what the memory of the argument
    holds then; [k_read] the bytes, or nothing for an error; [k_stack] is the
    content of a variable that was not initialised. *)
Class Kernel := {
  k_open : nat → gmap Z string → string → Z → Z;
  k_close : nat → Z → Z;
  k_ioctl : nat → Z → Z → carg → Z * list Z;
  k_read : nat → Z → Z → option (list Z);
  k_write : nat → Z → list Z → Z;
  k_poll : nat → Z → Z → Z;
  k_stack : nat → Z;
  k_open_fresh k m p f : 0 ≤ k_open k m p f → m !! k_open k m p f = None;
  k_open_int k m p f : INT_MIN < k_open k m p f;
  k_ioctl_int k fd c a : INT_MIN < (k_ioctl k fd c a).1 ≤ INT_MAX;
  k_read_len k fd n bs : k_read k fd n = Some bs → zlen bs ≤ Z.max 0 n
}.

(** [misused]: descriptors from 0 that were used while they were not open. *)
Record cworld := mk_cw {
  fds : gmap Z string;
  misused : list Z;
  support_new_cmd : Z;
  codecs : gmap Z codec_para_t;
  adecs : gmap Z aml_audio_dec_t;
  asked : nat;
  calls : list sysreq
}.

#[export] Instance cworld_eta : Eta cworld := λ r,
  mk_cw (fds r) (misused r) (support_new_cmd r) (codecs r) (adecs r) (asked r) (calls r).

Definition EBUSY : Z := 16.
Definition ENOMEM : Z := 12.
Definition ENODEV : Z := 19.

Definition C_PAE : Z := 0x01000000.
Definition CODEC_ERROR_NONE : Z := 0.
Definition CODEC_ERROR_INVAL : Z := Z.lor C_PAE 1.
Definition CODEC_ERROR_NOMEM : Z := Z.lor C_PAE 2.
Definition CODEC_ERROR_BUSY : Z := Z.lor C_PAE 3.
Definition CODEC_ERROR_IO : Z := Z.lor C_PAE 4.
Definition CODEC_ERROR_PARAMETER : Z := Z.lor C_PAE 5.
Definition CODEC_ERROR_AUDIO_TYPE_UNKNOWN : Z := Z.lor C_PAE 6.
Definition CODEC_ERROR_VIDEO_TYPE_UNKNOWN : Z := Z.lor C_PAE 7.
Definition CODEC_ERROR_STREAM_TYPE_UNKNOWN : Z := Z.lor C_PAE 8.
Definition CODEC_ERROR_INIT_FAILED : Z := Z.lor C_PAE 10.
Definition CODEC_ERROR_SET_BUFSIZE_FAILED : Z := Z.lor C_PAE 11.
Definition CODEC_OPEN_HANDLE_FAILED : Z := Z.lor C_PAE 12.

Definition system_error_to_codec_error (error : Z) : Z :=
  if error =? 0 then CODEC_ERROR_NONE
  else if error =? EBUSY then - CODEC_ERROR_BUSY
  else if error =? ENOMEM then - CODEC_ERROR_NOMEM
  else if error =? ENODEV then - CODEC_ERROR_IO
  else i32 (- Z.lor C_PAE error).

Definition cmd_tables : list (Z * Z) := [
  (AMSTREAM_IOC_VB_START, AMSTREAM_SET_VB_START);
  (AMSTREAM_IOC_VB_SIZE, AMSTREAM_SET_VB_SIZE);
  (AMSTREAM_IOC_AB_START, AMSTREAM_SET_AB_START);
  (AMSTREAM_IOC_AB_SIZE, AMSTREAM_SET_AB_SIZE);
  (AMSTREAM_IOC_VFORMAT, AMSTREAM_SET_VFORMAT);
  (AMSTREAM_IOC_AFORMAT, AMSTREAM_SET_AFORMAT);
  (AMSTREAM_IOC_VID, AMSTREAM_SET_VID);
  (AMSTREAM_IOC_AID, AMSTREAM_SET_AID);
  (AMSTREAM_IOC_VB_STATUS, AMSTREAM_GET_EX_VB_STATUS);
  (AMSTREAM_IOC_AB_STATUS, AMSTREAM_GET_EX_AB_STATUS);
  (AMSTREAM_IOC_ACHANNEL, AMSTREAM_SET_ACHANNEL);
  (AMSTREAM_IOC_SAMPLERATE, AMSTREAM_SET_SAMPLERATE);
  (AMSTREAM_IOC_DATAWIDTH, AMSTREAM_SET_DATAWIDTH);
  (AMSTREAM_IOC_TSTAMP, AMSTREAM_SET_TSTAMP);
  (AMSTREAM_IOC_VDECSTAT, AMSTREAM_GET_EX_VDECSTAT);
  (AMSTREAM_IOC_ADECSTAT, AMSTREAM_GET_EX_ADECSTAT);
  (AMSTREAM_IOC_PORT_INIT, AMSTREAM_PORT_INIT);
  (AMSTREAM_IOC_TRICKMODE, AMSTREAM_SET_TRICKMODE);
  (AMSTREAM_IOC_AUDIO_INFO, AMSTREAM_SET_PTR_AUDIO_INFO);
  (AMSTREAM_IOC_AUDIO_RESET, AMSTREAM_AUDIO_RESET);
  (AMSTREAM_IOC_SID, AMSTREAM_SET_SID);
  (AMSTREAM_IOC_SUB_RESET, AMSTREAM_SUB_RESET);
  (AMSTREAM_IOC_SUB_LENGTH, AMSTREAM_GET_SUB_LENGTH);
  (AMSTREAM_IOC_SET_DEC_RESET, AMSTREAM_DEC_RESET);
  (AMSTREAM_IOC_TS_SKIPBYTE, AMSTREAM_SET_TS_SKIPBYTE);
  (AMSTREAM_IOC_SUB_TYPE, AMSTREAM_SET_SUB_TYPE);
  (AMSTREAM_IOC_APTS, AMSTREAM_GET_APTS);
  (AMSTREAM_IOC_VPTS, AMSTREAM_GET_VPTS);
  (AMSTREAM_IOC_PCRSCR, AMSTREAM_GET_PCRSCR);
  (AMSTREAM_IOC_SET_PCRSCR, AMSTREAM_SET_PCRSCR);
  (AMSTREAM_IOC_SUB_NUM, AMSTREAM_GET_SUB_NUM);
  (AMSTREAM_IOC_SUB_INFO, AMSTREAM_GET_PTR_SUB_INFO);
  (AMSTREAM_IOC_UD_LENGTH, AMSTREAM_GET_UD_LENGTH);
  (AMSTREAM_IOC_UD_POC, AMSTREAM_GET_EX_UD_POC);
  (AMSTREAM_IOC_APTS_LOOKUP, AMSTREAM_GET_APTS_LOOKUP);
  (GET_FIRST_APTS_FLAG, AMSTREAM_GET_FIRST_APTS_FLAG);
  (AMSTREAM_IOC_SET_DEMUX, AMSTREAM_SET_DEMUX);
  (AMSTREAM_IOC_SET_DRMMODE, AMSTREAM_SET_DRMMODE);
  (AMSTREAM_IOC_TSTAMP_uS64, AMSTREAM_SET_TSTAMP_US64);
  (AMSTREAM_IOC_SET_VIDEO_DELAY_LIMIT_MS, AMSTREAM_SET_VIDEO_DELAY_LIMIT_MS);
  (AMSTREAM_IOC_GET_VIDEO_DELAY_LIMIT_MS, AMSTREAM_GET_VIDEO_DELAY_LIMIT_MS);
  (AMSTREAM_IOC_SET_AUDIO_DELAY_LIMIT_MS, AMSTREAM_SET_AUDIO_DELAY_LIMIT_MS);
  (AMSTREAM_IOC_GET_AUDIO_DELAY_LIMIT_MS, AMSTREAM_GET_AUDIO_DELAY_LIMIT_MS);
  (AMSTREAM_IOC_GET_AUDIO_CUR_DELAY_MS, AMSTREAM_GET_AUDIO_CUR_DELAY_MS);
  (AMSTREAM_IOC_GET_VIDEO_CUR_DELAY_MS, AMSTREAM_GET_VIDEO_CUR_DELAY_MS);
  (AMSTREAM_IOC_GET_AUDIO_AVG_BITRATE_BPS, AMSTREAM_GET_AUDIO_AVG_BITRATE_BPS);
  (AMSTREAM_IOC_GET_VIDEO_AVG_BITRATE_BPS, AMSTREAM_GET_VIDEO_AVG_BITRATE_BPS);
  (AMSTREAM_IOC_SET_APTS, AMSTREAM_SET_APTS);
  (AMSTREAM_IOC_GET_LAST_CHECKIN_APTS, AMSTREAM_GET_LAST_CHECKIN_APTS);
  (AMSTREAM_IOC_GET_LAST_CHECKIN_VPTS, AMSTREAM_GET_LAST_CHECKIN_VPTS);
  (AMSTREAM_IOC_GET_LAST_CHECKOUT_APTS, AMSTREAM_GET_LAST_CHECKOUT_APTS);
  (AMSTREAM_IOC_GET_LAST_CHECKOUT_VPTS, AMSTREAM_GET_LAST_CHECKOUT_VPTS);
  (AMSTREAM_IOC_SET, AMSTREAM_SET_EOS)
].

Fixpoint old_cmd_in (p : list (Z * Z)) (cmd : Z) : Z :=
  match p with
  | [] => -1
  | (c, parm_cmd) :: p => if parm_cmd =? u32 cmd then i32 c else old_cmd_in p cmd
  end.

Definition get_old_cmd (cmd : Z) : Z := old_cmd_in cmd_tables cmd.

Section dev.
Context `{Kernel}.

(** The number of the next question, which is logged. *)
Definition question (r : sysreq) : CM cworld nat := λ w,
  Some (asked w, w <| asked := S (asked w) |> <| calls := calls w ++ [r] |>).

(** Whether a descriptor is open; a negative one is refused. *)
Definition use (fd : Z) : CM cworld bool := λ w,
  if fd <? 0 then Some (false, w) else
  match fds w !! fd with
  | Some _ => Some (true, w)
  | None => Some (false, w <| misused := misused w ++ [fd] |>)
  end.

Definition sys_open (path : string) (flags : Z) : CM cworld Z :=
  k ← question (SOpen path flags);
  w ← cm_get;
  let r := k_open k (fds w) path flags in
  (if 0 <=? r then cm_put (w <| fds := <[r := path]> (fds w) |>) else mret tt);;
  mret r.

Definition sys_close (fd : Z) : CM cworld Z :=
  k ← question (SClose fd);
  ok ← use fd;
  if ok : bool then cm_modify (λ w, w <| fds := delete fd (fds w) |>);; mret (k_close k fd)
  else mret (-1).

Definition arg_mem (a : carg) : list Z := match a with ArgMem xs => xs | _ => [] end.

Definition sys_ioctl (fd cmd : Z) (arg : carg) : CM cworld (Z * list Z) :=
  k ← question (SIoctl fd cmd arg);
  ok ← use fd;
  mret (if ok : bool then k_ioctl k fd cmd arg else (-1, arg_mem arg)).

Definition sys_read (fd n : Z) : CM cworld (option (list Z)) :=
  k ← question (SRead fd n);
  ok ← use fd;
  mret (if ok : bool then k_read k fd n else None).

Definition sys_write (fd : Z) (bytes : list Z) : CM cworld Z :=
  k ← question (SWrite fd bytes);
  ok ← use fd;
  mret (if ok : bool then k_write k fd bytes else -1).

Definition sys_poll (fd timeout : Z) : CM cworld Z :=
  k ← question (SPoll fd timeout);
  ok ← use fd;
  mret (if ok : bool then k_poll k fd timeout else -1).

(** An uninitialised local variable. *)
Definition junk : CM cworld Z := λ w, Some (k_stack (asked w), w <| asked := S (asked w) |>).

(** ** codec_h_ctrl.c *)

(** [n] more attempts. *)
Fixpoint open_loop (n : nat) (path : string) (flags : Z) : CM cworld Z :=
  r ← sys_open path flags;
  if 0 <=? r then mret r else
  question (SSleep 10);;
  match n with O => mret r | S n => open_loop n path flags end.

Definition codec_h_open (port_addr : string) (flags : Z) : CM cworld Z :=
  open_loop 999 port_addr flags.

Definition codec_h_open_rd (port_addr : string) : CM cworld Z := sys_open port_addr 0.

Definition codec_h_close (h : Z) : CM cworld Z :=
  (if 0 <=? h then sys_close h;; mret tt else mret tt);; mret 0.

(** The result and the memory of the argument. *)
Definition codec_h_control (h cmd : Z) (parameter : carg) : CM cworld (Z * list Z) :=
  if h <? 0 then mret (-1, arg_mem parameter) else
  '(r, mem) ← sys_ioctl h (u32 cmd) parameter;
  mret (if r <? 0 then r else 0, mem).

Definition no_data_cmd (subcmd : Z) : bool :=
  (subcmd =? AMSTREAM_PORT_INIT) || (subcmd =? AMSTREAM_AUDIO_RESET)
  || (subcmd =? AMSTREAM_SUB_RESET) || (subcmd =? AMSTREAM_DEC_RESET).

(** The union has the parameter in its first four bytes in all cases but the
    ones without data. *)
Definition codec_h_ioctl_set (h subcmd parameter : Z) : CM cworld Z :=
  '(r, _) ← sys_ioctl h AMSTREAM_IOC_SET
              (ArgParm (if no_data_cmd subcmd then 0 else u32 parameter) subcmd);
  mret (if r <? 0 then r else 0).

Definition codec_h_ioctl_set_ex : CM cworld Z := mret 0.

Definition codec_h_ioctl_set_ptr (h subcmd : Z) (mem : list Z) : CM cworld Z :=
  r ← (if subcmd =? AMSTREAM_SET_PTR_AUDIO_INFO
       then '(r, _) ← sys_ioctl h AMSTREAM_IOC_SET_PTR (ArgParmPtr mem subcmd); mret r
       else mret (-1));
  mret (if r <? 0 then r else 0).

(** [mem] is the int the parameter points to, [] when it is NULL. *)
Definition codec_h_ioctl_get (h subcmd : Z) (mem : list Z) : CM cworld (Z * list Z) :=
  match mem with
  | [] => cm_fail
  | v :: _ =>
      '(r, out) ← sys_ioctl h AMSTREAM_IOC_GET (ArgParm (u32 v) subcmd);
      mret (if r <? 0 then (r, [v]) else (0, [u32 (default (u32 v) (head out))]))
  end.

Definition is_status_cmd (subcmd : Z) : bool :=
  (subcmd =? AMSTREAM_GET_EX_VB_STATUS) || (subcmd =? AMSTREAM_GET_EX_AB_STATUS)
  || (subcmd =? AMSTREAM_GET_EX_VDECSTAT) || (subcmd =? AMSTREAM_GET_EX_ADECSTAT).

(** The status structures have five words; those the driver does not write are
    zero. *)
Definition five (out : list Z) : list Z := take 5 (out ++ replicate 5 0).

Definition codec_h_ioctl_get_ex (h subcmd : Z) (mem : list Z) : CM cworld (Z * list Z) :=
  if is_status_cmd subcmd then
    '(r, out) ← sys_ioctl h AMSTREAM_IOC_GET_EX (ArgParmEx subcmd);
    mret (if r <? 0 then (r, mem) else (0, five out))
  else mret (-1, mem).

(** The case label is the old command. *)
Definition codec_h_ioctl_get_ptr (h subcmd : Z) (mem : list Z) : CM cworld (Z * list Z) :=
  if u32 subcmd =? AMSTREAM_IOC_SUB_INFO then
    '(r, out) ← sys_ioctl h AMSTREAM_IOC_GET_PTR (ArgParmPtr mem subcmd);
    mret (if r <? 0 then (r, mem) else (0, out))
  else mret (-1, mem).

Definition arg_val (a : carg) : CM cworld Z := match a with ArgVal v => mret v | _ => cm_fail end.

Definition codec_h_ioctl (h cmd subcmd : Z) (parameter : carg) : CM cworld (Z * list Z) :=
  if h <? 0 then mret (-1, arg_mem parameter) else
  new ← cm_gets support_new_cmd;
  if new =? 0 then
    let old_cmd := get_old_cmd subcmd in
    if old_cmd =? -1 then mret (-1, arg_mem parameter) else codec_h_control h old_cmd parameter
  else if cmd =? AMSTREAM_IOC_SET then
    v ← arg_val parameter; r ← codec_h_ioctl_set h subcmd v; mret (r, [])
  else if cmd =? AMSTREAM_IOC_SET_EX then
    r ← codec_h_ioctl_set_ex; mret (r, arg_mem parameter)
  else if cmd =? AMSTREAM_IOC_SET_PTR then
    r ← codec_h_ioctl_set_ptr h subcmd (arg_mem parameter); mret (r, arg_mem parameter)
  else if cmd =? AMSTREAM_IOC_GET then codec_h_ioctl_get h subcmd (arg_mem parameter)
  else if cmd =? AMSTREAM_IOC_GET_EX then codec_h_ioctl_get_ex h subcmd (arg_mem parameter)
  else if cmd =? AMSTREAM_IOC_GET_PTR then codec_h_ioctl_get_ptr h subcmd (arg_mem parameter)
  else
    '(r, mem) ← sys_ioctl h (u32 cmd) parameter; mret (if r <? 0 then r else 0, mem).

Definition codec_h_read (fd size : Z) : CM cworld (option (list Z)) := sys_read fd size.
Definition codec_h_write (fd : Z) (bytes : list Z) : CM cworld Z := sys_write fd bytes.

Definition codec_h_set_support_new_cmd (value : Z) : CM cworld unit :=
  cm_modify (λ w, w <| support_new_cmd := value |>).
Definition codec_h_is_support_new_cmd : CM cworld Z := cm_gets support_new_cmd.

End dev.

(** A kernel that opens every device, whose driver has the new commands. *)
Definition demo_kernel : Kernel.
Proof.
  refine {|
    k_open _ m _ _ := fresh_key (map_keys m);
    k_close _ _ := 0;
    k_ioctl _ _ _ _ := (0, [0x20000]);
    k_read _ _ n := Some (take (Z.to_nat n) [1; 2; 3]);
    k_write _ _ bs := zlen bs;
    k_poll _ _ _ := 0;
    k_stack _ := 0
  |}.
  - intros _ m _ _ _. by apply fresh_key_none.
  - intros _ m _ _. assert (0 ≤ foldr Z.max 0 (map_keys m)) by (induction (map_keys m); cbn; lia).
    unfold fresh_key, INT_MIN. lia.
  - unfold INT_MIN, INT_MAX. cbn. lia.
  - intros _ _ n bs [= <-]. unfold zlen. rewrite length_take. lia.
Defined.
