(* ===== verification/Codec.v ===== *)
(** The codec library, media/amcodec: the control functions of
    codec/codec_ctrl.c on a [codec_para_t], over the devices of CodecDev.v and
    the decoder instances of AdecControl.v, and the audio functions of
    audio_ctl/audio_ctrl.c.

    A [codec_para_t] is a pointer into the map of the world; an instance of
    the audio decoder lives in the map [adecs] until it is released.  The
    subtitle event branches are compiled in (SUBTITLE_EVENT), the results of
    print functions are left out.  Out parameters are answers. *)

From S2P Require Import Prelude PcmBuffer MessagePool Audec Rely AdecControl CodecDev.

(** ** What the audio decoder library promises *)

(** [dl_create] is [audio_decode_init] on an empty handle, [dl_addr] the block
    of the new instance, [dl_env] what the decoder's thread has done to the
    instance since the last call, [dl_malloc] and [dl_obs] serve the message
    pool, [dl_join] is the result of joining the thread, [dl_kind] the chosen
    decoder; [dl_query] stands for the four declared functions that are not in
    the sources.  [dl_room]: there is always memory for a command (without it
    [audio_decode_release] joins a thread that was never told to end). *)
Class DecoderLib := {
  dl_create : nat → arm_audio_info → option aml_audio_dec_t;
  dl_addr : gmap Z aml_audio_dec_t → Z;
  dl_env : nat → aml_audio_dec_t → aml_audio_dec_t;
  dl_malloc : gmap Z adec_cmd_t → Z;
  dl_obs : nat → Z;
  dl_join : nat → Z;
  dl_kind : nat → Z;
  dl_query : nat → Z → Z;
  dl_create_ok k i a :
    length (i_extradata i) = 4096%nat → dl_create k i = Some a → pool_ok ∅ a;
  dl_addr_ok m : dl_addr m ≠ NULL ∧ m !! dl_addr m = None;
  dl_env_ok k a : pool_ok ∅ a → pool_ok ∅ (dl_env k a);
  dl_malloc_ok : malloc_ok dl_malloc;
  dl_room m : dl_malloc m ≠ 0;
  dl_obs_ok k : dl_obs k ≤ MESSAGE_NUM_MAX
}.

(** ** Formats *)

Definition VFORMAT_MPEG12 : Z := 0.
Definition VFORMAT_MPEG4 : Z := 1.
Definition VFORMAT_H264 : Z := 2.
Definition VFORMAT_VC1 : Z := 6.
Definition VFORMAT_AVS : Z := 7.
Definition VFORMAT_HEVC : Z := 11.
Definition VFORMAT_VP9 : Z := 14.
Definition VFORMAT_MAX : Z := 15.

Definition AFORMAT_MPEG : Z := 0.
Definition AFORMAT_WMA : Z := 14.
Definition AFORMAT_WMAPRO : Z := 15.
Definition AFORMAT_MPEG1 : Z := 26.
Definition AFORMAT_MPEG2 : Z := 27.
Definition AFORMAT_WMAVOI : Z := 28.
Definition AFORMAT_MAX : Z := 32.

(** ADPCM, WMA, WMAPRO, S16BE, S16LE, U8, BLURAY, AMR, ALAC, AC3, EAC3, APE,
    FLAC, WIFIDISPLAY, COOK, RAAC, TRUEHD, WMAVOI, WMALOSSLESS *)
Definition IS_AUDIO_NEED_EXT_INFO (afmt : Z) : bool :=
  bool_decide (afmt ∈ [11; 14; 15; 7; 1; 10; 16; 12; 17; 3; 21; 20; 8; 22; 9; 13; 25; 28; 29]).

Definition IS_VALID_PID (t : Z) : bool := (0 <=? t) && (t <=? 0x1fff).

Definition O_RDONLY : Z := 0.
Definition O_WRONLY : Z := 1.
Definition O_RDWR : Z := 2.
Definition O_NONBLOCK : Z := 0x800.

Definition CODEC_VIDEO_ES_DEVICE : string := "/dev/amstream_vbuf".
Definition CODEC_AUDIO_ES_DEVICE : string := "/dev/amstream_abuf".
Definition CODEC_TS_DEVICE : string := "/dev/amstream_mpts".
Definition CODEC_PS_DEVICE : string := "/dev/amstream_mpps".
Definition CODEC_RM_DEVICE : string := "/dev/amstream_rm".
Definition CODEC_CNTL_DEVICE : string := "/dev/amvideo".
Definition CODEC_SUB_DEVICE : string := "/dev/amstream_sub".
Definition CODEC_SUB_READ_DEVICE : string := "/dev/amstream_sub_read".
Definition CODEC_AUDIO_UTILS_DEVICE : string := "/dev/amaudio_utils".
Definition CODEC_VIDEO_HEVC_DEVICE : string := "/dev/amstream_hevc".
Definition CODEC_VIDEO_DVAVC_DEVICE : string := "/dev/amstream_dves_avc".
Definition CODEC_VIDEO_DVHEVC_DEVICE : string := "/dev/amstream_dves_hevc".

Definition TS_PACKET_SIZE : Z := 188.
Definition DEMUX_PLAYER_SOURCE : Z := 1.
Definition AUDIO_EXTRA_DATA_SIZE : Z := 4096.

(** ** The stream information for the audio decoder *)

(** The bytes of an int in memory. *)
Definition le32 (v : Z) : list Z :=
  (λ i, u8 (Z.shiftr v (8 * i))) <$> [0; 1; 2; 3].

(** The words of [audio_info_t], for the driver. *)
Definition audio_info_mem (i : audio_info_t) : list Z :=
  [ai_valid i; ai_sample_rate i; ai_channels i; ai_bitrate i; ai_codec_id i; ai_block_align i;
   ai_extradata_size i] ++ ai_extradata i.

(** [Asf_audio_info_t] as it is copied: seven ints and 512 bytes.  A negative
    size is a huge one for memcpy. *)
Definition asf_bytes (i : audio_info_t) : option (list Z) :=
  '(size, ext) ← (if ai_extradata_size i <=? 512 then
      src ← slice (ai_extradata i) 0 (ai_extradata_size i);
      ext ← splice (replicate 512 0) 0 src;
      Some (ai_extradata_size i, ext)
    else Some (0, replicate 512 0));
  Some (le32 (ai_valid i) ++ le32 (ai_sample_rate i) ++ le32 (ai_channels i) ++ le32 (ai_bitrate i)
        ++ le32 (ai_codec_id i) ++ le32 (ai_block_align i) ++ le32 size ++ ext).

Definition ext_info (atype : Z) (i : audio_info_t) (a : arm_audio_info) : option arm_audio_info :=
  if IS_AUDIO_NEED_EXT_INFO atype then
    if negb (atype =? AFORMAT_WMA) && negb (atype =? AFORMAT_WMAPRO) && negb (atype =? AFORMAT_WMAVOI)
    then
      if (ai_extradata_size i >? 0) && (ai_extradata_size i <=? AUDIO_EXTRA_DATA_SIZE) then
        src ← slice (ai_extradata i) 0 (ai_extradata_size i);
        ext ← splice (i_extradata a) 0 src;
        Some (a <| i_extradata_size := ai_extradata_size i |> <| i_extradata := ext |>)
      else Some (a <| i_extradata_size := 0 |>)
    else
      bs ← asf_bytes i;
      ext ← splice (i_extradata a) 0 bs;
      Some (a <| i_extradata := ext |> <| i_extradata_size := 540 |>)
  else Some a.

Definition bit (b : bool) : Z := if b then 1 else 0.

(** As [codec_init] fills it. *)
Definition init_ainfo (c : codec_para_t) : option arm_audio_info :=
  ext_info (audio_type c) (audio_info c)
    (mk_info (audio_samplerate c) (audio_channels c) (audio_type c) (ai_bitrate (audio_info c))
       (ai_block_align (audio_info c)) (ai_codec_id (audio_info c)) (handle c) 0 (replicate 4096 0)
       (cp_SessionID c) (cp_dspdec_not_supported c) 0 (automute_flag c) (bit (cp_has_video c))).

(** As [codec_resume_audio] fills it: without the session, with the drop flag
    of an audio switch. *)
Definition resume_ainfo (c : codec_para_t) : option arm_audio_info :=
  let drop := if switch_audio_flag c =? 0 then 0
              else match stream_type c with
                   | STREAM_TYPE_TS | STREAM_TYPE_PS => 0
                   | _ => switch_audio_flag c
                   end in
  ext_info (audio_type c) (audio_info c)
    (mk_info (audio_samplerate c) (audio_channels c) (audio_type c) (ai_bitrate (audio_info c))
       (ai_block_align (audio_info c)) (ai_codec_id (audio_info c)) (handle c) 0 (replicate 4096 0)
       0 (cp_dspdec_not_supported c) drop (automute_flag c) (bit (cp_has_video c))).

Section codec.
Context `{Kernel} `{DecoderLib}.

Definition para (p : Z) : CM cworld codec_para_t := λ w,
  match codecs w !! p with Some c => Some (c, w) | None => None end.
Definition set_para (p : Z) (f : codec_para_t → codec_para_t) : CM cworld unit := λ w,
  match codecs w !! p with
  | Some c => Some (tt, w <| codecs := <[p := f c]> (codecs w) |>)
  | None => None
  end.

(** ** audio_ctrl.c *)

(** A call on the instance behind [priv], which may be NULL; a freed instance
    has no meaning. *)
Definition on_adec {A} (priv : Z) (f : bool → CM aml_audio_dec_t A) : CM cworld A := λ w,
  if priv =? NULL then
    match f false zero_audec with Some (x, _) => Some (x, w) | None => None end
  else
    match adecs w !! priv with
    | Some a =>
        match f true (dl_env (asked w) a) with
        | Some (x, a') => Some (x, w <| adecs := <[priv := a']> (adecs w) |> <| asked := S (asked w) |>)
        | None => None
        end
    | None => None
    end.

(** The result of [audio_decode_init] is not looked at. *)
Definition audio_start (p : Z) (info : arm_audio_info) : CM cworld unit :=
  c ← para p;
  w ← cm_get;
  if negb (adec_priv c =? NULL) then mret tt else
  match dl_create (asked w) info with
  | None => cm_put (w <| asked := S (asked w) |>)
  | Some a =>
      let h := dl_addr (adecs w) in
      cm_put (w <| adecs := <[h := a]> (adecs w) |> <| asked := S (asked w) |>);;
      set_para p (λ c, c <| adec_priv := h |>)
  end.

Definition audio_stop_async (p : Z) : CM cworld unit :=
  c ← para p;
  on_adec (adec_priv c) (audio_decode_stop dl_malloc dl_obs);;
  mret tt.

(** [audio_decode_release] frees the instance and clears the handle. *)
Definition audio_release (p : Z) : CM cworld unit :=
  c ← para p;
  w ← cm_get;
  on_adec (adec_priv c) (λ h, audio_decode_release dl_malloc dl_obs (Some h) (dl_join (asked w)));;
  cm_modify (λ w, w <| adecs := delete (adec_priv c) (adecs w) |>);;
  set_para p (λ c, c <| adec_priv := NULL |>).

Definition audio_stop (p : Z) : CM cworld unit := audio_stop_async p;; audio_release p.

(** A call of the interface on the instance of [p]. *)
Definition adec_call {A} (p : Z) (f : bool → CM aml_audio_dec_t A) : CM cworld A :=
  c ← para p; on_adec (adec_priv c) f.

Definition audio_pause (p : Z) : CM cworld Z := adec_call p (audio_decode_pause dl_malloc dl_obs).
Definition audio_resume (p : Z) : CM cworld Z := adec_call p (audio_decode_resume dl_malloc dl_obs).
Definition codec_get_mutesta (p : Z) : CM cworld Z := adec_call p audio_output_muted.
Definition codec_set_mute (p mute : Z) : CM cworld Z :=
  adec_call p (λ h, audio_decode_set_mute dl_malloc dl_obs h mute).
Definition codec_get_volume_range : Z := - CODEC_ERROR_IO.
Definition codec_set_volume (p val : Z) : CM cworld Z :=
  adec_call p (λ h, audio_decode_set_volume dl_malloc dl_obs h val).
Definition codec_get_volume (p : Z) : CM cworld (Z * option Z) := adec_call p audio_decode_get_volume.
Definition codec_set_pre_gain (p gain : Z) : CM cworld Z :=
  adec_call p (λ h, audio_decode_set_pre_gain h gain).
Definition codec_get_pre_gain (p : Z) : CM cworld Z := adec_call p audio_decode_get_pre_gain.
Definition codec_set_pre_mute (p mute : Z) : CM cworld Z :=
  adec_call p (λ h, audio_decode_set_pre_mute h mute).
Definition codec_get_pre_mute (p : Z) : CM cworld (Z * option Z) := adec_call p audio_decode_get_pre_mute.
Definition codec_set_lrvolume (p lvol rvol : Z) : CM cworld Z :=
  adec_call p (λ h, audio_decode_set_lrvolume dl_malloc dl_obs h lvol rvol).
Definition codec_get_lrvolume (p : Z) : CM cworld (Z * option (Z * Z)) :=
  adec_call p audio_decode_get_lrvolume.
Definition codec_set_volume_balance : Z := - CODEC_ERROR_IO.
Definition codec_swap_left_right (p : Z) : CM cworld Z := adec_call p (audio_channels_swap dl_malloc dl_obs).
Definition codec_left_mono (p : Z) : CM cworld Z := adec_call p (audio_channel_left_mono dl_malloc dl_obs).
Definition codec_right_mono (p : Z) : CM cworld Z := adec_call p (audio_channel_right_mono dl_malloc dl_obs).
Definition codec_stereo (p : Z) : CM cworld Z := adec_call p (audio_channel_stereo dl_malloc dl_obs).
Definition codec_lr_mix_set (p enable : Z) : CM cworld Z :=
  adec_call p (λ h, audio_channel_lrmix_flag_set h enable).
Definition codec_pcmpara_Applied_get (p : Z) (ptrs : bool) : CM cworld (Z * option (Z * Z * option Z)) :=
  adec_call p (λ h, audio_decpara_get h ptrs).
Definition codec_audio_automute (priv auto_mute : Z) : CM cworld Z :=
  on_adec priv (λ h, audio_decode_automute h auto_mute).
Definition codec_audio_spectrum_switch : Z := -1.
Definition codec_get_soundtrack (p : Z) : CM cworld (Z * option Z) := adec_call p audio_get_soundtrack.
Definition audio_set_avsync_threshold (priv threshold : Z) : CM cworld Z :=
  on_adec priv (λ h, audio_set_av_sync_threshold h threshold).
Definition codec_get_decoder_enable (p : Z) : CM cworld Z := adec_call p audio_decoder_get_enable_status.
Definition codec_set_track_rate (p r : Z) : CM cworld Z :=
  adec_call p (λ h, audio_decoder_set_trackrate h r).

(** ** codec_ctrl.c: requests to the stream device *)

(** A set command to the device behind [h]; the result. *)
Definition ioctl_set (h subcmd v : Z) : CM cworld Z :=
  '(r, _) ← codec_h_ioctl h AMSTREAM_IOC_SET subcmd (ArgVal v); mret r.

(** A get command into an int that holds [v]; the result and the int then. *)
Definition ioctl_get (h subcmd v : Z) : CM cworld (Z * Z) :=
  '(r, mem) ← codec_h_ioctl h AMSTREAM_IOC_GET subcmd (ArgMem [v]);
  mret (r, default v (head mem)).

(** The same into memory the caller provides, [] for NULL. *)
Definition ioctl_get_ptr (h subcmd : Z) (mem : list Z) : CM cworld (Z * list Z) :=
  codec_h_ioctl h AMSTREAM_IOC_GET subcmd (ArgMem mem).

Definition control_val (h cmd v : Z) : CM cworld Z :=
  '(r, _) ← codec_h_control h cmd (ArgVal v); mret r.
Definition control_get (h cmd v : Z) : CM cworld (Z * Z) :=
  '(r, mem) ← codec_h_control h cmd (ArgMem [v]); mret (r, default v (head mem)).

Definition codec_set_eos (p is_eos : Z) : CM cworld Z :=
  c ← para p; ioctl_set (handle c) AMSTREAM_SET_EOS is_eos;; mret 0.

Definition codec_set_demux_source (p source : Z) : CM cworld Z :=
  c ← para p; ioctl_set (handle c) AMSTREAM_SET_DEMUX source.

(** A set command whose failure is a codec error; [k] goes on. *)
Definition checked_set (h subcmd v : Z) (k : CM cworld Z) : CM cworld Z :=
  r ← ioctl_set h subcmd v;
  if r <? 0 then mret (system_error_to_codec_error r) else k.

Definition codec_change_buf_size (p : Z) : CM cworld Z :=
  c ← para p;
  let set_v := if vbuf_size c >? 0
               then checked_set (handle c) AMSTREAM_SET_VB_SIZE (vbuf_size c) (mret CODEC_ERROR_NONE)
               else mret CODEC_ERROR_NONE in
  if abuf_size c >? 0 then checked_set (handle c) AMSTREAM_SET_AB_SIZE (abuf_size c) set_v else set_v.

Definition set_video_format (p : Z) : CM cworld Z :=
  c ← para p;
  let format := video_type c in
  if (format <? 0) || (format >? VFORMAT_MAX) then mret (- CODEC_ERROR_VIDEO_TYPE_UNKNOWN) else
  r ← ioctl_set (handle c) AMSTREAM_SET_VFORMAT format;
  if 0 <=? video_pid c then
    checked_set (handle c) AMSTREAM_SET_VID (video_pid c) (mret 0)
  else if r <? 0 then mret (system_error_to_codec_error r) else mret 0.

Definition set_video_codec_info (p : Z) : CM cworld Z :=
  c ← para p;
  '(r, _) ← codec_h_control (handle c) AMSTREAM_IOC_SYSINFO (ArgMem (am_sysinfo c));
  mret (if r <? 0 then system_error_to_codec_error r else 0).

Definition set_audio_format (p : Z) : CM cworld Z :=
  c ← para p;
  let format := audio_type c in
  if (format <? 0) || (format >? AFORMAT_MAX) then mret (- CODEC_ERROR_AUDIO_TYPE_UNKNOWN) else
  let h := handle c in
  let channels := if audio_channels c >? 0
                  then checked_set h AMSTREAM_SET_ACHANNEL (audio_channels c) (mret 0) else mret 0 in
  let rate := if audio_samplerate c >? 0
              then checked_set h AMSTREAM_SET_SAMPLERATE (audio_samplerate c) channels else channels in
  let pid := if 0 <=? audio_pid c then checked_set h AMSTREAM_SET_AID (audio_pid c) rate else rate in
  checked_set h AMSTREAM_SET_AFORMAT format pid.

Definition set_audio_info (p : Z) : CM cworld Z :=
  c ← para p;
  '(r, _) ← codec_h_ioctl (handle c) AMSTREAM_IOC_SET_PTR AMSTREAM_SET_PTR_AUDIO_INFO
              (ArgMem (audio_info_mem (audio_info c)));
  mret (if r <? 0 then system_error_to_codec_error r else 0).

Definition set_sub_format (p : Z) : CM cworld Z :=
  c ← para p;
  if 0 <=? sub_pid c then
    checked_set (handle c) AMSTREAM_SET_SID (sub_pid c)
      (checked_set (handle c) AMSTREAM_SET_SUB_TYPE (sub_type c) (mret 0))
  else mret 0.

Definition set_ts_skip_byte (p : Z) : CM cworld Z :=
  c ← para p;
  skip ← cm_lift (int_ok (packet_size c - TS_PACKET_SIZE));
  checked_set (handle c) AMSTREAM_SET_TS_SKIPBYTE (if skip <? 0 then 0 else skip) (mret 0).

Definition codec_check_new_cmd (h : Z) : CM cworld unit :=
  new ← codec_h_is_support_new_cmd;
  if negb (new =? 0) then mret tt else
  '(r, version) ← control_get h AMSTREAM_IOC_GET_VERSION 0;
  codec_h_set_support_new_cmd (if (r =? 0) && (0x20000 <=? version) then 1 else 0).

Definition codec_set_drmmode (p setval : Z) : CM cworld Z :=
  c ← para p; ioctl_set (handle c) AMSTREAM_SET_DRMMODE setval.

(** ** Opening a stream *)

(** [CODEC_ERROR_NONE] and the rest, or the device is closed and the error
    returned: the [error1] label. *)
Definition or_close (h : Z) (m : CM cworld Z) (k : CM cworld Z) : CM cworld Z :=
  r ← m;
  if r <? 0 then codec_h_close h;; mret (system_error_to_codec_error r) else k.

Definition when (b : bool) (m : CM cworld Z → CM cworld Z) (k : CM cworld Z) : CM cworld Z :=
  if b then m k else k.

Definition write_flags (c : codec_para_t) : Z := Z.lor O_WRONLY (if noblock c then O_NONBLOCK else 0).

(** The device is opened and its command set asked for. *)
Definition open_stream (p : Z) (device : string) (k : Z → CM cworld Z) : CM cworld Z :=
  c ← para p;
  h ← codec_h_open device (write_flags c);
  if h <? 0 then mret CODEC_OPEN_HANDLE_FAILED else
  set_para p (λ c, c <| handle := h |>);;
  codec_check_new_cmd h;;
  k h.

Definition video_device (c : codec_para_t) : string :=
  if (video_type c =? VFORMAT_HEVC) || (video_type c =? VFORMAT_VP9) then
    if dv_enable c && (video_type c =? VFORMAT_HEVC) then CODEC_VIDEO_DVHEVC_DEVICE
    else CODEC_VIDEO_HEVC_DEVICE
  else if (video_type c =? VFORMAT_H264) && dv_enable c then CODEC_VIDEO_DVAVC_DEVICE
  else CODEC_VIDEO_ES_DEVICE.

Definition codec_video_es_init (p : Z) : CM cworld Z :=
  c ← para p;
  if negb (cp_has_video c) then mret CODEC_ERROR_NONE else
  open_stream p (video_device c) (λ h,
    or_close h (set_video_format p)
    (or_close h (set_video_codec_info p)
    (or_close h (codec_set_drmmode p (drmmode c))
    (mret CODEC_ERROR_NONE)))).

Definition codec_audio_es_init (p : Z) : CM cworld Z :=
  c ← para p;
  if negb (has_audio c) then mret CODEC_ERROR_NONE else
  open_stream p CODEC_AUDIO_ES_DEVICE (λ h,
    or_close h (set_audio_format p)
    (when (IS_AUDIO_NEED_EXT_INFO (audio_type c)) (or_close h (set_audio_info p))
    (mret CODEC_ERROR_NONE))).

Definition codec_init_sub (p : Z) : CM cworld Z :=
  c ← para p;
  h ← codec_h_open CODEC_SUB_DEVICE (write_flags c);
  if h <? 0 then mret (system_error_to_codec_error h) else
  set_para p (λ c, c <| sub_handle := h |>);; mret CODEC_ERROR_NONE.

Definition codec_sub_es_init (p : Z) : CM cworld Z :=
  c ← para p;
  if negb (has_sub c) then mret CODEC_ERROR_NONE else
  r ← codec_init_sub p;
  if r <? 0 then mret CODEC_OPEN_HANDLE_FAILED else
  set_para p (λ c, c <| handle := sub_handle c |> <| sub_pid := 0xffff |>);;
  r ← set_sub_format p;
  if r <? 0 then mret (system_error_to_codec_error r) else mret CODEC_ERROR_NONE.

Definition has_valid_pid (c : codec_para_t) : bool :=
  (cp_has_video c && IS_VALID_PID (video_pid c)) || (has_audio c && IS_VALID_PID (audio_pid c)).

(** The subtitle part at the end of PS and TS. *)
Definition sub_init (p h : Z) (k : CM cworld Z) : CM cworld Z :=
  or_close h (set_sub_format p) (or_close h (codec_init_sub p) k).

Definition codec_ps_init (p : Z) : CM cworld Z :=
  c ← para p;
  if negb (has_valid_pid c) then mret (- CODEC_ERROR_PARAMETER) else
  open_stream p CODEC_PS_DEVICE (λ h,
    when (cp_has_video c) (λ k,
      or_close h (set_video_format p)
      (when ((video_type c =? VFORMAT_H264) || (video_type c =? VFORMAT_VC1)
             || (video_type c =? VFORMAT_MPEG12))
         (or_close h (set_video_codec_info p)) k))
    (when (has_audio c) (λ k,
      or_close h (set_audio_format p)
      (when (IS_AUDIO_NEED_EXT_INFO (audio_type c)) (or_close h (set_audio_info p)) k))
    (when (has_sub c) (sub_init p h)
    (mret CODEC_ERROR_NONE)))).

Definition codec_ts_init (p : Z) : CM cworld Z :=
  c ← para p;
  if negb (has_valid_pid c) then mret (- CODEC_ERROR_PARAMETER) else
  open_stream p CODEC_TS_DEVICE (λ h,
    codec_set_demux_source p DEMUX_PLAYER_SOURCE;;
    when (cp_has_video c) (λ k,
      or_close h (set_video_format p)
      (when ((video_type c =? VFORMAT_H264) || (video_type c =? VFORMAT_MPEG4)
             || (video_type c =? VFORMAT_VC1) || (video_type c =? VFORMAT_AVS)
             || (video_type c =? VFORMAT_MPEG12))
         (or_close h (set_video_codec_info p)) k))
    (when (has_audio c) (λ k,
      or_close h (set_audio_format p)
      (when (negb (ai_valid (audio_info c) =? 0)) (or_close h (set_audio_info p)) k))
    (or_close h (set_ts_skip_byte p)
    (when (has_sub c) (sub_init p h)
    (mret CODEC_ERROR_NONE))))).

Definition codec_rm_init (p : Z) : CM cworld Z :=
  c ← para p;
  if negb (has_valid_pid c) then mret (- CODEC_ERROR_PARAMETER) else
  open_stream p CODEC_RM_DEVICE (λ h,
    when (cp_has_video c) (λ k,
      or_close h (set_video_format p) (or_close h (set_video_codec_info p) k))
    (when (has_audio c) (λ k,
      or_close h (set_audio_format p) (or_close h (set_audio_info p) k))
    (mret CODEC_ERROR_NONE))).

Definition codec_init_cntl (p : Z) : CM cworld Z :=
  c ← para p;
  cntl ← codec_h_open CODEC_CNTL_DEVICE O_RDWR;
  if cntl <? 0 then mret (system_error_to_codec_error cntl) else
  set_para p (λ c, c <| cntl_handle := cntl |>);; mret CODEC_ERROR_NONE.

(** The audio part at the end of [codec_init]. *)
Definition start_audio (p : Z) : CM cworld unit :=
  c ← para p;
  if negb (has_audio c) then mret tt else
  info ← cm_lift (init_ainfo c);
  audio_start p info;;
  c ← para p;
  if cp_avsync_threshold c >? 0
  then audio_set_avsync_threshold (adec_priv c) (cp_avsync_threshold c);; mret tt
  else mret tt.

Definition stream_init (t : stream_type_t) (p : Z) : CM cworld Z :=
  match t with
  | STREAM_TYPE_ES_VIDEO => codec_video_es_init p
  | STREAM_TYPE_ES_AUDIO => codec_audio_es_init p
  | STREAM_TYPE_ES_SUB => codec_sub_es_init p
  | STREAM_TYPE_PS => codec_ps_init p
  | STREAM_TYPE_TS => codec_ts_init p
  | STREAM_TYPE_RM => codec_rm_init p
  | STREAM_TYPE_UNKNOWN => mret (- CODEC_ERROR_STREAM_TYPE_UNKNOWN)
  end.

Definition codec_init (p : Z) : CM cworld Z :=
  set_para p (λ c, c <| handle := -1 |> <| cntl_handle := -1 |> <| sub_handle := -1 |>
    <| audio_utils_handle := -1 |>
    <| audio_type := if (audio_type c =? AFORMAT_MPEG1) || (audio_type c =? AFORMAT_MPEG2)
                     then AFORMAT_MPEG else audio_type c |>);;
  c ← para p;
  ret ← stream_init (stream_type c) p;
  if negb (ret =? 0) then mret ret else
  ret ← codec_init_cntl p;
  if negb (ret =? CODEC_ERROR_NONE) then mret ret else
  ret ← codec_change_buf_size p;
  if negb (ret =? 0) then mret (- CODEC_ERROR_SET_BUFSIZE_FAILED) else
  c ← para p;
  ret ← ioctl_set (handle c) AMSTREAM_PORT_INIT 0;
  if negb (ret =? 0) then mret (- CODEC_ERROR_INIT_FAILED) else
  start_audio p;;
  mret ret.

(** ** Reading, writing, closing *)

Definition codec_write (p : Z) (bytes : list Z) : CM cworld Z :=
  c ← para p; codec_h_write (handle c) bytes.
Definition codec_read (p len : Z) : CM cworld (option (list Z)) :=
  c ← para p; codec_h_read (handle c) len.

Definition codec_close_sub_fd (sub_fd : Z) : CM cworld Z :=
  if negb (sub_fd =? 0) then codec_h_close sub_fd else mret CODEC_ERROR_NONE.

Definition codec_close_sub (p : Z) : CM cworld Z :=
  if p =? NULL then mret CODEC_ERROR_NONE else
  c ← para p; codec_close_sub_fd (sub_handle c).

Definition codec_close_cntl (p : Z) : CM cworld Z :=
  if p =? NULL then mret CODEC_ERROR_NONE else
  c ← para p; if negb (cntl_handle c =? 0) then codec_h_close (cntl_handle c) else mret CODEC_ERROR_NONE.

Definition codec_close (p : Z) : CM cworld Z :=
  c ← para p;
  (if has_audio c then audio_stop p else mret tt);;
  r1 ← (if has_sub c && (0 <=? sub_handle c) then codec_close_sub_fd (sub_handle c) else mret 0);
  r2 ← codec_close_cntl p;
  r3 ← codec_h_close (handle c);
  mret (Z.lor (Z.lor r1 r2) r3).

Definition codec_close_audio (p : Z) : CM cworld unit :=
  if p =? NULL then mret tt else
  set_para p (λ c, c <| has_audio := false |>);; audio_stop p.

Definition codec_close_audio_async (p : Z) : CM cworld unit :=
  if p =? NULL then mret tt else audio_stop_async p.

Definition codec_resume_audio (p : Z) (orig : bool) : CM cworld unit :=
  set_para p (λ c, c <| has_audio := orig |>);;
  if negb orig then mret tt else
  c ← para p;
  info ← cm_lift (resume_ainfo c);
  set_para p (λ c, c <| switch_audio_flag := 0 |>);;
  audio_start p info.

Definition codec_reset (p : Z) : CM cworld Z :=
  ret ← codec_close p;
  if negb (ret =? 0) then mret ret else
  ret ← codec_init p;
  mret (system_error_to_codec_error ret).

Definition codec_checkin_pts (p pts : Z) : CM cworld Z :=
  c ← para p; ioctl_set (handle c) AMSTREAM_SET_TSTAMP pts.

(** ** State of the buffers and decoders *)

(** The status of [ex] by the new command, of [old] by the old one.  With the
    old commands the structure follows two words of [am_io_param]. *)
Definition get_status (h ex old : Z) : CM cworld (Z * list Z) :=
  new ← codec_h_is_support_new_cmd;
  x ← junk;
  if negb (new =? 0) then
    '(r, mem) ← codec_h_ioctl h AMSTREAM_IOC_GET_EX ex (ArgMem (replicate 5 x)); mret (r, five mem)
  else
    '(r, mem) ← codec_h_control h old (ArgMem (replicate 7 x)); mret (r, five (drop 2 mem)).

Definition codec_get_vbuf_state (p : Z) : CM cworld (Z * list Z) :=
  c ← para p;
  '(r, st) ← get_status (handle c) AMSTREAM_GET_EX_VB_STATUS AMSTREAM_IOC_VB_STATUS;
  mret (system_error_to_codec_error r, st).

Definition codec_get_abuf_state (p : Z) : CM cworld (Z * list Z) :=
  c ← para p;
  '(r, st) ← get_status (handle c) AMSTREAM_GET_EX_AB_STATUS AMSTREAM_IOC_AB_STATUS;
  mret (system_error_to_codec_error r, st).

Definition codec_get_vdec_state (p : Z) : CM cworld (Z * list Z) :=
  c ← para p;
  '(r, st) ← get_status (handle c) AMSTREAM_GET_EX_VDECSTAT AMSTREAM_IOC_VDECSTAT;
  mret (system_error_to_codec_error r, st).

(** [get_decoder_status] of adec-ffmpeg-mgt.c *)
Definition get_decoder_status (h : bool) : CM aml_audio_dec_t (Z * list Z) :=
  a ← cm_get;
  if negb h then mret (-1, []) else
  match g_bst a with
  | Some b => mret (0, [PcmBuffer.channels b; PcmBuffer.samplerate b; PcmBuffer.data_width b;
                        u32 (nDecodeErrCount a); if state_num (state a) >? state_num INITTED then 1 else 0])
  | None => mret (-1, [])
  end.

(** The answer is what is written to the caller's structure, if anything. *)
Definition codec_get_adec_state (p : Z) : CM cworld (Z * list Z) :=
  c ← para p;
  k ← cm_gets asked;
  if dl_kind k =? 1 then on_adec (adec_priv c) get_decoder_status else
  '(r, st) ← get_status (handle c) AMSTREAM_GET_EX_ADECSTAT AMSTREAM_IOC_ADECSTAT;
  mret (system_error_to_codec_error r, if r =? 0 then st else []).

(** ** Pause and resume *)

Definition video_pause (p : Z) : CM cworld Z :=
  c ← para p; control_val (cntl_handle c) AMSTREAM_IOC_VPAUSE 1.
Definition video_resume (p : Z) : CM cworld Z :=
  c ← para p; control_val (cntl_handle c) AMSTREAM_IOC_VPAUSE 0.

Definition codec_pause (p : Z) : CM cworld Z :=
  if p =? NULL then mret CODEC_ERROR_PARAMETER else
  c ← para p;
  (if has_audio c then audio_pause p;; mret tt else mret tt);;
  if cp_has_video c then video_pause p else mret CODEC_ERROR_NONE.

Definition codec_resume (p : Z) : CM cworld Z :=
  if p =? NULL then mret CODEC_ERROR_PARAMETER else
  c ← para p;
  (if has_audio c then audio_resume p;; mret tt else mret tt);;
  if cp_has_video c then video_resume p else mret CODEC_ERROR_NONE.

(** ** Subtitles *)

Definition codec_open_sub_read : CM cworld Z :=
  h ← codec_h_open_rd CODEC_SUB_READ_DEVICE;
  mret (if h <? 0 then system_error_to_codec_error h else h).

Definition codec_poll_sub (p : Z) : CM cworld Z :=
  c ← para p; if sub_handle c =? 0 then mret 0 else sys_poll (sub_handle c) 10.
Definition codec_poll_sub_fd (sub_fd timeout : Z) : CM cworld Z :=
  if sub_fd <=? 0 then mret 0 else sys_poll sub_fd timeout.

(** The length is an int that was not initialised. *)
Definition sub_length (h : Z) : CM cworld Z :=
  x ← junk;
  '(r, n) ← ioctl_get h AMSTREAM_GET_SUB_LENGTH x;
  mret (if r <? 0 then system_error_to_codec_error r else i32 n).

Definition codec_get_sub_size (p : Z) : CM cworld Z :=
  c ← para p; if sub_handle c =? 0 then mret 0 else sub_length (sub_handle c).
Definition codec_get_sub_size_fd (sub_fd : Z) : CM cworld Z :=
  if sub_fd <=? 0 then mret 0 else sub_length sub_fd.

(** [while (data_size)]: the bytes stored so far, and whether the loop has
    ended with a result before the fuel. *)
Fixpoint read_sub_loop (fuel : nat) (h data_size : Z) (done : list Z) : CM cworld (option Z * list Z) :=
  if data_size =? 0 then mret (Some 0, done) else
  match fuel with
  | O => mret (None, done)
  | S fuel =>
      r ← codec_h_read h data_size;
      match r with
      | None => mret (Some (system_error_to_codec_error (-1)), done)
      | Some bs => read_sub_loop fuel h (data_size - zlen bs) (done ++ bs)
      end
  end.

Definition codec_read_sub_data_fd (fuel : nat) (sub_fd length : Z) : CM cworld (option Z * list Z) :=
  if sub_fd <=? 0 then mret (Some 0, []) else read_sub_loop fuel sub_fd (i32 length) [].
Definition codec_read_sub_data (fuel : nat) (p length : Z) : CM cworld (option Z * list Z) :=
  c ← para p;
  if sub_handle c =? 0 then mret (Some 0, []) else read_sub_loop fuel (sub_handle c) (i32 length) [].

Definition codec_write_sub_data (p : Z) (bytes : list Z) : CM cworld Z :=
  c ← para p; if sub_handle c =? 0 then mret 0 else codec_h_write (sub_handle c) bytes.

Definition codec_get_sub_num (p : Z) : CM cworld Z :=
  c ← para p;
  '(r, n) ← ioctl_get (handle c) AMSTREAM_GET_SUB_NUM 0;
  mret (if r <? 0 then r else i32 n).

(** [mem]: the structure the caller passes, None for NULL. *)
Definition codec_get_sub_info (p : Z) (mem : option (list Z)) : CM cworld (Z * list Z) :=
  match mem with
  | None => mret (CODEC_ERROR_INVAL, [])
  | Some xs =>
      c ← para p;
      codec_h_ioctl (handle c) AMSTREAM_IOC_GET_PTR AMSTREAM_GET_PTR_SUB_INFO (ArgMem xs)
  end.

Definition codec_set_sub_id (p : Z) : CM cworld Z :=
  c ← para p; ioctl_set (handle c) AMSTREAM_SET_SID (sub_pid c).
Definition codec_set_sub_type (p : Z) : CM cworld Z :=
  c ← para p; ioctl_set (handle c) AMSTREAM_SET_SUB_TYPE (sub_type c).
Definition codec_reset_subtile (p : Z) : CM cworld Z :=
  c ← para p; ioctl_set (handle c) AMSTREAM_SUB_RESET 0.

(** ** The control device *)

Definition codec_poll_cntl (p : Z) : CM cworld Z :=
  c ← para p; if cntl_handle c =? 0 then mret 0 else sys_poll (cntl_handle c) 10.

(** An int read from the control device, or a codec error. *)
Definition cntl_int (p cmd : Z) : CM cworld Z :=
  c ← para p;
  if cntl_handle c =? 0 then mret 0 else
  x ← junk;
  '(r, v) ← control_get (cntl_handle c) cmd x;
  mret (if r <? 0 then system_error_to_codec_error r else i32 v).

Definition codec_get_cntl_state (p : Z) : CM cworld Z := cntl_int p AMSTREAM_IOC_TRICK_STAT.
Definition codec_get_cntl_vpts (p : Z) : CM cworld Z := cntl_int p AMSTREAM_IOC_GET_TRICK_VPTS.
Definition codec_get_freerun_mode (p : Z) : CM cworld Z := cntl_int p AMSTREAM_IOC_GET_FREERUN_MODE.

Definition cntl_set (p cmd v : Z) : CM cworld Z :=
  c ← para p; control_val (cntl_handle c) cmd v.

Definition codec_set_cntl_mode (p mode : Z) : CM cworld Z := cntl_set p AMSTREAM_IOC_TRICKMODE mode.
Definition codec_set_cntl_avthresh (p v : Z) : CM cworld Z := cntl_set p AMSTREAM_IOC_AVTHRESH v.
Definition codec_set_cntl_syncthresh (p v : Z) : CM cworld Z := cntl_set p AMSTREAM_IOC_SYNCTHRESH v.
Definition codec_set_syncenable (p v : Z) : CM cworld Z := cntl_set p AMSTREAM_IOC_SYNCENABLE v.
Definition codec_set_sync_audio_discont (p v : Z) : CM cworld Z := cntl_set p AMSTREAM_IOC_SET_SYNC_ADISCON v.
Definition codec_set_sync_video_discont (p v : Z) : CM cworld Z := cntl_set p AMSTREAM_IOC_SET_SYNC_VDISCON v.
Definition codec_set_sync_audio_discont_diff (p v : Z) : CM cworld Z :=
  cntl_set p AMSTREAM_IOC_SET_SYNC_ADISCON_DIFF v.
Definition codec_set_sync_video_discont_diff (p v : Z) : CM cworld Z :=
  cntl_set p AMSTREAM_IOC_SET_SYNC_VDISCON_DIFF v.
Definition codec_set_freerun_mode (p v : Z) : CM cworld Z := cntl_set p AMSTREAM_IOC_SET_FREERUN_MODE v.
Definition codec_set_vsync_upint (p v : Z) : CM cworld Z := cntl_set p AMSTREAM_IOC_SET_VSYNC_UPINT v.

Definition codec_disable_slowsync (p v : Z) : CM cworld Z :=
  c ← para p;
  if cntl_handle c =? 0 then mret 0 else
  r ← control_val (cntl_handle c) AMSTREAM_IOC_DISABLE_SLOW_SYNC v;
  mret (if r <? 0 then system_error_to_codec_error r else 0).

(** A number that starts as 0, or the error of the call, converted by [conv]. *)
Definition discont (conv : Z → Z) (p cmd : Z) : CM cworld Z :=
  c ← para p;
  '(r, v) ← control_get (cntl_handle c) cmd 0;
  mret (if r <? 0 then conv r else v).

Definition codec_get_sync_audio_discont (p : Z) : CM cworld Z := discont id p AMSTREAM_IOC_GET_SYNC_ADISCON.
Definition codec_get_sync_video_discont (p : Z) : CM cworld Z := discont id p AMSTREAM_IOC_GET_SYNC_VDISCON.
Definition codec_get_sync_audio_discont_diff (p : Z) : CM cworld Z :=
  discont u64 p AMSTREAM_IOC_GET_SYNC_ADISCON_DIFF.
Definition codec_get_sync_video_discont_diff (p : Z) : CM cworld Z :=
  discont u64 p AMSTREAM_IOC_GET_SYNC_VDISCON_DIFF.

(** ** Settings of the stream *)

Definition codec_set_mode (p mode : Z) : CM cworld Z :=
  c ← para p; ioctl_set (handle c) AMSTREAM_SET_TRICKMODE mode.
Definition codec_reset_audio (p : Z) : CM cworld Z :=
  c ← para p; ioctl_set (handle c) AMSTREAM_AUDIO_RESET 0.
Definition codec_set_audio_pid (p : Z) : CM cworld Z :=
  c ← para p; ioctl_set (handle c) AMSTREAM_SET_AID (audio_pid c).
Definition codec_set_dec_reset (p : Z) : CM cworld Z :=
  c ← para p; ioctl_set (handle c) AMSTREAM_DEC_RESET 0.

Definition codec_audio_reinit (p : Z) : CM cworld Z :=
  ret ← set_audio_format p;
  c ← para p;
  if (ret =? 0) && negb (ai_valid (audio_info c) =? 0) then set_audio_info p else mret ret.

Definition codec_audio_isready (p : Z) : CM cworld Z :=
  if p =? NULL then mret (-1) else
  c ← para p; if has_audio c then on_adec (adec_priv c) audio_dec_ready else mret 1.

Definition codec_audio_get_nb_frames (p : Z) : CM cworld Z :=
  if p =? NULL then mret (-1) else
  c ← para p;
  k ← cm_gets asked;
  mret (if has_audio c then dl_query k (adec_priv c) else -1).

(** A time of the stream. *)
Definition stream_time (p subcmd : Z) : CM cworld Z :=
  if p =? NULL then mret (-1) else
  c ← para p;
  x ← junk;
  '(r, v) ← ioctl_get (handle c) subcmd x;
  mret (if r <? 0 then -1 else i32 v).

Definition codec_get_apts (p : Z) : CM cworld Z := stream_time p AMSTREAM_GET_APTS.
Definition codec_get_vpts (p : Z) : CM cworld Z := stream_time p AMSTREAM_GET_VPTS.
Definition codec_get_pcrscr (p : Z) : CM cworld Z := stream_time p AMSTREAM_GET_PCRSCR.

Definition codec_set_pcrscr (p val : Z) : CM cworld Z :=
  if p =? NULL then mret (-1) else
  c ← para p;
  r ← ioctl_set (handle c) AMSTREAM_SET_PCRSCR val;
  mret (if r <? 0 then -1 else 0).

Definition codec_set_av_threshold (p threshold : Z) : CM cworld Z :=
  c ← para p;
  if has_audio c then audio_set_avsync_threshold (adec_priv c) threshold;; mret 0 else mret (-1).

(** ** The audio utilities *)

Definition codec_init_audio_utils (p : Z) : CM cworld Z :=
  h ← codec_h_open CODEC_AUDIO_UTILS_DEVICE O_RDONLY;
  if h <? 0 then mret (system_error_to_codec_error h) else
  set_para p (λ c, c <| audio_utils_handle := h |>);; mret CODEC_ERROR_NONE.

Definition codec_release_audio_utils (p : Z) : CM cworld Z :=
  c ← para p;
  (if 0 <=? audio_utils_handle c then codec_h_close (audio_utils_handle c);; mret tt else mret tt);;
  set_para p (λ c, c <| audio_utils_handle := -1 |>);;
  mret CODEC_ERROR_NONE.

Definition codec_set_audio_resample_ena (p mode : Z) : CM cworld Z :=
  c ← para p; control_val (audio_utils_handle c) AMAUDIO_IOC_SET_RESAMPLE_ENA mode.
Definition codec_get_audio_resample_ena (p : Z) : CM cworld Z :=
  c ← para p;
  x ← junk;
  '(r, v) ← control_get (audio_utils_handle c) AMAUDIO_IOC_GET_RESAMPLE_ENA x;
  mret (if r <? 0 then system_error_to_codec_error r else i32 v).
Definition codec_set_audio_resample_type (p type : Z) : CM cworld Z :=
  c ← para p; control_val (audio_utils_handle c) AMAUDIO_IOC_SET_RESAMPLE_TYPE type.

(** ** Delays and rates *)

Definition stream_set (subcmd p v : Z) : CM cworld Z := c ← para p; ioctl_set (handle c) subcmd v.
Definition stream_get (subcmd p : Z) (mem : list Z) : CM cworld (Z * list Z) :=
  c ← para p; ioctl_get_ptr (handle c) subcmd mem.

Definition codec_set_video_delay_limited_ms := stream_set AMSTREAM_SET_VIDEO_DELAY_LIMIT_MS.
Definition codec_get_video_delay_limited_ms := stream_get AMSTREAM_GET_VIDEO_DELAY_LIMIT_MS.
Definition codec_set_audio_delay_limited_ms := stream_set AMSTREAM_SET_AUDIO_DELAY_LIMIT_MS.
Definition codec_get_audio_delay_limited_ms := stream_get AMSTREAM_GET_AUDIO_DELAY_LIMIT_MS.
Definition codec_get_video_cur_delay_ms := stream_get AMSTREAM_GET_VIDEO_CUR_DELAY_MS.
Definition codec_get_video_cur_bitrate := stream_get AMSTREAM_GET_VIDEO_AVG_BITRATE_BPS.
Definition codec_get_audio_cur_bitrate := stream_get AMSTREAM_GET_AUDIO_AVG_BITRATE_BPS.
Definition codec_get_last_checkout_apts := stream_get AMSTREAM_GET_LAST_CHECKOUT_APTS.
Definition codec_get_last_checkin_apts := stream_get AMSTREAM_GET_LAST_CHECKIN_APTS.

Definition codec_get_video_checkin_bitrate (p : Z) (mem : list Z) : CM cworld (Z * list Z) :=
  c ← para p; codec_h_control (handle c) AMSTREAM_IOC_GET_VIDEO_CHECKIN_BITRATE_BPS (ArgMem mem).
Definition codec_get_audio_checkin_bitrate (p : Z) (mem : list Z) : CM cworld (Z * list Z) :=
  c ← para p; codec_h_control (handle c) AMSTREAM_IOC_GET_AUDIO_CHECKIN_BITRATE_BPS (ArgMem mem).

Definition codec_get_audio_cur_delay_ms (p : Z) : CM cworld (Z * option Z) :=
  c ← para p;
  '(r, abuf_delay) ← ioctl_get (handle c) AMSTREAM_GET_AUDIO_CUR_DELAY_MS 0;
  if r <? 0 then mret (-1, None) else
  adec_delay ← (if has_audio c
                then d ← on_adec (adec_priv c) audio_get_decoded_pcm_delay; mret (if d <? 0 then 0 else d)
                else mret 0);
  delay ← cm_lift (int_ok (i32 abuf_delay + adec_delay));
  mret (r, Some delay).

Definition codec_get_pcm_level (p : Z) : CM cworld Z :=
  c ← para p; k ← cm_gets asked; mret (dl_query k (adec_priv c)).
Definition codec_set_skip_bytes (p bytes : Z) : CM cworld Z :=
  c ← para p; k ← cm_gets asked; mret (dl_query k (adec_priv c)).
Definition codec_get_dsp_apts (p : Z) : CM cworld Z :=
  c ← para p; k ← cm_gets asked; mret (dl_query k (adec_priv c)).

End codec.
