(* ===== verification/CodecCalls.v ===== *)
(** The calls of the codec library that keep its resources (Codec.v): the
    results of the device layer, and that all calls but those
    that open and close leave the descriptors, the codecs and the set of
    decoder instances as they are. *)

From S2P Require Import Prelude PcmBuffer MessagePool Audec Rely AdecControl CodecDev Codec.

(** ** The error codes *)

Lemma lor_bit24 e : Z.testbit (Z.lor C_PAE e) 24 = true.
Proof. by rewrite Z.lor_spec. Qed.

Lemma codec_error_zero e : system_error_to_codec_error e = 0 → e = 0.
Proof.
  unfold system_error_to_codec_error. zcase; [done|done|done|done|]. intros E. exfalso.
  assert (Z.lor C_PAE e mod 2 ^ 32 = 0) as Em.
  { unfold i32, wraps in E. change (2 ^ (32 - 1)) with 2147483648 in E. change (2 ^ 32) with 4294967296 in *.
    set (x := Z.lor C_PAE e) in *. clearbody x.
    pose proof (Z.div_mod (- x + 2147483648) 4294967296 ltac:(lia)) as Hd.
    apply Z.mod_divide; [done|]. exists (- ((- x + 2147483648) / 4294967296)). lia. }
  pose proof (lor_bit24 e) as Hb. rewrite <- (Z.mod_pow2_bits_low _ 32) in Hb by lia.
  by rewrite Em in Hb.
Qed.

Lemma land_C_PAE e : Z.land C_PAE e = if Z.testbit e 24 then C_PAE else 0.
Proof.
  change C_PAE with (2 ^ 24). apply Z.bits_inj'. intros n Hn.
  rewrite Z.land_spec, Z.pow2_bits_eqb by lia.
  destruct (Z.eqb_spec 24 n) as [<-|Hne]; destruct (Z.testbit e 24) eqn:E; cbn [andb];
    rewrite ?Z.pow2_bits_true, ?Z.pow2_bits_false, ?Z.bits_0 by lia; done.
Qed.

(** A failed system call gives a positive error. *)
Lemma codec_error_pos e : INT_MIN < e < 0 → 0 < system_error_to_codec_error e < 2 ^ 31.
Proof.
  intros He. unfold system_error_to_codec_error, EBUSY, ENOMEM, ENODEV. zcase; try lia.
  pose proof (Zbitwise.Z.add_lor_land C_PAE e) as Hl.
  assert (0 ≤ Z.land C_PAE e) by (apply Z.land_nonneg; by left).
  assert (Z.land C_PAE e ≤ C_PAE) by (rewrite land_C_PAE; destruct (Z.testbit e 24); done).
  assert (Z.lor C_PAE e < 0) by (apply Z.lor_neg; lia).
  unfold INT_MIN, C_PAE in *. rewrite i32_small; lia.
Qed.

(** ** Calls that keep the resources *)

Section session.
Context `{Kernel} `{DecoderLib}.

Definition pools (w : cworld) : Prop := map_Forall (λ _ i, pool_ok ∅ i) (adecs w).

(** Only the log, the command set and the instances themselves change. *)
Record calm (w w' : cworld) : Prop := {
  calm_fds : fds w' = fds w;
  calm_misused : misused w' = misused w;
  calm_codecs : codecs w' = codecs w;
  calm_adecs : dom (adecs w') = dom (adecs w);
  calm_pools : pools w → pools w'
}.

#[export] Instance calm_preorder : PreOrder calm.
Proof.
  split; [by split|]. intros w1 w2 w3 [] []. split; [congruence..|auto].
Qed.

Definition usable (w : cworld) (h : Z) : Prop := h < 0 ∨ h ∈ dom (fds w).
Definition handles (c : codec_para_t) : list Z :=
  [handle c; cntl_handle c; sub_handle c; audio_utils_handle c].

(** Codec [p] has parameters [c], with open descriptors and a live instance. *)
Record ready (p : Z) (c : codec_para_t) (w : cworld) : Prop := {
  rd_para : codecs w !! p = Some c;
  rd_fds h : h ∈ handles c → usable w h;
  rd_adec : adec_priv c = NULL ∨ adec_priv c ∈ dom (adecs w);
  rd_pools : pools w
}.

Lemma ready_calm p c w w' : calm w w' → ready p c w → ready p c w'.
Proof.
  intros [Hf Hm Hc Ha Hp] [H1 H2 H3 H4]. split; unfold usable in *.
  - by rewrite Hc.
  - by rewrite Hf.
  - by rewrite Ha.
  - auto.
Qed.

(** [m] runs from every world with [P], keeps the resources, and its result
    satisfies [R]. *)
Definition Safe {A} (P : cworld → Prop) (R : A → Prop) (m : CM cworld A) : Prop :=
  ∀ w, P w → cwp m (λ a w', calm w w' ∧ P w' ∧ R a) w.

Definition any {A} : A → Prop := λ _, True.

Lemma safe_bind {A B} P (R : A → Prop) (R' : B → Prop) m f :
  Safe P R m → (∀ a, R a → Safe P R' (f a)) → Safe P R' (m ≫= f).
Proof.
  intros Hm Hf w Hw. apply cwp_bind. eapply cwp_mono; [|by apply Hm].
  intros a w1 (Hc1 & HP1 & Ha). eapply cwp_mono; [|by apply Hf].
  intros b w2 (Hc2 & HP2 & Hb). split; [by etrans|done].
Qed.

Lemma safe_ret {A} P (R : A → Prop) a : R a → Safe P R (mret a).
Proof. intros Ha w Hw. cwp_steps. by split_and!. Qed.

Lemma safe_gets {A} P (f : cworld → A) : Safe P any (cm_gets f).
Proof. intros w Hw. cwp_steps. by split_and!. Qed.

Lemma safe_mono {A} P (R R' : A → Prop) m : (∀ a, R a → R' a) → Safe P R m → Safe P R' m.
Proof. intros HR Hm w Hw. eapply cwp_mono; [|by apply Hm]. naive_solver. Qed.

Section ready.
Context (p : Z) (c : codec_para_t).
Let P := ready p c.

Lemma safe_calm {A} (m : CM cworld A) (R : A → Prop) :
  (∀ w, P w → cwp m (λ a w', calm w w' ∧ R a) w) → Safe P R m.
Proof.
  intros Hm w Hw. eapply cwp_mono; [|by apply Hm]. cbn. intros a w' [Hc Ha].
  split_and!; [done| |done]. by eapply ready_calm.
Qed.

Lemma safe_para : Safe P (λ x, x = c) (para p).
Proof. intros w Hw. unfold cwp, para. by rewrite (rd_para _ _ _ Hw). Qed.

Lemma safe_junk : Safe P any junk.
Proof. apply safe_calm. intros w Hw. by split; [split|]. Qed.

Lemma safe_set_new v : Safe P any (codec_h_set_support_new_cmd v).
Proof. apply safe_calm. intros w Hw. by split; [split|]. Qed.

Lemma cwp_use h Q w :
  usable w h → (∀ b : bool, (b = false → h < 0) → Q b w) → cwp (use h) Q w.
Proof.
  intros Hu HQ. unfold cwp, use. destruct (Z.ltb_spec h 0); [by apply HQ|].
  destruct Hu as [?|[d Hd]%elem_of_dom]; [lia|]. rewrite Hd. by apply HQ.
Qed.

(** A system call on one of the descriptors. *)
Lemma safe_syscall {A} (R : A → Prop) r h (g : nat → bool → A) :
  h ∈ handles c → (∀ k b, R (g k b)) → Safe P R (k ← question r; ok ← use h; mret (g k ok)).
Proof.
  intros Hh Hg. apply safe_calm. intros w Hw. cwp_step.
  eapply cwp_intro; [reflexivity|]. cbn. cwp_step. apply cwp_use; [by apply Hw|].
  intros b _. cwp_steps. split; [by split|done].
Qed.

Lemma safe_sys_ioctl h cmd arg :
  h ∈ handles c → Safe P (λ x, INT_MIN < x.1 ≤ INT_MAX) (sys_ioctl h cmd arg).
Proof.
  intros Hh. apply (safe_syscall _ _ h (λ k b, if b then k_ioctl k h cmd arg else (-1, arg_mem arg))); [done|].
  intros k []; [apply k_ioctl_int|]. unfold INT_MIN, INT_MAX. cbn. lia.
Qed.

Lemma safe_read h n : h ∈ handles c → Safe P any (sys_read h n).
Proof. intros. by apply (safe_syscall any _ h (λ k b, if b then k_read k h n else None)). Qed.

Lemma safe_write h bs : h ∈ handles c → Safe P any (sys_write h bs).
Proof. intros. by apply (safe_syscall any _ h (λ k b, if b then k_write k h bs else -1)). Qed.

Lemma safe_poll h t : h ∈ handles c → Safe P any (sys_poll h t).
Proof. intros. by apply (safe_syscall any _ h (λ k b, if b then k_poll k h t else -1)). Qed.

(** A call on the instance of the codec. *)
Lemma safe_adec {A} (f : bool → CM aml_audio_dec_t A) :
  (∀ a, pool_ok ∅ a → cwp (f true) (λ _ a', pool_ok ∅ a') a) →
  cwp (f false) (λ _ _, True) zero_audec →
  Safe P any (on_adec (adec_priv c) f).
Proof.
  intros Ht Hf. apply safe_calm. intros w [_ _ Ha Hp]. unfold cwp, on_adec.
  destruct (Z.eqb_spec (adec_priv c) NULL) as [E|E].
  { apply cwp_elim in Hf as (x & a' & -> & _). split; [reflexivity|done]. }
  destruct Ha as [?|[a Ha]%elem_of_dom]; [done|]. rewrite Ha.
  destruct (cwp_elim _ _ _ (Ht _ (dl_env_ok (asked w) a (Hp _ _ Ha)))) as (x & a' & -> & Ha').
  split; [|done]. split; cbn; try done.
  - rewrite dom_insert_L. apply elem_of_dom_2 in Ha. set_solver.
  - intros Hps. by apply map_Forall_insert_2.
Qed.

(** The results of the device layer are 0 or a negative error. *)
Definition status (r : Z) : Prop := INT_MIN < r ≤ 0.

Lemma status_of r : INT_MIN < r ≤ INT_MAX → status (if r <? 0 then r else 0).
Proof. unfold status, INT_MIN, INT_MAX. intros. zcase; lia. Qed.

Lemma status_m1 : status (-1).
Proof. unfold status, INT_MIN. lia. Qed.
Lemma status_0 : status 0.
Proof. unfold status, INT_MIN. lia. Qed.

Lemma safe_control h cmd arg :
  h ∈ handles c → Safe P (λ x, status x.1) (codec_h_control h cmd arg).
Proof.
  intros Hh. unfold codec_h_control. destruct (h <? 0); [by apply safe_ret, status_m1|].
  eapply safe_bind; [by apply safe_sys_ioctl|]. intros [r mem] Hr. by apply safe_ret, status_of.
Qed.

(** The bind of a system call whose result becomes a status. *)
Lemma safe_status_bind {B} h cmd arg (R : B → Prop) (f : Z * list Z → CM cworld B) :
  h ∈ handles c → (∀ r mem, INT_MIN < r ≤ INT_MAX → Safe P R (f (r, mem))) →
  Safe P R (sys_ioctl h cmd arg ≫= f).
Proof.
  intros Hh Hf. eapply safe_bind; [by apply safe_sys_ioctl|]. intros [r mem] Hr. by apply Hf.
Qed.

Lemma safe_h_set h subcmd v : h ∈ handles c → Safe P status (codec_h_ioctl_set h subcmd v).
Proof.
  intros Hh. apply safe_status_bind; [done|]. intros r mem Hr. by apply safe_ret, status_of.
Qed.

Lemma safe_h_set_ptr h subcmd mem : h ∈ handles c → Safe P status (codec_h_ioctl_set_ptr h subcmd mem).
Proof.
  intros Hh. apply (safe_bind _ (λ r, INT_MIN < r ≤ INT_MAX)).
  - destruct (_ =? _); [|by apply safe_ret]. apply safe_status_bind; [done|].
    intros r m Hr. by apply safe_ret.
  - intros r Hr. by apply safe_ret, status_of.
Qed.

Definition status1 (x : Z * list Z) : Prop := status x.1.

Lemma safe_h_get h subcmd mem :
  h ∈ handles c → mem ≠ [] → Safe P status1 (codec_h_ioctl_get h subcmd mem).
Proof.
  intros Hh Hm. destruct mem as [|v mem]; [done|]. apply safe_status_bind; [done|].
  intros r m Hr. apply safe_ret. pose proof (status_of r Hr). unfold status1. by destruct (r <? 0).
Qed.

Lemma safe_h_get_ex h subcmd mem : h ∈ handles c → Safe P status1 (codec_h_ioctl_get_ex h subcmd mem).
Proof.
  intros Hh. unfold codec_h_ioctl_get_ex. destruct (is_status_cmd subcmd); [|by apply safe_ret, status_m1].
  apply safe_status_bind; [done|].
  intros r m Hr. apply safe_ret. pose proof (status_of r Hr). unfold status1. by destruct (r <? 0).
Qed.

Lemma safe_h_get_ptr h subcmd mem : h ∈ handles c → Safe P status1 (codec_h_ioctl_get_ptr h subcmd mem).
Proof.
  intros Hh. unfold codec_h_ioctl_get_ptr. destruct (_ =? _); [|by apply safe_ret, status_m1].
  apply safe_status_bind; [done|].
  intros r m Hr. apply safe_ret. pose proof (status_of r Hr). unfold status1. by destruct (r <? 0).
Qed.

Lemma safe_h_ioctl h cmd subcmd arg :
  h ∈ handles c →
  (cmd = AMSTREAM_IOC_SET → ∃ v, arg = ArgVal v) → (cmd = AMSTREAM_IOC_GET → arg_mem arg ≠ []) →
  Safe P status1 (codec_h_ioctl h cmd subcmd arg).
Proof.
  intros Hh Hset Hget. unfold codec_h_ioctl. destruct (h <? 0); [by apply safe_ret, status_m1|].
  eapply safe_bind; [apply safe_gets|]. intros new _. destruct (new =? 0).
  { cbv zeta. destruct (_ =? -1); [by apply safe_ret, status_m1|by apply safe_control]. }
  destruct (Z.eqb_spec cmd AMSTREAM_IOC_SET) as [E|_].
  { destruct (Hset E) as [v ->]. eapply safe_bind; [by apply (safe_ret P any)|]. intros v' _.
    eapply safe_bind; [by apply safe_h_set|]. intros r Hr. by apply safe_ret. }
  destruct (cmd =? AMSTREAM_IOC_SET_EX).
  { eapply safe_bind; [by apply (safe_ret P status), status_0|]. intros r Hr. by apply safe_ret. }
  destruct (cmd =? AMSTREAM_IOC_SET_PTR).
  { eapply safe_bind; [by apply safe_h_set_ptr|]. intros r Hr. by apply safe_ret. }
  destruct (Z.eqb_spec cmd AMSTREAM_IOC_GET) as [E|_]; [by apply safe_h_get; auto|].
  destruct (cmd =? AMSTREAM_IOC_GET_EX); [by apply safe_h_get_ex|].
  destruct (cmd =? AMSTREAM_IOC_GET_PTR); [by apply safe_h_get_ptr|].
  apply safe_status_bind; [done|]. intros r m Hr. by apply safe_ret, status_of.
Qed.

Lemma safe_set h subcmd v : h ∈ handles c → Safe P status (ioctl_set h subcmd v).
Proof.
  intros Hh. eapply safe_bind; [apply safe_h_ioctl; [done|by eauto|done]|].
  intros [r m] Hr. by apply safe_ret.
Qed.

Lemma safe_get h subcmd v : h ∈ handles c → Safe P any (ioctl_get h subcmd v).
Proof.
  intros Hh. eapply safe_bind; [apply safe_h_ioctl; [done|done|done]|].
  intros [r m] Hr. by apply safe_ret.
Qed.

Lemma safe_get_mem h subcmd mem : h ∈ handles c → mem ≠ [] → Safe P any (ioctl_get_ptr h subcmd mem).
Proof. intros Hh Hm. eapply safe_mono; [|by apply safe_h_ioctl]. done. Qed.

Lemma safe_control_val h cmd v : h ∈ handles c → Safe P status (control_val h cmd v).
Proof.
  intros Hh. eapply safe_bind; [by apply safe_control|]. intros [r m] Hr. by apply safe_ret.
Qed.

Lemma safe_control_get h cmd v : h ∈ handles c → Safe P any (control_get h cmd v).
Proof.
  intros Hh. eapply safe_bind; [by apply safe_control|]. intros [r m] Hr. by apply safe_ret.
Qed.
End ready.

(** ** Calls on the decoder instance *)

(** A call that works on every instance with a sound pool, and on NULL. *)
Record adec_ok {A} (f : bool → CM aml_audio_dec_t A) : Prop := {
  ok_live a : pool_ok ∅ a → cwp (f true) (λ _ a', pool_ok ∅ a') a;
  ok_null : cwp (f false) (λ _ _, True) zero_audec
}.

(** There is memory, so the command is sent. *)
Lemma send_sent g f a :
  ctl_upd g → pool_ok ∅ a → cwp (send_ctrl dl_malloc dl_obs g f) (λ r a', r = 0 ∧ pool_ok ∅ a') a.
Proof.
  intros Hg [cs Hcs].
  destruct (send_ctrl_owned dl_malloc dl_obs dl_malloc_ok dl_obs_ok g f a cs ∅ Hg Hcs)
    as (r & a' & E & Hr). apply (cwp_intro _ _ _ _ _ E).
  destruct Hr as [[-> Hp]|(_ & []%dl_room & _)]. split; [done|by eexists].
Qed.

Lemma send_keeps_pool g f a :
  ctl_upd g → pool_ok ∅ a → cwp (send_ctrl dl_malloc dl_obs g f) (λ _ a', pool_ok ∅ a') a.
Proof.
  intros Hg Ha. eapply cwp_mono; [|by apply send_sent]. by intros r a' [_ ?].
Qed.

Lemma send_ok g f :
  ctl_upd g → adec_ok (λ h, if negb h then mret (-1) else send_ctrl dl_malloc dl_obs g f).
Proof. intros Hg. split; [|done]. intros a Ha. by apply send_keeps_pool. Qed.

Lemma write_ok g :
  (∀ a, message_pool (g a) = message_pool a) →
  adec_ok (λ h : bool, if negb h then mret (-1) else cm_modify g;; mret 0).
Proof. intros Hg. split; [|done]. intros a [cs Ha]. exists cs. by rewrite Hg. Qed.

Lemma look_ok {A} (x : A) (f : aml_audio_dec_t → A) :
  adec_ok (λ h : bool, if negb h then mret x else a ← cm_get; mret (f a)).
Proof. by split. Qed.

Lemma stop_ok : adec_ok (audio_decode_stop dl_malloc dl_obs).
Proof.
  split; [|done]. intros a Ha. cbn [negb audio_decode_stop]. unfold audio_decode_stop. cbn [negb].
  cwp_steps. eapply cwp_mono; [|apply send_keeps_pool; [apply ctl_upd_id|done]].
  intros r a' Ha'. by destruct (r =? -1).
Qed.

Lemma release_live j a :
  pool_ok ∅ a → cwp (audio_decode_release dl_malloc dl_obs (Some true) j) (λ _ a', pool_ok ∅ a') a.
Proof.
  intros Ha. unfold audio_decode_release. cwp_step.
  eapply cwp_mono; [|apply send_sent; [apply ctl_upd_id|done]]. by intros r a' [-> Ha'].
Qed.

(** ** Calls that only talk to devices and to the instance

    All of codec_ctrl.c but the two loops that read subtitle data
    (CodecDriver.v) and [codec_get_audio_cur_delay_ms], whose sum of delays
    the drivers can make overflow. *)

Inductive plain :=
| PWrite (bytes : list Z) | PRead (len : Z) | PSetEos (v : Z) | PCheckinPts (pts : Z)
| PVbufState | PAbufState | PVdecState | PAdecState | PPause | PResume | PCloseAudioAsync
| PPollSub | PSubSize | PWriteSub (bytes : list Z)
| PSubNum | PSubInfo (mem : option (list Z)) | PSetSubId | PSetSubType | PResetSubtitle
| PPollCntl | PCntlState | PCntlVpts | PFreerunMode | PSetCntlMode (v : Z) | PSetAvThresh (v : Z)
| PSetSyncThresh (v : Z) | PSetSyncEnable (v : Z) | PSetADiscont (v : Z) | PSetVDiscont (v : Z)
| PSetADiscontDiff (v : Z) | PSetVDiscontDiff (v : Z) | PSetFreerun (v : Z) | PSetVsync (v : Z)
| PSlowSync (v : Z) | PADiscont | PVDiscont | PADiscontDiff | PVDiscontDiff
| PSetMode (v : Z) | PResetAudio | PSetAudioPid | PDecReset | PAudioReinit | PAudioReady
| PNbFrames | PApts | PVpts | PPcrscr | PSetPcrscr (v : Z) | PAvThreshold (v : Z)
| PResampleEna (v : Z) | PGetResampleEna | PResampleType (v : Z)
| PSetVDelay (v : Z) | PSetADelay (v : Z) | PVDelay (v : Z) | PADelay (v : Z) | PVCurDelay (v : Z)
| PVBitrate (v : Z) | PABitrate (v : Z) | PCheckoutApts (v : Z) | PCheckinApts (v : Z)
| PVCheckinRate (v : Z) | PACheckinRate (v : Z) | PPcmLevel | PSkipBytes (v : Z) | PDspApts
| PMuteState | PSetMute (v : Z) | PSetVolume (v : Z) | PGetVolume | PSetPreGain (v : Z) | PGetPreGain
| PSetPreMute (v : Z) | PGetPreMute | PSetLrVolume (l r : Z) | PGetLrVolume | PSwap | PLeftMono
| PRightMono | PStereo | PLrMix (v : Z) | PPcmPara (ptrs : bool) | PAutomute (v : Z) | PSoundtrack
| PDecoderEnable | PTrackRate (r : Z) | PDrmMode (v : Z).

(** The arithmetic of the call stays in an [int]. *)
Definition plain_ok (x : plain) : Prop :=
  match x with PAvThreshold v => INT_MIN ≤ v * 90 ≤ INT_MAX | _ => True end.

(** Without its result. *)
Definition ignoring {A} (m : CM cworld A) : CM cworld unit := m;; mret tt.

Definition plain_exec (p : Z) (x : plain) : CM cworld unit :=
  match x with
  | PWrite bs => ignoring (codec_write p bs) | PRead n => ignoring (codec_read p n)
  | PSetEos v => ignoring (codec_set_eos p v) | PCheckinPts v => ignoring (codec_checkin_pts p v)
  | PVbufState => ignoring (codec_get_vbuf_state p) | PAbufState => ignoring (codec_get_abuf_state p)
  | PVdecState => ignoring (codec_get_vdec_state p) | PAdecState => ignoring (codec_get_adec_state p)
  | PPause => ignoring (codec_pause p) | PResume => ignoring (codec_resume p)
  | PCloseAudioAsync => codec_close_audio_async p
  | PPollSub => ignoring (codec_poll_sub p) | PSubSize => ignoring (codec_get_sub_size p)
  | PWriteSub bs => ignoring (codec_write_sub_data p bs)
  | PSubNum => ignoring (codec_get_sub_num p) | PSubInfo m => ignoring (codec_get_sub_info p m)
  | PSetSubId => ignoring (codec_set_sub_id p) | PSetSubType => ignoring (codec_set_sub_type p)
  | PResetSubtitle => ignoring (codec_reset_subtile p)
  | PPollCntl => ignoring (codec_poll_cntl p) | PCntlState => ignoring (codec_get_cntl_state p)
  | PCntlVpts => ignoring (codec_get_cntl_vpts p) | PFreerunMode => ignoring (codec_get_freerun_mode p)
  | PSetCntlMode v => ignoring (codec_set_cntl_mode p v)
  | PSetAvThresh v => ignoring (codec_set_cntl_avthresh p v)
  | PSetSyncThresh v => ignoring (codec_set_cntl_syncthresh p v)
  | PSetSyncEnable v => ignoring (codec_set_syncenable p v)
  | PSetADiscont v => ignoring (codec_set_sync_audio_discont p v)
  | PSetVDiscont v => ignoring (codec_set_sync_video_discont p v)
  | PSetADiscontDiff v => ignoring (codec_set_sync_audio_discont_diff p v)
  | PSetVDiscontDiff v => ignoring (codec_set_sync_video_discont_diff p v)
  | PSetFreerun v => ignoring (codec_set_freerun_mode p v)
  | PSetVsync v => ignoring (codec_set_vsync_upint p v)
  | PSlowSync v => ignoring (codec_disable_slowsync p v)
  | PADiscont => ignoring (codec_get_sync_audio_discont p)
  | PVDiscont => ignoring (codec_get_sync_video_discont p)
  | PADiscontDiff => ignoring (codec_get_sync_audio_discont_diff p)
  | PVDiscontDiff => ignoring (codec_get_sync_video_discont_diff p)
  | PSetMode v => ignoring (codec_set_mode p v) | PResetAudio => ignoring (codec_reset_audio p)
  | PSetAudioPid => ignoring (codec_set_audio_pid p) | PDecReset => ignoring (codec_set_dec_reset p)
  | PAudioReinit => ignoring (codec_audio_reinit p) | PAudioReady => ignoring (codec_audio_isready p)
  | PNbFrames => ignoring (codec_audio_get_nb_frames p)
  | PApts => ignoring (codec_get_apts p) | PVpts => ignoring (codec_get_vpts p)
  | PPcrscr => ignoring (codec_get_pcrscr p) | PSetPcrscr v => ignoring (codec_set_pcrscr p v)
  | PAvThreshold v => ignoring (codec_set_av_threshold p v)
  | PResampleEna v => ignoring (codec_set_audio_resample_ena p v)
  | PGetResampleEna => ignoring (codec_get_audio_resample_ena p)
  | PResampleType v => ignoring (codec_set_audio_resample_type p v)
  | PSetVDelay v => ignoring (codec_set_video_delay_limited_ms p v)
  | PSetADelay v => ignoring (codec_set_audio_delay_limited_ms p v)
  | PVDelay v => ignoring (codec_get_video_delay_limited_ms p [v])
  | PADelay v => ignoring (codec_get_audio_delay_limited_ms p [v])
  | PVCurDelay v => ignoring (codec_get_video_cur_delay_ms p [v])
  | PVBitrate v => ignoring (codec_get_video_cur_bitrate p [v])
  | PABitrate v => ignoring (codec_get_audio_cur_bitrate p [v])
  | PCheckoutApts v => ignoring (codec_get_last_checkout_apts p [v])
  | PCheckinApts v => ignoring (codec_get_last_checkin_apts p [v])
  | PVCheckinRate v => ignoring (codec_get_video_checkin_bitrate p [v])
  | PACheckinRate v => ignoring (codec_get_audio_checkin_bitrate p [v])
  | PPcmLevel => ignoring (codec_get_pcm_level p) | PSkipBytes v => ignoring (codec_set_skip_bytes p v)
  | PDspApts => ignoring (codec_get_dsp_apts p)
  | PMuteState => ignoring (codec_get_mutesta p) | PSetMute v => ignoring (codec_set_mute p v)
  | PSetVolume v => ignoring (codec_set_volume p v) | PGetVolume => ignoring (codec_get_volume p)
  | PSetPreGain v => ignoring (codec_set_pre_gain p v) | PGetPreGain => ignoring (codec_get_pre_gain p)
  | PSetPreMute v => ignoring (codec_set_pre_mute p v) | PGetPreMute => ignoring (codec_get_pre_mute p)
  | PSetLrVolume l r => ignoring (codec_set_lrvolume p l r) | PGetLrVolume => ignoring (codec_get_lrvolume p)
  | PSwap => ignoring (codec_swap_left_right p) | PLeftMono => ignoring (codec_left_mono p)
  | PRightMono => ignoring (codec_right_mono p) | PStereo => ignoring (codec_stereo p)
  | PLrMix v => ignoring (codec_lr_mix_set p v) | PPcmPara b => ignoring (codec_pcmpara_Applied_get p b)
  | PAutomute v => c ← para p; ignoring (codec_audio_automute (adec_priv c) v)
  | PSoundtrack => ignoring (codec_get_soundtrack p) | PDecoderEnable => ignoring (codec_get_decoder_enable p)
  | PTrackRate r => ignoring (codec_set_track_rate p r) | PDrmMode v => ignoring (codec_set_drmmode p v)
  end.

(** *** The calls that keep the resources do so *)

Section plain.
Context (p : Z) (c : codec_para_t).
Let P := ready p c.

Lemma safe_any {A} (R : A → Prop) m : Safe P R m → Safe P any m.
Proof. by apply safe_mono. Qed.

Lemma safe_on_adec {A} (f : bool → CM aml_audio_dec_t A) : adec_ok f → Safe P any (on_adec (adec_priv c) f).
Proof. intros []. by apply safe_adec. Qed.

Lemma safe_adec_call {A} (f : bool → CM aml_audio_dec_t A) : adec_ok f → Safe P any (adec_call p f).
Proof.
  intros Hf. eapply safe_bind; [apply safe_para|]. intros x ->. by apply safe_on_adec.
Qed.

End plain.

Lemma threshold_ok v :
  INT_MIN ≤ v * 90 ≤ INT_MAX → adec_ok (λ h, audio_set_av_sync_threshold h v).
Proof.
  intros Hv. split; [|done]. intros a Ha. unfold audio_set_av_sync_threshold. cbn [negb].
  rewrite int_ok_some by done. done.
Qed.

Lemma status_ok : adec_ok get_decoder_status.
Proof.
  split; [|done]. intros a Ha. unfold get_decoder_status. cwp_steps. cbn [negb].
  destruct (g_bst a); by cwp_steps.
Qed.

Lemma decpara_ok ptrs : adec_ok (λ h, audio_decpara_get h ptrs).
Proof.
  split; [|done]. intros a Ha. unfold audio_decpara_get. cbn [negb orb].
  destruct ptrs; cbn [negb]; [|done]. cwp_steps. by destruct (adec_ops a).
Qed.

End session.

Create HintDb safe.

Ltac upd_ok := split; [split|..]; by intros.

#[export] Hint Extern 1 (_ ∈ handles _) => (repeat constructor) : safe.
#[export] Hint Resolve safe_junk safe_set_new safe_gets : safe.
#[export] Hint Extern 1 (Safe _ any (sys_read _ _)) => apply safe_read : safe.
#[export] Hint Extern 1 (Safe _ any (sys_write _ _)) => apply safe_write : safe.
#[export] Hint Extern 1 (Safe _ any (sys_poll _ _)) => apply safe_poll : safe.
#[export] Hint Extern 1 (Safe _ any (ioctl_set _ _ _)) => eapply safe_any, safe_set : safe.
#[export] Hint Extern 1 (Safe _ any (ioctl_get _ _ _)) => apply safe_get : safe.
#[export] Hint Extern 1 (Safe _ any (ioctl_get_ptr _ _ _)) => apply safe_get_mem : safe.
#[export] Hint Extern 1 (Safe _ any (control_val _ _ _)) => eapply safe_any, safe_control_val : safe.
#[export] Hint Extern 1 (Safe _ any (control_get _ _ _)) => apply safe_control_get : safe.
#[export] Hint Extern 1 (Safe _ any (codec_h_control _ _ _)) => eapply safe_any, safe_control : safe.
#[export] Hint Extern 1 (Safe _ any (codec_h_ioctl _ _ _ _)) =>
  eapply safe_any, safe_h_ioctl; [|by intros E; vm_compute in E..] : safe.
#[export] Hint Extern 1 (Safe _ any (on_adec _ _)) => apply safe_on_adec : safe.
#[export] Hint Extern 1 (Safe _ any (adec_call _ _)) => apply safe_adec_call : safe.
#[export] Hint Extern 1 (adec_ok _) =>
  first [ apply stop_ok | by apply threshold_ok | apply status_ok | apply decpara_ok | apply send_ok; upd_ok | apply write_ok; by intros | apply look_ok | by split ] : safe.

Ltac head_of t := lazymatch t with ?f _ => head_of f | _ => t end.

Ltac safe_go :=
  repeat first
    [ progress cbv zeta
    | lazymatch goal with
      | |- Safe _ _ (para _ ≫= _) => eapply safe_bind; [apply safe_para|intros ? ->]
      | |- Safe _ _ (_ ≫= _) => apply (safe_bind _ any); [|intros ? _]
      | |- Safe _ _ (mret _) => by apply safe_ret
      | |- Safe _ _ (if ?b then _ else _) => destruct b
      | |- Safe _ _ (let '(_, _) := ?x in _) => destruct x
      | |- Safe _ _ (match ?o with Some _ => _ | None => _ end) => destruct o
      end
    | solve [eauto with safe]
    | lazymatch goal with |- Safe _ _ ?m => let h := head_of m in progress unfold h end ].

Lemma plain_safe `{Kernel} `{DecoderLib} p c x : plain_ok x → Safe (ready p c) any (plain_exec p x).
Proof. intros Hx. destruct x; cbn [plain_ok] in Hx; cbn [plain_exec]; unfold ignoring; safe_go. Qed.
