(* ===== verification/CodecSession.v ===== *)
(** Descriptors and decoder instances of the codec library: any legal sequence
    of calls on any number of codecs uses only open descriptors and live
    instances, and holds exactly those the open codecs name (Codec.v). *)

From S2P Require Import Prelude PcmBuffer MessagePool Audec Rely AdecControl CodecDev Codec CodecCalls.

Section session.
Context {KK : Kernel} {DD : DecoderLib}.

(** ** What a codec holds *)

(** The descriptors a codec names. *)
Definition live (c : codec_para_t) : list Z := filter (λ h, 0 ≤ h) (handles c).
Definition lives (c : codec_para_t) : gset Z := list_to_set (live c).
(** Its decoder instance. *)
Definition instance (c : codec_para_t) : gset Z :=
  if decide (adec_priv c = NULL) then ∅ else {[adec_priv c]}.

(** Parameters a client may pass: no pure subtitle stream, whose one
    descriptor has two names, and sizes in range. *)
Record well_formed (c : codec_para_t) : Prop := {
  wf_type : stream_type c ≠ STREAM_TYPE_ES_SUB;
  wf_extra : length (ai_extradata (audio_info c)) = 4096%nat;
  wf_size : 0 ≤ ai_extradata_size (audio_info c);
  wf_packet : INT_MIN ≤ packet_size c - TS_PACKET_SIZE ≤ INT_MAX;
  wf_threshold : cp_avsync_threshold c * 90 ≤ INT_MAX
}.

(** An open codec names each of its descriptors once. *)
Record fine (c : codec_para_t) : Prop := {
  fn_wf : well_formed c;
  fn_nodup : NoDup (live c);
  fn_audio : adec_priv c ≠ NULL → has_audio c = true;
  fn_sub : has_sub c = false → sub_handle c < 0
}.

(** *** Local resources

    Beside the descriptors [F] and the instances [A] of others there are the
    descriptors [L] and the instances [B], and codec [p] has parameters [c]. *)
Record hold (p : Z) (c : codec_para_t) (L B F A : gset Z) (cs : gmap Z codec_para_t) (w : cworld)
    : Prop := {
  h_misused : misused w = [];
  h_pools : pools w;
  h_cs : codecs w = <[p := c]> cs;
  h_fds : dom (fds w) = L ∪ F;
  h_fds_sep : L ## F;
  h_adecs : dom (adecs w) = B ∪ A;
  h_adecs_sep : B ## A
}.

Section local.
Context (p : Z) (F A : gset Z) (cs : gmap Z codec_para_t).
Context (Hnp : p ≠ NULL) (HF0 : 0 ∈ F).

Let full (c : codec_para_t) := hold p c (lives c) (instance c) F A cs.

Lemma hold_calm c L B w w' : calm w w' → hold p c L B F A cs w → hold p c L B F A cs w'.
Proof.
  intros [Hf Hm Hc Ha Hps] [H1 H2 H3 H4 H5 H6 H7]. split; try done.
  - congruence.
  - auto.
  - congruence.
  - by rewrite Hf.
  - by rewrite Ha.
Qed.

Lemma elem_of_lives c h : h ∈ lives c ↔ 0 ≤ h ∧ h ∈ handles c.
Proof. unfold lives, live. by rewrite elem_of_list_to_set, list_elem_of_filter. Qed.

Lemma full_ready c w : full c w → ready p c w.
Proof.
  intros [H1 H2 H3 H4 H5 H6 H7]. split.
  - by rewrite H3, lookup_insert_eq.
  - intros h Hh. destruct (Z.lt_ge_cases h 0); [by left|right].
    rewrite H4. apply elem_of_union_l, elem_of_lives. done.
  - unfold instance in H6. destruct (decide _); [by left|right]. rewrite H6. set_solver.
  - done.
Qed.

(** Calls that keep the resources keep what is held. *)
Lemma full_safe {T} c (R : T → Prop) m (Q : T → cworld → Prop) w :
  Safe (ready p c) R m → full c w → (∀ a w', full c w' → R a → Q a w') → cwp m Q w.
Proof.
  intros Hm Hw HQ. eapply cwp_mono; [|by apply Hm, full_ready].
  intros a w' (Hc & _ & Ha). apply HQ; [|done]. by eapply hold_calm.
Qed.

(** *** Descriptors *)

Record opened (h : Z) (w w' : cworld) : Prop := {
  op_fresh : h ∉ dom (fds w);
  op_fds : dom (fds w') = {[h]} ∪ dom (fds w);
  op_misused : misused w' = misused w;
  op_codecs : codecs w' = codecs w;
  op_adecs : adecs w' = adecs w
}.

Lemma opened_calm h w1 w2 w3 : calm w1 w2 → adecs w2 = adecs w1 → opened h w2 w3 → opened h w1 w3.
Proof. intros [Hf Hm Hc _ _] Ha [O1 O2 O3 O4 O5]. rewrite Hf in O1, O2. split; congruence. Qed.

(** The answer of an open: an error, or a new descriptor. *)
Definition open_post (w : cworld) (h : Z) (w' : cworld) : Prop :=
  INT_MIN < h ∧ ((h < 0 ∧ calm w w' ∧ adecs w' = adecs w) ∨ (0 ≤ h ∧ opened h w w')).

Lemma cwp_sys_open path flags w : cwp (sys_open path flags) (open_post w) w.
Proof.
  unfold sys_open. cwp_step. eapply cwp_intro; [reflexivity|]. cwp_steps. cbn [fds asked].
  pose proof (k_open_int (asked w) (fds w) path flags) as Hi.
  pose proof (k_open_fresh (asked w) (fds w) path flags) as Hf. cbn.
  destruct (Z.leb_spec 0 (k_open (asked w) (fds w) path flags)) as [Hr|Hr]; cwp_steps; split; try done.
  - right. split; [done|]. specialize (Hf Hr). split; cbn; try done.
    + by apply not_elem_of_dom.
    + by rewrite dom_insert_L.
  - left. by split_and!.
Qed.

Lemma cwp_open_loop n path flags w : cwp (open_loop n path flags) (open_post w) w.
Proof.
  revert w. induction n as [|n IH]; intros w; cbn [open_loop];
    cwp_step; (eapply cwp_mono; [|apply cwp_sys_open]);
    intros h w1 [Hi Hh]; (destruct (Z.leb_spec 0 h); [cwp_steps; by split|]);
    (destruct Hh as [(_ & Hc & Ha)|[? _]]; [|lia]); cwp_step; (eapply cwp_intro; [reflexivity|]).
  - cwp_steps. split; [done|]. left. split_and!; [done|by etrans|done].
  - eapply cwp_mono; [|apply IH]. intros r w2 [Hri Hr]. split; [done|].
    destruct Hr as [(? & Hc2 & Ha2)|[? Ho]].
    + left. split_and!; [done| |by rewrite Ha2]. etrans; [exact Hc|]. by etrans; [|exact Hc2].
    + right. split; [done|]. eapply opened_calm; [| |exact Ho]; [by etrans|done].
Qed.

Lemma cwp_set_para c f w Q :
  codecs w !! p = Some c → Q tt (w <| codecs := <[p := f c]> (codecs w) |>) → cwp (set_para p f) Q w.
Proof. intros Hc HQ. unfold cwp, set_para. by rewrite Hc. Qed.

(** A new descriptor under a name that was free. *)
Lemma full_open c g h w w' Q :
  full c w → opened h w w' → 0 ≤ h → live (g c) ≡ₚ h :: live c → adec_priv (g c) = adec_priv c →
  (∀ w'', h ∉ live c → full (g c) w'' → Q tt w'') → cwp (set_para p g) Q w'.
Proof.
  intros [H1 H2 H3 H4 H5 H6 H7] [O1 O2 O3 O4 O5] Hh Hl Ha HQ.
  rewrite H4 in O1. apply not_elem_of_union in O1 as [O1 O1'].
  apply (cwp_set_para c); [by rewrite O4, H3, lookup_insert_eq|].
  apply HQ. { intros Hin. apply O1. by apply elem_of_list_to_set. }
  assert (lives (g c) = {[h]} ∪ lives c) as El.
  { apply set_eq. intros x. unfold lives. rewrite elem_of_list_to_set, Hl. set_solver. }
  unfold full, instance. rewrite El, Ha. split; cbn.
  - by rewrite O3.
  - unfold pools in *. cbn. by rewrite O5.
  - by rewrite O4, H3, insert_insert_eq.
  - rewrite O2, H4. by rewrite union_assoc_L.
  - set_solver.
  - by rewrite O5.
  - done.
Qed.

(** Closing a descriptor of the codec, or none. *)
Lemma cwp_h_close c L B h Q w :
  hold p c L B F A cs w → (0 ≤ h ↔ h ∈ L) →
  (∀ w', hold p c (L ∖ {[h]}) B F A cs w' → Q 0 w') → cwp (codec_h_close h) Q w.
Proof.
  intros [H1 H2 H3 H4 H5 H6 H7] Hh HQ. unfold codec_h_close, sys_close. cwp_step.
  destruct (Z.leb_spec 0 h) as [Hge|Hlt].
  - apply Hh in Hge as Hin. repeat cwp_step. eapply cwp_intro; [reflexivity|]. cwp_step.
    assert (h ∈ dom (fds w)) as [d Hd]%elem_of_dom by set_solver.
    eapply cwp_intro. { unfold use. rewrite (proj2 (Z.ltb_ge _ _)) by lia. cbn. by rewrite Hd. }
    cwp_steps. apply HQ. split; cbn; try done.
    + rewrite dom_delete_L, H4. set_solver.
    + set_solver.
  - cwp_steps. apply HQ. replace (L ∖ {[h]}) with L; [by split|].
    assert (h ∉ L) by (rewrite <- Hh; lia). set_solver.
Qed.

(** ** Opening *)

(** The result of an opening function: an error, or success with the codec's
    configuration and its descriptors. *)
Record same (c c' : codec_para_t) : Prop := {
  sm_wf : well_formed c → well_formed c';
  sm_audio : has_audio c' = has_audio c;
  sm_sub : has_sub c' = has_sub c;
  sm_adec : adec_priv c' = adec_priv c
}.

#[local] Instance same_preorder : PreOrder same.
Proof. split; [by split|]. intros c1 c2 c3 [] []. split; [by auto|congruence..]. Qed.

Definition init_post (c : codec_para_t) (r : Z) (w : cworld) : Prop :=
  misused w = [] ∧
  (r = 0 → ∃ c', same c c' ∧ fine c' ∧ cntl_handle c' = cntl_handle c ∧ audio_utils_handle c' < 0 ∧ full c' w).

(** [m] continues the opening of codec [p] from parameters [c]. *)
Definition Ini (c : codec_para_t) (m : CM cworld Z) : Prop := ∀ w, full c w → cwp m (init_post c) w.

Lemma init_post_same c c' r w :
  same c c' → cntl_handle c' = cntl_handle c → init_post c' r w → init_post c r w.
Proof.
  intros Hs Hn [Hm Hp]. split; [done|]. intros Hr.
  destruct (Hp Hr) as (c2 & Hs2 & Hf & Hc & Hu & Hw). exists c2.
  split_and!; [by etrans|done|by rewrite Hc|done|done].
Qed.

Lemma ini_error c r : r ≠ 0 → Ini c (mret r).
Proof. intros Hr w Hw. cwp_steps. split; [apply Hw|done]. Qed.

Lemma ini_done c : fine c → audio_utils_handle c < 0 → Ini c (mret CODEC_ERROR_NONE).
Proof. intros Hf Hu w Hw. cwp_steps. split; [apply Hw|]. intros _. by exists c. Qed.

Lemma ini_safe {T} c (m : CM cworld T) k :
  Safe (ready p c) any m → (∀ a, Ini c (k a)) → Ini c (m ≫= k).
Proof. intros Hm Hk w Hw. cwp_step. eapply full_safe; [done..|]. intros a w' Hw' _. by apply Hk. Qed.

Lemma lives_handle c h : h = handle c → (0 ≤ h ↔ h ∈ lives c).
Proof. intros ->. rewrite elem_of_lives. split; [|naive_solver]. intros. split; [done|by left]. Qed.

Lemma ini_or_close c h m k :
  handle c = h → Safe (ready p c) any m → Ini c k → Ini c (or_close h m k).
Proof.
  intros Hh Hm Hk. apply ini_safe; [done|]. intros r w Hw.
  destruct (Z.ltb_spec r 0) as [Hr|]; [|by apply Hk]. cwp_step.
  eapply cwp_h_close; [exact Hw|by apply lives_handle|]. intros w' Hw'.
  cwp_steps. split; [apply Hw'|]. intros ?%codec_error_zero. lia.
Qed.

Lemma ini_when c b m k : (Ini c k → Ini c (m k)) → Ini c k → Ini c (when b m k).
Proof. intros Hm Hk. destruct b; cbn [when]; auto. Qed.

(** *** A descriptor under a new name *)

Lemma filter_name (l1 l2 : list Z) x h :
  x < 0 → 0 ≤ h → filter (λ h, 0 ≤ h) (l1 ++ h :: l2) ≡ₚ h :: filter (λ h, 0 ≤ h) (l1 ++ x :: l2).
Proof.
  intros Hx Hh. rewrite !filter_app, filter_cons_True, (filter_cons_False _ x) by lia.
  by rewrite <- Permutation_middle.
Qed.

Lemma live_handle c h : handle c < 0 → 0 ≤ h → live (c <| handle := h |>) ≡ₚ h :: live c.
Proof. apply (filter_name []). Qed.
Lemma live_cntl c h : cntl_handle c < 0 → 0 ≤ h → live (c <| cntl_handle := h |>) ≡ₚ h :: live c.
Proof. apply (filter_name [_]). Qed.
Lemma live_sub c h : sub_handle c < 0 → 0 ≤ h → live (c <| sub_handle := h |>) ≡ₚ h :: live c.
Proof. apply (filter_name [_; _]). Qed.
Lemma live_utils c h : audio_utils_handle c < 0 → 0 ≤ h → live (c <| audio_utils_handle := h |>) ≡ₚ h :: live c.
Proof. apply (filter_name [_; _; _]). Qed.

Lemma fine_name c c' h :
  fine c → same c c' → live c' ≡ₚ h :: live c → h ∉ live c → (has_sub c' = false → sub_handle c' < 0) → fine c'.
Proof.
  intros [H1 H2 H3 H4] [S1 S2 S3 S4] Hl Hh Hs. split; [by auto| |by rewrite S2, S4|done].
  rewrite Hl. by constructor.
Qed.

Lemma same_handle c h : same c (c <| handle := h |>).
Proof. by split; [intros []|..]. Qed.
Lemma same_cntl c h : same c (c <| cntl_handle := h |>).
Proof. by split; [intros []|..]. Qed.
Lemma same_sub c h : same c (c <| sub_handle := h |>).
Proof. by split; [intros []|..]. Qed.
Lemma same_utils c h : same c (c <| audio_utils_handle := h |>).
Proof. by split; [intros []|..]. Qed.

(** Opening a device and naming the descriptor. *)
Lemma cwp_open_name c g n path flags Q w :
  full c w →
  (∀ h, 0 ≤ h → live (g h c) ≡ₚ h :: live c) → (∀ h, adec_priv (g h c) = adec_priv c) →
  (∀ h w', INT_MIN < h < 0 → full c w' → Q h w') →
  (∀ h w', 0 ≤ h → opened h w w' → cwp (set_para p (g h)) (λ _ w'', (h ∉ live c) ∧ full (g h c) w'') w' → Q h w') →
  cwp (open_loop n path flags) Q w.
Proof.
  intros Hw Hl Ha Hneg Hpos. eapply cwp_mono; [|apply cwp_open_loop].
  intros h w' [Hi [(Hh & Hc & _)|[Hh Ho]]].
  - apply Hneg; [lia|]. by eapply hold_calm.
  - apply Hpos; [done|done|]. eapply full_open; [exact Hw|done|done|by apply Hl|by apply Ha|]. by split.
Qed.

Lemma safe_check_new_cmd c : Safe (ready p c) any (codec_check_new_cmd (handle c)).
Proof. safe_go. Qed.

Lemma ini_open_stream c device k :
  fine c → handle c < 0 →
  (∀ h, 0 ≤ h → fine (c <| handle := h |>) → Ini (c <| handle := h |>) (k h)) → Ini c (open_stream p device k).
Proof.
  intros Hf Hn Hk. unfold open_stream. apply ini_safe; [eapply safe_any, safe_para|]. intros c1 w Hw.
  cwp_step. apply (cwp_open_name c (λ h c, c <| handle := h |>)); [done|by intros; apply live_handle|done| |].
  { intros h w' Hh Hw'. rewrite (proj2 (Z.ltb_lt _ _)) by lia. by apply ini_error. }
  intros h w' Hh Ho Hs. rewrite (proj2 (Z.ltb_ge _ _)) by lia. cwp_step. eapply cwp_mono; [|exact Hs].
  intros [] w2 [Hfr Hw2]. pose (c' := c <| handle := h |>). cwp_step.
  eapply full_safe; [exact (safe_check_new_cmd c')|done|]. intros [] w3 Hw3 _.
  eapply cwp_mono; [intros r w4; apply (init_post_same c c'); [apply same_handle|done]|].
  apply Hk; [done| |done]. eapply fine_name; [done|apply same_handle|by apply live_handle|done|apply Hf].
Qed.

Lemma ini_para c k : Ini c (k c) → Ini c (para p ≫= k).
Proof.
  intros Hk w Hw. cwp_step. eapply full_safe; [apply safe_para|done|]. intros c1 w' Hw' ->. by apply Hk.
Qed.

Lemma ini_sub_init c h :
  handle c = h → fine c → has_sub c = true → sub_handle c < 0 → audio_utils_handle c < 0 →
  Ini c (sub_init p h (mret CODEC_ERROR_NONE)).
Proof.
  intros Hh Hf Hs Hsub Hu. apply ini_or_close; [done|by safe_go|]. intros w Hw.
  unfold or_close, codec_init_sub. repeat cwp_step.
  eapply full_safe; [apply safe_para|done|]. intros c1 w1 Hw1 _. cwp_step.
  apply (cwp_open_name c (λ h c, c <| sub_handle := h |>)); [done|by intros; apply live_sub|done| |].
  { intros r w' Hr Hw'. rewrite (proj2 (Z.ltb_lt _ _)) by lia. cwp_steps.
    pose proof (codec_error_pos r Hr). rewrite (proj2 (Z.ltb_ge _ _)) by lia. by apply ini_done. }
  intros r w' Hr Ho Hsp. rewrite (proj2 (Z.ltb_ge _ _)) by lia. cwp_step.
  eapply cwp_mono; [|exact Hsp]. intros [] w2 [Hfr Hw2]. cwp_steps.
  change (CODEC_ERROR_NONE <? 0) with false. cwp_steps.
  apply (init_post_same c (c <| sub_handle := r |>)); [apply same_sub|done|].
  apply ini_done; [|done|done].
  eapply fine_name; [done|apply same_sub|by apply live_sub|done|]. intros E. cbn in E. by rewrite Hs in E.
Qed.

Lemma safe_ts_skip c : well_formed c → Safe (ready p c) any (set_ts_skip_byte p).
Proof.
  intros Hwf. unfold set_ts_skip_byte. eapply safe_bind; [apply safe_para|]. intros ? ->.
  apply (safe_bind _ any).
  - intros w Hw. eapply cwp_lift; [by apply int_ok_some, wf_packet|]. by split_and!.
  - intros skip _. safe_go.
Qed.

Lemma ini_sub_part c h :
  handle c = h → fine c → sub_handle c < 0 → audio_utils_handle c < 0 →
  Ini c (when (has_sub c) (sub_init p h) (mret CODEC_ERROR_NONE)).
Proof.
  intros Hh Hf Hs Hu. destruct (has_sub c) eqn:E; cbn [when]; [by apply ini_sub_init|by apply ini_done].
Qed.

Ltac ini_step :=
  first
    [ assumption
    | lazymatch goal with
      | |- Ini _ (para _ ≫= _) => apply ini_para
      | |- Ini _ (_ ≫= _) => apply ini_safe; [solve [safe_go]|intros ?]
      | |- Ini _ (if ?b then _ else _) => destruct b eqn:?
      | |- Ini _ (or_close _ _ _) => apply ini_or_close; [done|first [by apply safe_ts_skip; auto using fn_wf | solve [safe_go]]|]
      | |- Ini ?c (when (has_sub _) (sub_init _ ?h) _) => by refine (ini_sub_part c h eq_refl _ _ _)
      | |- Ini _ (when _ _ _) => apply ini_when; [intros ?|]
      | |- Ini _ (open_stream _ _ _) => apply ini_open_stream; [done|done|intros h ? ?]
      end; cbv beta
    | by apply ini_done
    | by apply ini_error ].

Lemma ini_stream c :
  fine c → handle c < 0 → sub_handle c < 0 → audio_utils_handle c < 0 →
  Ini c (stream_init (stream_type c) p).
Proof.
  intros Hf Hh Hs Hu. pose proof (wf_type _ (fn_wf _ Hf)) as Ht.
  destruct (stream_type c); cbn [stream_init]; [by ini_step| | |done| | |];
    unfold codec_video_es_init, codec_audio_es_init, codec_ps_init, codec_ts_init, codec_rm_init;
    repeat ini_step.
Qed.

(** *** The stream information *)

Lemma asf_bytes_some i :
  0 ≤ ai_extradata_size i → length (ai_extradata i) = 4096%nat →
  ∃ bs, asf_bytes i = Some bs ∧ length bs = 540%nat.
Proof.
  intros Hs Hl. unfold asf_bytes. destruct (Z.leb_spec (ai_extradata_size i) 512).
  - assert (zlen (ai_extradata i) = 4096) as Hz by (unfold zlen; by rewrite Hl).
    rewrite slice_some by lia. cbn [mbind option_bind].
    set (src := take _ _). assert (zlen src ≤ 512) as Hsrc by (unfold zlen, src; rewrite length_take; lia).
    assert (zlen (replicate 512 0) = 512) as Hr by (by vm_compute).
    rewrite splice_some by lia. cbn [mbind option_bind]. eexists. split; [done|].
    rewrite !length_app. change (length (le32 _)) with 4%nat.
    rewrite length_take, length_drop, length_replicate. unfold zlen in Hsrc. cbn. lia.
  - eexists. split; [done|]. rewrite !length_app, length_replicate. reflexivity.
Qed.

Lemma splice_fits {T} (l xs : list T) :
  zlen xs ≤ zlen l → ∃ l', splice l 0 xs = Some l' ∧ length l' = length l.
Proof.
  intros Hx. destruct (splice l 0 xs) as [l'|] eqn:E; [eexists; split; [done|by eapply splice_length]|].
  by rewrite splice_some in E.
Qed.

Lemma ext_info_some t i a :
  0 ≤ ai_extradata_size i → length (ai_extradata i) = 4096%nat → length (i_extradata a) = 4096%nat →
  ∃ a', ext_info t i a = Some a' ∧ length (i_extradata a') = 4096%nat.
Proof.
  intros Hs Hl Ha. unfold ext_info. destruct (IS_AUDIO_NEED_EXT_INFO t); [|by eauto].
  assert (zlen (ai_extradata i) = 4096 ∧ zlen (i_extradata a) = 4096) as [Hz Hz'] by (unfold zlen; lia).
  destruct (negb _ && _ && _).
  - destruct (_ && _) eqn:E; [|eexists; by split].
    apply andb_true_iff in E as [E1%Z.gtb_lt E2%Z.leb_le]. unfold AUDIO_EXTRA_DATA_SIZE in E2.
    rewrite slice_some by lia. cbn [mbind option_bind].
    destruct (splice_fits (i_extradata a) (take (Z.to_nat (ai_extradata_size i)) (ai_extradata i)))
      as (ext & Hx & Hlx). { unfold zlen in *. rewrite length_take. lia. }
    change (list.drop (Z.to_nat 0) (ai_extradata i)) with (ai_extradata i). rewrite Hx.
    eexists. split; [done|]. cbn. congruence.
  - destruct (asf_bytes_some i Hs Hl) as (bs & -> & Hb). cbn [mbind option_bind].
    destruct (splice_fits (i_extradata a) bs) as (ext & Hx & Hlx). { unfold zlen in *. lia. }
    rewrite Hx. eexists. split; [done|]. cbn. congruence.
Qed.

(** *** The decoder instance *)

Lemma priv_same c : adec_priv c = NULL → c <| adec_priv := NULL |> = c.
Proof. destruct c. cbn. by intros ->. Qed.

Lemma cwp_audio_start c info Q w :
  full c w → adec_priv c = NULL → length (i_extradata info) = 4096%nat →
  (∀ a w', full (c <| adec_priv := a |>) w' → Q tt w') → cwp (audio_start p info) Q w.
Proof.
  intros Hw Ha Hl HQ. unfold audio_start. cwp_step.
  eapply full_safe; [apply safe_para|done|]. intros ? w1 Hw1 ->. cwp_steps. rewrite Ha. cbn [negb Z.eqb NULL].
  pose proof (priv_same c Ha) as Hc.
  assert (instance c = ∅) as Hi by (unfold instance; by rewrite decide_True).
  destruct Hw1 as [H1 H2 H3 H4 H5 H6 H7].
  destruct (dl_create (asked w1) info) as [a|] eqn:E; cwp_steps.
  - destruct (dl_addr_ok (adecs w1)) as [Hn Hfr]. apply (cwp_set_para c); [cbn; by rewrite H3, lookup_insert_eq|].
    apply (HQ (dl_addr (adecs w1))). apply not_elem_of_dom in Hfr. rewrite Hi in H6.
    split; cbn; try done.
    + apply map_Forall_insert_2; [by eapply dl_create_ok|done].
    + by rewrite H3, insert_insert_eq.
    + rewrite dom_insert_L, H6. unfold instance. cbn. rewrite decide_False by done. set_solver.
    + unfold instance. cbn. rewrite decide_False by done. set_solver.
  - apply (HQ NULL). rewrite Hc. by split.
Qed.

Lemma safe_stop_async c : Safe (ready p c) any (audio_stop_async p).
Proof. safe_go. Qed.

Lemma safe_release c j :
  adec_priv c ≠ NULL →
  Safe (ready p c) any (on_adec (adec_priv c) (λ h, audio_decode_release dl_malloc dl_obs (Some h) j)).
Proof.
  intros Hn. apply safe_calm. intros w [_ _ Ha Hps]. unfold cwp, on_adec.
  rewrite (proj2 (Z.eqb_neq _ _)) by done. destruct Ha as [?|[a Ha]%elem_of_dom]; [done|]. rewrite Ha.
  destruct (cwp_elim _ _ _ (release_live j _ (dl_env_ok (asked w) a (Hps _ _ Ha)))) as (x & a' & -> & Ha').
  split; [|done]. split; cbn; try done.
  - rewrite dom_insert_L. apply elem_of_dom_2 in Ha. set_solver.
  - intros _. by apply map_Forall_insert_2.
Qed.

Lemma cwp_audio_stop c Q w :
  full c w → adec_priv c ≠ NULL →
  (∀ w', full (c <| adec_priv := NULL |>) w' → Q tt w') → cwp (audio_stop p) Q w.
Proof.
  intros Hw Hn HQ. unfold audio_stop, audio_release. cwp_step.
  eapply full_safe; [apply safe_stop_async|done|]. intros [] w1 Hw1 _. repeat cwp_step.
  eapply full_safe; [apply safe_para|done|]. intros ? w2 Hw2 ->. do 3 cwp_step.
  eapply full_safe; [by apply safe_release|done|]. intros x w3 Hw3 _. cwp_steps.
  destruct Hw3 as [H1 H2 H3 H4 H5 H6 H7].
  apply (cwp_set_para c); [cbn; by rewrite H3, lookup_insert_eq|]. apply HQ.
  unfold instance in H6, H7. rewrite decide_False in H6, H7 by done.
  split; cbn; try done.
  - by apply map_Forall_delete.
  - by rewrite H3, insert_insert_eq.
  - rewrite dom_delete_L, H6. unfold instance. cbn. set_solver.
Qed.

(** ** The functions that open and close *)

(** Codec [p] is open. *)
Definition is_open (c : codec_para_t) (w : cworld) : Prop := fine c ∧ full c w.

Lemma fine_audio c a : fine c → has_audio c = true → fine (c <| adec_priv := a |>).
Proof. intros [[] ? ? ?] Hau. by split. Qed.

Lemma cwp_start_audio c Q w :
  is_open c w → adec_priv c = NULL → audio_utils_handle c < 0 →
  (∀ c' w', is_open c' w' → audio_utils_handle c' < 0 → Q tt w') → cwp (start_audio p) Q w.
Proof.
  intros [Hf Hw] Ha Hu HQ. unfold start_audio. cwp_step.
  eapply full_safe; [apply safe_para|done|]. intros ? w1 Hw1 ->.
  destruct (has_audio c) eqn:Hau; cbn [negb]; [|cwp_steps; by apply (HQ c)].
  destruct (fn_wf _ Hf) as [Ht He Hs Hpk Htm].
  destruct (ext_info_some (audio_type c) (audio_info c)
    (mk_info (audio_samplerate c) (audio_channels c) (audio_type c) (ai_bitrate (audio_info c))
       (ai_block_align (audio_info c)) (ai_codec_id (audio_info c)) (handle c) 0 (replicate 4096 0)
       (cp_SessionID c) (cp_dspdec_not_supported c) 0 (automute_flag c) (bit (cp_has_video c)))
    Hs He ltac:(apply length_replicate)) as (info & Hi & Hl).
  cwp_step. eapply cwp_lift; [exact Hi|]. cwp_step.
  eapply cwp_audio_start; [done|done|done|]. intros a w2 Hw2. cwp_step.
  eapply full_safe; [apply safe_para|done|]. intros ? w3 Hw3 ->.
  assert (is_open (c <| adec_priv := a |>) w3) as Ho by (split; [by apply fine_audio|done]).
  destruct (Z.gtb_spec (cp_avsync_threshold (c <| adec_priv := a |>)) 0) as [H0|]; [|cwp_steps; by apply (HQ _ _ Ho)].
  cwp_step. assert (INT_MIN ≤ cp_avsync_threshold (c <| adec_priv := a |>) * 90 ≤ INT_MAX) as Hth
    by (unfold INT_MIN; cbn in *; lia).
  eapply (full_safe (c <| adec_priv := a |>) any); [by safe_go|done|]. intros x w4 Hw4 _. cwp_steps.
  apply (HQ (c <| adec_priv := a |>)); [by split; [apply fine_audio|]|done].
Qed.

(** Opening succeeds with an open codec, or reports an error. *)
Definition init_result (r : Z) (w : cworld) : Prop :=
  misused w = [] ∧ (r = 0 → ∃ c, audio_utils_handle c < 0 ∧ is_open c w).

Definition reset_handles (c : codec_para_t) : codec_para_t :=
  c <| handle := -1 |> <| cntl_handle := -1 |> <| sub_handle := -1 |> <| audio_utils_handle := -1 |>
    <| audio_type := if (audio_type c =? AFORMAT_MPEG1) || (audio_type c =? AFORMAT_MPEG2)
                     then AFORMAT_MPEG else audio_type c |>.

Lemma fine_reset c : well_formed c → adec_priv c = NULL → fine (reset_handles c).
Proof. intros [] Ha. split; [by split|constructor|by intros|by intros]. Qed.

Lemma cwp_init_cntl c w :
  fine c → full c w → cntl_handle c < 0 →
  cwp (codec_init_cntl p) (λ r w', misused w' = [] ∧
    (r = CODEC_ERROR_NONE → ∃ h, is_open (c <| cntl_handle := h |>) w')) w.
Proof.
  intros Hf Hw Hn. unfold codec_init_cntl. cwp_step.
  eapply full_safe; [apply safe_para|done|]. intros ? w1 Hw1 ->. cwp_step.
  apply (cwp_open_name c (λ h c, c <| cntl_handle := h |>)); [done|by intros; apply live_cntl|done| |].
  { intros r w' Hr Hw'. rewrite (proj2 (Z.ltb_lt _ _)) by lia. cwp_steps. split; [apply Hw'|].
    intros ?%codec_error_zero. lia. }
  intros h w' Hh Ho Hs. rewrite (proj2 (Z.ltb_ge _ _)) by lia. cwp_step. eapply cwp_mono; [|exact Hs].
  intros [] w2 [Hfr Hw2]. cwp_steps. split; [apply Hw2|]. intros _. exists h. split; [|done].
  eapply fine_name; [done|apply same_cntl|by apply live_cntl|done|apply Hf].
Qed.

Lemma cwp_codec_init c w :
  well_formed c → adec_priv c = NULL → hold p c ∅ ∅ F A cs w → cwp (codec_init p) init_result w.
Proof.
  intros Hwf Ha [H1 H2 H3 H4 H5 H6 H7]. unfold codec_init. cwp_step.
  apply (cwp_set_para c); [by rewrite H3, lookup_insert_eq|]. fold (reset_handles c).
  pose (c1 := reset_handles c). pose proof (fine_reset c Hwf Ha) as Hf1.
  assert (full c1 (w <| codecs := <[p := c1]> (codecs w) |>)) as Hw1.
  { unfold full, instance. rewrite decide_True by done. split; cbn; try done. by rewrite H3, insert_insert_eq. }
  cwp_step. eapply full_safe; [apply safe_para|exact Hw1|]. intros ? w1 Hw2 ->. cwp_step.
  eapply cwp_mono; [|by apply (ini_stream c1)]. intros r1 w2 [Hm2 Hr1].
  destruct (Z.eqb_spec r1 0) as [->|Hne]; cbn [negb]; [|cwp_steps; by split].
  destruct (Hr1 eq_refl) as (c2 & Hs2 & Hf2 & Hn2 & Hu2 & Hw3). cwp_step.
  eapply cwp_mono; [|apply (cwp_init_cntl c2); [done|done|by rewrite Hn2]]. intros r2 w3 [Hm3 Hr2].
  destruct (Z.eqb_spec r2 CODEC_ERROR_NONE) as [->|Hne]; cbn [negb]; [|cwp_steps; by split].
  destruct (Hr2 eq_refl) as (h & Hf3 & Hw4). pose (c3 := c2 <| cntl_handle := h |>). cwp_step.
  eapply (full_safe c3 any); [by safe_go|exact Hw4|]. intros r3 w4 Hw5 _.
  destruct (Z.eqb_spec r3 0) as [->|Hne]; cbn [negb]; [|cwp_steps; split; [apply Hw5|done]]. cwp_step.
  eapply full_safe; [apply safe_para|exact Hw5|]. intros ? w5 Hw6 ->. cwp_step.
  eapply (full_safe c3 any); [by safe_go|exact Hw6|]. intros r4 w6 Hw7 _.
  destruct (Z.eqb_spec r4 0) as [->|Hne]; cbn [negb]; [|cwp_steps; split; [apply Hw7|done]]. cwp_step.
  apply (cwp_start_audio c3); [done|by etrans; [apply (sm_adec c1 c2)|]|done|].
  intros c4 w7 Ho Hu4. cwp_steps. split; [apply Ho|]. by exists c4.
Qed.

(** *** Closing *)

Lemma lives_distinct c :
  NoDup (live c) →
  (0 ≤ cntl_handle c → cntl_handle c ≠ sub_handle c) ∧
  (0 ≤ handle c → handle c ≠ sub_handle c ∧ handle c ≠ cntl_handle c).
Proof.
  unfold live, handles. intros Hn. split.
  - intros Hc E. rewrite filter_cons in Hn. destruct (decide _); [apply NoDup_cons in Hn as [_ Hn]|];
      rewrite !filter_cons_True in Hn by lia; apply NoDup_cons in Hn as [Hn _]; rewrite E in Hn; set_solver.
  - intros Hh. rewrite filter_cons_True in Hn by done. apply NoDup_cons in Hn as [Hn _].
    rewrite list_elem_of_filter in Hn. split; intros E; apply Hn; (split; [done|]); rewrite E; repeat constructor.
Qed.

Lemma lives_none c :
  audio_utils_handle c < 0 → lives c ∖ {[sub_handle c]} ∖ {[cntl_handle c]} ∖ {[handle c]} = ∅.
Proof.
  intros Hu. apply set_eq. intros x. rewrite !elem_of_difference, !elem_of_singleton, elem_of_lives.
  split; [|set_solver]. intros [[[[Hx Hin] ?] ?] ?]. unfold handles in Hin.
  rewrite !elem_of_cons in Hin. destruct Hin as [?|[?|[?|[->|Hin]]]]; [done|done|done|lia|].
  by apply elem_of_nil in Hin.
Qed.

Lemma close_step c L B h (m : CM cworld Z) Q w :
  hold p c L B F A cs w → (0 ≤ h ↔ h ∈ L) → (h ≠ 0 → m = codec_h_close h) →
  (∀ w', hold p c (L ∖ {[h]}) B F A cs w' → Q 0 w') → cwp m Q w.
Proof.
  intros Hw Hh Hm HQ. rewrite Hm; [by eapply cwp_h_close|]. intros ->.
  destruct Hw. assert (0 ∈ L) by (by apply Hh). set_solver.
Qed.

Lemma cwp_close_all c r c0 w :
  r = 0 → handle c0 = handle c → sub_handle c0 = sub_handle c → has_sub c0 = has_sub c →
  fine c → audio_utils_handle c < 0 → hold p c (lives c) ∅ F A cs w →
  cwp (r1 ← (if has_sub c0 && (0 <=? sub_handle c0) then codec_close_sub_fd (sub_handle c0) else mret r);
       r2 ← codec_close_cntl p;
       r3 ← codec_h_close (handle c0);
       mret (Z.lor (Z.lor r1 r2) r3))
    (λ r w', r = 0 ∧ hold p c ∅ ∅ F A cs w') w.
Proof.
  intros -> -> -> -> Hf Hu Hw. destruct (lives_distinct c (fn_nodup _ Hf)) as [Hd1 Hd2].
  assert (∀ h, h ∈ handles c → (0 ≤ h ↔ h ∈ lives c)) as Hin by (intros; rewrite elem_of_lives; naive_solver).
  cwp_step. apply cwp_mono with (Q := λ r w', r = 0 ∧ hold p c (lives c ∖ {[sub_handle c]}) ∅ F A cs w').
  2:{ destruct (Z.leb_spec 0 (sub_handle c)).
      - destruct (has_sub c) eqn:E; [|pose proof (fn_sub _ Hf E); lia]. cbn [andb].
        eapply close_step; [exact Hw|apply Hin; repeat constructor| |by split].
        intros ?. unfold codec_close_sub_fd. by rewrite (proj2 (Z.eqb_neq _ _)).
      - rewrite andb_false_r. cwp_steps. split; [done|].
        replace (lives c ∖ _) with (lives c); [done|].
        assert (sub_handle c ∉ lives c) by (rewrite elem_of_lives; lia). set_solver. }
  intros r1 w1 [-> Hw1]. cwp_step. unfold codec_close_cntl. rewrite (proj2 (Z.eqb_neq p _)) by done.
  cwp_step. eapply cwp_intro; [unfold para; by rewrite (h_cs _ _ _ _ _ _ _ _ Hw1), lookup_insert_eq|].
  eapply close_step; [exact Hw1| |intros Hne; by rewrite (proj2 (Z.eqb_neq _ 0) Hne)|].
  { rewrite elem_of_difference, <- Hin by (repeat constructor). set_solver. }
  intros w2 Hw2. cwp_step. eapply close_step; [exact Hw2| |done|].
  { rewrite !elem_of_difference, <- Hin by (repeat constructor). set_solver. }
  intros w3 Hw3. cwp_steps. split; [done|]. by rewrite lives_none in Hw3.
Qed.

(** A codec that may be closed: its audio has started. *)
Definition closable (c : codec_para_t) : Prop :=
  audio_utils_handle c < 0 ∧ (has_audio c = true → adec_priv c ≠ NULL).

(** Codec [p] is closed. *)
Definition is_closed (c : codec_para_t) (w : cworld) : Prop :=
  well_formed c ∧ adec_priv c = NULL ∧ hold p c ∅ ∅ F A cs w.

Lemma cwp_codec_close c w :
  is_open c w → closable c → cwp (codec_close p) (λ r w', r = 0 ∧ ∃ c', is_closed c' w') w.
Proof.
  intros [Hf Hw] [Hu Hau]. unfold codec_close. cwp_step.
  eapply full_safe; [apply safe_para|done|]. intros ? w1 Hw1 ->. cwp_step.
  apply cwp_mono with (Q := λ _ w', hold p (c <| adec_priv := NULL |>) (lives c) ∅ F A cs w').
  { intros _ w2 Hw2. pose (c1 := c <| adec_priv := NULL |>).
    assert (fine c1) as Hf1 by (by destruct Hf as [[] ? ? ?]).
    eapply cwp_mono; [|by apply (cwp_close_all c1 0 c)]. cbn. intros r w3 [-> Hw3]. split; [done|].
    exists c1. split_and!; [apply Hf1|done|done]. }
  destruct (has_audio c) eqn:E.
  - eapply cwp_audio_stop; [done|by apply Hau|]. done.
  - assert (adec_priv c = NULL) as Hn.
    { destruct (decide (adec_priv c = NULL)); [done|]. by rewrite (fn_audio _ Hf) in E. }
    cwp_steps. rewrite priv_same by done. replace ∅ with (instance c) at 1; [done|].
    unfold instance. by rewrite decide_True.
Qed.

Lemma cwp_codec_reset c w : is_open c w → closable c → cwp (codec_reset p) init_result w.
Proof.
  intros Ho Hc. unfold codec_reset. cwp_step. eapply cwp_mono; [|by apply (cwp_codec_close c)].
  intros r w1 [-> (c1 & Hwf & Ha & Hw1)]. cbn [negb Z.eqb]. cwp_step.
  eapply cwp_mono; [|by apply (cwp_codec_init c1)]. intros r w2 [Hm Hr]. cwp_steps. split; [done|].
  intros E%codec_error_zero. by apply Hr.
Qed.

(** *** Audio and utilities of an open codec *)

Lemma cwp_close_audio c w :
  is_open c w → adec_priv c ≠ NULL → cwp (codec_close_audio p) (λ _ w', ∃ c', is_open c' w') w.
Proof.
  intros [Hf Hw] Hn. unfold codec_close_audio. rewrite (proj2 (Z.eqb_neq p _)) by done. cwp_step.
  pose (c1 := c <| has_audio := false |>).
  apply (cwp_set_para c); [by rewrite (h_cs _ _ _ _ _ _ _ _ Hw), lookup_insert_eq|].
  eapply (cwp_audio_stop c1); [|done|].
  { destruct Hw as [H1 H2 H3 H4 H5 H6 H7]. split; cbn; try done. by rewrite H3, insert_insert_eq. }
  intros w' Hw'. eexists. split; [|exact Hw']. by destruct Hf as [[] ? ? ?].
Qed.

Lemma cwp_resume_audio c orig w :
  is_open c w → adec_priv c = NULL → cwp (codec_resume_audio p orig) (λ _ w', ∃ c', is_open c' w') w.
Proof.
  intros [Hf Hw] Hn. unfold codec_resume_audio. cwp_step.
  pose (c1 := c <| has_audio := orig |>).
  apply (cwp_set_para c); [by rewrite (h_cs _ _ _ _ _ _ _ _ Hw), lookup_insert_eq|].
  assert (fine c1) as Hf1 by (by destruct Hf as [[] ? ? ?]).
  assert (full c1 (w <| codecs := <[p := c1]> (codecs w) |>)) as Hw1.
  { destruct Hw as [H1 H2 H3 H4 H5 H6 H7]. split; cbn; try done. by rewrite H3, insert_insert_eq. }
  destruct orig; cbn [negb]; [|cwp_steps; by exists c1].
  cwp_step. eapply full_safe; [apply safe_para|exact Hw1|]. intros ? w2 Hw2 ->. cwp_step.
  destruct (fn_wf _ Hf1) as [Ht He Hs Hpk Htm].
  edestruct (ext_info_some (audio_type c1) (audio_info c1)) as (info & Hi & Hl); [done|done| |].
  2:{ eapply cwp_lift; [exact Hi|]. cwp_step.
      apply (cwp_set_para c1); [by rewrite (h_cs _ _ _ _ _ _ _ _ Hw2), lookup_insert_eq|].
      pose (c2 := c1 <| switch_audio_flag := 0 |>). eapply (cwp_audio_start c2); [|done|done|].
      - destruct Hw2 as [H1 H2 H3 H4 H5 H6 H7]. split; cbn; try done. by rewrite H3, insert_insert_eq.
      - intros a w3 Hw3. eexists. split; [|exact Hw3]. by destruct Hf1 as [[] ? ? ?]. }
  apply length_replicate.
Qed.

Lemma cwp_init_utils c w :
  is_open c w → audio_utils_handle c < 0 → cwp (codec_init_audio_utils p) (λ _ w', ∃ c', is_open c' w') w.
Proof.
  intros [Hf Hw] Hu. unfold codec_init_audio_utils. cwp_step.
  apply (cwp_open_name c (λ h c, c <| audio_utils_handle := h |>)); [done|by intros; apply live_utils|done| |].
  { intros r w' Hr Hw'. rewrite (proj2 (Z.ltb_lt _ _)) by lia. cwp_steps. by exists c. }
  intros h w' Hh Ho Hs. rewrite (proj2 (Z.ltb_ge _ _)) by lia. cwp_step. eapply cwp_mono; [|exact Hs].
  intros [] w2 [Hfr Hw2]. cwp_steps. eexists. split; [|exact Hw2].
  eapply fine_name; [done|apply same_utils|by apply live_utils|done|apply Hf].
Qed.

Lemma filter_unname (l : list Z) x :
  NoDup (filter (λ h, 0 ≤ h) (l ++ [x])) →
  list_to_set (C := gset Z) (filter (λ h, 0 ≤ h) (l ++ [-1]))
    = list_to_set (filter (λ h, 0 ≤ h) (l ++ [x])) ∖ {[x]} ∧
  NoDup (filter (λ h, 0 ≤ h) (l ++ [-1])).
Proof.
  rewrite !filter_app. rewrite (filter_cons_False _ (-1)) by lia. rewrite filter_nil, app_nil_r.
  intros (Hn & Hd & _)%NoDup_app. split; [|done]. apply set_eq. intros y.
  rewrite elem_of_difference, elem_of_singleton, !elem_of_list_to_set, elem_of_app, !list_elem_of_filter.
  rewrite list_elem_of_singleton. split; [|naive_solver]. intros [Hy Hin]. split; [by left|]. intros ->.
  apply (Hd x); apply list_elem_of_filter; (split; [done|]); [done|by left].
Qed.

Lemma lives_release c :
  NoDup (live c) →
  lives (c <| audio_utils_handle := -1 |>) = lives c ∖ {[audio_utils_handle c]} ∧
  NoDup (live (c <| audio_utils_handle := -1 |>)).
Proof. apply (filter_unname [_; _; _]). Qed.

Lemma cwp_release_utils c w :
  is_open c w → cwp (codec_release_audio_utils p) (λ _ w', ∃ c', is_open c' w') w.
Proof.
  intros [Hf Hw]. unfold codec_release_audio_utils. cwp_step.
  eapply full_safe; [apply safe_para|done|]. intros ? w1 Hw1 ->. cwp_step.
  destruct (lives_release c (fn_nodup _ Hf)) as [Hl Hn].
  apply cwp_mono with (Q := λ _ w', hold p c (lives c ∖ {[audio_utils_handle c]}) (instance c) F A cs w').
  - intros [] w2 Hw2. cwp_step.
    apply (cwp_set_para c); [by rewrite (h_cs _ _ _ _ _ _ _ _ Hw2), lookup_insert_eq|]. cwp_steps.
    exists (c <| audio_utils_handle := -1 |>). split; [by destruct Hf as [[] ? ? ?]|].
    unfold full. rewrite Hl. destruct Hw2 as [H1 H2 H3 H4 H5 H6 H7]. split; cbn; try done.
    by rewrite H3, insert_insert_eq.
  - assert (audio_utils_handle c ∈ handles c) as Hin by (unfold handles; set_solver).
    destruct (Z.leb_spec 0 (audio_utils_handle c)).
    + cwp_step. eapply cwp_h_close; [exact Hw1| |].
      * rewrite elem_of_lives. naive_solver.
      * intros w' Hw'. by cwp_steps.
    + cwp_steps. replace (lives c ∖ _) with (lives c); [done|].
      assert (audio_utils_handle c ∉ lives c) by (rewrite elem_of_lives; lia). set_solver.
Qed.

End local.

(** ** Many codecs *)

Section owners.
Context (f : codec_para_t → gset Z).
Implicit Types (opn E X : gset Z) (cs : gmap Z codec_para_t).

Definition owner opn cs (p h : Z) : Prop := p ∈ opn ∧ ∃ c, cs !! p = Some c ∧ h ∈ f c.

(** The codecs [opn] own the set [X] beside [E]: every element has one owner. *)
Record owns opn E X cs : Prop := {
  ow_all h : h ∈ X ↔ h ∈ E ∨ ∃ p, owner opn cs p h;
  ow_sep p h : owner opn cs p h → h ∉ E;
  ow_one p q h : owner opn cs p h → owner opn cs q h → p = q
}.

Lemma owner_insert opn cs p c q h : p ∉ opn → owner opn (<[p := c]> cs) q h ↔ owner opn cs q h.
Proof. intros Hp. unfold owner. destruct (decide (q = p)) as [->|]; [naive_solver|]. by rewrite lookup_insert_ne. Qed.

Lemma owns_frame opn E X p c cs : owns opn E X cs → p ∉ opn → owns opn E X (<[p := c]> cs).
Proof.
  intros [H1 H2 H3] Hp. split.
  - intros h. rewrite H1. f_equiv. split; intros [q Hq]; exists q; by apply (owner_insert _ _ p c).
  - intros q h Hq%owner_insert; [|done]. eauto.
  - intros q q' h Hq%owner_insert Hq'%owner_insert; [|done..]. eauto.
Qed.

Lemma owner_add opn cs p c q h :
  p ∉ opn → owner ({[p]} ∪ opn) (<[p := c]> cs) q h ↔ q = p ∧ h ∈ f c ∨ owner opn cs q h.
Proof.
  intros Hp. unfold owner. destruct (decide (q = p)) as [->|Hq].
  - rewrite lookup_insert_eq. set_solver.
  - rewrite lookup_insert_ne by done. set_solver.
Qed.

Lemma owns_add opn E X p c cs :
  owns opn E X cs → p ∉ opn → f c ## X → owns ({[p]} ∪ opn) E (f c ∪ X) (<[p := c]> cs).
Proof.
  intros [H1 H2 H3] Hp Hd. split.
  - intros h. rewrite elem_of_union, H1. split.
    + intros [Hh|[Hh|[q Hq]]]; [right; exists p|by left|right; exists q]; apply owner_add; naive_solver.
    + intros [Hh|[q [[-> Hh]|Hq]%owner_add]]; naive_solver.
  - intros q h [[-> Hh]|Hq]%owner_add He; [|by eapply H2|done]. apply (Hd h); [done|]. apply H1. by left.
  - assert (∀ q h, h ∈ f c → owner opn cs q h → False) as Hno.
    { intros q h Hh Hq. apply (Hd h); [done|]. apply H1. eauto. }
    intros q q' h [[-> Hh]|Hq]%owner_add [[-> Hh']|Hq']%owner_add; try done; [by edestruct Hno..|eauto].
Qed.

Lemma owns_take opn E X p c cs :
  owns opn E X cs → p ∈ opn → cs !! p = Some c →
  f c ⊆ X ∧ owns (opn ∖ {[p]}) E (X ∖ f c) cs.
Proof.
  intros [H1 H2 H3] Hp Hc.
  assert (∀ h, h ∈ f c → owner opn cs p h) as Hown by (intros h Hh; split; eauto).
  assert (∀ q h, owner (opn ∖ {[p]}) cs q h ↔ q ≠ p ∧ owner opn cs q h) as Hq.
  { intros q h. unfold owner. set_solver. }
  split; [intros h Hh; apply H1; eauto|]. split.
  - intros h. rewrite elem_of_difference, H1. split.
    + intros [[He|[q Ho]] Hn]; [by left|right]. exists q. apply Hq. split; [|done]. intros ->.
      destruct Ho as (_ & d & Hd & Hh). naive_solver.
    + intros [He|[q [Hne Ho]%Hq]]; (split; [by eauto|]); intros Hh; [by eapply H2, He; eauto|].
      apply Hne. eauto.
  - intros q h [_ Ho]%Hq. eauto.
  - intros q q' h [_ Ho]%Hq [_ Ho']%Hq. eauto.
Qed.
End owners.

(** ** The state of a client

    [Inv E opn w]: the codecs [opn] are open and own all descriptors but [E]
    and all instances; the others are idle. *)

Definition idle (c : codec_para_t) : Prop := well_formed c ∧ adec_priv c = NULL.

(** Who owns the rest, beside codec [p]. *)
Record rest (opn E F A : gset Z) (p : Z) (cs : gmap Z codec_para_t) : Prop := {
  rs_fds : owns lives opn E F cs;
  rs_adecs : owns instance opn ∅ A cs;
  rs_fine q : q ∈ opn → ∃ c, cs !! q = Some c ∧ fine c;
  rs_idle q c : q ≠ p → q ∉ opn → cs !! q = Some c → idle c;
  rs_keys q : q ∈ dom cs → q ≠ NULL;
  rs_out : p ∉ opn;
  rs_null : p ≠ NULL;
  rs_stdin : 0 ∈ E
}.

Record Inv (E opn : gset Z) (w : cworld) : Prop := {
  iv_misused : misused w = [];
  iv_pools : pools w;
  iv_fds : owns lives opn E (dom (fds w)) (codecs w);
  iv_adecs : owns instance opn ∅ (dom (adecs w)) (codecs w);
  iv_fine q : q ∈ opn → ∃ c, codecs w !! q = Some c ∧ fine c;
  iv_idle q c : q ∉ opn → codecs w !! q = Some c → idle c;
  iv_keys q : q ∈ dom (codecs w) → q ≠ NULL;
  iv_stdin : 0 ∈ E
}.

Lemma rest_stdin opn E F A p cs : rest opn E F A p cs → 0 ∈ F.
Proof. intros [[Ha _ _] _ _ _ _ _ _ Hs]. apply Ha. by left. Qed.

Lemma rest_open opn E F A p cs c w :
  rest opn E F A p cs → is_open p F A cs c w → Inv E ({[p]} ∪ opn) w.
Proof.
  intros [R1 R2 R3 R4 R5 R6 R7 R8] [Hf [H1 H2 H3 H4 H5 H6 H7]]. split; try done.
  - rewrite H4, H3. by apply owns_add.
  - rewrite H6, H3. by apply owns_add.
  - rewrite H3. intros q Hq. destruct (decide (q = p)) as [->|].
    + rewrite lookup_insert_eq. eauto.
    + rewrite lookup_insert_ne by done. apply R3. set_solver.
  - rewrite H3. intros q d Hq. rewrite lookup_insert_ne by set_solver. apply R4; set_solver.
  - rewrite H3, dom_insert_L. set_solver.
Qed.

Lemma rest_closed opn E F A p cs c w :
  rest opn E F A p cs → is_closed p F A cs c w → Inv E opn w.
Proof.
  intros [R1 R2 R3 R4 R5 R6 R7 R8] (Hwf & Ha & [H1 H2 H3 H4 H5 H6 H7]). rewrite union_empty_l_L in H4, H6.
  split; try done.
  - rewrite H4, H3. by apply owns_frame.
  - rewrite H6, H3. by apply owns_frame.
  - rewrite H3. intros q Hq. rewrite lookup_insert_ne by set_solver. by apply R3.
  - rewrite H3. intros q d Hq. destruct (decide (q = p)) as [->|].
    + rewrite lookup_insert_eq. by intros [= <-].
    + rewrite lookup_insert_ne by done. by apply R4.
  - rewrite H3, dom_insert_L. set_solver.
Qed.

Lemma inv_open E opn w p :
  Inv E opn w → p ∈ opn →
  ∃ c F A cs, codecs w !! p = Some c ∧ rest (opn ∖ {[p]}) E F A p cs ∧ is_open p F A cs c w.
Proof.
  intros [I1 I2 I3 I4 I5 I6 I7 I8] Hp. destruct (I5 p Hp) as (c & Hc & Hf).
  destruct (owns_take _ _ _ _ _ _ _ I3 Hp Hc) as [S1 O1]. destruct (owns_take _ _ _ _ _ _ _ I4 Hp Hc) as [S2 O2].
  exists c, (dom (fds w) ∖ lives c), (dom (adecs w) ∖ instance c), (codecs w). split_and!; [done| |].
  - split; try done; [set_solver|intros q d ? ?; apply I6; set_solver|set_solver|].
    apply I7. by eapply elem_of_dom_2.
  - split; [done|]. split; try done; [by rewrite insert_id| |set_solver| |set_solver];
      by rewrite <- union_difference_L.
Qed.

Lemma inv_closed E opn w p c :
  Inv E opn w → p ∉ opn → codecs w !! p = Some c →
  rest opn E (dom (fds w)) (dom (adecs w)) p (codecs w) ∧
  is_closed p (dom (fds w)) (dom (adecs w)) (codecs w) c w.
Proof.
  intros [I1 I2 I3 I4 I5 I6 I7 I8] Hp Hc. destruct (I6 p c Hp Hc) as [Hwf Ha]. split.
  - split; try done; [intros q d _; apply I6|]. apply I7. by eapply elem_of_dom_2.
  - split_and!; [done..|]. split; try done; [by rewrite insert_id|set_solver..].
Qed.

(** ** Sessions

    A client configures its codecs, opens, uses and closes them in any order
    and any interleaving. *)

Inductive cop :=
| OConfigure (p : Z) (c : codec_para_t)
| OInit (p : Z)
| OClose (p : Z)
| OReset (p : Z)
| OCloseAudio (p : Z)
| OResumeAudio (p : Z) (orig : bool)
| OInitUtils (p : Z)
| OReleaseUtils (p : Z)
| OPlain (p : Z) (x : plain).

(** The answer says whether an opening has succeeded. *)
Definition exec (op : cop) : CM cworld bool :=
  match op with
  | OConfigure p c => cm_modify (λ w, w <| codecs := <[p := c]> (codecs w) |>);; mret true
  | OInit p => r ← codec_init p; mret (r =? 0)
  | OClose p => codec_close p;; mret true
  | OReset p => r ← codec_reset p; mret (r =? 0)
  | OCloseAudio p => codec_close_audio p;; mret true
  | OResumeAudio p orig => codec_resume_audio p orig;; mret true
  | OInitUtils p => codec_init_audio_utils p;; mret true
  | OReleaseUtils p => codec_release_audio_utils p;; mret true
  | OPlain p x => plain_exec p x;; mret true
  end.

Definition next_open (op : cop) (opn : gset Z) : gset Z :=
  match op with
  | OInit p => {[p]} ∪ opn
  | OClose p => opn ∖ {[p]}
  | _ => opn
  end.

(** What the client keeps to: it opens what is idle and uses what is open, the
    audio is stopped only when it runs and resumed only when it does not, and
    the utilities are released before a codec is closed. *)
Definition legal (opn : gset Z) (w : cworld) (op : cop) : Prop :=
  match op with
  | OConfigure p c => (p ∉ opn) ∧ p ≠ NULL ∧ idle c
  | OInit p => (p ∉ opn) ∧ is_Some (codecs w !! p)
  | OClose p | OReset p => p ∈ opn ∧ ∃ c, codecs w !! p = Some c ∧ closable c
  | OCloseAudio p => p ∈ opn ∧ ∃ c, codecs w !! p = Some c ∧ adec_priv c ≠ NULL
  | OResumeAudio p _ => p ∈ opn ∧ ∃ c, codecs w !! p = Some c ∧ adec_priv c = NULL
  | OInitUtils p => p ∈ opn ∧ ∃ c, codecs w !! p = Some c ∧ audio_utils_handle c < 0
  | OReleaseUtils p => p ∈ opn
  | OPlain p x => p ∈ opn ∧ plain_ok x
  end.

(** The session ends at the first opening that fails. *)
Record cstate := mk_cs { c_open : gset Z; c_failed : bool; c_world : cworld }.

Inductive cstep : cop → cstate → cstate → Prop :=
| cstep_run op opn w ok w' :
    legal opn w op → exec op w = Some (ok, w') →
    cstep op (mk_cs opn false w) (mk_cs (next_open op opn) (negb ok) w').

Definition reachable (w0 : cworld) : cstate → Prop :=
  rtc (λ s s', ∃ op, cstep op s s') (mk_cs ∅ false w0).

(** The world of a process before its first codec. *)
Record fresh_process (w : cworld) : Prop := {
  fp_misused : misused w = [];
  fp_codecs : codecs w = ∅;
  fp_adecs : adecs w = ∅;
  fp_stdin : 0 ∈ dom (fds w)
}.

Lemma fresh_inv w : fresh_process w → Inv (dom (fds w)) ∅ w.
Proof.
  intros [H1 H2 H3 H4].
  assert (∀ f p h, ¬ owner f ∅ ∅ p h) as Hno by (intros f p h [? _]; set_solver).
  split; rewrite ?H2, ?H3; try done; try set_solver.
  - unfold pools. rewrite H3. apply map_Forall_empty.
  - split; [|by intros p h ?%Hno|by intros p q h ?%Hno]. intros h.
    split; [by left|]. intros [?|[p ?%Hno]]; done.
  - split; [|by intros p h ?%Hno|by intros p q h ?%Hno]. intros h.
    split; [set_solver|]. intros [?|[p ?%Hno]]; [set_solver|done].
Qed.

(** What every call gives: an error of an opening, or the invariant. *)
Definition exec_post (E opn : gset Z) (ok : bool) (w : cworld) : Prop :=
  misused w = [] ∧ (ok = true → Inv E opn w).

Lemma add_back p (opn : gset Z) : p ∈ opn → {[p]} ∪ opn ∖ {[p]} = opn.
Proof. intros. symmetry. apply union_difference_singleton_L. done. Qed.

(** A call on an open codec that leaves it open. *)
Lemma exec_open {T} E opn w p (m : CM cworld T) (R : codec_para_t → Prop) :
  Inv E opn w → p ∈ opn → (∃ c, codecs w !! p = Some c ∧ R c) →
  (∀ F A cs c, p ≠ NULL → 0 ∈ F → R c → is_open p F A cs c w → cwp m (λ _ w', ∃ c', is_open p F A cs c' w') w) →
  cwp (m;; mret true) (exec_post E opn) w.
Proof.
  intros HI Hp (c0 & Hc0 & HR) Hm. destruct (inv_open _ _ _ _ HI Hp) as (c & F & A & cs & Hc & Hr & Ho).
  simplify_eq. cwp_step. eapply cwp_mono; [|apply (Hm F A cs c0); [by eapply rs_null|by eapply rest_stdin|done|done]].
  intros _ w' [c' Ho']. cwp_steps. split; [apply Ho'|]. intros _.
  rewrite <- (add_back p opn) by done. by eapply rest_open.
Qed.

(** The opening calls. *)
Lemma exec_init E opn F A p cs (m : CM cworld Z) w :
  rest opn E F A p cs → cwp m (init_result p F A cs) w →
  cwp (r ← m; mret (r =? 0)) (exec_post E ({[p]} ∪ opn)) w.
Proof.
  intros Hr Hm. cwp_step. eapply cwp_mono; [|exact Hm]. intros r w' [Hmis Hok]. cwp_steps.
  split; [done|]. intros Er%Z.eqb_eq. destruct (Hok Er) as (c & _ & Ho). by eapply rest_open.
Qed.

Lemma exec_inv E opn op w :
  Inv E opn w → legal opn w op → cwp (exec op) (exec_post E (next_open op opn)) w.
Proof.
  intros HI Hl. destruct op as [p c|p|p|p|p|p orig|p|p|p x]; cbn [exec next_open legal] in *.
  - destruct Hl as (Hp & Hn & Hid). cwp_steps.
    destruct HI as [I1 I2 I3 I4 I5 I6 I7 I8]. split; [done|]. intros _. split; cbn; try done.
    + by apply owns_frame.
    + by apply owns_frame.
    + intros q Hq. rewrite lookup_insert_ne by (by intros ->). by apply I5.
    + intros q d Hq. destruct (decide (q = p)) as [->|].
      * rewrite lookup_insert_eq. by intros [= <-].
      * rewrite lookup_insert_ne by done. by apply I6.
    + rewrite dom_insert_L. set_solver.
  - destruct Hl as (Hp & c & Hc). destruct (inv_closed _ _ _ _ _ HI Hp Hc) as [Hr (Hwf & Ha & Hh)].
    eapply exec_init; [done|]. eapply cwp_codec_init; eauto using rs_null, rest_stdin.
  - destruct Hl as (Hp & c & Hc & Hcl). destruct (inv_open _ _ _ _ HI Hp) as (c' & F & A & cs & Hc' & Hr & Ho).
    simplify_eq. cwp_step.
    eapply cwp_mono; [|eapply cwp_codec_close; [by eapply rs_null|by eapply rest_stdin|done|done]].
    intros r w' [_ [c1 Hc1]]. cwp_steps. split; [apply Hc1|]. intros _. by eapply rest_closed.
  - destruct Hl as (Hp & c & Hc & Hcl). destruct (inv_open _ _ _ _ HI Hp) as (c' & F & A & cs & Hc' & Hr & Ho).
    simplify_eq. rewrite <- (add_back p opn) by done.
    eapply exec_init; [done|]. eapply cwp_codec_reset; eauto using rs_null, rest_stdin.
  - destruct Hl as [Hp Hl]. eapply exec_open; [done|done|exact Hl|]. intros. by eapply cwp_close_audio.
  - destruct Hl as [Hp Hl]. eapply exec_open; [done|done|exact Hl|]. intros. by eapply cwp_resume_audio.
  - destruct Hl as [Hp Hl]. eapply exec_open; [done|done|exact Hl|]. intros. by eapply cwp_init_utils.
  - destruct (iv_fine _ _ _ HI p Hl) as (c & Hc & _).
    eapply (exec_open _ _ _ p _ (λ _, True)); [done|done|by eauto|]. intros. by eapply cwp_release_utils.
  - destruct Hl as [Hl Hx]. destruct (iv_fine _ _ _ HI p Hl) as (c & Hc & _).
    eapply (exec_open _ _ _ p _ (λ _, True)); [done|done|by eauto|]. intros F A cs d Hn H0 _ [Hf Hw].
    eapply full_safe; [done|done|by apply plain_safe|exact Hw|]. intros a w' Hw' _. exists d. by split.
Qed.

(** Every state a client reaches. *)
Lemma reachable_post w0 s :
  fresh_process w0 → reachable w0 s → exec_post (dom (fds w0)) (c_open s) (negb (c_failed s)) (c_world s).
Proof.
  intros Hw0. revert s. refine (rtc_ind_r _ _ _ _); [|intros s1 s2 _ [op Hs] IH].
  - pose proof (fresh_inv w0 Hw0) as HI. split; [apply HI|done].
  - destruct Hs as [op opn w ok w' Hl He]. destruct IH as [_ IH].
    destruct (cwp_elim _ _ _ (exec_inv _ _ _ _ (IH eq_refl) Hl)) as (ok' & w2 & He' & Hp).
    cbn in *. simplify_eq. by rewrite negb_involutive.
Qed.

(** [C6] A client that keeps to the protocol never meets undefined behaviour
    and never has the library use a descriptor that is not open.  The client
    passes parameters in range, opens what is idle and uses what is open
    ([legal]), and there is memory for commands ([dl_room]).  Then in every
    state its calls can reach before an opening fails, whatever the drivers
    and the decoder library answer, no descriptor has been misused, and every
    legal call runs to its end with a result, on any number of codecs in any
    interleaving.  The calls are those of [cop]: the two loops that read
    subtitle data, which need not end, are not among them. *)
Theorem codec_session_runs w0 s op :
  fresh_process w0 → reachable w0 s →
  misused (c_world s) = [] ∧
  (c_failed s = false → legal (c_open s) (c_world s) op →
   ∃ s', cstep op s s' ∧ misused (c_world s') = []).
Proof.
  intros Hw0 Hr. pose proof (reachable_post w0 s Hw0 Hr) as [Hm HI]. split; [done|].
  destruct s as [opn failed w]. cbn in *. intros -> Hl.
  destruct (cwp_elim _ _ _ (exec_inv _ _ _ _ (HI eq_refl) Hl)) as (ok & w' & He & Hm' & _).
  eexists. split; [by econstructor|done].
Qed.

(** [C7] The descriptors and decoder instances are exactly accounted for: as
    long as no opening has failed and there is memory for commands, the open descriptors are those the process
    had and those the open codecs name, each named by one codec only; the
    instances are those of the open codecs with audio; a codec that is not
    open holds nothing.  With no codec open, nothing is left behind. *)
Theorem codec_session_accounts w0 s :
  fresh_process w0 → reachable w0 s → c_failed s = false →
  owns lives (c_open s) (dom (fds w0)) (dom (fds (c_world s))) (codecs (c_world s)) ∧
  owns instance (c_open s) ∅ (dom (adecs (c_world s))) (codecs (c_world s)) ∧
  (∀ p, p ∈ c_open s → ∃ c, codecs (c_world s) !! p = Some c ∧ NoDup (live c) ∧
                             (adec_priv c ≠ NULL → has_audio c = true)) ∧
  (c_open s = ∅ → dom (fds (c_world s)) = dom (fds w0) ∧ adecs (c_world s) = ∅).
Proof.
  intros Hw0 Hr Hf. pose proof (reachable_post w0 s Hw0 Hr) as [_ HI].
  destruct (HI ltac:(by rewrite Hf)) as [I1 I2 I3 I4 I5 I6 I7 I8]. split_and!; [done|done| |].
  - intros p Hp. destruct (I5 p Hp) as (c & Hc & []). eauto.
  - intros E. rewrite E in I3, I4. destruct I3 as [O1 _ _], I4 as [O2 _ _].
    assert (∀ f p h, ¬ owner f ∅ (codecs (c_world s)) p h) as Hno by (intros f p h [? _]; set_solver).
    split.
    + apply set_eq. intros h. rewrite O1. split; [|by left]. intros [?|[p []%Hno]]; done.
    + apply dom_empty_inv_L, set_eq. intros h. rewrite O2. split; [|set_solver]. intros [?|[p []%Hno]]; done.
Qed.

(** *** Executable sessions *)

#[export] Instance well_formed_dec c : Decision (well_formed c).
Proof.
  destruct (decide (stream_type c ≠ STREAM_TYPE_ES_SUB ∧ length (ai_extradata (audio_info c)) = 4096%nat ∧
    0 ≤ ai_extradata_size (audio_info c) ∧ INT_MIN ≤ packet_size c - TS_PACKET_SIZE ≤ INT_MAX ∧
    cp_avsync_threshold c * 90 ≤ INT_MAX)) as [Hd|Hd].
  - left. destruct Hd as (? & ? & ? & ? & ?). by split.
  - right. intros [H1 H2 H3 H4 H5]. by apply Hd.
Defined.

#[export] Instance closable_dec c : Decision (closable c).
Proof. unfold closable. apply _. Defined.

#[export] Instance para_dec (w : cworld) p (R : codec_para_t → Prop) `{∀ c, Decision (R c)} :
  Decision (∃ c, codecs w !! p = Some c ∧ R c).
Proof.
  destruct (codecs w !! p) as [c|]; [destruct (decide (R c)) as [HR|HR]; [left|right]|right].
  - by exists c.
  - by intros (? & [= <-] & ?).
  - by intros (? & ? & ?).
Defined.

#[export] Instance legal_dec opn w op : Decision (legal opn w op).
Proof. destruct op as [| | | | | | | |? []]; cbn [legal plain_ok]; unfold idle; apply _. Defined.

(** Calls in sequence, as long as they are legal and the session lasts. *)
Fixpoint run (ops : list cop) (s : cstate) : option cstate :=
  match ops with
  | [] => Some s
  | op :: ops =>
      if c_failed s then None else
      if decide (legal (c_open s) (c_world s) op) then
        '(ok, w') ← exec op (c_world s);
        run ops (mk_cs (next_open op (c_open s)) (negb ok) w')
      else None
  end.

Lemma run_steps ops s s' : run ops s = Some s' → rtc (λ s s', ∃ op, cstep op s s') s s'.
Proof.
  revert s. induction ops as [|op ops IH]; intros s; cbn [run]; [by intros [= ->]|].
  destruct s as [opn [] w]; cbn; [done|]. destruct (decide (legal _ _ _)) as [Hl|]; [|done].
  destruct (exec op w) as [[ok w']|] eqn:E; [|done]. cbn. intros Hr%IH.
  eapply rtc_l; [|exact Hr]. exists op. by econstructor.
Qed.
End session.
