(* ===== verification/CodecLife.v ===== *)
(** The codec library over the audio decoder library: the interface the codec
    library relies on (Codec.v) is what the decoder library does
    (AdecControl.v, Lifetime.v), and concrete sessions. *)

From S2P Require Import Prelude PcmBuffer MessagePool Audec Dsp Rely PtsMgt DecoderSelect AdecControl MsgLoop Lifetime CodecDev Codec CodecCalls CodecSession.

(** ** The decoder library serves the codec library *)

Section serve.
Context (b : build) (os : nat → oracle) (glob0 : nat → statics) (malloc : gmap Z adec_cmd_t → Z) (obs : nat → Z)
  (env : nat → aml_audio_dec_t → aml_audio_dec_t).
Context (Hset : ∀ k, settings_ok (os k)) (Hmalloc : malloc_ok malloc) (Hroom : ∀ m, malloc m ≠ 0)
  (Hobs : ∀ k, obs k ≤ MESSAGE_NUM_MAX) (Henv : ∀ k a, pool_ok ∅ a → pool_ok ∅ (env k a)).

(** The world of a creation. *)
Definition creation (k : nat) : world := mk_w zero_audec (glob0 k) 0 [].

(** The instance [audio_decode_init] hands out. *)
Definition create (k : nat) (info : arm_audio_info) : option aml_audio_dec_t :=
  match audio_decode_init b false info (os k) (creation k) with
  | Done (r, true, _) w => Some (audec w)
  | _ => None
  end.

Lemma create_ok k info a :
  length (i_extradata info) = 4096%nat → create k info = Some a → pool_ok ∅ a.
Proof.
  intros Hl. unfold create.
  assert (wp (os k) (λ _, False) (audio_decode_init b false info)
    (λ x w, x.1.2 = true → pool_ok ∅ (audec w)) (creation k)) as Hw%wp_elim.
  { unfold audio_decode_init. wp_step. apply wp_ask. intros p. destruct (p =? 0); wp_steps; [done|].
    destruct (fill_audec_some info Hl) as (a0 & -> & Hst & Hpool). wp_steps.
    apply wp_audiodec_init; [done|done|]. intros r w1 (_ & _ & _ & Hp & _).
    destruct (r =? 0); cbn [negb]; wp_steps; done. }
  destruct (audio_decode_init b false info (os k) (creation k)) as [[[r []] i] w| |]; try done.
  intros [= <-]. by apply Hw.
Qed.

(** [audio_decode_init] and the calls on its instances are a decoder library
    for the codec library, whatever the answers of the system and the joins,
    the choice of the decoder and the missing functions are. *)
Definition amadec_lib (join kind : nat → Z) (query : nat → Z → Z) : DecoderLib := {|
  dl_create := create;
  dl_addr m := fresh_key (map_keys m);
  dl_env := env;
  dl_malloc := malloc;
  dl_obs := obs;
  dl_join := join;
  dl_kind := kind;
  dl_query := query;
  dl_create_ok := create_ok;
  dl_addr_ok m := conj (fresh_key_pos _) (fresh_key_none m _ (reflexivity _));
  dl_env_ok := Henv;
  dl_malloc_ok := Hmalloc;
  dl_room := Hroom;
  dl_obs_ok := Hobs
|}.
End serve.

(** ** Concrete sessions *)

(** The library with the answers of [life_oracle]. *)
Definition demo_lib : DecoderLib.
Proof.
  refine (amadec_lib (mk_build true false) (λ _, life_oracle) (λ _, mk_statics 0 0 0 (-1) 0)
    room_malloc (λ _, 0) (λ _ a, a) _ _ _ _ _ (λ _, 0) (λ _, 0) (λ _ _, 0)).
  - intros _. apply life_oracle_settings.
  - apply room_malloc_ok.
  - apply room_malloc_room.
  - done.
  - done.
Defined.

#[local] Existing Instance demo_kernel.
#[local] Existing Instance demo_lib.

(** A transport stream with video, audio and subtitles; an audio stream. *)
Definition demo_para (t : stream_type_t) (v s : bool) : codec_para_t :=
  mk_para 0 0 0 0 t v true s false false VFORMAT_H264 AFORMAT_WMA 0 0x100 0x101 0x102 2 48000 0 0 [48; 1]
    (mk_ai 1 48000 2 128000 7 4 10 (replicate 4096 9)) 188 0 NULL 0 0 0 0 0.
Definition demo_ts : codec_para_t := demo_para STREAM_TYPE_TS true true.
Definition demo_es : codec_para_t := demo_para STREAM_TYPE_ES_AUDIO false false.

Definition demo_process : cworld := mk_cw {[ 0 := "stdin"%string ]} [] 0 ∅ ∅ 0 [].

(** Two codecs, of which the first is still open at the end. *)
Definition demo_ops : list cop :=
  [OConfigure 100 demo_ts; OConfigure 200 demo_es; OInit 100; OPlain 100 (PWrite [1; 2]); OInit 200;
   OPlain 100 PPause; OInitUtils 200; OPlain 200 (PResampleEna 1); OCloseAudio 100; OReleaseUtils 200;
   OPlain 100 PResume; OClose 200; OResumeAudio 100 true; OReset 100].

Definition demo_end : option cstate := run demo_ops (mk_cs ∅ false demo_process).

Lemma demo_fresh : fresh_process demo_process.
Proof. split; [done..|]. by vm_compute. Qed.

Example demo_runs :
  (λ s, (elements (c_open s), c_failed s, map_keys (fds (c_world s)), map_keys (adecs (c_world s)))) <$> demo_end
  = Some ([100], false, [3; 2; 1; 0], [1]).
Proof. vm_compute. reflexivity. Qed.

Definition demo_state : cstate := default (mk_cs ∅ false demo_process) demo_end.

Lemma demo_reach : reachable demo_process demo_state.
Proof.
  unfold demo_state, reachable. destruct demo_end as [s|] eqn:E; [|reflexivity]. by eapply run_steps.
Qed.

Lemma codec_session_runs_witness :
  misused (c_world demo_state) = [] ∧
  ∃ s', cstep (OClose 100) demo_state s' ∧ misused (c_world s') = [].
Proof.
  destruct (codec_session_runs demo_process demo_state (OClose 100) demo_fresh demo_reach) as [Hm Hs].
  split; [exact Hm|]. apply Hs; [by vm_compute|]. apply (@bool_decide_unpack _ (legal_dec _ _ _)). by vm_compute.
Defined.

Lemma codec_session_accounts_witness :
  owns lives (c_open demo_state) (dom (fds demo_process)) (dom (fds (c_world demo_state))) (codecs (c_world demo_state)) ∧
  owns instance (c_open demo_state) ∅ (dom (adecs (c_world demo_state))) (codecs (c_world demo_state)) ∧
  (∀ p, p ∈ c_open demo_state → ∃ c, codecs (c_world demo_state) !! p = Some c ∧ NoDup (live c) ∧
                                      (adec_priv c ≠ NULL → has_audio c = true)) ∧
  (c_open demo_state = ∅ →
   dom (fds (c_world demo_state)) = dom (fds demo_process) ∧ adecs (c_world demo_state) = ∅).
Proof.
  apply (codec_session_accounts demo_process demo_state demo_fresh demo_reach). by vm_compute.
Defined.
