(* ===== verification/CodecDriver.v ===== *)
(** The codec library and the drivers (CodecDev.v, Codec.v): the two command
    sets carry the same requests, driver errors while a stream is opened, and
    the loop that reads subtitle data. *)

From S2P Require Import Prelude PcmBuffer MessagePool Audec Rely AdecControl CodecDev Codec CodecCalls CodecSession CodecLife.

(** ** The two command sets *)

(** The functions of the drivers (amports/amstream.h): a name, the number of
    the old ioctl, the number in the new commands. *)
Definition driver_functions : list (string * Z * Z) := [
  ("vb start", AMSTREAM_IOC_VB_START, AMSTREAM_SET_VB_START);
  ("vb size", AMSTREAM_IOC_VB_SIZE, AMSTREAM_SET_VB_SIZE);
  ("ab start", AMSTREAM_IOC_AB_START, AMSTREAM_SET_AB_START);
  ("ab size", AMSTREAM_IOC_AB_SIZE, AMSTREAM_SET_AB_SIZE);
  ("vformat", AMSTREAM_IOC_VFORMAT, AMSTREAM_SET_VFORMAT);
  ("aformat", AMSTREAM_IOC_AFORMAT, AMSTREAM_SET_AFORMAT);
  ("vid", AMSTREAM_IOC_VID, AMSTREAM_SET_VID);
  ("aid", AMSTREAM_IOC_AID, AMSTREAM_SET_AID);
  ("vb status", AMSTREAM_IOC_VB_STATUS, AMSTREAM_GET_EX_VB_STATUS);
  ("ab status", AMSTREAM_IOC_AB_STATUS, AMSTREAM_GET_EX_AB_STATUS);
  ("achannel", AMSTREAM_IOC_ACHANNEL, AMSTREAM_SET_ACHANNEL);
  ("samplerate", AMSTREAM_IOC_SAMPLERATE, AMSTREAM_SET_SAMPLERATE);
  ("datawidth", AMSTREAM_IOC_DATAWIDTH, AMSTREAM_SET_DATAWIDTH);
  ("tstamp", AMSTREAM_IOC_TSTAMP, AMSTREAM_SET_TSTAMP);
  ("vdecstat", AMSTREAM_IOC_VDECSTAT, AMSTREAM_GET_EX_VDECSTAT);
  ("adecstat", AMSTREAM_IOC_ADECSTAT, AMSTREAM_GET_EX_ADECSTAT);
  ("port init", AMSTREAM_IOC_PORT_INIT, AMSTREAM_PORT_INIT);
  ("trickmode", AMSTREAM_IOC_TRICKMODE, AMSTREAM_SET_TRICKMODE);
  ("audio info", AMSTREAM_IOC_AUDIO_INFO, AMSTREAM_SET_PTR_AUDIO_INFO);
  ("audio reset", AMSTREAM_IOC_AUDIO_RESET, AMSTREAM_AUDIO_RESET);
  ("sid", AMSTREAM_IOC_SID, AMSTREAM_SET_SID);
  ("sub reset", AMSTREAM_IOC_SUB_RESET, AMSTREAM_SUB_RESET);
  ("sub length", AMSTREAM_IOC_SUB_LENGTH, AMSTREAM_GET_SUB_LENGTH);
  ("set dec reset", AMSTREAM_IOC_SET_DEC_RESET, AMSTREAM_DEC_RESET);
  ("ts skipbyte", AMSTREAM_IOC_TS_SKIPBYTE, AMSTREAM_SET_TS_SKIPBYTE);
  ("sub type", AMSTREAM_IOC_SUB_TYPE, AMSTREAM_SET_SUB_TYPE);
  ("apts", AMSTREAM_IOC_APTS, AMSTREAM_GET_APTS);
  ("vpts", AMSTREAM_IOC_VPTS, AMSTREAM_GET_VPTS);
  ("pcrscr", AMSTREAM_IOC_PCRSCR, AMSTREAM_GET_PCRSCR);
  ("set pcrscr", AMSTREAM_IOC_SET_PCRSCR, AMSTREAM_SET_PCRSCR);
  ("sub num", AMSTREAM_IOC_SUB_NUM, AMSTREAM_GET_SUB_NUM);
  ("sub info", AMSTREAM_IOC_SUB_INFO, AMSTREAM_GET_PTR_SUB_INFO);
  ("ud length", AMSTREAM_IOC_UD_LENGTH, AMSTREAM_GET_UD_LENGTH);
  ("ud poc", AMSTREAM_IOC_UD_POC, AMSTREAM_GET_EX_UD_POC);
  ("apts lookup", AMSTREAM_IOC_APTS_LOOKUP, AMSTREAM_GET_APTS_LOOKUP);
  ("get first apts flag", GET_FIRST_APTS_FLAG, AMSTREAM_GET_FIRST_APTS_FLAG);
  ("set demux", AMSTREAM_IOC_SET_DEMUX, AMSTREAM_SET_DEMUX);
  ("set drmmode", AMSTREAM_IOC_SET_DRMMODE, AMSTREAM_SET_DRMMODE);
  ("tstamp us64", AMSTREAM_IOC_TSTAMP_uS64, AMSTREAM_SET_TSTAMP_US64);
  ("set video delay limit ms", AMSTREAM_IOC_SET_VIDEO_DELAY_LIMIT_MS, AMSTREAM_SET_VIDEO_DELAY_LIMIT_MS);
  ("get video delay limit ms", AMSTREAM_IOC_GET_VIDEO_DELAY_LIMIT_MS, AMSTREAM_GET_VIDEO_DELAY_LIMIT_MS);
  ("set audio delay limit ms", AMSTREAM_IOC_SET_AUDIO_DELAY_LIMIT_MS, AMSTREAM_SET_AUDIO_DELAY_LIMIT_MS);
  ("get audio delay limit ms", AMSTREAM_IOC_GET_AUDIO_DELAY_LIMIT_MS, AMSTREAM_GET_AUDIO_DELAY_LIMIT_MS);
  ("get audio cur delay ms", AMSTREAM_IOC_GET_AUDIO_CUR_DELAY_MS, AMSTREAM_GET_AUDIO_CUR_DELAY_MS);
  ("get video cur delay ms", AMSTREAM_IOC_GET_VIDEO_CUR_DELAY_MS, AMSTREAM_GET_VIDEO_CUR_DELAY_MS);
  ("get audio avg bitrate bps", AMSTREAM_IOC_GET_AUDIO_AVG_BITRATE_BPS, AMSTREAM_GET_AUDIO_AVG_BITRATE_BPS);
  ("get video avg bitrate bps", AMSTREAM_IOC_GET_VIDEO_AVG_BITRATE_BPS, AMSTREAM_GET_VIDEO_AVG_BITRATE_BPS);
  ("set apts", AMSTREAM_IOC_SET_APTS, AMSTREAM_SET_APTS);
  ("get last checkin apts", AMSTREAM_IOC_GET_LAST_CHECKIN_APTS, AMSTREAM_GET_LAST_CHECKIN_APTS);
  ("get last checkin vpts", AMSTREAM_IOC_GET_LAST_CHECKIN_VPTS, AMSTREAM_GET_LAST_CHECKIN_VPTS);
  ("get last checkout apts", AMSTREAM_IOC_GET_LAST_CHECKOUT_APTS, AMSTREAM_GET_LAST_CHECKOUT_APTS);
  ("get last checkout vpts", AMSTREAM_IOC_GET_LAST_CHECKOUT_VPTS, AMSTREAM_GET_LAST_CHECKOUT_VPTS)
]%string.

Definition old_name (cmd : Z) : option string :=
  '(_, e) ← list_find (λ e, e.1.2 = cmd) driver_functions; Some e.1.1.
Definition new_name (cmd : Z) : option string :=
  '(_, e) ← list_find (λ e, e.2 = cmd) driver_functions; Some e.1.1.

(** What a request asks of a device: the descriptor, the function, and the
    low 32 bits of the value if it carries one. *)
Definition request (r : sysreq) : option (Z * string * option Z) :=
  match r with
  | SIoctl h cmd (ArgParm d s) =>
      f ← new_name s; if decide (cmd = AMSTREAM_IOC_SET) then Some (h, f, Some d) else Some (h, f, None)
  | SIoctl h cmd (ArgParmEx s) => f ← new_name s; Some (h, f, None)
  | SIoctl h cmd (ArgParmPtr _ s) => f ← new_name s; Some (h, f, None)
  | SIoctl h cmd (ArgVal v) => f ← old_name cmd; Some (h, f, Some (u32 v))
  | SIoctl h cmd (ArgMem _) => f ← old_name cmd; Some (h, f, None)
  | _ => None
  end.

(** The table finds the old command of every function. *)
Lemma table_ok :
  Forall (λ e, get_old_cmd e.2 = i32 e.1.2 ∧ u32 (i32 e.1.2) = e.1.2 ∧ i32 e.1.2 ≠ -1 ∧
               old_name e.1.2 = Some e.1.1 ∧ new_name e.2 = Some e.1.1) driver_functions.
Proof. repeat constructor. all: vm_compute; discriminate. Qed.

Lemma table_entry f c s :
  (f, c, s) ∈ driver_functions →
  get_old_cmd s = i32 c ∧ u32 (i32 c) = c ∧ i32 c ≠ -1 ∧ old_name c = Some f ∧ new_name s = Some f.
Proof. intros Hin. apply (proj1 (Forall_forall _ _) table_ok (f, c, s) Hin). Qed.

Section commands.
Context {KK : Kernel}.

(** [m] makes one system call, an ioctl with the meaning [q], and its result
    has the relation [R] to the argument and to the driver's answer. *)
Definition asks {A} (q : Z * string * option Z) (R : carg → Z * list Z → A → Prop) (m : CM cworld A)
    (w : cworld) : Prop :=
  ∃ a w' k h cmd arg, m w = Some (a, w') ∧ calls w' = calls w ++ [SIoctl h cmd arg] ∧
    request (SIoctl h cmd arg) = Some q ∧ R arg (k_ioctl k h cmd arg) a.

(** Whether the driver accepted, as the library reports it. *)
Definition reported (d : Z * list Z) : Z := if d.1 <? 0 then d.1 else 0.

(** The int the driver answered, in place of [v]. *)
Definition got_int (v : Z) (arg : carg) (d : Z * list Z) (x : Z * Z) : Prop :=
  x.1 = reported d ∧ (0 ≤ d.1 → u32 x.2 = u32 (default v (head d.2))).

(** The five words of a status; with the old commands they follow two words of
    [am_io_param]. *)
Definition got_status (arg : carg) (d : Z * list Z) (x : Z * list Z) : Prop :=
  x.1 = reported d ∧
  (0 ≤ d.1 → x.2 = five (match arg with ArgMem _ => drop 2 d.2 | _ => d.2 end)).

(** The result of the system call itself. *)
Definition raw (arg0 arg : carg) (d x : Z * list Z) : Prop := arg = arg0 ∧ x = d.

Lemma asks_ioctl h cmd arg q w :
  h ∈ dom (fds w) → 0 ≤ h → request (SIoctl h cmd arg) = Some q → asks q (raw arg) (sys_ioctl h cmd arg) w.
Proof.
  intros [d Hd]%elem_of_dom Hh Hq. unfold sys_ioctl, use, asks, mbind, cm_bind. cbn.
  rewrite (proj2 (Z.ltb_ge _ _)) by done. rewrite Hd. by eexists _, _, (asked w), h, cmd, arg.
Qed.

(** The result is only handed on. *)
Lemma asks_then {A B} (R : carg → Z * list Z → A → Prop) (R' : carg → Z * list Z → B → Prop)
    (m : CM cworld A) (f : A → CM cworld B) q w :
  asks q R m w → (∀ arg d a, R arg d a → ∃ b, (∀ w, f a w = Some (b, w)) ∧ R' arg d b) → asks q R' (m ≫= f) w.
Proof.
  intros (a & w' & k & h & cmd & arg & Hm & Hr & Hq & HR) Hf. destruct (Hf _ _ _ HR) as (b & Hb & HR').
  exists b, w', k, h, cmd, arg. unfold mbind, cm_bind. by rewrite Hm, Hb.
Qed.

(** Something without a system call goes first. *)
Lemma asks_first {A B} (R : carg → Z * list Z → B → Prop) (m : CM cworld A) (f : A → CM cworld B) q a w w1 :
  m w = Some (a, w1) → calls w1 = calls w → asks q R (f a) w1 → asks q R (m ≫= f) w.
Proof.
  intros Hm Hc (b & w' & k & h & cmd & arg & Hf & Hr & Hq & HR). exists b, w', k, h, cmd, arg.
  unfold mbind, cm_bind. rewrite Hm, Hf, Hr, Hc. done.
Qed.

(** The status and the memory of a control call. *)
Definition controlled (arg0 arg : carg) (d x : Z * list Z) : Prop :=
  arg = arg0 ∧ x = (reported d, d.2).

Lemma asks_control h cmd arg q w :
  h ∈ dom (fds w) → 0 ≤ h → request (SIoctl h (u32 cmd) arg) = Some q →
  asks q (controlled arg) (codec_h_control h cmd arg) w.
Proof.
  intros Ho Hh Hq. unfold codec_h_control. rewrite (proj2 (Z.ltb_ge _ _)) by done.
  eapply asks_then; [by apply asks_ioctl|]. intros arg' d [r mem] [-> <-]. by eexists.
Qed.

(** With the old commands every request goes through the table. *)
Lemma asks_old f c s h cmd arg w q :
  (f, c, s) ∈ driver_functions → h ∈ dom (fds w) → 0 ≤ h → support_new_cmd w = 0 →
  request (SIoctl h c arg) = Some q → asks q (controlled arg) (codec_h_ioctl h cmd s arg) w.
Proof.
  intros Hin Hop Hh Hn Hq. destruct (table_entry f c s Hin) as (Ho & Hu & Hne & _).
  unfold codec_h_ioctl. rewrite (proj2 (Z.ltb_ge _ _)) by done.
  eapply asks_first; [reflexivity|done|]. rewrite Hn. cbn [Z.eqb]. cbv zeta.
  rewrite Ho, (proj2 (Z.eqb_neq _ _) Hne). apply asks_control; [done|done|by rewrite Hu].
Qed.

Lemma asks_set f h s v w c :
  (f, c, s) ∈ driver_functions → h ∈ dom (fds w) → 0 ≤ h → (no_data_cmd s = true → v = 0) →
  asks (h, f, Some (u32 v)) (λ _ d r, r = reported d) (ioctl_set h s v) w.
Proof.
  intros Hin Hop Hh Hd. destruct (table_entry f c s Hin) as (_ & _ & _ & Ho & Hnw). unfold ioctl_set.
  destruct (decide (support_new_cmd w = 0)) as [Hn|Hn].
  - eapply asks_then; [eapply asks_old; [done..|]; cbn [request]; by rewrite Ho|].
    intros arg d x [-> ->]. by eexists.
  - apply (asks_then (λ _ d x, x.1 = reported d)); [|intros arg d [r mem] Hr; by eexists].
    unfold codec_h_ioctl. rewrite (proj2 (Z.ltb_ge _ _)) by done.
    eapply asks_first; [reflexivity|done|]. rewrite (proj2 (Z.eqb_neq _ _) Hn).
    eapply asks_first; [reflexivity|done|].
    apply (asks_then (λ _ d r, r = reported d)); [|intros arg d r Hr; by eexists].
    eapply asks_then; [apply asks_ioctl; [done|done|]|intros arg d [r mem] [_ <-]; by eexists].
    cbn [request]. rewrite Hnw. cbn. destruct (no_data_cmd s); [by rewrite Hd|done].
Qed.

Lemma u32_idem x : u32 (u32 x) = u32 x.
Proof. apply u32_small, u32_range. Qed.

Lemma asks_get f h s v w c :
  (f, c, s) ∈ driver_functions → h ∈ dom (fds w) → 0 ≤ h → asks (h, f, None) (got_int v) (ioctl_get h s v) w.
Proof.
  intros Hin Hop Hh. destruct (table_entry f c s Hin) as (_ & _ & _ & Ho & Hnw). unfold ioctl_get.
  destruct (decide (support_new_cmd w = 0)) as [Hn|Hn].
  - eapply asks_then; [eapply asks_old; [done..|]; cbn [request]; by rewrite Ho|].
    intros arg d x [-> ->]. eexists. split; [done|]. by split.
  - apply (asks_then (λ _ d x, x.1 = reported d ∧ (0 ≤ d.1 → x.2 = [u32 (default (u32 v) (head d.2))]))).
    + unfold codec_h_ioctl. rewrite (proj2 (Z.ltb_ge _ _)) by done.
      eapply asks_first; [reflexivity|done|]. rewrite (proj2 (Z.eqb_neq _ _) Hn).
      change (asks (h, f, None) (λ _ d x, x.1 = reported d ∧ (0 ≤ d.1 → x.2 = [u32 (default (u32 v) (head d.2))]))
        (codec_h_ioctl_get h s [v]) w).
      eapply asks_then; [apply asks_ioctl; [done|done|]; cbn [request]; by rewrite Hnw|].
      intros arg [r mem] x [_ ->]. eexists. split; [done|]. unfold reported. cbn. destruct (Z.ltb_spec r 0); split; try done; lia.
    + intros arg d [r mem] [Hr Hm]. eexists. split; [done|]. split; [done|]. intros Hd. cbn in Hm |- *.
      rewrite (Hm Hd). cbn. rewrite u32_idem. destruct (head d.2); [done|]. cbn. apply u32_idem.
Qed.

Lemma asks_status f h ex old w :
  (f, old, ex) ∈ driver_functions → is_status_cmd ex = true → h ∈ dom (fds w) → 0 ≤ h →
  asks (h, f, None) got_status (get_status h ex old) w.
Proof.
  intros Hin Hst Hop Hh. destruct (table_entry _ _ _ Hin) as (_ & Hu & _ & Hno & Hnw). unfold get_status.
  eapply asks_first; [reflexivity|done|].
  eapply asks_first; [reflexivity|done|]. destruct (Z.eqb_spec (support_new_cmd w) 0) as [Hn|Hn]; cbn [negb].
  - assert (u32 old = old) as Hu' by (rewrite <- Hu; apply u32_idem).
    eapply asks_then; [apply asks_control; [done|done|]; cbn [request]; by rewrite Hu', Hno|].
    intros arg d x [-> ->]. eexists. split; [done|]. by split.
  - set (w1 := w <| asked := S (asked w) |>). set (mem := replicate 5 (k_stack (asked w))).
    apply (asks_then (λ arg d x, x.1 = reported d ∧ (0 ≤ d.1 → x.2 = five d.2) ∧ arg = ArgParmEx ex)).
    + unfold codec_h_ioctl. rewrite (proj2 (Z.ltb_ge _ _)) by done.
      eapply asks_first; [reflexivity|done|]. unfold w1. cbn [support_new_cmd set_field]. rewrite (proj2 (Z.eqb_neq _ _) Hn).
      fold w1. change (asks (h, f, None) (λ arg d x, x.1 = reported d ∧ (0 ≤ d.1 → x.2 = five d.2) ∧ arg = ArgParmEx ex)
        (codec_h_ioctl_get_ex h ex mem) w1).
      unfold codec_h_ioctl_get_ex. rewrite Hst.
      eapply asks_then; [apply asks_ioctl; [done|done|]; cbn [request]; by rewrite Hnw|].
      intros arg [r m] x [-> ->]. eexists. split; [done|]. unfold reported. cbn. destruct (Z.ltb_spec r 0); split_and!; try done; lia.
    + intros arg d [r m] (Hr & Hm & ->). eexists. split; [done|]. split; [done|]. intros Hd. cbn in Hm |- *.
      rewrite (Hm Hd). unfold five. rewrite take_app_le.
      * by rewrite take_idemp.
      * rewrite length_take, length_app, length_replicate. lia.
Qed.
End commands.

(** [C14] The two generations of driver commands carry the same requests.  For
    every function of [driver_functions] (the table of the library without
    the end of stream) and an open descriptor, a set, a get of an int and a
    status call of the library each make exactly one ioctl on the descriptor,
    whether the driver has the new commands or not; it asks for that function
    and, when it is a set, carries the same 32 bits; what is reported is the
    driver's result, and on success a get hands on the low 32 bits of the
    driver's int and a status call the driver's five words.  (The functions
    without data are sent with 0; the end of stream and the subtitle
    information do not agree, see [eos_differs] and [sub_info_refused].) *)
Theorem command_sets_agree {KK : Kernel} (f : string) (old s h v : Z) (w : cworld) :
  (f, old, s) ∈ driver_functions → h ∈ dom (fds w) → 0 ≤ h →
  ((no_data_cmd s = true → v = 0) →
   asks (h, f, Some (u32 v)) (λ _ d r, r = reported d) (ioctl_set h s v) w) ∧
  asks (h, f, None) (got_int v) (ioctl_get h s v) w ∧
  (is_status_cmd s = true → asks (h, f, None) got_status (get_status h s old) w).
Proof.
  intros Hin Hop Hh. split_and!; intros.
  - by eapply asks_set.
  - by eapply asks_get.
  - by apply asks_status.
Qed.

Definition two_modes (new : Z) : cworld := mk_cw {[ 0 := "stdin"; 5 := "/dev/amstream_mpts" ]}%string [] new ∅ ∅ 0 [].

#[local] Existing Instance demo_kernel.

Lemma command_sets_agree_witness :
  asks (5, "vid"%string, Some 256) (λ _ d r, r = reported d) (ioctl_set 5 AMSTREAM_SET_VID 256) (two_modes 0) ∧
  asks (5, "vid"%string, Some 256) (λ _ d r, r = reported d) (ioctl_set 5 AMSTREAM_SET_VID 256) (two_modes 1).
Proof.
  split; refine (proj1 (command_sets_agree (KK := demo_kernel) "vid" AMSTREAM_IOC_VID AMSTREAM_SET_VID 5 256 _ _ _ _) _);
    try done; apply (bool_decide_unpack _); by vm_compute.
Defined.

(** The end of stream is not one of them: with the old commands the ioctl of
    the new ones is made, with the flag where it takes a pointer. *)
Example eos_differs :
  (λ x, calls x.2) <$> ioctl_set 5 AMSTREAM_SET_EOS 1 (two_modes 0) = Some [SIoctl 5 AMSTREAM_IOC_SET (ArgVal 1)] ∧
  (λ x, calls x.2) <$> ioctl_set 5 AMSTREAM_SET_EOS 1 (two_modes 1)
    = Some [SIoctl 5 AMSTREAM_IOC_SET (ArgParm 1 AMSTREAM_SET_EOS)].
Proof. by vm_compute. Qed.

(** ** Driver errors while a stream is opened *)

Section errors.
Context {KK : Kernel} (p : Z).

Definition nonneg (r : Z) : Prop := 0 ≤ r.

Lemma nonneg_error r : status r → nonneg (if r <? 0 then system_error_to_codec_error r else 0).
Proof.
  unfold status, nonneg. intros Hr. destruct (Z.ltb_spec r 0); [|done].
  pose proof (codec_error_pos r). unfold INT_MIN in *. lia.
Qed.

Lemma checked_nonneg c h s v k :
  h ∈ handles c → Safe (ready p c) nonneg k → Safe (ready p c) nonneg (checked_set h s v k).
Proof.
  intros Hh Hk. unfold checked_set. eapply safe_bind; [by apply safe_set|]. intros r Hr.
  pose proof (nonneg_error r Hr) as Hn. destruct (r <? 0); [by apply safe_ret|done].
Qed.

Lemma handle_in c : handle c ∈ handles c.
Proof. by left. Qed.

Ltac nonneg_step :=
  lazymatch goal with
  | |- Safe _ nonneg (para _ ≫= _) => eapply safe_bind; [apply safe_para|intros ? ->; cbv zeta beta]
  | |- Safe _ nonneg (checked_set _ _ _ _) => apply checked_nonneg; [apply handle_in|]
  | |- Safe _ nonneg (if ?b then _ else _) => destruct b eqn:?
  | |- Safe _ nonneg (mret _) => by apply safe_ret
  end.

Lemma audio_format_nonneg c :
  0 ≤ audio_type c ≤ AFORMAT_MAX → Safe (ready p c) nonneg (set_audio_format p).
Proof.
  intros Ht. unfold set_audio_format. nonneg_step.
  rewrite (proj2 (Z.ltb_ge _ _)), Z.gtb_ltb, (proj2 (Z.ltb_ge _ _)) by lia. cbn [orb].
  repeat nonneg_step.
Qed.

Lemma video_format_nonneg c :
  0 ≤ video_type c ≤ VFORMAT_MAX → Safe (ready p c) nonneg (set_video_format p).
Proof.
  intros Ht. unfold set_video_format. nonneg_step.
  rewrite (proj2 (Z.ltb_ge _ _)), Z.gtb_ltb, (proj2 (Z.ltb_ge _ _)) by lia. cbn [orb].
  eapply safe_bind; [apply safe_set, handle_in|]. intros r Hr. destruct (0 <=? video_pid c); [repeat nonneg_step|].
  pose proof (nonneg_error r Hr) as Hn. destruct (r <? 0); by apply safe_ret.
Qed.

Lemma video_info_nonneg c : Safe (ready p c) nonneg (set_video_codec_info p).
Proof.
  unfold set_video_codec_info. nonneg_step. eapply safe_bind; [apply safe_control, handle_in|].
  intros [r mem] Hr. apply safe_ret, nonneg_error, Hr.
Qed.

Lemma audio_info_nonneg c : Safe (ready p c) nonneg (set_audio_info p).
Proof.
  unfold set_audio_info. nonneg_step.
  eapply safe_bind; [apply safe_h_ioctl; [apply handle_in|by intros E; vm_compute in E..]|].
  intros [r mem] Hr. apply safe_ret, nonneg_error, Hr.
Qed.

Lemma sub_format_nonneg c : Safe (ready p c) nonneg (set_sub_format p).
Proof. unfold set_sub_format. repeat nonneg_step. Qed.

Lemma ts_skip_nonneg c : well_formed c → Safe (ready p c) nonneg (set_ts_skip_byte p).
Proof.
  intros Hwf. unfold set_ts_skip_byte. nonneg_step. apply (safe_bind _ any).
  - intros w Hw. eapply cwp_lift; [by apply int_ok_some, wf_packet|]. by split_and!.
  - intros skip _. repeat nonneg_step.
Qed.
(** The call reports success, whatever the drivers answer. *)
Definition Nofail (c : codec_para_t) (m : CM cworld Z) : Prop :=
  ∀ w, ready p c w → cwp m (λ r _, r = 0) w.

Lemma nofail_done c : Nofail c (mret CODEC_ERROR_NONE).
Proof. done. Qed.

Lemma nofail_safe {A} c (R : A → Prop) m k :
  Safe (ready p c) R m → (∀ a, R a → Nofail c (k a)) → Nofail c (m ≫= k).
Proof.
  intros Hm Hk w Hw. cwp_step. eapply cwp_mono; [|by apply Hm]. intros a w' (_ & Hw' & Ha). by apply Hk.
Qed.

Lemma nofail_or_close c h m k : Safe (ready p c) nonneg m → Nofail c k → Nofail c (or_close h m k).
Proof.
  intros Hm Hk. eapply nofail_safe; [done|]. intros r Hr. unfold nonneg in Hr.
  by rewrite (proj2 (Z.ltb_ge _ _)).
Qed.

Lemma nofail_when c b m k : (Nofail c k → Nofail c (m k)) → Nofail c k → Nofail c (when b m k).
Proof. intros Hm Hk. destruct b; cbn [when]; auto. Qed.

(** A descriptor is opened under a name of the codec. *)
Lemma ready_named c g h w w' :
  ready p c w → opened h w w' → handles (g c) ⊆ h :: handles c → adec_priv (g c) = adec_priv c →
  cwp (set_para p g) (λ _ w'', ready p (g c) w'') w'.
Proof.
  intros [R1 R2 R3 R4] [O1 O2 O3 O4 O5] Hs Ha. apply (cwp_set_para p c); [by rewrite O4|]. split; cbn.
  - apply lookup_insert_eq.
  - intros x Hx%Hs. unfold usable in *. cbn. rewrite O2. apply elem_of_cons in Hx as [->|Hx%R2]; set_solver.
  - by rewrite O5, Ha.
  - unfold pools in *. cbn. by rewrite O5.
Qed.


Lemma nofail_sub_init c h : Nofail c (sub_init p h (mret CODEC_ERROR_NONE)).
Proof.
  apply nofail_or_close; [apply sub_format_nonneg|]. intros w Hw. unfold or_close, codec_init_sub. repeat cwp_step.
  eapply cwp_mono; [|by apply safe_para]. intros ? w1 (_ & Hw1 & ->). cwp_step.
  eapply cwp_mono; [|apply cwp_open_loop]. intros r w2 [Hi [(Hr & Hc & _)|[Hr Ho]]].
  - rewrite (proj2 (Z.ltb_lt _ _)) by done. cwp_steps. pose proof (codec_error_pos r).
    rewrite (proj2 (Z.ltb_ge _ _)) by lia. by cwp_steps.
  - rewrite (proj2 (Z.ltb_ge _ _)) by done. cwp_step.
    eapply cwp_mono; [|apply (ready_named c _ r w1); [done|done| |done]]; [intros ? w3 _; by cwp_steps|].
    unfold handles. cbn. set_solver.
Qed.

Lemma cwp_h_open device flags w : cwp (codec_h_open device flags) (open_post w) w.
Proof. unfold codec_h_open. apply cwp_open_loop. Qed.

(** The stream function after its device was tried. *)
Definition open_decides (c : codec_para_t) (device : string) (m : CM cworld Z) (w : cworld) : Prop :=
  ∃ h w1 w', codec_h_open device (write_flags c) w = Some (h, w1) ∧
    m w = Some (if h <? 0 then CODEC_OPEN_HANDLE_FAILED else 0, w').

Lemma open_decides_para c device k w :
  ready p c w → open_decides c device (k c) w → open_decides c device (para p ≫= k) w.
Proof.
  intros Hw (h & w1 & w' & Ho & Hk). exists h, w1, w'. split; [done|].
  unfold mbind, cm_bind, para. by rewrite (rd_para _ _ _ Hw).
Qed.

Lemma nofail_open_stream c device k w :
  ready p c w → (∀ h, 0 ≤ h → Nofail (c <| handle := h |>) (k h)) → open_decides c device (open_stream p device k) w.
Proof.
  intros Hw Hk. destruct (cwp_elim _ _ _ (cwp_h_open device (write_flags c) w)) as (h & w2 & Ho & Hi & Hcase).
  exists h, w2. assert (cwp (open_stream p device k) (λ r _, r = if h <? 0 then CODEC_OPEN_HANDLE_FAILED else 0) w)
    as H%cwp_elim; [|destruct H as (r & w' & Hs & ->); by exists w'].
  unfold open_stream. cwp_step. eapply cwp_intro; [unfold para; by rewrite (rd_para _ _ _ Hw)|]. cwp_step.
  eapply cwp_intro; [exact Ho|]. destruct Hcase as [(Hr & _)|[Hr Hop]].
  - rewrite (proj2 (Z.ltb_lt _ _)) by done. by cwp_steps.
  - rewrite (proj2 (Z.ltb_ge _ _)) by done. cwp_step.
    eapply cwp_mono; [|apply (ready_named c (λ c, c <| handle := h |>) h w); [done|done| |done]].
    2:{ unfold handles. cbn. set_solver. }
    intros ? w3 Hw3. cwp_step. pose (c' := c <| handle := h |>).
    eapply cwp_mono; [|by apply (safe_check_new_cmd p c')]. intros ? w4 (_ & Hw4 & _).
    eapply cwp_mono; [|by apply (Hk h Hr)]. by intros r w5 ->.
Qed.

Lemma nofail_sub_part c (b : bool) h : Nofail c (when b (sub_init p h) (mret CODEC_ERROR_NONE)).
Proof. apply nofail_when; [intros _; apply nofail_sub_init|done]. Qed.

Ltac nofail_step :=
  first
    [ assumption
    | apply nofail_sub_part
    | by apply nofail_done
    | lazymatch goal with
      | |- Nofail _ (or_close _ _ _) =>
          apply nofail_or_close;
          [first [ by apply video_format_nonneg | by apply audio_format_nonneg | apply video_info_nonneg
                 | apply audio_info_nonneg | by apply ts_skip_nonneg ]|]
      | |- Nofail _ (when _ _ _) => apply nofail_when; [intros ?|]
      | |- Nofail _ (codec_set_demux_source _ _ ≫= _) => apply (nofail_safe _ any); [solve [safe_go]|intros ? _]
      end ].

(** The device of a stream. *)
Definition stream_device (t : stream_type_t) : string :=
  match t with
  | STREAM_TYPE_ES_AUDIO => CODEC_AUDIO_ES_DEVICE
  | STREAM_TYPE_PS => CODEC_PS_DEVICE
  | STREAM_TYPE_TS => CODEC_TS_DEVICE
  | _ => CODEC_RM_DEVICE
  end.

(** [C39] Errors of the drivers are not seen while an audio, program,
    transport or Real stream is set up.  With formats in range, a valid pid
    and sizes in range, the function that opens the stream answers 0 exactly
    when its device opens, and CODEC_OPEN_HANDLE_FAILED exactly when it does
    not, whatever the drivers answer to every command it sends: the codec
    error of a failed call is positive, and the tests look for a negative
    one. *)
Theorem driver_errors_unseen c w :
  ready p c w → well_formed c →
  stream_type c ∈ [STREAM_TYPE_ES_AUDIO; STREAM_TYPE_PS; STREAM_TYPE_TS; STREAM_TYPE_RM] →
  0 ≤ video_type c ≤ VFORMAT_MAX → 0 ≤ audio_type c ≤ AFORMAT_MAX → has_valid_pid c = true →
  (stream_type c = STREAM_TYPE_ES_AUDIO → has_audio c = true) →
  ∃ h w1 w', codec_h_open (stream_device (stream_type c)) (write_flags c) w = Some (h, w1) ∧
    stream_init (stream_type c) p w = Some (if h <? 0 then CODEC_OPEN_HANDLE_FAILED else 0, w').
Proof.
  intros Hw Hwf Ht Hv Ha Hpid Hau.
  assert (∀ h, well_formed (c <| handle := h |>)) as Hwf' by (intros h; by destruct Hwf).
  destruct (stream_type c); try (exfalso; set_solver); cbn [stream_init stream_device];
    match goal with |- ∃ h w1 w', codec_h_open ?d ?f w = _ ∧ ?m w = _ => change (open_decides c d m w) end;
    unfold codec_audio_es_init, codec_ps_init, codec_ts_init, codec_rm_init;
    (apply open_decides_para; [done|]); rewrite ?Hpid, ?Hau by done; cbn [negb];
    apply (nofail_open_stream c); try done; intros h Hh; repeat nofail_step.
Qed.
End errors.

(** A driver that refuses every command. *)
Definition refusing_kernel : Kernel.
Proof.
  refine {|
    k_open := k_open (Kernel := demo_kernel);
    k_close _ _ := 0;
    k_ioctl _ _ _ _ := (-1, []);
    k_read _ _ _ := None;
    k_write _ _ _ := -1;
    k_poll _ _ _ := -1;
    k_stack _ := 0
  |}.
  - apply (k_open_fresh (Kernel := demo_kernel)).
  - apply (k_open_int (Kernel := demo_kernel)).
  - unfold INT_MIN, INT_MAX. cbn. lia.
  - done.
Defined.

Definition demo_configured : cworld := demo_process <| codecs := {[ 100 := demo_ts ]} |>.

Lemma demo_ready : ready 100 demo_ts demo_configured.
Proof.
  split; [done| |by left|done]. intros h Hh. right.
  assert (h = 0) as -> by (unfold handles in Hh; cbn in Hh; set_solver). by vm_compute.
Qed.

Lemma driver_errors_unseen_witness :
  ∃ h w1 w', codec_h_open (H := refusing_kernel) CODEC_TS_DEVICE (write_flags demo_ts) demo_configured = Some (h, w1) ∧
    stream_init (H := refusing_kernel) (stream_type demo_ts) 100 demo_configured =
      Some (if h <? 0 then CODEC_OPEN_HANDLE_FAILED else 0, w').
Proof.
  apply (driver_errors_unseen (KK := refusing_kernel) 100 demo_ts demo_configured demo_ready).
  - apply (@bool_decide_unpack _ (well_formed_dec _)). by vm_compute.
  - apply (bool_decide_unpack _). by vm_compute.
  - by vm_compute.
  - by vm_compute.
  - done.
  - done.
Defined.

(** The stream is open although the driver has refused all. *)
Example all_refused :
  fst <$> stream_init (H := refusing_kernel) STREAM_TYPE_TS 100 demo_configured = Some 0.
Proof. vm_compute. reflexivity. Qed.

(** ** Subtitle data *)

Section subtitles.
Context {KK : Kernel}.

Lemma read_open h n w d :
  0 ≤ h → fds w !! h = Some d →
  sys_read h n w = Some (k_read (asked w) h n, w <| asked := S (asked w) |> <| calls := calls w ++ [SRead h n] |>).
Proof.
  intros Hh Hd. unfold sys_read, question, use, mbind, cm_bind. cbn.
  rewrite (proj2 (Z.ltb_ge _ _)) by done. by rewrite Hd.
Qed.

(** The number of bytes delivered bounds the number of reads. *)
Lemma read_sub_loop_exact fuel h n done w d :
  0 ≤ h → fds w !! h = Some d → 0 ≤ n ≤ Z.of_nat fuel →
  (∀ k m, 0 < m → ∃ bs, k_read k h m = Some bs ∧ bs ≠ []) →
  ∃ bs w', read_sub_loop fuel h n done w = Some ((Some 0, done ++ bs), w') ∧ zlen bs = n.
Proof.
  intros Hh Hd Hn Hk. revert n done w Hd Hn. induction fuel as [|fuel IH]; intros n dn w Hd Hn;
    cbn [read_sub_loop]; destruct (Z.eqb_spec n 0) as [->|Hne];
    try (exists [], w; by rewrite app_nil_r); [lia|].
  unfold mbind, cm_bind, codec_h_read. rewrite (read_open h n w d Hh Hd).
  destruct (Hk (asked w) n ltac:(lia)) as (bs & Hb & Hbn). pose proof (k_read_len _ _ _ _ Hb) as Hl. rewrite Hb.
  assert (0 < zlen bs). { destruct bs; [done|]. unfold zlen. cbn. lia. }
  destruct (IH (n - zlen bs) (dn ++ bs) (w <| asked := S (asked w) |> <| calls := calls w ++ [SRead h n] |>))
    as (bs' & w' & E & Hz); [done|lia|].
  exists (bs ++ bs'), w'. rewrite E, app_assoc, zlen_app. split; [done|lia].
Qed.

Lemma read_sub_loop_eof fuel h n done w d :
  0 ≤ h → fds w !! h = Some d → n ≠ 0 → (∀ k m, k_read k h m = Some []) →
  ∃ w', read_sub_loop fuel h n done w = Some ((None, done), w').
Proof.
  intros Hh Hd Hn Hk. revert w Hd. induction fuel as [|fuel IH]; intros w Hd;
    cbn [read_sub_loop]; rewrite (proj2 (Z.eqb_neq _ _) Hn); [by eexists|].
  unfold mbind, cm_bind, codec_h_read. rewrite (read_open h n w d Hh Hd), Hk.
  replace (n - zlen []) with n by (unfold zlen; cbn; lia). rewrite app_nil_r.
  by apply (IH (w <| asked := S (asked w) |> <| calls := calls w ++ [SRead h n] |>)).
Qed.

(** [C38] Reading subtitle data delivers exactly what was asked for: from an
    open descriptor whose reads each deliver at least a byte, however few,
    the loop ends with success after at most as many reads as bytes were
    asked for, and has stored exactly that many bytes.  A descriptor at its
    end is different: when the reads deliver nothing the loop never ends,
    however long it runs, unless nothing was asked for. *)
Theorem codec_read_sub_data_spec h n w d :
  0 < h → fds w !! h = Some d → 0 ≤ n ≤ INT_MAX →
  ((∀ k m, 0 < m → ∃ bs, k_read k h m = Some bs ∧ bs ≠ []) →
   ∃ bs w', codec_read_sub_data_fd (Z.to_nat n) h n w = Some ((Some 0, bs), w') ∧ zlen bs = n) ∧
  ((∀ k m, k_read k h m = Some []) → 0 < n →
   ∀ fuel, ∃ w', codec_read_sub_data_fd fuel h n w = Some ((None, []), w')).
Proof.
  intros Hh Hd Hn. unfold codec_read_sub_data_fd. rewrite (proj2 (Z.leb_gt _ _)) by done.
  unfold INT_MAX in Hn. rewrite i32_small by lia. split.
  - intros Hk. destruct (read_sub_loop_exact (Z.to_nat n) h n [] w d) as (bs & w' & E & Hz); [lia|done|lia|done|].
    by exists bs, w'.
  - intros Hk Hp fuel. apply (read_sub_loop_eof fuel h n [] w d); [lia|done|lia|done].
Qed.
End subtitles.

(** With the kernel of the sessions, which delivers at most three bytes. *)
Lemma codec_read_sub_data_spec_witness :
  ∃ bs w', codec_read_sub_data_fd (Z.to_nat 7) 5 7 (two_modes 1) = Some ((Some 0, bs), w') ∧ zlen bs = 7.
Proof.
  refine (proj1 (codec_read_sub_data_spec (KK := demo_kernel) 5 7 (two_modes 1) "/dev/amstream_mpts" _ _ _) _).
  - done.
  - done.
  - by vm_compute.
  - intros k m Hm. exists (take (Z.to_nat m) [1; 2; 3]). split; [done|]. by destruct (Z.to_nat m) eqn:E; [lia|].
Defined.

(** With the new commands the subtitle information is never asked for: the
    device layer knows the request by its old number only. *)
Lemma sub_info_refused {KK : Kernel} p c xs w :
  codecs w !! p = Some c → support_new_cmd w ≠ 0 → codec_get_sub_info p (Some xs) w = Some ((-1, xs), w).
Proof.
  intros Hc Hn. unfold codec_get_sub_info, codec_h_ioctl, mbind, cm_bind, para. rewrite Hc.
  destruct (handle c <? 0); [done|]. cbn. rewrite (proj2 (Z.eqb_neq _ _) Hn). reflexivity.
Qed.
