(* ===== verification/CodecAudio.v ===== *)
(** The codec library and its decoder instances (Codec.v, AdecControl.v): what
    of the stream's description reaches the decoder, how a pause of the codec
    reaches it, and closing without an instance. *)

From S2P Require Import Prelude PcmBuffer MessagePool Audec Dsp Rely AdecControl CodecDev Codec CodecCalls CodecSession CodecLife CodecDriver.

(** ** The description of the stream *)

Definition is_wma (t : Z) : bool := (t =? AFORMAT_WMA) || (t =? AFORMAT_WMAPRO) || (t =? AFORMAT_WMAVOI).

(** The bytes the decoder finds before the extradata of a WMA stream. *)
Definition asf_header (i : audio_info_t) : list Z :=
  le32 (ai_valid i) ++ le32 (ai_sample_rate i) ++ le32 (ai_channels i) ++ le32 (ai_bitrate i)
  ++ le32 (ai_codec_id i) ++ le32 (ai_block_align i)
  ++ le32 (if ai_extradata_size i <=? 512 then ai_extradata_size i else 0).

Lemma asf_bytes_spec i :
  0 ≤ ai_extradata_size i → length (ai_extradata i) = 4096%nat →
  ∃ ext, asf_bytes i = Some (asf_header i ++ ext) ∧ length ext = 512%nat ∧
    (ai_extradata_size i ≤ 512 →
     take (Z.to_nat (ai_extradata_size i)) ext = take (Z.to_nat (ai_extradata_size i)) (ai_extradata i)).
Proof.
  intros Hs Hl. unfold asf_bytes, asf_header. destruct (Z.leb_spec (ai_extradata_size i) 512).
  - assert (zlen (ai_extradata i) = 4096) as Hz by (unfold zlen; by rewrite Hl).
    rewrite slice_some by lia. cbn [mbind option_bind]. rewrite drop_0.
    set (src := take _ _). assert (length src = Z.to_nat (ai_extradata_size i)) as Hsrc.
    { unfold src. rewrite length_take. lia. }
    destruct (splice_fits (replicate 512 0) src) as (ext & Hx & Hlx).
    { unfold zlen. rewrite length_replicate. lia. }
    rewrite Hx. cbn [mbind option_bind]. exists ext. rewrite <- !app_assoc. split_and!; [done|by rewrite Hlx|].
    intros _. by rewrite (take_splice _ _ _ _ _ Hx) by (rewrite Hsrc; lia).
  - exists (replicate 512 0). rewrite <- !app_assoc. split_and!; [done|by rewrite length_replicate|lia].
Qed.

(** The information for the decoder has the extradata of the stream. *)
Definition carries (t : Z) (i : audio_info_t) (size : Z) (ext : list Z) : Prop :=
  let n := ai_extradata_size i in
  if negb (IS_AUDIO_NEED_EXT_INFO t) then size = 0
  else if is_wma t then
    size = 540 ∧ take 28 ext = asf_header i ∧
    (n ≤ 512 → take (Z.to_nat n) (drop 28 ext) = take (Z.to_nat n) (ai_extradata i))
  else if (0 <? n) && (n <=? 4096) then
    size = n ∧ take (Z.to_nat n) ext = take (Z.to_nat n) (ai_extradata i)
  else size = 0.

Lemma splice_head {T} (l xs l' : list T) : splice l 0 xs = Some l' → take (length xs) l' = xs.
Proof. intros Hs. by apply (take_splice _ _ _ _ _ Hs). Qed.

Lemma header_length i : length (asf_header i) = 28%nat.
Proof. done. Qed.

Lemma take_drop_prefix {T} (m n k : nat) (l : list T) : (m + n ≤ k)%nat → take n (drop m (take k l)) = take n (drop m l).
Proof. intros Hk. by rewrite !take_drop_commute, take_take, Nat.min_l by lia. Qed.

Lemma ext_info_carries t i a :
  0 ≤ ai_extradata_size i → length (ai_extradata i) = 4096%nat → length (i_extradata a) = 4096%nat →
  i_extradata_size a = 0 →
  ∃ a', ext_info t i a = Some a' ∧ length (i_extradata a') = 4096%nat ∧
    carries t i (i_extradata_size a') (i_extradata a') ∧
    a' = a <| i_extradata_size := i_extradata_size a' |> <| i_extradata := i_extradata a' |>.
Proof.
  intros Hs Hl Ha Hz. unfold ext_info, carries, is_wma.
  destruct (IS_AUDIO_NEED_EXT_INFO t); cbn [negb]; [|exists a; by destruct a].
  rewrite <- !negb_orb. destruct (_ || _ || _); cbn [negb].
  - destruct (asf_bytes_spec i Hs Hl) as (ext & -> & He & Ht). cbn [mbind option_bind].
    destruct (splice_fits (i_extradata a) (asf_header i ++ ext)) as (x & Hx & Hlx).
    { unfold zlen. rewrite length_app, header_length. lia. }
    rewrite Hx. cbn [mbind option_bind]. eexists. split_and!; [done|cbn; lia|done| | |done].
    + change (take 28 x = asf_header i). apply splice_head in Hx. rewrite <- (take_app_length (asf_header i) ext), header_length, <- Hx.
      by rewrite take_take.
    + intros Hn. change (take (Z.to_nat (ai_extradata_size i)) (drop 28 x) =
        take (Z.to_nat (ai_extradata_size i)) (ai_extradata i)). rewrite <- (Ht Hn). apply splice_head in Hx.
      rewrite <- (drop_app_length (asf_header i) ext), header_length, <- Hx. symmetry. apply take_drop_prefix.
      rewrite length_app, header_length. lia.
  - rewrite Z.gtb_ltb. unfold AUDIO_EXTRA_DATA_SIZE. destruct (_ && _) eqn:E; [|eexists; by split_and!].
    apply andb_true_iff in E as [E1%Z.ltb_lt E2%Z.leb_le].
    assert (zlen (ai_extradata i) = 4096) as Hzl by (unfold zlen; lia).
    rewrite slice_some by lia. cbn [mbind option_bind]. rewrite drop_0.
    destruct (splice_fits (i_extradata a) (take (Z.to_nat (ai_extradata_size i)) (ai_extradata i))) as (x & Hx & Hlx).
    { unfold zlen in *. rewrite length_take. lia. }
    rewrite Hx. cbn [mbind option_bind]. eexists. split_and!; [done|cbn; lia|done| |done]. cbn.
    apply splice_head in Hx. rewrite length_take_le in Hx by lia. done.
Qed.

Lemma carries_prefix t i size ext ext' :
  0 ≤ ai_extradata_size i → carries t i size ext →
  (0 < size ≤ 4096 → take (Z.to_nat size) ext' = take (Z.to_nat size) ext) → carries t i size ext'.
Proof.
  unfold carries. intros Hs Hc Hp. destruct (negb _); [done|]. destruct (is_wma t).
  - destruct Hc as (-> & Hh & He). specialize (Hp ltac:(lia)). split_and!; [done| |].
    + rewrite <- Hh. apply (f_equal (take 28)) in Hp. by rewrite !take_take in Hp.
    + intros Hn. rewrite <- (He Hn), <- (take_drop_prefix _ _ (Z.to_nat 540)), Hp by lia.
      apply take_drop_prefix. lia.
  - destruct (_ && _) eqn:E; [|done]. destruct Hc as [-> Hc].
    apply andb_true_iff in E as [E1%Z.ltb_lt E2%Z.leb_le]. split; [done|]. by rewrite Hp.
Qed.

Lemma copy_extradata_only info a a' : copy_extradata info a = Some a' → a' = a <| extradata := extradata a' |>.
Proof.
  unfold copy_extradata. destruct (_ && _); [|intros [= <-]; by destruct a].
  destruct (slice _ _ _) as [src|]; [|done]. cbn [mbind option_bind].
  destruct (splice _ _ _) as [dst|]; [|done]. by intros [= <-].
Qed.

(** What an instance has of the stream's description. *)
Record describes (c : codec_para_t) (session drop : Z) (a : aml_audio_dec_t) : Prop := {
  ds_rate : samplerate a = audio_samplerate c;
  ds_channels : channels a = audio_channels c;
  ds_format : format a = audio_type c;
  ds_bitrate : bitrate a = ai_bitrate (audio_info c);
  ds_align : block_align a = ai_block_align (audio_info c);
  ds_codec : codec_id a = ai_codec_id (audio_info c);
  ds_handle : amstream_fd (adsp_ops a) = handle c;
  ds_video : has_video a = bit (cp_has_video c);
  ds_mute : auto_mute a = automute_flag c;
  ds_session : SessionID a = session;
  ds_drop : droppcm_flag a = drop;
  ds_dsp : dspdec_not_supported a = u32 (cp_dspdec_not_supported c);
  ds_extra : carries (audio_type c) (audio_info c) (extradata_size a) (extradata a)
}.

Lemma filled_describes c session drop info0 :
  well_formed c →
  info0 = mk_info (audio_samplerate c) (audio_channels c) (audio_type c) (ai_bitrate (audio_info c))
       (ai_block_align (audio_info c)) (ai_codec_id (audio_info c)) (handle c) 0 (replicate 4096 0)
       session (cp_dspdec_not_supported c) drop (automute_flag c) (bit (cp_has_video c)) →
  ∃ info a, ext_info (audio_type c) (audio_info c) info0 = Some info ∧ fill_audec info = Some a ∧
    describes c session drop a.
Proof.
  intros [_ Hl Hs _ _] ->.
  destruct (ext_info_carries (audio_type c) (audio_info c)
    (mk_info (audio_samplerate c) (audio_channels c) (audio_type c) (ai_bitrate (audio_info c))
       (ai_block_align (audio_info c)) (ai_codec_id (audio_info c)) (handle c) 0 (replicate 4096 0)
       session (cp_dspdec_not_supported c) drop (automute_flag c) (bit (cp_has_video c))))
    as (info & Hi & Hli & Hc & Heq); [done|done|apply length_replicate|done|].
  exists info. unfold fill_audec. match goal with |- context [copy_extradata _ ?a] => set (a0 := a) end.
  destruct (copy_extradata_spec info a0 Hli) as (a & Ha & _ & _ & Hp); [done|].
  exists a. split_and!; [done|done|]. pose proof (copy_extradata_only _ _ _ Ha) as Ea.
  assert (extradata_size a = i_extradata_size info) as Hsz by (by rewrite Ea).
  split; try (rewrite Ea; unfold a0; cbn; by rewrite Heq).
  rewrite Hsz. eapply carries_prefix; [done|exact Hc|]. intros Hn. cbv zeta in Hp.
  by rewrite (proj2 (Z.ltb_lt _ _)), (proj2 (Z.leb_le _ _)) in Hp by lia.
Qed.

(** [C24] The description of an audio stream reaches its decoder.  For
    well-formed parameters (an extradata array of 4096 bytes and a size that
    is not negative) the information is built and copied into the new
    instance without leaving an array; the instance has the parameters' rate,
    channels, format, bit rate, block alignment, codec id, device, video,
    mute and decoder-choice flags; its extradata is the stream's for the
    formats that need it and sizes of 1 to 4096, for WMA behind the 28 bytes
    of the header and only when it has at most 512 bytes (a longer one is
    left out), and otherwise there is none.  An instance made by opening gets
    the session of the parameters and no drop flag; one made by resuming gets
    session 0 and, unless the stream is a transport or program stream, the
    drop flag of an audio switch. *)
Theorem audio_info_reaches_decoder c (resumed : bool) :
  well_formed c →
  ∃ info a, (if resumed then resume_ainfo c else init_ainfo c) = Some info ∧ fill_audec info = Some a ∧
    describes c (if resumed then 0 else cp_SessionID c)
      (if resumed && bool_decide (stream_type c ≠ STREAM_TYPE_TS ∧ stream_type c ≠ STREAM_TYPE_PS)
       then switch_audio_flag c else 0) a.
Proof.
  intros Hwf. destruct resumed; cbn [andb]; [|by eapply filled_describes].
  unfold resume_ainfo. cbv zeta.
  replace (if bool_decide _ then switch_audio_flag c else 0) with
    (if switch_audio_flag c =? 0 then 0 else
     match stream_type c with STREAM_TYPE_TS | STREAM_TYPE_PS => 0 | _ => switch_audio_flag c end).
  - by eapply filled_describes.
  - destruct (Z.eqb_spec (switch_audio_flag c) 0) as [->|]; [by destruct (bool_decide _)|].
    destruct (stream_type c); case_bool_decide; naive_solver.
Qed.

Lemma audio_info_reaches_decoder_witness :
  ∃ info a, init_ainfo demo_ts = Some info ∧ fill_audec info = Some a ∧ describes demo_ts 0 0 a.
Proof.
  apply (audio_info_reaches_decoder demo_ts false).
  apply (@bool_decide_unpack _ (well_formed_dec _)). by vm_compute.
Defined.

(** ** Pause and resume *)

Section calls.
Context {KK : Kernel} {DD : DecoderLib}.

(** The instance as the call finds it, after what its thread has done. *)
Definition found (w : cworld) (a : aml_audio_dec_t) : aml_audio_dec_t := dl_env (asked w) a.

(** A command to a live instance changes its pool and nothing else of it. *)
Lemma on_adec_send priv f w a cs :
  priv ≠ NULL → adecs w !! priv = Some a → pool_holds (message_pool (found w a)) cs →
  ∃ pool, on_adec priv (λ h, if negb h then mret (-1) else send_ctrl dl_malloc dl_obs id f) w
      = Some (0, w <| adecs := <[priv := found w a <| message_pool := pool |>]> (adecs w) |> <| asked := S (asked w) |>) ∧
    pool_holds pool (enqueue cs (f zero_cmd)).
Proof.
  intros Hn Ha Hp.
  destruct (send_ctrl_owned dl_malloc dl_obs dl_malloc_ok dl_obs_ok id f (found w a) cs ∅ ctl_upd_id Hp)
    as (r & a' & Hs & [[-> Hr]|(_ & []%dl_room & _)]).
  exists (message_pool a'). split; [|done]. unfold on_adec. rewrite (proj2 (Z.eqb_neq _ _) Hn), Ha. cbn [negb].
  change (dl_env (asked w) a) with (found w a). rewrite Hs. do 5 f_equal.
  rewrite send_ctrl_post in Hs by done. rewrite (proj2 (Z.eqb_neq _ _) (dl_room _)) in Hs.
  destruct (post_message _ _ _ _) as [[r1 pl]|]; [|done]. injection Hs as _ <-. done.
Qed.

(** The video part of a pause. *)
Lemma video_vpause h v w :
  0 ≤ h → h ∈ dom (fds w) →
  let d := (k_ioctl (asked w) h AMSTREAM_IOC_VPAUSE (ArgVal v)).1 in
  control_val h AMSTREAM_IOC_VPAUSE v w =
    Some (if d <? 0 then d else 0,
          w <| asked := S (asked w) |> <| calls := calls w ++ [SIoctl h AMSTREAM_IOC_VPAUSE (ArgVal v)] |>).
Proof.
  intros Hh [dev Hd]%elem_of_dom d. unfold control_val, codec_h_control, sys_ioctl, question, use, mbind, cm_bind.
  rewrite (proj2 (Z.ltb_ge _ _)) by done. cbn. rewrite Hd. subst d.
  by destruct (k_ioctl _ _ _ _) as [r mem].
Qed.

(** [C23] Pausing a codec reaches both of its sides, and so does resuming it.
    For an open codec with audio and video, whose control device is open and
    whose decoder instance has been started, and with memory for the command
    ([dl_room]): the call makes one system call, the pause command with 1 (0
    to resume) on the control device, answers the driver's result, and puts
    one command, a pause (a resume), at the end of the queue of the decoder
    instance, which the decoder's thread serves.  Nothing else changes, of
    the instance or of the library's state. *)
Theorem codec_pause_reaches (resume : bool) p c w a cs :
  ready p c w → p ≠ NULL → has_audio c = true → cp_has_video c = true → 0 ≤ cntl_handle c →
  adec_priv c ≠ NULL → adecs w !! adec_priv c = Some a → pool_holds (message_pool (found w a)) cs →
  let v := if resume then 0 else 1 in
  let d := (k_ioctl (S (asked w)) (cntl_handle c) AMSTREAM_IOC_VPAUSE (ArgVal v)).1 in
  ∃ pool, (if resume then codec_resume p else codec_pause p) w =
      Some (if d <? 0 then d else 0,
            w <| adecs := <[adec_priv c := found w a <| message_pool := pool |>]> (adecs w) |>
              <| asked := S (S (asked w)) |>
              <| calls := calls w ++ [SIoctl (cntl_handle c) AMSTREAM_IOC_VPAUSE (ArgVal v)] |>) ∧
    pool_holds pool (enqueue cs (zero_cmd <| ctrl_cmd := if resume then CMD_RESUME else CMD_PAUSE |>)).
Proof.
  intros Hrd Hp Hau Hvi Hc Hn Ha Hpool v d.
  destruct (on_adec_send (adec_priv c) (λ x, x <| ctrl_cmd := if resume then CMD_RESUME else CMD_PAUSE |>)
              w a cs Hn Ha Hpool) as (pool & Hs & Hq).
  pose (w1 := w <| adecs := <[adec_priv c := found w a <| message_pool := pool |>]> (adecs w) |> <| asked := S (asked w) |>).
  assert (control_val (cntl_handle c) AMSTREAM_IOC_VPAUSE v w1 = Some (if d <? 0 then d else 0,
    w1 <| asked := S (S (asked w)) |>
       <| calls := calls w ++ [SIoctl (cntl_handle c) AMSTREAM_IOC_VPAUSE (ArgVal v)] |>)) as Hv.
  { apply (video_vpause (cntl_handle c) v w1); [done|].
    destruct (rd_fds _ _ _ Hrd (cntl_handle c)) as [?|?]; [unfold handles; set_solver|lia|done]. }
  exists pool. split; [|done]. pose proof (rd_para _ _ _ Hrd) as Hcp.
  destruct resume; unfold codec_resume, codec_pause, audio_resume, audio_pause, video_resume, video_pause, adec_call;
    rewrite (proj2 (Z.eqb_neq _ _) Hp); unfold mbind, cm_bind, para; rewrite Hcp, Hau;
    unfold audio_decode_resume, audio_decode_pause; rewrite Hcp, Hs, Hvi; cbn [codecs set_field];
    (etrans; [|exact Hv]); unfold w1; cbn; by rewrite Hcp.
Qed.

(** Closing a codec whose audio has not started dereferences NULL. *)
Lemma close_without_instance p c w :
  codecs w !! p = Some c → has_audio c = true → adec_priv c = NULL → codec_close p w = None.
Proof.
  intros Hc Hau Hn. unfold codec_close, audio_stop, audio_stop_async, audio_release, on_adec, mbind, cm_bind, para.
  rewrite Hc, Hau, Hc, Hn. cbn. by rewrite Hc, Hn.
Qed.
End calls.

(** *** Concrete calls *)

#[local] Existing Instance demo_kernel.
#[local] Existing Instance demo_lib.

(** A codec with an instance whose queue is empty. *)
Definition playing_para : codec_para_t :=
  demo_ts <| handle := 1 |> <| cntl_handle := 2 |> <| sub_handle := 3 |> <| audio_utils_handle := -1 |> <| adec_priv := 64 |>.
Definition playing : cworld :=
  mk_cw {[ 0 := "stdin"; 1 := CODEC_TS_DEVICE; 2 := CODEC_CNTL_DEVICE; 3 := CODEC_SUB_DEVICE ]}%string [] 1
    {[ 100 := playing_para ]} {[ 64 := zero_audec ]} 0 [].

Lemma playing_ready : ready 100 playing_para playing.
Proof.
  split.
  - done.
  - intros h Hh. unfold handles in Hh. cbn in Hh. unfold usable, playing. cbn [fds].
    rewrite !dom_insert_L. set_solver by lia.
  - right. unfold playing. cbn. set_solver.
  - apply map_Forall_singleton. exists []. apply empty_world_holds.
Qed.

Lemma codec_pause_reaches_witness :
  ∃ pool, codec_pause 100 playing =
      Some (0, playing <| adecs := <[64 := found playing zero_audec <| message_pool := pool |>]> (adecs playing) |>
                 <| asked := 2%nat |> <| calls := [SIoctl 2 AMSTREAM_IOC_VPAUSE (ArgVal 1)] |>) ∧
    pool_holds pool (enqueue [] (zero_cmd <| ctrl_cmd := CMD_PAUSE |>)).
Proof.
  refine (codec_pause_reaches false 100 playing_para playing zero_audec [] _ _ _ _ _ _ _ _).
  - apply playing_ready.
  - done.
  - done.
  - done.
  - done.
  - done.
  - done.
  - apply empty_world_holds.
Defined.

(** A pure subtitle stream is closed twice. *)
Example sub_stream_closed_twice :
  let p := demo_para STREAM_TYPE_ES_SUB false true in
  (λ x, misused x.2) <$> (codec_init 100;; codec_close 100) (demo_process <| codecs := {[ 100 := p <| has_audio := false |> ]} |>)
  = Some [1].
Proof. vm_compute. reflexivity. Qed.

(** An opening that fails after the stream device has opened leaves it open,
    with its descriptor in the parameters. *)
Example failed_init_leaks :
  (λ x, (x.1, map_keys (fds x.2))) <$> codec_init (H := refusing_kernel) 100 (demo_process <| codecs := {[ 100 := demo_ts ]} |>)
  = Some (- CODEC_ERROR_INIT_FAILED, [3; 2; 1; 0]).
Proof. vm_compute. reflexivity. Qed.
