(* ===== verification/DtvPatch.v ===== *)
(** The dtv patch output, LibAudio/amadec/audio_out/dtv_patch_out.c: the calls
    of the audio HAL that open, start, pause and stop it, and its thread,
    which takes PCM data from the decoder instance and hands it to the HAL.

    The file is part of the build without USE_AOUT_IN_ADEC.  A step of the
    thread runs from one call of the outside (a callback of the HAL, the
    decoder's [dsp_read]) to the next; the calls of the HAL and what the
    decoder's threads do to the instance come in between, in any order.
    [dtv_patch_input_stop] is two steps: the state is set with the mutex
    taken, and the mutex is kept until the thread has been joined.
    [dtv_audio_dec_para_get], which takes no mutex, is two steps as well.
    Sleeps, prints, the argument handed to every callback and the description
    of the samples that goes with the data are left out. *)

From S2P Require Import Prelude PcmBuffer MessagePool Audec Rely AdecControl CodecDev Codec CodecCalls.

(** ** Data *)

Inductive dtv_state :=
| DTV_PATCH_STATE_CLODED | DTV_PATCH_STATE_OPENED | DTV_PATCH_STATE_RUNNING
| DTV_PATCH_STATE_PAUSE | DTV_PATCH_STATE_RESUME | DTV_PATCH_STATE_STOPED.

#[export] Instance dtv_state_eq_dec : EqDecision dtv_state.
Proof. solve_decision. Defined.

(** An instance with the fields of this build the file uses.  The pid, the
    demux id and the security level are left out, which [audio_decode_init]
    only copies. *)
Record dtv_inst := mk_inst {
  base : aml_audio_dec_t;
  audio_loopback : Z;
  checkin_discontinue_apts : Z;
  demux_handle : Z;
  associate_dec_supported : Z;
  associate_audio_enable : Z;
  mixing_level : Z;
  ad_pcmscale : Z
}.

#[export] Instance dtv_inst_eta : Eta dtv_inst := λ r,
  mk_inst (base r) (audio_loopback r) (checkin_discontinue_apts r) (demux_handle r)
    (associate_dec_supported r) (associate_audio_enable r) (mixing_level r) (ad_pcmscale r).

(** The callbacks are set or NULL. *)
Record dtv_patch_out := mk_patch {
  dp_audec : Z;
  pcmout_cb : bool;
  status_cb : bool;
  info_cb : bool;
  device_opened : Z;
  dp_state : dtv_state;
  dp_tid : bool
}.

#[export] Instance dtv_patch_out_eta : Eta dtv_patch_out := λ r,
  mk_patch (dp_audec r) (pcmout_cb r) (status_cb r) (info_cb r) (device_opened r) (dp_state r) (dp_tid r).

(** Where the thread is: before the loop's test, before the callbacks on
    mixing, space and level, before [dsp_read], before the callback that takes
    the data, and after its end. *)
Inductive tpc := AtTop | AtMix | AtSpace | AtLevel | AtRead | AtOut | AtEnd.

#[export] Instance tpc_eq_dec : EqDecision tpc.
Proof. solve_decision. Defined.

(** [t_buf] is [decode_buffer] from its aligned start on. *)
Record dtv_thread := mk_thr {
  t_pc : tpc;
  t_audec : Z;
  t_buf : list Z;
  t_len : Z;
  t_offset : Z;
  t_readcount : Z
}.

#[export] Instance dtv_thread_eta : Eta dtv_thread := λ r,
  mk_thr (t_pc r) (t_audec r) (t_buf r) (t_len r) (t_offset r) (t_readcount r).

(** [stopping]: a stop has the mutex and waits for the thread.  [para_ptr]:
    the pointer [dtv_audio_dec_para_get] has read.  [taken] and [heard] are
    the bytes [dsp_read] has delivered and the HAL has accepted since the
    start. *)
Record dworld := mk_dw {
  outparam : dtv_patch_out;
  out_patch_initd : Z;
  stopping : bool;
  insts : gmap Z dtv_inst;
  thr : option dtv_thread;
  para_ptr : option Z;
  asks_made : nat;
  taken : list Z;
  heard : list Z
}.

#[export] Instance dworld_eta : Eta dworld := λ r,
  mk_dw (outparam r) (out_patch_initd r) (stopping r) (insts r) (thr r) (para_ptr r) (asks_made r)
    (taken r) (heard r).

Definition OUTPUT_BUFFER_SIZE : Z := 6144.

Definition ACODEC_FMT_MPEG : Z := 0.
Definition ACODEC_FMT_AAC : Z := 2.
Definition ACODEC_FMT_AC3 : Z := 3.
Definition ACODEC_FMT_DTS : Z := 6.
Definition ACODEC_FMT_AAC_LATM : Z := 19.
Definition ACODEC_FMT_EAC3 : Z := 21.
Definition ACODEC_FMT_DRA : Z := 23.
Definition ACODEC_FMT_TRUEHD : Z := 25.
Definition ACODEC_FMT_MPEG1 : Z := 26.
Definition ACODEC_FMT_MPEG2 : Z := 27.
Definition ACODEC_FMT_AC4 : Z := 29.

Definition is_dolby_format (f : Z) : bool :=
  (f =? ACODEC_FMT_AC3) || (f =? ACODEC_FMT_EAC3) || (f =? ACODEC_FMT_AC4) || (f =? ACODEC_FMT_TRUEHD).

(** The state of the process before the first call. *)
Definition dtv_boot : dworld :=
  mk_dw (mk_patch NULL false false false 0 DTV_PATCH_STATE_CLODED false) 0 false ∅ None None 0 [] [].

(** Without its result. *)
Definition ignoring_d {A} (m : CM dworld A) : CM dworld unit := m;; mret tt.

Section dtv.
Context {DD : DecoderLib}.

Definition set_out (f : dtv_patch_out → dtv_patch_out) : CM dworld unit :=
  cm_modify (λ w, w <| outparam := f (outparam w) |>).
Definition get_state : CM dworld dtv_state := cm_gets (λ w, dp_state (outparam w)).

(** The instance behind a pointer, which must be live. *)
Definition inst (p : Z) : CM dworld dtv_inst := λ w,
  match insts w !! p with Some i => Some (i, w) | None => None end.
Definition set_inst (p : Z) (f : dtv_inst → dtv_inst) : CM dworld unit :=
  i ← inst p; cm_modify (λ w, w <| insts := <[p := f i]> (insts w) |>).

(** A call of adec-external-ctrl.c. *)
Definition on_inst {A} (p : Z) (f : bool → CM aml_audio_dec_t A) : CM dworld A :=
  if p =? NULL then cm_lift (fst <$> f false zero_audec) else
  i ← inst p;
  k ← cm_gets asks_made;
  '(x, a) ← cm_lift (f true (dl_env k (base i)));
  cm_modify (λ w, w <| insts := <[p := i <| base := a |>]> (insts w) |> <| asks_made := S (asks_made w) |>);;
  mret x.

(** ** The calls of the HAL *)

(** The condition of the four queries. *)
Definition queried : CM dworld (option Z) :=
  o ← cm_gets outparam;
  mret (if decide (dp_state o ≠ DTV_PATCH_STATE_STOPED ∧ dp_audec o ≠ NULL) then Some (dp_audec o) else None).

Definition dtv_patch_get_audio_loop : CM dworld Z :=
  q ← queried;
  match q with Some p => i ← inst p; mret (audio_loopback i) | None => mret 0 end.

Definition dtv_patch_get_checkin_discontinue_apts : CM dworld Z :=
  q ← queried;
  match q with Some p => i ← inst p; mret (u64 (checkin_discontinue_apts i)) | None => mret (u64 (-1)) end.

Definition dtv_patch_clear_audio_loop : CM dworld Z :=
  q ← queried;
  match q with
  | Some p => set_inst p (λ i, i <| audio_loopback := 0 |> <| checkin_discontinue_apts := 0 |>);; mret 0
  | None => mret 0
  end.

(** [pts]: the answer of the decoder. *)
Definition dtv_patch_get_pts (pts : Z) : CM dworld Z :=
  q ← queried;
  match q with
  | Some p => i ← inst p; mret (if get_cur_pts (adsp_ops (base i)) then pts else u64 (-1))
  | None => mret (u64 (-1))
  end.

Definition dtv_patch_input_open (handle pcmcb buffercb info : bool) : CM dworld Z :=
  if negb handle || negb pcmcb || negb buffercb then mret (-1) else
  set_out (λ o, o <| pcmout_cb := pcmcb |> <| status_cb := buffercb |> <| info_cb := info |>
                  <| device_opened := 1 |>);;
  mret 0.

Definition with_associate (aformat : Z) : bool :=
  (aformat =? ACODEC_FMT_MPEG) || (aformat =? ACODEC_FMT_MPEG1) || (aformat =? ACODEC_FMT_MPEG2)
  || (aformat =? ACODEC_FMT_AAC) || (aformat =? ACODEC_FMT_AAC_LATM).

(** The result of [audio_decode_init] is not looked at. *)
Definition create_inst (aformat has_video demux supported enable level : Z) : CM dworld unit :=
  w ← cm_get;
  let assoc x := if with_associate aformat then x else 0 in
  cm_modify (λ w, w <| asks_made := S (asks_made w) |>);;
  match dl_create (asks_made w)
          (mk_info 0 0 aformat 0 0 0 (-1) 0 (replicate 4096 0) 0 0 0 0 has_video) with
  | None => mret tt
  | Some a =>
      let p := dl_addr (base <$> insts w) in
      cm_modify (λ w, w <| insts := <[p := mk_inst a 0 0 demux (assoc supported) (assoc enable)
                                                (assoc level) 0]> (insts w) |>);;
      set_out (λ o, o <| dp_audec := p |>)
  end.

(** [created]: whether [pthread_create] makes a thread; its result is not
    looked at either.  [garbage] is the buffer. *)
Definition dtv_patch_input_start (handle : bool) (aformat has_video demux supported enable level : Z)
    (created : bool) (garbage : list Z) : CM dworld Z :=
  if negb handle then mret (-1) else
  w ← cm_get;
  if out_patch_initd w =? 1 then mret (-1) else
  if decide (dp_state (outparam w) = DTV_PATCH_STATE_RUNNING) then mret (-1) else
  set_out (λ o, o <| dp_audec := NULL |> <| dp_state := DTV_PATCH_STATE_RUNNING |>);;
  (if status_cb (outparam w) then mret tt else cm_fail);;
  create_inst aformat has_video demux supported enable level;;
  p ← cm_gets (λ w, dp_audec (outparam w));
  cm_modify (λ w, w <| taken := [] |> <| heard := [] |>
    <| thr := if created then Some (mk_thr AtTop p garbage 0 0 0) else None |>
    <| out_patch_initd := 1 |>);;
  set_out (λ o, o <| dp_tid := created |>);;
  mret 0.

(** The first part of [dtv_patch_input_stop]; [Some] result: it returns. *)
Definition dtv_patch_input_stop_begin (handle : bool) : CM dworld (option Z) :=
  if negb handle then mret (Some (-1)) else
  w ← cm_get;
  if out_patch_initd w =? 0 then mret (Some (-1)) else
  set_out (λ o, o <| dp_state := DTV_PATCH_STATE_STOPED |>);;
  cm_modify (λ w, w <| stopping := true |>);;
  mret None.

(** The part after [pthread_join], which needs a thread that has ended. *)
Definition dtv_patch_input_stop_end : CM dworld Z :=
  w ← cm_get;
  (match thr w with
   | Some t => if decide (t_pc t = AtEnd) then mret tt else cm_fail
   | None => cm_fail
   end);;
  let p := dp_audec (outparam w) in
  on_inst p (audio_decode_stop dl_malloc dl_obs);;
  on_inst p (λ h, audio_decode_release dl_malloc dl_obs (Some h) (dl_join (asks_made w)));;
  cm_modify (λ w, w <| insts := delete p (insts w) |> <| thr := None |>);;
  set_out (λ o, o <| dp_audec := NULL |> <| dp_tid := false |>);;
  cm_modify (λ w, w <| out_patch_initd := 0 |> <| stopping := false |>);;
  mret 0.

Definition dtv_patch_input_stop_dmx (handle : bool) : CM dworld Z :=
  if negb handle then mret (-1) else
  w ← cm_get;
  if out_patch_initd w =? 0 then mret (-1) else
  set_inst (dp_audec (outparam w)) (λ i, i <| demux_handle := NULL |>);;
  mret 0.

Definition dtv_patch_input_pause (handle : bool) : CM dworld Z :=
  if negb handle then mret (-1) else
  o ← cm_gets outparam;
  on_inst (dp_audec o) (audio_decode_pause dl_malloc dl_obs);;
  set_out (λ o, o <| dp_state := DTV_PATCH_STATE_PAUSE |>);;
  mret 0.

Definition dtv_patch_input_resume (handle : bool) : CM dworld Z :=
  if negb handle then mret (-1) else
  o ← cm_gets outparam;
  on_inst (dp_audec o) (audio_decode_resume dl_malloc dl_obs);;
  set_out (λ o, o <| dp_state := DTV_PATCH_STATE_RUNNING |>);;
  mret 0.

Definition dtv_patch_get_decoder_status (ptr : bool) : CM dworld (Z * option Z) :=
  if negb ptr then mret (-1, None) else
  o ← cm_gets outparam;
  '(_, n) ← on_inst (dp_audec o) (λ h, audio_decoder_get_status h ptr);
  mret (0, n).

(** The pointer is read, and the instance looked at later. *)
Definition dtv_audio_dec_para_get_begin : CM dworld unit :=
  cm_modify (λ w, w <| para_ptr := Some (dp_audec (outparam w)) |>).
Definition dtv_audio_dec_para_get_end (ptrs : bool) : CM dworld (Z * option (Z * Z * option Z)) :=
  w ← cm_get;
  p ← cm_lift (para_ptr w);
  cm_modify (λ w, w <| para_ptr := None |>);;
  if p =? NULL then mret (-1, None) else
  if negb ptrs then mret (0, None) else
  i ← inst p;
  mret (0, Some (match adec_ops (base i) with
                 | Some (nch, lfe) => (Audec.samplerate (base i), nch, Some lfe)
                 | None => (Audec.samplerate (base i), Audec.channels (base i), None)
                 end)).

(** ** The thread *)

(** What the outside answers: a number of a callback, three numbers on the
    mixing, the result of [dsp_read] with the bytes it has stored. *)
Inductive answer := ANum (v : Z) | AMix (enable level scale : Z) | ARead (r : Z) (bytes : list Z).

Definition answer_num (a : answer) : CM dworld Z :=
  match a with ANum v => mret v | _ => cm_fail end.

Definition get_thr : CM dworld dtv_thread := λ w,
  match thr w with Some t => Some (t, w) | None => None end.
Definition put_thr (t : dtv_thread) : CM dworld unit := cm_modify (λ w, w <| thr := Some t |>).
Definition goto (pc : tpc) : CM dworld unit := t ← get_thr; put_thr (t <| t_pc := pc |>).

(** [if (state == STOPED) goto exit], otherwise the next round. *)
Definition exit_or_continue : CM dworld unit :=
  s ← get_state; goto (if decide (s = DTV_PATCH_STATE_STOPED) then AtEnd else AtTop).

(** Up to the first callback. *)
Definition loop_top : CM dworld unit :=
  s ← get_state;
  if decide (s = DTV_PATCH_STATE_STOPED) then goto AtEnd else
  if decide (s = DTV_PATCH_STATE_PAUSE) then goto AtTop else
  t ← get_thr;
  (if t_offset t >? 0 then
     src ← cm_lift (slice (t_buf t) (t_offset t) (t_len t));
     buf ← cm_lift (splice (t_buf t) 0 src);
     put_thr (t <| t_buf := buf |>)
   else mret tt);;
  if t_audec t =? NULL then goto AtTop else
  i ← inst (t_audec t);
  if negb (dsp_read (adsp_ops (base i))) then goto AtTop else
  bst ← cm_lift (g_bst (base i));
  if buf_level bst <? 768 then goto AtTop else
  if negb (get_cur_pts (adsp_ops (base i))) then goto AtTop else
  goto (if associate_dec_supported i =? 0 then AtSpace else AtMix).

Definition loop_mix (a : answer) : CM dworld unit :=
  match a with
  | AMix enable level scale =>
      t ← get_thr;
      set_inst (t_audec t) (λ i, i <| associate_audio_enable := enable |> <| mixing_level := level |>
                                   <| ad_pcmscale := scale |>);;
      goto AtSpace
  | _ => cm_fail
  end.

Definition loop_space (a : answer) : CM dworld unit :=
  v ← answer_num a;
  if v <? 4096 then exit_or_continue else goto AtLevel.

(** After the read: the data goes to the callback, or there is none.  All
    that is in the buffer is counted, the rest of an earlier round too. *)
Definition have_data : CM dworld unit :=
  t ← get_thr;
  if t_len t =? 0 then exit_or_continue else
  i ← inst (t_audec t);
  set_inst (t_audec t) (λ i, i <| base := base i <| pcm_bytes_readed := i64 (pcm_bytes_readed (base i) + t_len t) |> |>);;
  w ← cm_get;
  (if Audec.format (base i) =? ACODEC_FMT_DRA then
     match adec_ops (base i) with
     | Some _ => if info_cb (outparam w) then mret tt else cm_fail
     | None => cm_fail
     end
   else mret tt);;
  cm_lift (g_bst (base i));;
  cm_lift (adec_ops (base i));;
  (if pcmout_cb (outparam w) then mret tt else cm_fail);;
  goto AtOut.

Definition loop_level (a : answer) : CM dworld unit :=
  v ← answer_num a;
  t ← get_thr;
  i ← inst (t_audec t);
  let raw := is_dolby_format (Audec.format (base i)) || (Audec.format (base i) =? ACODEC_FMT_DTS) in
  if (v >? 2304) && (t_readcount t <? 25) && raw then
    put_thr (t <| t_offset := 0 |> <| t_readcount := t_readcount t + 1 |>);; have_data
  else goto AtRead.

(** [dsp_read] stores its bytes behind the data. *)
Definition loop_read (a : answer) : CM dworld unit :=
  match a with
  | ARead r bytes =>
      t ← get_thr;
      i ← inst (t_audec t);
      (if dsp_read (adsp_ops (base i)) then mret tt else cm_fail);;
      buf ← cm_lift (splice (t_buf t) (t_len t) bytes);
      len ← cm_lift (int_ok (t_len t + r));
      cm_modify (λ w, w <| taken := taken w ++ bytes |>);;
      put_thr (t <| t_buf := buf |> <| t_len := len |> <| t_offset := 0 |> <| t_readcount := 0 |>);;
      have_data
  | _ => cm_fail
  end.

(** The callback has accepted [r] of the bytes from [t_offset] on. *)
Definition loop_out (a : answer) : CM dworld unit :=
  r ← answer_num a;
  t ← get_thr;
  out ← cm_lift (slice (t_buf t) (t_offset t) (t_len t));
  cm_modify (λ w, w <| heard := heard w ++ take (Z.to_nat r) out |>);;
  s ← get_state;
  if (r =? 0) && bool_decide (s = DTV_PATCH_STATE_STOPED) then goto AtEnd else
  if r >=? 0 then put_thr (t <| t_len := t_len t - r |> <| t_offset := t_offset t + r |> <| t_pc := AtTop |>)
  else put_thr (t <| t_len := 0 |> <| t_offset := 0 |> <| t_pc := AtTop |>).

Definition dtv_patch_out_loop (a : answer) : CM dworld unit :=
  t ← get_thr;
  match t_pc t with
  | AtTop => loop_top
  | AtMix => loop_mix a
  | AtSpace => loop_space a
  | AtLevel => loop_level a
  | AtRead => loop_read a
  | AtOut => loop_out a
  | AtEnd => mret tt
  end.

(** ** Schedules *)

Inductive event :=
| EOpen (handle pcmcb buffercb info : bool)
| EStart (handle : bool) (aformat has_video demux supported enable level : Z) (created : bool) (garbage : list Z)
| EStopBegin (handle : bool)
| EStopEnd
| EStopDmx (handle : bool)
| EPause (handle : bool)
| EResume (handle : bool)
| EGetLoop
| EGetCheckin
| EClearLoop
| EGetPts (pts : Z)
| EGetStatus (ptr : bool)
| EParaBegin
| EParaEnd (ptrs : bool)
| EThread (a : answer)
| EDecoder (f : aml_audio_dec_t → aml_audio_dec_t).

(** The threads of the decoder change the instance. *)
Definition decoder_acts (f : aml_audio_dec_t → aml_audio_dec_t) : CM dworld unit :=
  cm_modify (λ w, w <| insts := (λ i, i <| base := f (base i) |>) <$> insts w |>).

Definition dtv_step (e : event) : CM dworld unit :=
  match e with
  | EOpen h p b i => ignoring_d (dtv_patch_input_open h p b i)
  | EStart h f v d s e l c g => ignoring_d (dtv_patch_input_start h f v d s e l c g)
  | EStopBegin h => ignoring_d (dtv_patch_input_stop_begin h)
  | EStopEnd => ignoring_d dtv_patch_input_stop_end
  | EStopDmx h => ignoring_d (dtv_patch_input_stop_dmx h)
  | EPause h => ignoring_d (dtv_patch_input_pause h)
  | EResume h => ignoring_d (dtv_patch_input_resume h)
  | EGetLoop => ignoring_d dtv_patch_get_audio_loop
  | EGetCheckin => ignoring_d dtv_patch_get_checkin_discontinue_apts
  | EClearLoop => ignoring_d dtv_patch_clear_audio_loop
  | EGetPts v => ignoring_d (dtv_patch_get_pts v)
  | EGetStatus b => ignoring_d (dtv_patch_get_decoder_status b)
  | EParaBegin => dtv_audio_dec_para_get_begin
  | EParaEnd b => ignoring_d (dtv_audio_dec_para_get_end b)
  | EThread a => dtv_patch_out_loop a
  | EDecoder f => decoder_acts f
  end.
End dtv.
