(* ===== verification/DtvSession.v ===== *)
(** Schedules of the dtv patch output (DtvPatch.v): they are safe, a stop
    ends the thread, and no data is lost unless the thread waits after the
    HAL has taken a part. *)

From S2P Require Import Prelude PcmBuffer MessagePool Audec Rely AdecControl CodecDev Codec CodecCalls DtvPatch.

(** ** What the decoder promises *)

(** An instance whose read function is installed has its ring and its codec. *)
Definition sound (a : aml_audio_dec_t) : Prop :=
  dsp_read (adsp_ops a) = true → is_Some (g_bst a) ∧ is_Some (adec_ops a).

(** A change by the decoder's threads while the output runs. *)
Record steady (f : aml_audio_dec_t → aml_audio_dec_t) : Prop := {
  st_pool a : pool_ok ∅ a → pool_ok ∅ (f a);
  st_sound a : sound a → sound (f a);
  st_read a : dsp_read (adsp_ops a) = true → dsp_read (adsp_ops (f a)) = true
}.

Section session.
Context {DD : DecoderLib}.
Context (Hcreate : ∀ k i, length (i_extradata i) = 4096%nat →
                          ∃ a, dl_create k i = Some a ∧ sound a).
Context (Henv : ∀ k, steady (dl_env k)).

Definition ok_inst (i : dtv_inst) : Prop := pool_ok ∅ (base i) ∧ sound (base i).
Definition readable (i : dtv_inst) : Prop := dsp_read (adsp_ops (base i)) = true.

(** The thread is in the middle of a round. *)
Definition inside (pc : tpc) : bool :=
  match pc with AtTop | AtEnd => false | _ => true end.

(** The buffer and the position of the thread. *)
Record thread_ok (i : dtv_inst) (t : dtv_thread) : Prop := {
  to_buf : zlen (t_buf t) = OUTPUT_BUFFER_SIZE;
  to_len : 0 ≤ t_len t;
  to_offset : 0 ≤ t_offset t;
  to_fits : t_offset t + t_len t ≤ OUTPUT_BUFFER_SIZE;
  to_read : inside (t_pc t) = true → readable i;
  to_out : t_pc t = AtOut → t_offset t = 0 ∧ 0 < t_len t
}.

Definition idle_w (w : dworld) : Prop :=
  out_patch_initd w = 0 ∧ insts w = ∅ ∧ thr w = None ∧ dp_audec (outparam w) = NULL ∧ stopping w = false.

Record live_w (i : dtv_inst) (t : dtv_thread) (w : dworld) : Prop := {
  lw_init : out_patch_initd w = 1;
  lw_ptr : t_audec t ≠ NULL;
  lw_same : dp_audec (outparam w) = t_audec t;
  lw_insts : insts w = {[ t_audec t := i ]};
  lw_thr : thr w = Some t;
  lw_inst : ok_inst i;
  lw_thread : thread_ok i t;
  lw_end : t_pc t = AtEnd → stopping w = true;
  lw_stop : stopping w = true ↔ dp_state (outparam w) = DTV_PATCH_STATE_STOPED;
  lw_opened : device_opened (outparam w) = 1
}.

Definition calls_set (w : dworld) : Prop :=
  device_opened (outparam w) = 1 →
  status_cb (outparam w) = true ∧ info_cb (outparam w) = true ∧ pcmout_cb (outparam w) = true.
Definition para_ok (w : dworld) : Prop :=
  ∀ q, para_ptr w = Some q → q = NULL ∨ q = dp_audec (outparam w).

Record dinv (w : dworld) : Prop := {
  dv_calls : calls_set w;
  dv_para : para_ok w;
  dv_run : idle_w w ∨ ∃ i t, live_w i t w
}.

(** ** Rules *)

Lemma cwp_get_thr i t Q w : live_w i t w → Q t w → cwp get_thr Q w.
Proof. intros Hw HQ. unfold cwp, get_thr. by rewrite (lw_thr _ _ _ Hw). Qed.

Lemma cwp_inst i t Q w : live_w i t w → Q i w → cwp (inst (t_audec t)) Q w.
Proof. intros Hw HQ. unfold cwp, inst. by rewrite (lw_insts _ _ _ Hw), lookup_singleton_eq. Qed.

(** A new state of the thread. *)
Lemma live_put_thr i t t' w :
  live_w i t w → t_audec t' = t_audec t → thread_ok i t' → (t_pc t' = AtEnd → stopping w = true) →
  live_w i t' (w <| thr := Some t' |>).
Proof. intros [] Ha Ht He. split; cbn; rewrite ?Ha; done. Qed.

Lemma cwp_put_thr i t t' Q w :
  live_w i t w → t_audec t' = t_audec t → thread_ok i t' → (t_pc t' = AtEnd → stopping w = true) →
  (live_w i t' (w <| thr := Some t' |>) → Q tt (w <| thr := Some t' |>)) → cwp (put_thr t') Q w.
Proof. intros Hw Ha Ht He HQ. unfold put_thr. cwp_steps. apply HQ. by eapply live_put_thr. Qed.

(** A new state of the instance. *)
Lemma live_put_inst i i' t w :
  live_w i t w → ok_inst i' → (readable i → readable i') →
  live_w i' t (w <| insts := <[t_audec t := i']> (insts w) |>).
Proof.
  intros [] Hi Hr. split; cbn; try done.
  - rewrite lw_insts0. apply insert_singleton_eq.
  - destruct lw_thread0. split; auto.
Qed.

(** ** One step of the thread *)

(** The bytes the thread holds: the rest of a round behind what was taken, at
    the start of the buffer once it was moved there. *)
Definition pend (t : dtv_thread) : list Z :=
  match t_pc t with
  | AtTop => take (Z.to_nat (t_len t)) (drop (Z.to_nat (t_offset t)) (t_buf t))
  | _ => take (Z.to_nat (t_len t)) (t_buf t)
  end.

(** The way to the end of the thread once a stop was asked for. *)
Definition rank (pc : tpc) : nat :=
  match pc with AtMix => 6 | AtSpace => 5 | AtLevel => 4 | AtRead => 3 | AtOut => 2 | AtTop => 1 | AtEnd => 0 end.

(** The round is given up although a part of the data was moved. *)
Definition spoils (s : dtv_state) (t t' : dtv_thread) : Prop :=
  t_pc t ≠ AtOut ∧ t_pc t' = AtTop ∧ 0 < t_offset t ∧ 0 < t_len t ∧
  (t_pc t = AtTop → s ≠ DTV_PATCH_STATE_PAUSE).

(** What the outside may answer. *)
Definition answer_ok (t : dtv_thread) (a : answer) : Prop :=
  match t_pc t with
  | AtTop | AtEnd => True
  | AtMix => ∃ x y z, a = AMix x y z
  | AtSpace | AtLevel => ∃ v, a = ANum v
  | AtRead => ∃ bytes, a = ARead (zlen bytes) bytes ∧ t_len t + zlen bytes ≤ OUTPUT_BUFFER_SIZE
  | AtOut => ∃ r, a = ANum r ∧ r ≤ t_len t
  end.

Definition refused (t : dtv_thread) (a : answer) : Prop :=
  t_pc t = AtOut ∧ match a with ANum r => r < 0 | _ => False end.

(** The rest of the world. *)
Definition same_rest (w w' : dworld) : Prop :=
  outparam w' = outparam w ∧ stopping w' = stopping w ∧ para_ptr w' = para_ptr w.

Record moved (t : dtv_thread) (w : dworld) (clean : Prop) (t' : dtv_thread) (w' : dworld) : Prop := {
  mv_live : ∃ i', live_w i' t' w';
  mv_rest : same_rest w w';
  mv_rank : dp_state (outparam w) = DTV_PATCH_STATE_STOPED → t_pc t ≠ AtEnd → (rank (t_pc t') < rank (t_pc t))%nat;
  mv_bytes : ∃ bytes out, taken w' = taken w ++ bytes ∧ heard w' = heard w ++ out ∧
    (t_pc t' = AtEnd → out = []) ∧
    (clean → ¬ spoils (dp_state (outparam w)) t t' → t_pc t' ≠ AtEnd → pend t ++ bytes = out ++ pend t')
}.

(** The post-condition of a piece of the thread's code. *)
Definition moves (t : dtv_thread) (w : dworld) (clean : Prop) (w' : dworld) : Prop :=
  ∃ t', moved t w clean t' w'.

(** A jump after [bytes] were taken. *)
Lemma cwp_goto_bytes i t0 w0 clean t pc bytes w :
  live_w i t w → same_rest w0 w → taken w = taken w0 ++ bytes → heard w = heard w0 →
  (pc = AtEnd → stopping w = true) → (inside pc = true → readable i) →
  (pc = AtOut → t_offset t = 0 ∧ 0 < t_len t) →
  (dp_state (outparam w0) = DTV_PATCH_STATE_STOPED → t_pc t0 ≠ AtEnd → (rank pc < rank (t_pc t0))%nat) →
  (clean → ¬ spoils (dp_state (outparam w0)) t0 (t <| t_pc := pc |>) → pc ≠ AtEnd →
   pend t0 ++ bytes = pend (t <| t_pc := pc |>)) →
  cwp (goto pc) (λ _, moves t0 w0 clean) w.
Proof.
  intros Hw Hs Ht Hh He Hr Ho Hk Hp. unfold goto. cwp_step. eapply cwp_get_thr; [done|].
  eapply cwp_put_thr; [done|done| |done|].
  { destruct (lw_thread _ _ _ Hw). by split. }
  intros Hw'. exists (t <| t_pc := pc |>). split; [by eexists|done|done|].
  exists bytes, []. rewrite !app_nil_r. split_and!; [done..|]. cbn. intros. by apply Hp.
Qed.

(** A jump, when the bytes of the thread stay. *)
Lemma cwp_goto i t0 w0 clean t pc w :
  live_w i t w → same_rest w0 w → taken w = taken w0 → heard w = heard w0 →
  (pc = AtEnd → stopping w = true) → (inside pc = true → readable i) → pc ≠ AtOut →
  (dp_state (outparam w0) = DTV_PATCH_STATE_STOPED → t_pc t0 ≠ AtEnd → (rank pc < rank (t_pc t0))%nat) →
  (clean → ¬ spoils (dp_state (outparam w0)) t0 (t <| t_pc := pc |>) → pc ≠ AtEnd → pend t0 = pend (t <| t_pc := pc |>)) →
  cwp (goto pc) (λ _, moves t0 w0 clean) w.
Proof.
  intros Hw Hs Ht Hh He Hr Ho Hk Hp. eapply (cwp_goto_bytes i t0 w0 clean t pc []); try done.
  - by rewrite app_nil_r.
  - rewrite app_nil_r. done.
Qed.

Lemma same_rest_refl w : same_rest w w.
Proof. done. Qed.
#[local] Hint Resolve same_rest_refl : core.

Lemma pend_none t : t_len t = 0 → pend t = [].
Proof. intros E. unfold pend. rewrite E. by destruct (t_pc t). Qed.

(** The data is moved to the start of the buffer. *)
Lemma cwp_move_data i t Q w :
  live_w i t w →
  (∀ buf, live_w i (t <| t_buf := buf |>) (w <| thr := Some (t <| t_buf := buf |>) |>) →
     take (Z.to_nat (t_len t)) buf = take (Z.to_nat (t_len t)) (drop (Z.to_nat (t_offset t)) (t_buf t)) →
     (t_offset t = 0 → buf = t_buf t) → Q tt (w <| thr := Some (t <| t_buf := buf |>) |>)) →
  cwp (if t_offset t >? 0 then
         src ← cm_lift (slice (t_buf t) (t_offset t) (t_len t));
         buf ← cm_lift (splice (t_buf t) 0 src);
         put_thr (t <| t_buf := buf |>)
       else mret tt) Q w.
Proof.
  intros Hw HQ. pose proof (lw_thread _ _ _ Hw) as [Tb Tl To Tf Tr Tu]. rewrite Z.gtb_ltb.
  destruct (Z.ltb_spec 0 (t_offset t)) as [Hpos|Hz].
  - cwp_step. eapply cwp_lift; [apply slice_some; lia|]. cwp_step.
    set (src := take _ _). assert (length src = Z.to_nat (t_len t)) as Hsrc.
    { unfold src. rewrite length_take, length_drop. unfold zlen in *. lia. }
    destruct (splice (t_buf t) 0 src) as [buf|] eqn:E.
    2:{ rewrite splice_some in E; [done|done|]. unfold zlen in *. lia. }
    eapply cwp_lift; [done|]. pose proof (splice_length _ _ _ _ E) as El.
    eapply cwp_put_thr; [done|done| |apply Hw|].
    { split; cbn; try done. unfold zlen in *. by rewrite El. }
    intros Hw'. apply HQ; [done| |lia]. by rewrite (take_splice _ _ _ _ _ E) by (rewrite Hsrc; lia).
  - cwp_steps. assert (t_offset t = 0) as Hz0 by lia.
    pose proof (lw_thr _ _ _ Hw) as Hth. destruct t as [pc au bf ln off rc], w. cbn in *. subst.
    by apply (HQ bf).
Qed.

Lemma top_moves i t clean w :
  live_w i t w → t_pc t = AtTop → cwp loop_top (λ _, moves t w clean) w.
Proof.
  intros Hw Hpc. unfold loop_top, get_state. cwp_step. cwp_step.
  destruct (decide (dp_state (outparam w) = _)) as [Hst|Hst].
  { eapply cwp_goto; try done; [intros _; by apply (lw_stop _ _ _ Hw)|by rewrite Hpc; cbn; lia]. }
  destruct (decide (dp_state (outparam w) = _)) as [Hpa|Hpa].
  { eapply cwp_goto; try done. intros _ _ _. unfold pend. by rewrite Hpc. }
  cwp_step. eapply cwp_get_thr; [done|]. cwp_step.
  eapply cwp_move_data; [done|]. intros buf Hw1 Hbuf Hz.
  pose (t1 := t <| t_buf := buf |>). fold t1 in Hw1 |- *. pose (w1 := w <| thr := Some t1 |>). fold w1 in Hw1 |- *.
  assert (∀ pc, pc = AtMix ∨ pc = AtSpace → readable i → cwp (goto pc) (λ _, moves t w clean) w1) as Hgo.
  { intros pc Hp Hr. eapply cwp_goto; try done; [by destruct Hp; subst|by destruct Hp; subst|].
    intros _ _ _. unfold pend. rewrite Hpc. cbn. by destruct Hp; subst. }
  assert (cwp (goto AtTop) (λ _, moves t w clean) w1) as Htop.
  { eapply cwp_goto; try done. intros _ Hns _.
    destruct (decide (t_len t = 0)) as [Hl|Hl]; [by rewrite !pend_none|].
    destruct (decide (t_offset t = 0)) as [Ho|Ho].
    - unfold t1. rewrite (Hz Ho). unfold pend. by rewrite Hpc.
    - pose proof (lw_thread _ _ _ Hw) as []. exfalso. apply Hns. unfold spoils. cbn. rewrite Hpc.
      split_and!; [done|done|lia|lia|done]. }
  change (t_audec t) with (t_audec t1). rewrite (proj2 (Z.eqb_neq _ _) (lw_ptr _ _ _ Hw1)). cwp_step.
  eapply (cwp_inst i t1); [done|]. destruct (dsp_read (adsp_ops (base i))) eqn:Hr; cbn [negb]; [|done].
  destruct (proj2 (lw_inst _ _ _ Hw1) Hr) as [[bst Hb] _]. cwp_step. eapply cwp_lift; [exact Hb|].
  destruct (_ <? 768); [done|]. destruct (get_cur_pts _); cbn [negb]; [|done].
  destruct (_ =? 0); apply Hgo; auto.
Qed.

(** The end of the thread, or a new round. *)
Lemma exit_moves i t0 w0 clean t bytes w :
  live_w i t w → same_rest w0 w → taken w = taken w0 ++ bytes → heard w = heard w0 →
  (1 < rank (t_pc t0))%nat →
  (clean → ¬ spoils (dp_state (outparam w0)) t0 (t <| t_pc := AtTop |>) → pend t0 ++ bytes = pend (t <| t_pc := AtTop |>)) →
  cwp exit_or_continue (λ _, moves t0 w0 clean) w.
Proof.
  intros Hw Hs Ht Hh Hk Hp. unfold exit_or_continue, get_state. cwp_step. cwp_step.
  destruct (decide _) as [Hst|Hst].
  - eapply cwp_goto_bytes; try done; [intros _; by apply (lw_stop _ _ _ Hw)|intros; cbn; lia].
  - eapply cwp_goto_bytes; try done; by auto.
Qed.

Lemma cwp_set_inst i t f Q w :
  live_w i t w → ok_inst (f i) → (readable i → readable (f i)) →
  (∀ w', live_w (f i) t w' → same_rest w w' → taken w' = taken w → heard w' = heard w → Q tt w') →
  cwp (set_inst (t_audec t) f) Q w.
Proof.
  intros Hw Hi Hr HQ. unfold set_inst. cwp_step. eapply cwp_inst; [done|]. cwp_steps.
  apply HQ; [|done..]. by apply (live_put_inst i).
Qed.

Lemma mix_moves i t clean a w :
  live_w i t w → t_pc t = AtMix → answer_ok t a → cwp (loop_mix a) (λ _, moves t w clean) w.
Proof.
  intros Hw Hpc Ha. unfold answer_ok in Ha. rewrite Hpc in Ha. destruct Ha as (x & y & z & ->).
  cbn [loop_mix]. cwp_step. eapply cwp_get_thr; [done|]. cwp_step.
  eapply cwp_set_inst; [done|apply (lw_inst _ _ _ Hw)|done|]. intros w' Hw' Hs Ht Hh.
  pose proof (to_read _ _ (lw_thread _ _ _ Hw)) as Hr. rewrite Hpc in Hr.
  eapply cwp_goto; try done.
  - rewrite Hpc. cbn. lia.
  - unfold pend. by rewrite Hpc.
Qed.

Lemma space_moves i t clean a w :
  live_w i t w → t_pc t = AtSpace → answer_ok t a → cwp (loop_space a) (λ _, moves t w clean) w.
Proof.
  intros Hw Hpc Ha. unfold answer_ok in Ha. rewrite Hpc in Ha. destruct Ha as [v ->].
  unfold loop_space. cbn [answer_num]. repeat cwp_step.
  pose proof (lw_thread _ _ _ Hw) as [Tb Tl To Tf Tr Tu]. rewrite Hpc in Tr. destruct (v <? 4096).
  - eapply (exit_moves i t w clean t []); try done; [by rewrite app_nil_r|rewrite Hpc; cbn; lia|].
    intros _ Hns. rewrite app_nil_r. destruct (decide (t_len t = 0)) as [Hl|Hl]; [by rewrite !pend_none|].
    destruct (decide (t_offset t = 0)) as [Ho|Ho].
    + unfold pend. rewrite Hpc. cbn. by rewrite Ho.
    + exfalso. apply Hns. unfold spoils. cbn. rewrite Hpc. split_and!; [done|done|lia|lia|done].
  - eapply cwp_goto; try done.
    + rewrite Hpc. cbn. lia.
    + unfold pend. by rewrite Hpc.
Qed.

(** The data of a round, when the callbacks are set. *)
Lemma data_moves i t0 w0 clean t bytes w :
  live_w i t w → calls_set w → same_rest w0 w → taken w = taken w0 ++ bytes → heard w = heard w0 →
  (2 < rank (t_pc t0))%nat → readable i → t_offset t = 0 →
  pend t0 ++ bytes = take (Z.to_nat (t_len t)) (t_buf t) →
  cwp have_data (λ _, moves t0 w0 clean) w.
Proof.
  intros Hw Hc Hs Ht Hh Hk Hr Ho Hp. unfold have_data. cwp_step. eapply cwp_get_thr; [done|].
  pose proof (to_len _ _ (lw_thread _ _ _ Hw)) as Hl.
  destruct (Z.eqb_spec (t_len t) 0) as [Hz|Hz].
  { eapply exit_moves; try done; [lia|]. intros _ _. rewrite Hp. unfold pend. cbn. by rewrite Ho. }
  cwp_step. eapply cwp_inst; [done|]. cwp_step.
  eapply cwp_set_inst; [done|by destruct (lw_inst _ _ _ Hw); split|done|].
  intros w' Hw' Hs' Ht' Hh'. do 2 cwp_step. destruct (Hc (lw_opened _ _ _ Hw)) as (_ & Hinfo & Hpcm).
  destruct (proj2 (lw_inst _ _ _ Hw) Hr) as [[bst Hb] [ops Hops]].
  apply cwp_bind. rewrite Hops, (proj1 Hs'), Hinfo, Hpcm. destruct (_ =? _).
  all: cwp_step; cwp_step; eapply cwp_lift; [exact Hb|]; cwp_step; eapply cwp_lift; [reflexivity|]; do 2 cwp_step.
  all: eapply (cwp_goto_bytes _ _ _ _ t AtOut bytes); [exact Hw'| | |congruence|done|done|by auto with lia| |by intros].
  all: try (by rewrite Ht').
  all: try (intros _ _; cbn; lia).
  all: destruct Hs as (? & ? & ?), Hs' as (? & ? & ?); split_and!; congruence.
Qed.

Lemma level_moves i t clean a w :
  live_w i t w → calls_set w → t_pc t = AtLevel → answer_ok t a → cwp (loop_level a) (λ _, moves t w clean) w.
Proof.
  intros Hw Hc Hpc Ha. unfold answer_ok in Ha. rewrite Hpc in Ha. destruct Ha as [v ->].
  unfold loop_level. cbn [answer_num]. repeat cwp_step. eapply cwp_get_thr; [done|]. cwp_step.
  eapply cwp_inst; [done|]. pose proof (lw_thread _ _ _ Hw) as [Tb Tl To Tf Tr Tu]. rewrite Hpc in Tr.
  assert (readable i) as Hr by (by apply Tr). destruct (_ && _ && _).
  - cwp_step. eapply cwp_put_thr; [done|done| | |].
    { split; cbn; [done|lia|lia|lia|done|by rewrite Hpc]. }
    { cbn. by rewrite Hpc. }
    intros Hw1. eapply (data_moves i t w clean _ []); [exact Hw1|done|done|by rewrite app_nil_r|done| |done|done|].
    + rewrite Hpc. cbn. lia.
    + rewrite app_nil_r. unfold pend. by rewrite Hpc.
  - eapply cwp_goto; try done.
    + rewrite Hpc. cbn. lia.
    + unfold pend. by rewrite Hpc.
Qed.

Lemma read_moves i t clean a w :
  live_w i t w → calls_set w → t_pc t = AtRead → answer_ok t a → cwp (loop_read a) (λ _, moves t w clean) w.
Proof.
  intros Hw Hc Hpc Ha. unfold answer_ok in Ha. rewrite Hpc in Ha. destruct Ha as (bytes & -> & Hfit).
  cbn [loop_read]. cwp_step. eapply cwp_get_thr; [done|]. cwp_step. eapply cwp_inst; [done|].
  pose proof (lw_thread _ _ _ Hw) as [Tb Tl To Tf Tr Tu]. rewrite Hpc in Tr.
  assert (readable i) as Hr by (by apply Tr). rewrite Hr. do 3 cwp_step.
  destruct (splice (t_buf t) (t_len t) bytes) as [buf|] eqn:E; [|by rewrite splice_some in E by lia].
  eapply cwp_lift; [done|]. pose proof (splice_length _ _ _ _ E) as El. pose proof (zlen_nonneg bytes) as Hz.
  cwp_step. eapply cwp_lift; [apply int_ok_some; unfold INT_MIN, INT_MAX, OUTPUT_BUFFER_SIZE in *; lia|].
  do 3 cwp_step. pose (w1 := w <| taken := taken w ++ bytes |>). fold w1.
  assert (live_w i t w1) as Hw1 by (by destruct Hw).
  eapply cwp_put_thr; [exact Hw1|done| | |].
  { split; cbn; [unfold zlen in *; by rewrite El|lia|lia|lia|done|by rewrite Hpc]. }
  { cbn. by rewrite Hpc. }
  intros Hw2. eapply (data_moves i t w clean _ bytes); [exact Hw2|done|done|done|done| |done|done|].
  - rewrite Hpc. cbn. lia.
  - unfold pend. rewrite Hpc. cbn. symmetry.
    apply (take_splice _ _ _ _ _ E). unfold zlen. lia.
Qed.

Lemma out_moves i t a w :
  live_w i t w → t_pc t = AtOut → answer_ok t a → cwp (loop_out a) (λ _, moves t w (¬ refused t a)) w.
Proof.
  intros Hw Hpc Ha. unfold answer_ok in Ha. rewrite Hpc in Ha. destruct Ha as (r & -> & Hr).
  unfold loop_out. cbn [answer_num]. repeat cwp_step. eapply cwp_get_thr; [done|]. cwp_step.
  pose proof (lw_thread _ _ _ Hw) as [Tb Tl To Tf Tr Tu]. destruct (Tu Hpc) as [Ho Hl].
  eapply cwp_lift; [apply slice_some; lia|]. unfold get_state. repeat cwp_step. cbn [outparam set_field].
  set (out := take _ (take _ _)). pose (w1 := w <| heard := heard w ++ out |>). fold w1.
  assert (live_w i t w1) as Hw1 by (by destruct Hw).
  assert (pend t = take (Z.to_nat (t_len t)) (t_buf t)) as Hpend by (unfold pend; by rewrite Hpc).
  destruct ((r =? 0) && _) eqn:E.
  { apply andb_true_iff in E as [->%Z.eqb_eq Hst%bool_decide_eq_true].
    apply (cwp_goto i t w (¬ refused t (ANum 0)) t AtEnd w1); try done.
    - unfold w1. cbn. by rewrite app_nil_r.
    - intros _. by apply (lw_stop _ _ _ Hw).
    - rewrite Hpc. cbn. lia. }
  assert (∀ len off, 0 ≤ len → 0 ≤ off → off + len ≤ OUTPUT_BUFFER_SIZE →
    (0 ≤ r → len = t_len t - r ∧ off = r) →
    cwp (put_thr (t <| t_len := len |> <| t_offset := off |> <| t_pc := AtTop |>))
      (λ _, moves t w (¬ refused t (ANum r))) w1) as Hput.
  { intros len off H1 H2 H3 Hlo. eapply cwp_put_thr; [exact Hw1|done| |done|].
    { split; by cbn. }
    intros Hw2. eexists. split; [by eexists|done|rewrite Hpc; cbn; lia|].
    exists [], out. rewrite !app_nil_r. split_and!; [done|done|done|]. intros Hnr _ _. rewrite Hpend.
    assert (0 ≤ r) as Hr0 by (destruct (Z.le_gt_cases 0 r); [done|]; exfalso; by apply Hnr; split).
    destruct (Hlo Hr0) as [-> ->]. unfold out, pend. cbn. rewrite Ho, drop_0.
    rewrite take_take, Nat.min_l by lia. replace (Z.to_nat (t_len t)) with (Z.to_nat r + Z.to_nat (t_len t - r))%nat by lia.
    by rewrite take_take_drop. }
  rewrite Z.geb_leb. destruct (Z.leb_spec 0 r); apply Hput; lia.
Qed.

(** ** The thread *)

Lemma thread_moves i t a w :
  live_w i t w → calls_set w → answer_ok t a →
  cwp (dtv_patch_out_loop a) (λ _, moves t w (¬ refused t a)) w.
Proof.
  intros Hw Hc Ha. unfold dtv_patch_out_loop. cwp_step. eapply cwp_get_thr; [done|].
  destruct (t_pc t) eqn:Hpc.
  - by eapply top_moves.
  - by eapply mix_moves.
  - by eapply space_moves.
  - by eapply level_moves.
  - by eapply read_moves.
  - by eapply out_moves.
  - cwp_steps. exists t. split; [by eexists|done|by rewrite Hpc|]. exists [], []. rewrite !app_nil_r.
    split_and!; [done..|]. by rewrite Hpc.
Qed.

(** ** The calls of the HAL *)

(** The calls of adec-external-ctrl.c the output makes keep what it needs; on
    a NULL handle they return. *)
Definition keeps_live {A} (m : CM aml_audio_dec_t A) : Prop :=
  ∀ a, pool_ok ∅ a → sound a →
    cwp m (λ _ a', pool_ok ∅ a' ∧ sound a' ∧ dsp_read (adsp_ops a') = dsp_read (adsp_ops a)) a.
Record keeps {A} (f : bool → CM aml_audio_dec_t A) : Prop := {
  kp_live : keeps_live (f true);
  kp_null : cwp (f false) (λ _ _, True) zero_audec
}.

(** Posting a command changes the pool only. *)
Lemma send_keeps g f :
  ctl_upd g → (∀ a, adsp_ops (g a) = adsp_ops a ∧ g_bst (g a) = g_bst a ∧ adec_ops (g a) = adec_ops a) →
  keeps_live (send_ctrl dl_malloc dl_obs g f).
Proof.
  intros Hg Hsame a Ha Hs. pose proof (send_keeps_pool g f a Hg Ha) as Hk.
  apply cwp_elim in Hk as (r & a' & E & Hp). eapply cwp_intro; [exact E|].
  assert (adsp_ops a' = adsp_ops a ∧ g_bst a' = g_bst a ∧ adec_ops a' = adec_ops a) as (E1 & E2 & E3).
  { pose proof Hg as [[_ _ _ Hgp _] _ Hcomm]. rewrite send_ctrl_post in E by done.
    destruct (post_message _ _ _ _) as [[r1 p]|]; [|done]. injection E as _ <-.
    destruct (_ =? 0); [done|]. apply Hsame. }
  unfold sound. by rewrite E1, E2, E3.
Qed.

Lemma keeps_send f : keeps (λ h, if negb h then mret (-1) else send_ctrl dl_malloc dl_obs id f).
Proof. split; [|done]. intros a Ha Hs. by apply send_keeps; [apply ctl_upd_id|..]. Qed.

Lemma keeps_stop : keeps (audio_decode_stop dl_malloc dl_obs).
Proof.
  split; [|done]. intros a Ha Hs. unfold audio_decode_stop. cbn [negb]. cwp_step. cwp_step. cwp_step.
  pose (a1 := a <| need_stop := 1 |>). fold a1.
  eapply cwp_mono; [|by apply send_keeps; [apply ctl_upd_id|..]].
  intros r a' Ha'. by destruct (r =? -1); cwp_steps.
Qed.

Lemma keeps_release j : keeps_live (audio_decode_release dl_malloc dl_obs (Some true) j).
Proof.
  intros a Ha Hs. unfold audio_decode_release, audio_decode_release_send. cwp_step.
  pose (f := λ c : adec_cmd_t, c <| ctrl_cmd := CMD_RELEASE |>).
  destruct (cwp_elim _ _ _ (send_sent id f a ctl_upd_id Ha)) as (r & a' & E & -> & _).
  destruct (cwp_elim _ _ _ (send_keeps id f ctl_upd_id (λ _, conj eq_refl (conj eq_refl eq_refl)) a Ha Hs))
    as (r & a2 & E2 & H2). unfold f in *. rewrite E in E2. simplify_eq. eapply cwp_intro; [exact E|]. by cwp_steps.
Qed.

Lemma keeps_status ptr : keeps (λ h, audio_decoder_get_status h ptr).
Proof. split; [|done]. intros a Ha Hs. by destruct ptr. Qed.

(** The rest of the world, and the thread, after a call on the instance. *)
Definition same_call (w w' : dworld) : Prop :=
  same_rest w w' ∧ taken w' = taken w ∧ heard w' = heard w.

Lemma cwp_on_inst {A} (f : bool → CM aml_audio_dec_t A) i t Q w :
  live_w i t w → keeps_live (f true) →
  (∀ x i' w', live_w i' t w' → same_call w w' → Q x w') → cwp (on_inst (t_audec t) f) Q w.
Proof.
  intros Hw Hf HQ. unfold on_inst. rewrite (proj2 (Z.eqb_neq _ _) (lw_ptr _ _ _ Hw)).
  cwp_step. eapply cwp_inst; [done|]. do 3 cwp_step.
  destruct (lw_inst _ _ _ Hw) as [Hp Hs]. destruct (Henv (asks_made w)) as [E1 E2 E3].
  destruct (cwp_elim _ _ _ (Hf (dl_env (asks_made w) (base i)) (E1 _ Hp) (E2 _ Hs)))
    as (x & a' & Ef & Hp' & Hs' & Hr').
  eapply cwp_lift; [exact Ef|]. cwp_steps. apply (HQ x (i <| base := a' |>)); [|done].
  assert (live_w (i <| base := a' |>) t (w <| insts := <[t_audec t := i <| base := a' |>]> (insts w) |>)) as Hl.
  { apply (live_put_inst i); [done|done|]. unfold readable. cbn. rewrite Hr'. apply E3. }
  by destruct Hl.
Qed.

Lemma cwp_on_null {A} (f : bool → CM aml_audio_dec_t A) Q w :
  keeps f → (∀ x, Q x w) → cwp (on_inst NULL f) Q w.
Proof.
  intros Hf HQ. unfold on_inst. cbn [Z.eqb NULL]. destruct (cwp_elim _ _ _ (kp_null f Hf)) as (x & a & -> & _).
  eapply cwp_lift; [done|apply HQ].
Qed.

(** A call on the instance in any state of the output. *)
Lemma cwp_on_current {A} (f : bool → CM aml_audio_dec_t A) Q w :
  dinv w → keeps f →
  (∀ x w', dinv w' → same_call w w' → thr w' = thr w → Q x w') →
  cwp (on_inst (dp_audec (outparam w)) f) Q w.
Proof.
  intros [Hc Hpa [Hid|(i & t & Hw)]] Hf HQ.
  - destruct Hid as (Hi1 & Hi2 & Hi3 & Hi4 & Hi5). rewrite Hi4. apply cwp_on_null; [done|]. intros x.
    apply HQ; [|done|done]. split; [done|done|by left].
  - rewrite (lw_same _ _ _ Hw). eapply cwp_on_inst; [done|apply Hf|]. intros x i' w' Hw' Hs.
    apply HQ; [|done|by rewrite (lw_thr _ _ _ Hw'), (lw_thr _ _ _ Hw)].
    destruct Hs as ((Ho & _ & Hpp) & _ & _). split; [|by unfold para_ok; rewrite Hpp, Ho|right; eauto].
    unfold calls_set. by rewrite Ho.
Qed.

(** ** The events *)

(** The order the HAL keeps: the output is opened with all callbacks before it
    is started, no thread is missing, and [dtv_audio_dec_para_get] has
    returned before a stop frees the instance.  The mutex is [stopping]. *)
Definition dlegal (e : event) (w : dworld) : Prop :=
  match e with
  | EOpen _ _ _ info => stopping w = false ∧ info = true
  | EStart _ _ _ _ _ _ _ created garbage =>
      stopping w = false ∧ device_opened (outparam w) = 1 ∧ created = true ∧ zlen garbage = OUTPUT_BUFFER_SIZE
  | EStopEnd => stopping w = true ∧ (t_pc <$> thr w) = Some AtEnd ∧ (para_ptr w = None ∨ para_ptr w = Some NULL)
  | EParaBegin => para_ptr w = None
  | EParaEnd _ => is_Some (para_ptr w)
  | EThread a => ∃ t, thr w = Some t ∧ t_pc t ≠ AtEnd ∧ answer_ok t a
  | EDecoder f => steady f
  | _ => stopping w = false
  end.

(** What an event leaves alone. *)
Definition same_data (w w' : dworld) : Prop :=
  thr w' = thr w ∧ stopping w' = stopping w ∧ taken w' = taken w ∧ heard w' = heard w.

(** A call leaves the thread alone. *)
Definition quiet {A} (m : CM dworld A) (w : dworld) : Prop := cwp m (λ _ w', dinv w' ∧ same_data w w') w.

Lemma quiet_ignoring {A} (m : CM dworld A) w : quiet m w → quiet (ignoring_d m) w.
Proof. intros Hm. unfold quiet, ignoring_d. cwp_step. eapply cwp_mono; [|exact Hm]. intros x w' Hw. by cwp_steps. Qed.

Lemma quiet_mret {A} (x : A) w : dinv w → quiet (mret x) w.
Proof. intros Hw. by split. Qed.

(** New settings of the output. *)
Lemma dinv_set_out f w :
  dinv w → stopping w = false →
  let o := outparam w in let o' := f o in
  dp_audec o' = dp_audec o → dp_state o' = dp_state o ∨ dp_state o' ≠ DTV_PATCH_STATE_STOPED →
  (device_opened o = 1 → device_opened o' = 1) → calls_set (w <| outparam := o' |>) →
  dinv (w <| outparam := o' |>).
Proof.
  cbv zeta. intros [Hc Hp Hr] Hs Ha Hst Ho Hc'. split; [done|unfold para_ok; cbn; by rewrite Ha|].
  destruct Hr as [(?&?&?&?&?)|(i & t & Hw)].
  - left. split_and!; cbn; congruence.
  - right. exists i, t. destruct Hw. split; cbn; try done; [congruence| |auto].
    destruct Hst as [->|Hn]; [done|]. split; congruence.
Qed.

(** A change of the instance. *)
Lemma dinv_set_inst p f w :
  dinv w → dp_audec (outparam w) = p → p ≠ NULL →
  (∀ i, ok_inst i → ok_inst (f i) ∧ (readable i → readable (f i))) → quiet (set_inst p f) w.
Proof.
  intros [Hc Hp [Hi|(i & t & Hw)]] Hq Hn Hf.
  { destruct Hi as (_ & _ & _ & Hi & _). congruence. }
  rewrite (lw_same _ _ _ Hw) in Hq. subst p. destruct (Hf i (lw_inst _ _ _ Hw)) as [Hok Hrd].
  unfold quiet. eapply cwp_set_inst; [done|done|done|]. intros w' Hw' (Ho & Hst & Hpp) Ht Hh.
  split; [|split_and!; try done; by rewrite (lw_thr _ _ _ Hw), (lw_thr _ _ _ Hw')].
  split; [by unfold calls_set; rewrite Ho|by unfold para_ok; rewrite Hpp, Ho|right; eauto].
Qed.

(** The instance a query looks at. *)
Lemma cwp_queried Q w :
  dinv w → (∀ i, dp_audec (outparam w) ≠ NULL → insts w !! dp_audec (outparam w) = Some i → Q (Some (dp_audec (outparam w))) w) →
  Q None w → cwp queried Q w.
Proof.
  intros [_ _ Hr] HQ HN. unfold queried. cwp_step. cwp_step. cwp_step. destruct (decide _) as [[_ Hn]|]; [|done].
  destruct Hr as [(_ & _ & _ & Hi & _)|(i & t & Hw)]; [done|]. apply (HQ i); [done|].
  rewrite (lw_same _ _ _ Hw), (lw_insts _ _ _ Hw). apply lookup_singleton_eq.
Qed.

Lemma cwp_inst_at p i Q w : insts w !! p = Some i → Q i w → cwp (inst p) Q w.
Proof. intros E HQ. unfold cwp, inst. by rewrite E. Qed.

Lemma quiet_query {A} (g : dtv_inst → A) x w :
  dinv w → quiet (q ← queried; match q with Some p => i ← inst p; mret (g i) | None => mret x end) w.
Proof.
  intros Hw. unfold quiet. cwp_step. apply cwp_queried; [done| |by apply quiet_mret].
  intros i _ E. cwp_step. eapply cwp_inst_at; [done|]. by apply quiet_mret.
Qed.

Lemma quiet_clear w : dinv w → quiet dtv_patch_clear_audio_loop w.
Proof.
  intros Hw. unfold quiet, dtv_patch_clear_audio_loop. cwp_step. apply cwp_queried; [done| |by apply quiet_mret].
  intros i Hn E. cwp_step. eapply cwp_mono; [|by apply dinv_set_inst]. intros u w' Hw'. by cwp_steps.
Qed.

Lemma quiet_open h p b w : dinv w → stopping w = false → quiet (dtv_patch_input_open h p b true) w.
Proof.
  intros Hw Hs. unfold dtv_patch_input_open. destruct h, p, b; try by apply quiet_mret. cbn [negb orb].
  unfold quiet, set_out. cwp_steps. split; [|done]. apply dinv_set_out; [done|done|done|by left|done|done].
Qed.

(** Pause and resume. *)
Lemma quiet_call {A} (f : bool → CM aml_audio_dec_t A) st w :
  dinv w → stopping w = false → keeps f → st ≠ DTV_PATCH_STATE_STOPED →
  quiet (o ← cm_gets outparam; on_inst (dp_audec o) f;; set_out (λ o, o <| dp_state := st |>);; mret 0) w.
Proof.
  intros Hw Hs Hf Hst. unfold quiet. do 3 cwp_step. apply cwp_on_current; [done|done|].
  intros x w' Hw' ((Ho & Hss & _) & Ht & Hh) Hthr. unfold set_out. cwp_steps.
  split; [|by split_and!]. apply dinv_set_out; [done|congruence|done|by right|done|exact (dv_calls _ Hw')].
Qed.

Lemma quiet_stop_dmx h w : dinv w → stopping w = false → quiet (dtv_patch_input_stop_dmx h) w.
Proof.
  intros Hw Hs. unfold dtv_patch_input_stop_dmx. destruct h; cbn [negb]; [|by apply quiet_mret].
  unfold quiet. cwp_step. cwp_step. destruct (Z.eqb_spec (out_patch_initd w) 0) as [E|E]; [by apply quiet_mret|].
  cwp_step. assert (dp_audec (outparam w) ≠ NULL) as Hn.
  { destruct (dv_run _ Hw) as [(?&?&?&?&?)|(i & t & Hl)]; [done|]. rewrite (lw_same _ _ _ Hl). apply Hl. }
  eapply cwp_mono; [|by apply dinv_set_inst]. intros u w' Hw'. by cwp_steps.
Qed.

(** The pointer [dtv_audio_dec_para_get] has read. *)
Lemma dinv_para w q :
  dinv w → (∀ p, q = Some p → p = NULL ∨ p = dp_audec (outparam w)) → dinv (w <| para_ptr := q |>).
Proof.
  intros [Hc Hp [Hi|(i & t & Hw)]] Hq; (split; [done|exact Hq|]); [by left|].
  right. exists i, t. by destruct Hw.
Qed.

Lemma quiet_para_end b w : dinv w → is_Some (para_ptr w) → quiet (dtv_audio_dec_para_get_end b) w.
Proof.
  intros Hw [p Hp]. unfold quiet, dtv_audio_dec_para_get_end. do 3 cwp_step. eapply cwp_lift; [exact Hp|]. do 2 cwp_step.
  assert (dinv (w <| para_ptr := None |>)) as Hw' by (by apply dinv_para).
  destruct (Z.eqb_spec p NULL) as [E|E]; [by cwp_steps|]. destruct b; cbn [negb]; [|by cwp_steps].
  destruct (dv_para _ Hw p Hp) as [?| ->]; [done|].
  destruct (dv_run _ Hw) as [(?&?&?&?&?)|(i & t & Hl)]; [done|]. cwp_step. eapply (cwp_inst_at _ i).
  - cbn. rewrite (lw_same _ _ _ Hl), (lw_insts _ _ _ Hl). apply lookup_singleton_eq.
  - by cwp_steps.
Qed.

Lemma quiet_decoder f w : dinv w → steady f → quiet (decoder_acts f) w.
Proof.
  intros [Hc Hp Hr] [F1 F2 F3]. unfold quiet, decoder_acts. cwp_steps. split; [|done]. split; [done|done|].
  destruct Hr as [(?&Hi&?&?&?)|(i & t & Hw)].
  - left. split_and!; cbn; try done. by rewrite Hi, fmap_empty.
  - right. exists (i <| base := f (base i) |>), t. destruct Hw as [? ? ? Hi ? [] Ht ? ? ?]. split; cbn; try done.
    + by rewrite Hi, map_fmap_singleton.
    + split; cbn; auto.
    + destruct Ht. split; try done. unfold readable in *. cbn. auto.
Qed.

(** The instance of a start. *)
Lemma create_inst_ok aformat has_video demux supported enable level Q w :
  insts w = ∅ →
  (∀ p i k, p ≠ NULL → ok_inst i →
     Q tt (w <| insts := {[ p := i ]} |> <| outparam := outparam w <| dp_audec := p |> |> <| asks_made := k |>)) →
  cwp (create_inst aformat has_video demux supported enable level) Q w.
Proof.
  intros He HQ. unfold create_inst, set_out. do 4 cwp_step.
  set (info := mk_info _ _ _ _ _ _ _ _ _ _ _ _ _ _).
  assert (length (i_extradata info) = 4096%nat) as Hx by apply length_replicate.
  destruct (Hcreate (asks_made w) info Hx) as (a & Ea & Hsound). rewrite Ea. clearbody info.
  destruct (dl_addr_ok (base <$> insts w)) as [Hn _]. pose proof (dl_create_ok _ _ _ Hx Ea) as Hpool.
  revert Hn. generalize (dl_addr (base <$> insts w)). intros p Hn. cwp_step. cwp_step. cwp_step.
  cbn. rewrite He, insert_empty. apply HQ; [done|by split].
Qed.

(** A start of an idle output. *)
Record started (w w' : dworld) : Prop := {
  sd_idle : thr w = None;
  sd_thr : ∃ t, thr w' = Some t ∧ t_pc t = AtTop ∧ t_len t = 0;
  sd_stop : stopping w' = false;
  sd_data : taken w' = [] ∧ heard w' = []
}.

Lemma input_start_ok h aformat has_video demux supported enable level garbage w :
  dinv w → stopping w = false → device_opened (outparam w) = 1 → zlen garbage = OUTPUT_BUFFER_SIZE →
  cwp (dtv_patch_input_start h aformat has_video demux supported enable level true garbage)
    (λ r w', dinv w' ∧ (r = 0 ∧ started w w' ∨ r = -1 ∧ w' = w)) w.
Proof.
  intros Hw Hs Ho Hg. unfold dtv_patch_input_start. destruct h; cbn [negb]; [|cwp_steps; by auto].
  cwp_step. cwp_step. destruct (Z.eqb_spec (out_patch_initd w) 1) as [E|E]; [cwp_steps; by auto|].
  destruct (decide _) as [Er|Er]; [cwp_steps; by auto|].
  destruct (dv_run _ Hw) as [(Hi1&Hi2&Hi3&Hi4&Hi5)|(i & t & Hl)]; [|by destruct (E (lw_init _ _ _ Hl))].
  destruct (dv_calls _ Hw Ho) as (Hc1 & Hc2 & Hc3). unfold set_out. cwp_step. cwp_step. cwp_step.
  rewrite Hc1. cwp_step. cwp_step. apply create_inst_ok; [done|]. intros p i k Hn Hi. cbn.
  do 7 cwp_step. cbn. split; [|left; split; [done|split; eauto]]. split; [done| |].
  { intros q Hq. left. destruct (dv_para _ Hw q Hq); congruence. }
  right. exists i, (mk_thr AtTop p garbage 0 0 0). split; cbn; try done. by rewrite Hi5.
Qed.

Lemma quiet_status ptr w : dinv w → quiet (dtv_patch_get_decoder_status ptr) w.
Proof.
  intros Hw. unfold dtv_patch_get_decoder_status. destruct ptr; cbn [negb]; [|by apply quiet_mret].
  unfold quiet. do 3 cwp_step. apply cwp_on_current; [done|apply keeps_status|].
  intros [r n] w' Hw' ((_ & Hs & _) & Ht & Hh) Hthr. cwp_steps. split; [done|by split_and!].
Qed.

Lemma stop_begin_ok h w :
  dinv w → stopping w = false →
  cwp (dtv_patch_input_stop_begin h)
    (λ _ w', dinv w' ∧ thr w' = thr w ∧ taken w' = taken w ∧ heard w' = heard w) w.
Proof.
  intros Hw Hs. unfold dtv_patch_input_stop_begin. destruct h; cbn [negb]; [|by cwp_steps].
  cwp_step. cwp_step. destruct (Z.eqb_spec (out_patch_initd w) 0) as [E|E]; [by cwp_steps|].
  destruct (dv_run _ Hw) as [(?&?)|(i & t & Hl)]; [done|]. unfold set_out. cwp_steps. split; [|done].
  destruct Hw as [Hc Hp _]. split; [done|done|]. right. exists i, t. by destruct Hl.
Qed.

(** What is left of a stopped output. *)
Record stopped (w w' : dworld) : Prop := {
  sp_idle : idle_w w';
  sp_data : taken w' = taken w ∧ heard w' = heard w
}.

Lemma stop_end_ok w :
  dinv w → dlegal EStopEnd w →
  cwp dtv_patch_input_stop_end (λ r w', dinv w' ∧ stopped w w' ∧ r = 0) w.
Proof.
  intros Hw (Hs & Ht & Hpp). unfold dtv_patch_input_stop_end. cwp_step. cwp_step.
  destruct (dv_run _ Hw) as [(?&?&Hn&?)|(i & t & Hl)]; [by rewrite Hn in Ht|].
  rewrite (lw_thr _ _ _ Hl) in Ht |- *. injection Ht as Ht. rewrite Ht, decide_True by done. cwp_step. cwp_step.
  cwp_step. rewrite (lw_same _ _ _ Hl). eapply cwp_on_inst; [done|apply keeps_stop|].
  intros x i1 w1 Hl1 (Hs1 & Ht1 & Hh1). cwp_step.
  eapply cwp_on_inst; [done|apply keeps_release|]. intros y i2 w2 Hl2 (Hs2 & Ht2 & Hh2). unfold set_out.
  do 7 cwp_step. destruct Hs1 as (Ho1 & _ & Hp1), Hs2 as (Ho2 & _ & Hp2).
  assert (∀ w', outparam w' = outparam w2 <| dp_audec := NULL |> <| dp_tid := false |> →
    para_ptr w' = para_ptr w → idle_w w' → dinv w') as Hd.
  { intros w' Ho' Hp' Hi. split; [|unfold para_ok|by left].
    - unfold calls_set. rewrite Ho', Ho2, Ho1. exact (dv_calls _ Hw).
    - rewrite Hp', Ho'. intros q Hq. left. destruct Hpp; congruence. }
  split_and!; [apply Hd; [done|cbn; congruence|]|split; [|cbn; split; congruence]|done].
  all: split_and!; cbn; try done; by rewrite (lw_insts _ _ _ Hl2), delete_singleton_eq.
Qed.

(** What an event does to the thread and the data. *)
Definition effect (e : event) (w w' : dworld) : Prop :=
  match e with
  | EThread a => ∃ t t', thr w = Some t ∧ moved t w (¬ refused t a) t' w'
  | EStart _ _ _ _ _ _ _ _ _ => started w w' ∨ w' = w
  | EStopBegin _ => thr w' = thr w ∧ taken w' = taken w ∧ heard w' = heard w
  | EStopEnd => stopped w w'
  | _ => same_data w w'
  end.

Lemma thread_ok_step a w :
  dinv w → dlegal (EThread a) w → cwp (dtv_patch_out_loop a) (λ _ w', dinv w' ∧ effect (EThread a) w w') w.
Proof.
  intros [Hc Hp Hr] (t & Ht & _ & Ha). destruct Hr as [(?&?&?&?&?)|(i & t1 & Hl)]; [congruence|].
  assert (t1 = t) as -> by (rewrite (lw_thr _ _ _ Hl) in Ht; congruence).
  eapply cwp_mono; [|by eapply thread_moves]. intros _ w' (t' & Hm). split; [|by exists t, t'].
  destruct (mv_live _ _ _ _ _ Hm) as [i' Hl']. destruct (mv_rest _ _ _ _ _ Hm) as (Ho & _ & Hpp).
  split; [by unfold calls_set; rewrite Ho|by unfold para_ok; rewrite Hpp, Ho|right; eauto].
Qed.

(** ** Every legal event runs *)

Lemma step_ok e w : dinv w → dlegal e w → cwp (dtv_step e) (λ _ w', dinv w' ∧ effect e w w') w.
Proof.
  intros Hw Hl. destruct e; cbn [dtv_step]; try (cbn [dlegal] in Hl; apply quiet_ignoring).
  - destruct Hl as [Hs ->]. by apply quiet_open.
  - destruct Hl as (Hs & Ho & -> & Hg). unfold ignoring_d. cwp_step. eapply cwp_mono; [|by apply input_start_ok].
    intros r w' [Hd Hr]. cwp_steps. split; [done|]. cbn. naive_solver.
  - unfold ignoring_d. cwp_step. eapply cwp_mono; [|by apply stop_begin_ok]. intros r w' Hd. by cwp_steps.
  - unfold ignoring_d. cwp_step. eapply cwp_mono; [|by apply stop_end_ok]. intros r w' (Hd & Hst & _). by cwp_steps.
  - by apply quiet_stop_dmx.
  - destruct handle; [|by apply quiet_mret].
    by apply (quiet_call _ DTV_PATCH_STATE_PAUSE); [..|apply keeps_send|].
  - destruct handle; [|by apply quiet_mret].
    by apply (quiet_call _ DTV_PATCH_STATE_RUNNING); [..|apply keeps_send|].
  - by apply (quiet_query audio_loopback).
  - by apply (quiet_query (λ i, u64 (checkin_discontinue_apts i))).
  - by apply quiet_clear.
  - by apply (quiet_query (λ i, if get_cur_pts (adsp_ops (base i)) then pts else u64 (-1))).
  - by apply quiet_status.
  - split; [|done]. apply dinv_para; [done|]. intros p [= <-]. by right.
  - by apply quiet_para_end.
  - by apply thread_ok_step.
  - by apply quiet_decoder.
Qed.

(** ** Schedules *)

Definition dtrans (e : event) (w w' : dworld) : Prop := dlegal e w ∧ dtv_step e w = Some (tt, w').

Inductive druns : list event → dworld → dworld → Prop :=
| druns_nil w : druns [] w w
| druns_snoc es e w w1 w2 : druns es w w1 → dtrans e w1 w2 → druns (es ++ [e]) w w2.

(** The worlds the output can be in. *)
Definition dreach (w : dworld) : Prop := ∃ es, druns es dtv_boot w.

Lemma trans_ok e w w' : dinv w → dtrans e w w' → dinv w' ∧ effect e w w'.
Proof.
  intros Hw [Hl Hs]. pose proof (step_ok e w Hw Hl) as H1. unfold cwp in H1. by rewrite Hs in H1.
Qed.

Lemma boot_dinv : dinv dtv_boot.
Proof. split; [done|done|by left]. Qed.

Lemma druns_dinv es w w' : dinv w → druns es w w' → dinv w'.
Proof. intros Hw. induction 1 as [|es e w w1 w2 _ IH Ht]; [done|]. by eapply trans_ok; [apply IH|]. Qed.

Lemma dreach_dinv w : dreach w → dinv w.
Proof. intros [es Hr]. eapply druns_dinv; [apply boot_dinv|done]. Qed.

Lemma dinv_thr w t : dinv w → thr w = Some t → ∃ i, live_w i t w.
Proof.
  intros [_ _ [(?&?&?&?&?)|(i & t' & Hl)]] Ht; [congruence|]. exists i.
  by rewrite (lw_thr _ _ _ Hl) in Ht; injection Ht as ->.
Qed.

(** [C15] The dtv patch output never crashes when its HAL keeps to these rules
    and its system serves it: the output is opened with all callbacks,
    [info_cb] too, before it is started; every creation of a decoder and of
    the thread succeeds, and the decoder installs its read function only with
    its ring and codec; [dtv_audio_dec_para_get] has returned before a stop
    frees the instance; a read delivers between 0 and the asked number of
    bytes and the HAL accepts at most what it is given ([dlegal], [steady],
    the creation hypothesis); and there is memory for commands.  Then in
    every world that calls of the HAL, steps of the thread and changes by the
    decoder lead to, in any order that keeps the rules, every legal event
    runs; an output that is not started has no thread and no instance, a
    started one has one instance, the thread's, and the thread's data lies
    within its buffer. *)
Theorem dtv_session_safe w e :
  dreach w → dlegal e w →
  (∃ w', dtv_step e w = Some (tt, w')) ∧
  (out_patch_initd w = 0 → insts w = ∅ ∧ thr w = None) ∧
  (out_patch_initd w ≠ 0 → ∃ t i, thr w = Some t ∧ insts w = {[ t_audec t := i ]} ∧
     dp_audec (outparam w) = t_audec t ∧ zlen (t_buf t) = OUTPUT_BUFFER_SIZE ∧
     0 ≤ t_offset t ∧ 0 ≤ t_len t ∧ t_offset t + t_len t ≤ OUTPUT_BUFFER_SIZE).
Proof.
  intros Hw%dreach_dinv Hl. split_and!.
  - destruct (cwp_elim _ _ _ (step_ok e w Hw Hl)) as ([] & w' & E & _). eauto.
  - intros H0. destruct (dv_run _ Hw) as [(?&?&?&?&?)|(i & t & Hv)]; [done|]. by rewrite (lw_init _ _ _ Hv) in H0.
  - intros H0. destruct (dv_run _ Hw) as [(?&?)|(i & t & [? ? ? ? ? ? [] ? ? ?])]; [done|].
    exists t, i. by split_and!.
Qed.

(** ** The end of a stop *)

Definition is_thread (e : event) : bool := match e with EThread _ => true | _ => false end.
Definition thread_steps (es : list event) : nat := length (filter is_thread es).

Lemma thread_steps_snoc es e : thread_steps (es ++ [e]) = (thread_steps es + if is_thread e then 1 else 0)%nat.
Proof. unfold thread_steps. rewrite filter_app, length_app. by destruct e. Qed.

(** While a stop waits, the thread gets nearer to its end with every step of
    its own, and nothing else moves it. *)
Lemma stopping_step e w w' t :
  dinv w → stopping w = true → thr w = Some t → e ≠ EStopEnd → dtrans e w w' →
  stopping w' = true ∧ ∃ t', thr w' = Some t' ∧
    (rank (t_pc t') + (if is_thread e then 1 else 0) ≤ rank (t_pc t))%nat.
Proof.
  intros Hw Hs Ht Hne Htr. destruct (trans_ok _ _ _ Hw Htr) as [Hw' He]. destruct Htr as [Hl _].
  destruct (dinv_thr _ _ Hw Ht) as [i Hv]. pose proof (proj1 (lw_stop _ _ _ Hv) Hs) as Hst.
  destruct e; cbn [effect dlegal is_thread] in *; try done; try (exfalso; first [congruence|destruct Hl; congruence]).
  all: try (destruct He as (E1 & E2 & _); rewrite E1, E2; split; [done|]; exists t; split; [done|lia]).
  destruct He as (t0 & t' & E0 & [(i' & Hv') Hr Hk _]). assert (t0 = t) as -> by congruence.
  destruct Hr as (_ & Hs' & _). rewrite Hs'. split; [done|]. exists t'. split; [apply Hv'|].
  destruct Hl as (t1 & E1 & Hn & _). assert (t1 = t) as -> by congruence. specialize (Hk Hst Hn). lia.
Qed.

Lemma stopping_runs es w w' t :
  druns es w w' → dinv w → stopping w = true → thr w = Some t → EStopEnd ∉ es →
  stopping w' = true ∧ ∃ t', thr w' = Some t' ∧ (rank (t_pc t') + thread_steps es ≤ rank (t_pc t))%nat.
Proof.
  induction 1 as [w|es e w w1 w2 Hr IH Htr]; intros Hw Hs Ht Hn.
  { split; [done|]. exists t. split; [done|]. cbn. lia. }
  rewrite not_elem_of_app, list_elem_of_singleton in Hn. destruct Hn as [Hn1 Hn2].
  destruct (IH Hw Hs Ht Hn1) as (Hs1 & t1 & Ht1 & Hle1).
  destruct (stopping_step e w1 w2 t1) as (Hs2 & t2 & Ht2 & Hle2); [by eapply druns_dinv|done..|].
  split; [done|]. exists t2. split; [done|]. rewrite thread_steps_snoc. lia.
Qed.

(** An answer the outside can give. *)
Lemma answer_exists i t : thread_ok i t → ∃ a, answer_ok t a.
Proof.
  intros [Hb Hl Ho Hf _ Hou]. unfold answer_ok. destruct (t_pc t).
  - by exists (ANum 0).
  - by exists (AMix 0 0 0), 0, 0, 0.
  - exists (ANum 0). by exists 0.
  - exists (ANum 0). by exists 0.
  - exists (ARead 0 []). exists []. split; [done|]. unfold zlen. cbn [length]. lia.
  - exists (ANum 0). by exists 0.
  - by exists (ANum 0).
Qed.

(** [C17] A stop returns, under the rules of [dlegal] and [steady] and when
    every creation succeeds: from the moment it has set the state, the thread
    can make at most six more steps, whatever the HAL answers and whatever calls
    come in between; until its end a next step is possible, and once it has
    ended the stop joins it, releases the instance and leaves the output as it
    was before the start. *)
Theorem dtv_stop_returns es w w' :
  dreach w → stopping w = true → druns es w w' → EStopEnd ∉ es →
  (thread_steps es ≤ 6)%nat ∧
  ∃ t', thr w' = Some t' ∧
    (t_pc t' ≠ AtEnd → ∃ a w'', dtrans (EThread a) w' w'') ∧
    (t_pc t' = AtEnd → para_ptr w' = None →
     ∃ w'', dtv_patch_input_stop_end w' = Some (0, w'') ∧ idle_w w'' ∧ taken w'' = taken w' ∧ heard w'' = heard w').
Proof.
  intros Hw%dreach_dinv Hs Hr Hn. pose proof (druns_dinv _ _ _ Hw Hr) as Hw'.
  assert (∃ t, thr w = Some t ∧ (rank (t_pc t) ≤ 6)%nat) as (t & Ht & H6).
  { destruct (dv_run _ Hw) as [(?&?&?&?&?)|(i & t & Hv)]; [congruence|]. exists t.
    split; [apply Hv|]. destruct (t_pc t); cbn; lia. }
  destruct (stopping_runs _ _ _ _ Hr Hw Hs Ht Hn) as (Hs' & t' & Ht' & Hle). split; [lia|]. exists t'.
  destruct (dinv_thr _ _ Hw' Ht') as [i Hv]. split_and!; [done|intros He|intros He Hp].
  - destruct (answer_exists i t' (lw_thread _ _ _ Hv)) as [a Ha]. exists a.
    assert (dlegal (EThread a) w') as Hl by (by exists t').
    destruct (cwp_elim _ _ _ (step_ok _ _ Hw' Hl)) as ([] & w'' & E & _). by exists w''.
  - assert (dlegal EStopEnd w') as Hl by (split_and!; [done|by rewrite Ht'; cbn; rewrite He|by left]).
    destruct (cwp_elim _ _ _ (stop_end_ok _ Hw' Hl)) as (r & w'' & E & _ & [Hi [Hta Hhe]] & ->). by exists w''.
Qed.

(** ** The data *)

(** The HAL refuses no block, and no round is given up while a part of a
    block is left. *)
Definition cleanly (e : event) (w w' : dworld) : Prop :=
  match e with
  | EThread a => ∀ t t', thr w = Some t → thr w' = Some t' →
      (¬ refused t a) ∧ ¬ spoils (dp_state (outparam w)) t t'
  | _ => True
  end.

Definition in_order (w : dworld) : Prop :=
  heard w `prefix_of` taken w ∧
  ∀ t, thr w = Some t → t_pc t ≠ AtEnd → taken w = heard w ++ pend t.

Lemma in_order_same w w' :
  in_order w → thr w' = thr w → taken w' = taken w → heard w' = heard w → in_order w'.
Proof. unfold in_order. by intros Hw -> -> ->. Qed.

Lemma in_order_thread a w w' :
  dlegal (EThread a) w → in_order w → effect (EThread a) w w' → cleanly (EThread a) w w' → in_order w'.
Proof.
  intros (t & Ht & Hne & _) [Hp Ho] (t0 & t' & Ht0 & [(i' & Hv') _ _ Hb]) Hc.
  assert (t0 = t) as -> by congruence. destruct Hb as (bytes & out & Et & Eh & Hend & Hkeep).
  pose proof (lw_thr _ _ _ Hv') as Ht'. destruct (Hc t t' Ht Ht') as [Hnr Hns]. specialize (Ho t Ht Hne).
  destruct (decide (t_pc t' = AtEnd)) as [He|He].
  - split; [|intros t1 E1 H1; congruence]. rewrite Et, Eh, (Hend He), app_nil_r. by apply prefix_app_r.
  - specialize (Hkeep Hnr Hns He).
    assert (taken w' = heard w' ++ pend t') as E by (by rewrite Et, Eh, Ho, <- !app_assoc, Hkeep).
    split; [by eexists|]. intros t1 E1 _. by assert (t1 = t') as -> by congruence.
Qed.

Lemma in_order_step e w w' : dinv w → in_order w → dtrans e w w' → cleanly e w w' → in_order w'.
Proof.
  intros Hw Ho Htr Hc. destruct (trans_ok _ _ _ Hw Htr) as [_ He]. destruct Htr as [Hl _].
  destruct e; cbn [effect] in He; try (destruct He as (?&?&?&?); by eapply in_order_same).
  - destruct He as [[_ (t & Ht & Hpc & Hz) _ [E1 E2]]| ->]; [|done]. unfold in_order. rewrite E1, E2. split; [done|].
    intros t1 Ht1 _. assert (t1 = t) as -> by congruence. by rewrite pend_none.
  - destruct He as (?&?&?). by eapply in_order_same.
  - destruct He as [(_&_&Hn&_) [E1 E2]]. unfold in_order. rewrite E1, E2, Hn. by split; [apply Ho|].
  - by eapply in_order_thread.
Qed.

(** [C16] The dtv patch output delivers what the decoder gave it: under the
    rules of [dlegal] and [steady], and as long as the HAL refuses no block
    and no round is given up with a part of a block left over, the bytes the HAL has accepted since the start are the bytes
    taken from the decoder, in order and each once, less those the thread
    holds in its buffer; after a stop they are a prefix of them. *)
Theorem dtv_lossless w :
  rtc (λ w w', ∃ e, dtrans e w w' ∧ cleanly e w w') dtv_boot w →
  heard w `prefix_of` taken w ∧
  ∀ t, thr w = Some t → t_pc t ≠ AtEnd → taken w = heard w ++ pend t.
Proof.
  intros Hr. enough (dinv w ∧ in_order w) as [_ Ho] by exact Ho. revert w Hr.
  refine (rtc_ind_r _ _ _ _); [split; [apply boot_dinv|by split]|].
  intros w1 w2 _ (e & Htr & Hc) [Hd Ho]. split; [by eapply trans_ok|by eapply in_order_step].
Qed.
End session.
