(* ===== verification/DtvRuns.v ===== *)
(** Concrete schedules of the dtv patch output (DtvPatch.v, DtvSession.v):
    schedules that are checked while they run, a decoder library that answers
    in a fixed way, witnesses, and behaviours of the code worth knowing. *)

From S2P Require Import Prelude PcmBuffer MessagePool Audec Rely AdecControl CodecDev Codec CodecCalls DtvPatch DtvSession.

(** ** Schedules that run *)

#[export] Instance refused_dec t a : Decision (refused t a).
Proof. unfold refused. destruct a; apply _. Defined.
#[export] Instance spoils_dec s t t' : Decision (spoils s t t').
Proof. unfold spoils. apply _. Defined.

Definition answer_okb (t : dtv_thread) (a : answer) : bool :=
  match t_pc t, a with
  | (AtTop | AtEnd), _ | AtMix, AMix _ _ _ | (AtSpace | AtLevel), ANum _ => true
  | AtRead, ARead r bytes => (r =? zlen bytes) && (t_len t + zlen bytes <=? OUTPUT_BUFFER_SIZE)
  | AtOut, ANum r => r <=? t_len t
  | _, _ => false
  end.

Lemma answer_okb_sound t a : answer_okb t a = true → answer_ok t a.
Proof.
  unfold answer_okb, answer_ok. destruct (t_pc t), a; try done; eauto.
  - intros [->%Z.eqb_eq Hle%Z.leb_le]%andb_true_iff. eauto.
  - intros Hle%Z.leb_le. eauto.
Qed.

(** The schedules without changes by the decoder. *)
Definition dlegalb (e : event) (w : dworld) : bool :=
  match e with
  | EOpen _ _ _ info => negb (stopping w) && info
  | EStart _ _ _ _ _ _ _ created garbage =>
      negb (stopping w) && (device_opened (outparam w) =? 1) && created && (zlen garbage =? OUTPUT_BUFFER_SIZE)
  | EStopEnd => stopping w && bool_decide ((t_pc <$> thr w) = Some AtEnd) && bool_decide (para_ptr w = None)
  | EParaBegin => bool_decide (para_ptr w = None)
  | EParaEnd _ => bool_decide (is_Some (para_ptr w))
  | EThread a => match thr w with Some t => bool_decide (t_pc t ≠ AtEnd) && answer_okb t a | None => false end
  | EDecoder _ => false
  | _ => negb (stopping w)
  end.

Lemma dlegalb_sound e w : dlegalb e w = true → dlegal e w.
Proof.
  destruct e; cbn [dlegalb dlegal]; rewrite ?andb_true_iff, ?negb_true_iff, ?bool_decide_eq_true, ?Z.eqb_eq; try tauto; try done.
  destruct (thr w) as [t|]; [|done]. rewrite andb_true_iff, bool_decide_eq_true. intros [Hn Ha].
  eauto using answer_okb_sound.
Qed.

Section run.
Context {DD : DecoderLib}.

Definition cleanb (e : event) (w w' : dworld) : bool :=
  match e, thr w, thr w' with
  | EThread a, Some t, Some t' =>
      bool_decide (¬ refused t a) && bool_decide (¬ spoils (dp_state (outparam w)) t t')
  | _, _, _ => true
  end.

Lemma cleanb_sound e w w' : cleanb e w w' = true → cleanly e w w'.
Proof.
  destruct e; try done. unfold cleanb, cleanly. intros H t t' E E'. rewrite E, E', andb_true_iff, !bool_decide_eq_true in H.
  done.
Qed.

(** Legal events in sequence, clean ones if [c]. *)
Fixpoint drun (c : bool) (es : list event) (w : dworld) : option dworld :=
  match es with
  | [] => Some w
  | e :: es =>
      if dlegalb e w then
        match dtv_step e w with
        | Some (_, w') => if negb c || cleanb e w w' then drun c es w' else None
        | None => None
        end
      else None
  end.

Lemma drun_druns c es es0 w0 w w' : druns es0 w0 w → drun c es w = Some w' → druns (es0 ++ es) w0 w'.
Proof.
  revert es0 w. induction es as [|e es IH]; intros es0 w Hr; cbn.
  { intros [= <-]. by rewrite app_nil_r. }
  destruct (dlegalb e w) eqn:El; [|done]. destruct (dtv_step e w) as [[[] w1]|] eqn:Es; [|done].
  destruct (_ || _); [|done]. intros Hd. change (e :: es) with ([e] ++ es). rewrite app_assoc.
  eapply IH; [|done]. econstructor; [done|]. split; [by apply dlegalb_sound|done].
Qed.

Lemma drun_clean es w w' :
  drun true es w = Some w' → rtc (λ w w', ∃ e, dtrans e w w' ∧ cleanly e w w') w w'.
Proof.
  revert w. induction es as [|e es IH]; intros w; cbn; [by intros [= <-]|].
  destruct (dlegalb e w) eqn:El; [|done]. destruct (dtv_step e w) as [[[] w1]|] eqn:Es; [|done].
  destruct (cleanb e w w1) eqn:Ec; [|done]. intros Hd. eapply rtc_l; [|by apply IH].
  exists e. split; [split; [by apply dlegalb_sound|done]|by apply cleanb_sound].
Qed.
End run.

(** A decoder library that always answers in the same way. *)
Section demo.
Context (made : option aml_audio_dec_t) (Hmade : ∀ a, made = Some a → pool_ok ∅ a).

Definition fixed_lib : DecoderLib.
Proof.
  refine {| dl_create _ _ := made; dl_addr m := fresh_key (map_keys m); dl_env _ a := a;
    dl_malloc := room_malloc; dl_obs _ := 0; dl_join _ := 0; dl_kind _ := 0; dl_query _ _ := 0 |}.
  - intros _ _ a _. apply Hmade.
  - intros m. split; [apply fresh_key_pos|by apply fresh_key_none].
  - done.
  - apply room_malloc_ok.
  - apply room_malloc_room.
  - done.
Defined.
End demo.

(** An instance whose decoder is at work. *)
Definition demo_audec : aml_audio_dec_t :=
  zero_audec <| adsp_ops := adsp_ops zero_audec <| dsp_read := true |> <| get_cur_pts := true |> |>
    <| adec_ops := Some (2, 0) |> <| g_bst := Some (mk_bs 8192 4096 None 0 0 1 0 16 2 48000 0) |>.

Lemma demo_audec_ok a : Some demo_audec = Some a → pool_ok ∅ a.
Proof. intros [= <-]. exists []. apply empty_world_holds. Qed.

Definition demo_dtv : DecoderLib := fixed_lib (Some demo_audec) demo_audec_ok.
Definition broken_dtv : DecoderLib := fixed_lib None (λ a H, ltac:(done)).

Lemma demo_creates k i : length (i_extradata i) = 4096%nat → ∃ a, dl_create (DecoderLib := demo_dtv) k i = Some a ∧ sound a.
Proof. intros _. exists demo_audec. split; [done|]. intros _. by split; eexists. Qed.

Lemma demo_steady k : steady (dl_env (DecoderLib := demo_dtv) k).
Proof. done. Qed.

(** The buffer before the first round. *)
Definition blank : list Z := replicate (Z.to_nat OUTPUT_BUFFER_SIZE) 0.

(** The output is opened and started; a round whose block of [bytes] the HAL
    takes [r] of; a stop. *)
Definition start_up (aformat : Z) : list event :=
  [EOpen true true true true; EStart true aformat 1 77 0 0 0 true blank].
Definition round (bytes : list Z) (r : Z) : list event :=
  EThread <$> [ANum 0; ANum 8192; ANum 0; ARead (zlen bytes) bytes; ANum r].
Definition shut_down : list event := [EStopBegin true; EThread (ANum 0); EStopEnd].

Definition after (L : DecoderLib) (c : bool) (es : list event) : dworld :=
  default dtv_boot (drun c es dtv_boot).
Definition data_of (w : dworld) : list Z * list Z := (taken w, heard w).

(** Two rounds; the HAL takes two bytes of the first block. *)
Definition two_rounds : list event := start_up ACODEC_FMT_AAC ++ round [1; 2; 3; 4] 2 ++ round [5; 6] 3.
Definition played : dworld := after demo_dtv true two_rounds.

Lemma played_run c : drun (DD := demo_dtv) c two_rounds dtv_boot = Some played.
Proof. destruct c; vm_compute; reflexivity. Qed.

Lemma played_reach : dreach (DD := demo_dtv) played.
Proof.
  exists ([] ++ two_rounds). apply (drun_druns (DD := demo_dtv) false two_rounds [] dtv_boot dtv_boot).
  - constructor.
  - apply played_run.
Qed.

Lemma dtv_session_safe_witness :
  (∃ w', dtv_step (DD := demo_dtv) (EThread (ANum 0)) played = Some (tt, w')) ∧ out_patch_initd played = 1 ∧
  ∃ t i, thr played = Some t ∧ insts played = {[ t_audec t := i ]} ∧ t_offset t + t_len t ≤ OUTPUT_BUFFER_SIZE.
Proof.
  destruct (dtv_session_safe (DD := demo_dtv) demo_creates demo_steady played (EThread (ANum 0))) as (H1 & _ & H2).
  - apply played_reach.
  - apply dlegalb_sound. vm_compute. reflexivity.
  - split; [exact H1|]. split; [vm_compute; reflexivity|].
    destruct H2 as (t & i & E1 & E2 & _ & _ & _ & _ & E3); [vm_compute; discriminate|].
    exists t, i. split; [exact E1|]. split; [exact E2|exact E3].
Defined.

(** The stop has begun while the thread is about to read. *)
Definition reading : dworld :=
  after demo_dtv false (start_up ACODEC_FMT_AAC ++ take 3 (round [] 0) ++ [EStopBegin true]).

Lemma dtv_stop_returns_witness :
  stopping reading = true ∧ ∃ w' t', drun (DD := demo_dtv) false (drop 3 (round [9] 1) ++ [EThread (ANum 0)]) reading = Some w' ∧
    thr w' = Some t' ∧
    (t_pc t' = AtEnd → para_ptr w' = None →
     ∃ w'', dtv_patch_input_stop_end (DD := demo_dtv) w' = Some (0, w'') ∧ idle_w w'' ∧ taken w'' = taken w' ∧ heard w'' = heard w').
Proof.
  split; [by vm_compute|]. eexists. edestruct (dtv_stop_returns (DD := demo_dtv) demo_creates demo_steady
    ([] ++ drop 3 (round [9] 1) ++ [EThread (ANum 0)]) reading) as (_ & t' & Ht & _ & He); cycle 4.
  - exists t'. split; [vm_compute; reflexivity|]. split; [exact Ht|exact He].
  - exists ([] ++ (start_up ACODEC_FMT_AAC ++ take 3 (round [] 0) ++ [EStopBegin true])).
    eapply (drun_druns (DD := demo_dtv) false _ [] dtv_boot dtv_boot); [constructor|]. vm_compute. reflexivity.
  - by vm_compute.
  - eapply (drun_druns (DD := demo_dtv) false _ [] reading reading); [constructor|]. vm_compute. reflexivity.
  - cbn. rewrite !not_elem_of_cons. split_and!; [done..|apply not_elem_of_nil].
Defined.

Lemma dtv_lossless_witness :
  data_of played = ([1; 2; 3; 4; 5; 6], [1; 2; 3; 4; 5]) ∧ heard played `prefix_of` taken played ∧
  ∀ t, thr played = Some t → t_pc t ≠ AtEnd → taken played = heard played ++ pend t.
Proof.
  split; [by vm_compute|]. apply (dtv_lossless (DD := demo_dtv) demo_creates demo_steady).
  apply (drun_clean (DD := demo_dtv) two_rounds), played_run.
Defined.

(** ** Behaviours to know of *)

(** [memmove] is repeated when a round is given up, since [offset] is set to 0
    only after a read: of the block 1 2 3 4 the HAL takes one byte, has no
    space for a round, and then gets 3 4 4 instead of 2 3 4. *)
Example stall_repeats_move :
  data_of (after demo_dtv false (start_up ACODEC_FMT_AAC ++ round [1; 2; 3; 4] 1 ++
    (EThread <$> [ANum 0; ANum 0]) ++ round [] 3)) = ([1; 2; 3; 4], [1; 3; 4; 4]).
Proof. vm_compute. reflexivity. Qed.

(** The bytes of a block the HAL has left are counted again: six bytes were
    read, eight are counted. *)
Example pending_counted_again :
  (λ i, pcm_bytes_readed (base i)) <$> insts played = {[ 1 := 8 ]}.
Proof. vm_compute. reflexivity. Qed.

(** A resume that comes after the stop leaves the state RUNNING, and the next
    start is refused. *)
Example start_refused_after_resume :
  fst <$> dtv_patch_input_start (DD := demo_dtv) true ACODEC_FMT_AAC 1 77 0 0 0 true blank
    (after demo_dtv false (start_up ACODEC_FMT_AAC ++ shut_down ++ [EResume true])) = Some (-1).
Proof. vm_compute. reflexivity. Qed.

(** A stop after a creation that has failed: [audio_decode_release] follows
    the NULL handle; [dtv_patch_input_stop_dmx] does so as well. *)
Example failed_creation_crashes :
  let w := after broken_dtv false (start_up ACODEC_FMT_AAC) in
  dtv_patch_input_stop_dmx true w = None ∧
  dtv_patch_input_stop_end (DD := broken_dtv)
    (after broken_dtv false (start_up ACODEC_FMT_AAC ++ take 2 shut_down)) = None.
Proof. vm_compute. split; reflexivity. Qed.

(** [dtv_audio_dec_para_get] holds no mutex: the instance is freed between its
    two reads. *)
Example para_get_races :
  (dtv_audio_dec_para_get_begin;; dtv_patch_input_stop_end (DD := demo_dtv);; dtv_audio_dec_para_get_end true)
    (after demo_dtv false (start_up ACODEC_FMT_AAC ++ take 2 shut_down)) = None.
Proof. vm_compute. reflexivity. Qed.

(** The output accepts a NULL information callback and calls it for DRA. *)
Definition dra_audec : aml_audio_dec_t := demo_audec <| Audec.format := ACODEC_FMT_DRA |>.
Lemma dra_audec_ok a : Some dra_audec = Some a → pool_ok ∅ a.
Proof. intros [= <-]. exists []. apply empty_world_holds. Qed.

Example missing_info_callback_crashes :
  let L := fixed_lib (Some dra_audec) dra_audec_ok in
  fst <$> (dtv_patch_input_open true true true false;;
           dtv_patch_input_start (DD := L) true ACODEC_FMT_DRA 1 77 0 0 0 true blank) dtv_boot = Some 0 ∧
  (dtv_patch_input_open true true true false;;
   dtv_patch_input_start (DD := L) true ACODEC_FMT_DRA 1 77 0 0 0 true blank;;
   dtv_patch_out_loop (ANum 0);; dtv_patch_out_loop (ANum 8192);; dtv_patch_out_loop (ANum 0);;
   dtv_patch_out_loop (ARead 1 [7])) dtv_boot = None.
Proof. vm_compute. split; reflexivity. Qed.

(** A read that fails while the buffer is empty makes its fill level -1, and
    the HAL is handed a block of -1 bytes. *)
Example failed_read_crashes :
  let w := after demo_dtv false (start_up ACODEC_FMT_AAC) in
  (λ '(_, w'), t_len <$> thr w') <$> (dtv_patch_out_loop (ANum 0);; dtv_patch_out_loop (ANum 8192);;
    dtv_patch_out_loop (ANum 0);; dtv_patch_out_loop (ARead (-1) [])) w = Some (Some (-1)) ∧
  (dtv_patch_out_loop (ANum 0);; dtv_patch_out_loop (ANum 8192);;
    dtv_patch_out_loop (ANum 0);; dtv_patch_out_loop (ARead (-1) []);; dtv_patch_out_loop (ANum 0)) w = None.
Proof. vm_compute. split; reflexivity. Qed.
