(* ===== verification/AlsaConv.v ===== *)
(** The rate conversion of the ALSA output, LibAudio/amadec/audio_out/alsa-out.c:
    [pcm_interpolation] and the copy loops of [oversample_play], with a
    closed form of what they compute.

    Arrays of shorts are lists; [output_buffer] is seen through the pointer
    the loops use, as shorts.  The build defines USE_INTERPOLATION. *)

From S2P Require Import Prelude.

(** ** The code *)

Record conv := mk_conv {
  pass1_history : list (list Z);
  pass2_history : list (list Z);
  pass1_interpolation_output : list Z;
  interpolation_output : list Z;
  output_buffer : list Z
}.

#[export] Instance conv_eta : Eta conv := λ r,
  mk_conv (pass1_history r) (pass2_history r) (pass1_interpolation_output r) (interpolation_output r)
    (output_buffer r).

Definition CLIPTOSHORT (x : Z) : Z :=
  if x >? 0x7fff then 0x7fff else if x <? -0x8000 then -0x8000 else i16 x.

(** [s[0] = s[1]; ...; s[5] = x] *)
Definition shift_in (s : list Z) (x : Z) : option (list Z) :=
  match s with
  | _ :: s1 :: s2 :: s3 :: s4 :: s5 :: r => Some (s1 :: s2 :: s3 :: s4 :: s5 :: x :: r)
  | _ => None
  end.

(** The two samples a new one gives. *)
Definition taps (s : list Z) : option (Z * Z) :=
  match s with
  | s0 :: s1 :: s2 :: s3 :: s4 :: s5 :: _ =>
      v ← int_ok (150 * (s2 + s3) - 25 * (s1 + s4) + 3 * (s0 + s5) + 128);
      Some (i16 s2, CLIPTOSHORT (Z.shiftr v 8))
  | _ => None
  end.

(** The loop of a pass over one channel, [n] rounds. *)
Fixpoint pass_loop (n : nat) (num_channel : Z) (samples s d : list Z) (k l : Z)
    : option (list Z * list Z) :=
  match n with
  | O => Some (s, d)
  | S n =>
      x ← aget samples k;
      s ← shift_in s x;
      '(y0, y1) ← taps s;
      d ← aset d l y0;
      d ← aset d (l + num_channel) y1;
      pass_loop n num_channel samples s d (k + num_channel) (l + 2 * num_channel)
  end.

(** One channel. *)
Definition interpolate_channel (interpolation num_channel num_sample : Z) (samples : list Z) (ch : Z) (c : conv)
    : option conv :=
  s ← aget (pass1_history c) ch;
  if interpolation <? 2 then
    '(s, d) ← pass_loop (Z.to_nat num_sample) num_channel samples s (interpolation_output c) ch ch;
    h ← aset (pass1_history c) ch s;
    Some (c <| pass1_history := h |> <| interpolation_output := d |>)
  else
    '(s, d) ← pass_loop (Z.to_nat num_sample) num_channel samples s (pass1_interpolation_output c) ch ch;
    h ← aset (pass1_history c) ch s;
    s2 ← aget (pass2_history c) ch;
    '(s2, d2) ← pass_loop (Z.to_nat (num_sample * 2)) num_channel d s2 (interpolation_output c) ch ch;
    h2 ← aset (pass2_history c) ch s2;
    Some (c <| pass1_history := h |> <| pass1_interpolation_output := d |>
            <| pass2_history := h2 |> <| interpolation_output := d2 |>).

Fixpoint interpolate_channels (n : nat) (interpolation num_channel num_sample : Z) (samples : list Z) (ch : Z)
    (c : conv) : option conv :=
  match n with
  | O => Some c
  | S n =>
      c ← interpolate_channel interpolation num_channel num_sample samples ch c;
      interpolate_channels n interpolation num_channel num_sample samples (ch + 1) c
  end.

Definition pcm_interpolation (interpolation num_channel num_sample : Z) (samples : list Z) (c : conv) : option conv :=
  interpolate_channels (Z.to_nat num_channel) interpolation num_channel num_sample samples 0 c.

(** [n] rounds of a copy loop: two shorts are written, the first and the one
    [b] further, and [from] moves on by [a]. *)
Fixpoint copy_loop (n : nat) (a b : Z) (src dst : list Z) (from to : Z) : option (list Z) :=
  match n with
  | O => Some dst
  | S n =>
      x ← aget src from;
      y ← aget src (from + b);
      dst ← aset dst to x;
      dst ← aset dst (to + 1) y;
      copy_loop n a b src dst (from + a) (to + 2)
  end.

(** [memcpy] of [n] bytes out of the interpolation. *)
Definition copy_out (n : Z) (c : conv) : option conv :=
  d ← slice (interpolation_output c) 0 (n / 2);
  o ← splice (output_buffer c) 0 d;
  Some (c <| output_buffer := o |>).

Definition fill_out (n a b : Z) (src : list Z) (c : conv) : option conv :=
  o ← copy_loop (Z.to_nat n) a b src (output_buffer c) 0 0;
  Some (c <| output_buffer := o |>).

(** The part of [oversample_play] before [pcm_write]: the frames written to
    [output_buffer].  [src] is the data as shorts, [count] its length in
    bytes, [bpf] the bits of a frame, not 0.  Without a branch for the
    channels [ret] is not set. *)
Definition oversample_fill (real_channel oversample bpf count : Z) (src : list Z) (c : conv) : option (Z * conv) :=
  if real_channel =? 2 then
    if oversample =? -1 then
      let frames := Z.land (i32 (u32 (count * 8) / bpf)) (Z.lnot 31) in
      c ← fill_out (c_div (frames * 2 + 3) 4) 4 1 src c;
      Some (c_div frames 2, c)
    else if oversample =? 1 then
      let frames := Z.land (i32 (u32 (count * 8) / bpf)) (Z.lnot 15) in
      c ← pcm_interpolation 1 real_channel frames src c;
      c ← copy_out (frames * bpf / 4) c;
      Some (frames * 2, c)
    else if oversample =? 2 then
      let frames := Z.land (i32 (u32 (count * 8) / bpf)) (Z.lnot 7) in
      c ← pcm_interpolation 2 real_channel frames src c;
      c ← copy_out (frames * bpf / 2) c;
      Some (frames * 4, c)
    else None
  else if real_channel =? 1 then
    if oversample =? -1 then
      let frames := Z.land (i32 (u32 (count * 8) / bpf)) (Z.lnot 31) in
      c ← fill_out frames 2 0 src c;
      Some (frames, c)
    else if oversample =? 0 then
      let frames := Z.land (i32 (u32 (count * 8) / Z.shiftr bpf 1)) (Z.lnot 15) in
      c ← fill_out frames 1 0 src c;
      Some (frames, c)
    else if oversample =? 1 then
      let frames := Z.land (i32 (u32 (count * 8) / Z.shiftr bpf 1)) (Z.lnot 7) in
      c ← pcm_interpolation 1 real_channel frames src c;
      c ← fill_out (frames * 2) 1 0 (interpolation_output c) c;
      Some (frames * 2, c)
    else if oversample =? 2 then
      let frames := Z.land (i32 (u32 (count * 8) / Z.shiftr bpf 1)) (Z.lnot 7) in
      c ← pcm_interpolation 2 real_channel frames src c;
      c ← fill_out (frames * 4) 1 0 (interpolation_output c) c;
      Some (frames * 4, c)
    else None
  else None.

(** The bytes reported for [r] frames written: [ret * bits_per_frame / 8] is
    computed in [size_t]. *)
Definition oversample_ret (real_channel oversample bpf r : Z) : Z :=
  let ret := i32 (u64 (u64 (i32 r) * bpf) / 8) in
  if real_channel =? 2 then
    if oversample =? -1 then ret * 2 else if oversample =? 1 then c_div ret 2 else c_div ret 4
  else
    if oversample =? -1 then ret else if oversample =? 0 then c_div ret 2
    else if oversample =? 1 then c_div ret 4 else c_div ret 8.

(** ** What it computes *)

(** The half-band filter on a signal [p] at [i]. *)
Definition half (p : list Z) (i : nat) : Z :=
  let x j := p !!! (i + j)%nat in
  CLIPTOSHORT ((150 * (x 2%nat + x 3%nat) - 25 * (x 1%nat + x 4%nat) + 3 * (x 0%nat + x 5%nat) + 128) / 256).

(** Twice the rate: after each sample, delayed by three, the value between it
    and the next one.  [h] are the five samples before [xs]. *)
Definition up2 (h xs : list Z) : list Z :=
  flat_map (λ i, [(h ++ xs) !!! (i + 2)%nat; half (h ++ xs) i]) (seq 0 (length xs)).

(** The last five samples. *)
Definition last5 (h xs : list Z) : list Z := drop (length xs) (h ++ xs).

(** One channel at the rate of the device: half the rate, the same, twice and
    four times; [h1] and [h2] are what the two passes remember. *)
Definition chan_conv (oversample : Z) (h1 h2 xs : list Z) : list Z :=
  if oversample =? -1 then evens xs
  else if oversample =? 0 then xs
  else if oversample =? 1 then up2 h1 xs
  else up2 h2 (up2 h1 xs).

(** The two channels of the device: the two of the source, or its only one
    twice. *)
Definition chan_of (real_channel : Z) (ch : nat) (xs : list Z) : list Z :=
  if real_channel =? 1 then xs else evens (drop ch xs).

(** ** The filter *)

(** What a pass remembers: five of the eight numbers. *)
Definition hist (s : list Z) : list Z := take 5 (drop 1 s).

Record hist_ok (s : list Z) : Prop := {
  ho_len : length s = 8%nat;
  ho_16 : Forall is16 s
}.

Lemma clip_16 x : is16 (CLIPTOSHORT x).
Proof.
  unfold CLIPTOSHORT, is16. rewrite Z.gtb_ltb. zcase; [lia|lia|apply i16_range].
Qed.

Lemma five_cases (h : list Z) : length h = 5%nat → ∃ a b c d e, h = [a; b; c; d; e].
Proof. destruct h as [|? [|? [|? [|? [|? [|]]]]]]; try done. by eauto 6. Qed.

Lemma hist_cases s : hist_ok s → ∃ s0 s1 s2 s3 s4 s5 s6 s7,
  s = [s0; s1; s2; s3; s4; s5; s6; s7] ∧ is16 s0 ∧ is16 s1 ∧ is16 s2 ∧ is16 s3 ∧ is16 s4 ∧ is16 s5 ∧ is16 s6 ∧ is16 s7.
Proof.
  intros [Hl H16]. destruct s as [|s0 [|s1 [|s2 [|s3 [|s4 [|s5 [|s6 [|s7 [|]]]]]]]]]; try done.
  eexists _, _, _, _, _, _, _, _. split; [done|]. repeat (apply Forall_cons in H16 as [? H16]). done.
Qed.

Lemma hist_length s : hist_ok s → length (hist s) = 5%nat.
Proof. intros [Hl _]. unfold hist. rewrite length_take, length_drop, Hl. done. Qed.

Lemma hist_16 s : hist_ok s → Forall is16 (hist s).
Proof. intros [_ H]. by apply Forall_take, Forall_drop. Qed.

Lemma half_cons x p i : half (x :: p) (S i) = half p i.
Proof. reflexivity. Qed.

(** The next sample of a signal. *)
Lemma up2_cons h x xs :
  length h = 5%nat → up2 h (x :: xs) = (h !!! 2%nat) :: half (h ++ [x]) 0 :: up2 (tail h ++ [x]) xs.
Proof.
  intros (a & b & c & d & e & ->)%five_cases. unfold up2. cbn [length seq flat_map app tail].
  f_equal. f_equal. rewrite <- seq_shift, flat_map_concat_map, map_map, <- flat_map_concat_map. done.
Qed.

Lemma last5_cons h x xs : length h = 5%nat → last5 h (x :: xs) = last5 (tail h ++ [x]) xs.
Proof. intros (a & b & c & d & e & ->)%five_cases. reflexivity. Qed.

Lemma last5_length h xs : length h = 5%nat → length (last5 h xs) = 5%nat.
Proof. intros Hh. unfold last5. rewrite length_drop, length_app. lia. Qed.

Lemma next_length (h : list Z) x : length h = 5%nat → length (tail h ++ [x]) = 5%nat.
Proof. intros (a & b & c & d & e & ->)%five_cases. done. Qed.

Lemma up2_length h xs : length (up2 h xs) = (2 * length xs)%nat.
Proof.
  unfold up2. set (f := λ i, _). assert (∀ n i, length (flat_map f (seq i n)) = (2 * n)%nat) as Hf; [|by apply Hf].
  induction n as [|n IH]; intros i; [done|]. cbn [seq flat_map]. rewrite length_app, IH. cbn [length f]. lia.
Qed.

(** The output for two blocks is that of the first, and of the second after
    it. *)
Lemma up2_app h xs ys : length h = 5%nat → up2 h (xs ++ ys) = up2 h xs ++ up2 (last5 h xs) ys.
Proof.
  revert h. induction xs as [|x xs IH]; intros h Hh.
  - unfold last5. cbn. by rewrite app_nil_r, drop_0.
  - cbn [app]. rewrite !up2_cons, last5_cons by done. cbn. by rewrite IH by (by apply next_length).
Qed.

Lemma last5_app h xs ys : length h = 5%nat → last5 h (xs ++ ys) = last5 (last5 h xs) ys.
Proof.
  revert h. induction xs as [|x xs IH]; intros h Hh.
  - unfold last5 at 2. cbn. by rewrite app_nil_r, drop_0.
  - cbn [app]. rewrite !last5_cons by done. by rewrite IH by (by apply next_length).
Qed.

Lemma up2_16 h xs : length h = 5%nat → Forall is16 h → Forall is16 xs → Forall is16 (up2 h xs).
Proof.
  intros Hl Hh Hx. revert h Hl Hh. induction Hx as [|x xs Hx Hxs IH]; intros h Hl Hh; [constructor|].
  rewrite up2_cons by done. constructor; [|constructor; [apply clip_16|]].
  - apply (Forall_lookup_1 _ _ 2 _ Hh). by destruct (five_cases _ Hl) as (?&?&?&?&?&->).
  - apply IH; [by apply next_length|]. apply Forall_app. split; [by destruct Hh|by apply Forall_singleton].
Qed.

(** A new sample in the history of the code. *)
Lemma shift_in_spec s x :
  hist_ok s → is16 x →
  ∃ s', shift_in s x = Some s' ∧ hist_ok s' ∧ hist s' = tail (hist s) ++ [x] ∧
    taps s' = Some (hist s !!! 2%nat, half (hist s ++ [x]) 0).
Proof.
  intros (s0 & s1 & s2 & s3 & s4 & s5 & s6 & s7 & -> & H16)%hist_cases Hx. destruct_and! H16.
  eexists. split; [reflexivity|]. split; [split; [done|by rewrite !Forall_cons]|]. split; [done|].
  unfold taps, half, hist. cbn. unfold is16 in *. rewrite int_ok_some by (unfold INT_MIN, INT_MAX; lia).
  cbn. rewrite i16_small by lia. by rewrite Z.shiftr_div_pow2 by lia.
Qed.

(** ** Loops that write to every [nc]-th place *)

(** [d'] is [d] with [ys] at the places [l], [l + nc], ... *)
Record strided (d d' : list Z) (l nc : Z) (ys : list Z) : Prop := {
  sr_len : zlen d' = zlen d;
  sr_at (m : nat) y : ys !! m = Some y → aget d' (l + Z.of_nat m * nc) = Some y;
  sr_rest j : (∀ m : nat, (m < length ys)%nat → j ≠ l + Z.of_nat m * nc) → aget d' j = aget d j
}.

Lemma strided_nil d l nc : strided d d l nc [].
Proof. split; [done|done|done]. Qed.

Lemma strided_cons d d' l nc y ys :
  0 < nc → 0 ≤ l < zlen d → strided (<[Z.to_nat l := y]> d) d' (l + nc) nc ys → strided d d' l nc (y :: ys).
Proof.
  intros Hnc Hl [E1 E2 E3]. split.
  - rewrite E1. unfold zlen. by rewrite length_insert.
  - intros [|m] z; cbn [lookup list_lookup]; intros Hz.
    + injection Hz as <-. rewrite Z.mul_0_l, Z.add_0_r, E3 by nia. by apply aget_insert_eq.
    + rewrite <- (E2 m z Hz). f_equal. lia.
  - intros j Hj. rewrite E3, aget_insert_ne; [done|lia| |].
    + specialize (Hj 0%nat ltac:(cbn; lia)). lia.
    + intros m Hm. specialize (Hj (S m) ltac:(cbn; lia)). lia.
Qed.

Lemma aset_in (d : list Z) i y : 0 ≤ i < zlen d → aset d i y = Some (<[Z.to_nat i := y]> d).
Proof. apply aset_some. Qed.

Lemma zlen_insert (d : list Z) i y : zlen (<[i := y]> d) = zlen d.
Proof. unfold zlen. by rewrite length_insert. Qed.

(** A pass over the samples [xs] of a channel. *)
Lemma pass_loop_spec nc src xs s d k l :
  0 < nc → 0 ≤ l → hist_ok s → Forall is16 xs →
  (∀ i x, xs !! i = Some x → aget src (k + Z.of_nat i * nc) = Some x) →
  l + 2 * zlen xs * nc < zlen d + nc →
  ∃ s' d', pass_loop (length xs) nc src s d k l = Some (s', d') ∧ hist_ok s' ∧
    hist s' = last5 (hist s) xs ∧ strided d d' l nc (up2 (hist s) xs).
Proof.
  intros Hnc. revert s d k l. induction xs as [|x xs IH]; intros s d k l Hl Hs H16 Hsrc Hd.
  { exists s, d. pose proof (hist_length _ Hs) as H5. split; [done|]. split; [done|]. split; [|apply strided_nil].
    unfold last5. cbn. by rewrite app_nil_r, drop_0. }
  apply Forall_cons in H16 as [Hx H16]. pose proof (hist_length _ Hs) as H5.
  destruct (shift_in_spec s x Hs Hx) as (s1 & E1 & Hs1 & Eh & Et).
  assert (zlen (x :: xs) = 1 + zlen xs) as Hz by (unfold zlen; cbn; lia). pose proof (zlen_nonneg xs) as Hp.
  cbn [length pass_loop]. pose proof (Hsrc 0%nat x eq_refl) as Hk. rewrite Z.mul_0_l, Z.add_0_r in Hk.
  rewrite Hk. cbn [mbind option_bind]. rewrite E1. cbn [mbind option_bind]. rewrite Et. cbn [mbind option_bind]. rewrite (aset_in d l) by nia. cbn [mbind option_bind].
  rewrite aset_in by (rewrite zlen_insert; nia). cbn [mbind option_bind].
  destruct (IH s1 (<[Z.to_nat (l + nc) := half (hist s ++ [x]) 0]> (<[Z.to_nat l := hist s !!! 2%nat]> d))
    (k + nc) (l + 2 * nc)) as (s' & d' & E & Hs' & Eh' & Hd'); [nia|done|done| |rewrite !zlen_insert; nia|].
  { intros i y Hi. rewrite <- (Hsrc (S i) y Hi). f_equal. lia. }
  exists s', d'. rewrite E, last5_cons, up2_cons, <- Eh by done. split_and!; [done|done|done|].
  apply strided_cons; [done|nia|]. apply strided_cons; [done|rewrite zlen_insert; nia|].
  by replace (l + nc + nc) with (l + 2 * nc) by lia.
Qed.

(** A copy loop: [xs] and [ys] are what it finds. *)
Lemma copy_loop_spec a b src xs ys dst from to :
  0 ≤ to → length ys = length xs →
  (∀ i x, xs !! i = Some x → aget src (from + Z.of_nat i * a) = Some x) →
  (∀ i y, ys !! i = Some y → aget src (from + Z.of_nat i * a + b) = Some y) →
  to + 2 * zlen xs ≤ zlen dst →
  ∃ dst', copy_loop (length xs) a b src dst from to = Some dst' ∧
    strided dst dst' to 1 (flat_map (λ z, [z.1; z.2]) (zip xs ys)).
Proof.
  revert ys dst from to. induction xs as [|x xs IH]; intros [|y ys] dst from to Ht Hl Hx Hy Hd; try done.
  { exists dst. split; [done|apply strided_nil]. }
  assert (zlen (x :: xs) = 1 + zlen xs) as Hz by (unfold zlen; cbn; lia). pose proof (zlen_nonneg xs) as Hp.
  pose proof (Hx 0%nat x eq_refl) as Hx0. pose proof (Hy 0%nat y eq_refl) as Hy0.
  rewrite Z.mul_0_l, Z.add_0_r in Hx0, Hy0. cbn [length copy_loop]. rewrite Hx0. cbn. rewrite Hy0. cbn.
  rewrite aset_in by lia. cbn. rewrite aset_in by (rewrite zlen_insert; lia). cbn.
  destruct (IH ys (<[Z.to_nat (to + 1) := y]> (<[Z.to_nat to := x]> dst)) (from + a) (to + 2)) as (d' & E & Hd');
    [lia|cbn in Hl; lia| | |rewrite !zlen_insert; lia|].
  { intros i z Hi. rewrite <- (Hx (S i) z Hi). f_equal. lia. }
  { intros i z Hi. rewrite <- (Hy (S i) z Hi). f_equal. lia. }
  exists d'. split; [done|]. apply strided_cons; [done|lia|]. apply strided_cons; [done|rewrite zlen_insert; lia|].
  by replace (to + 1 + 1) with (to + 2) by lia.
Qed.

(** ** The state of the conversion *)

Record conv_ok (c : conv) : Prop := {
  co_len1 : length (pass1_history c) = 8%nat;
  co_len2 : length (pass2_history c) = 8%nat;
  co_hist1 : Forall hist_ok (pass1_history c);
  co_hist2 : Forall hist_ok (pass2_history c);
  co_pass1 : zlen (pass1_interpolation_output c) = 0x4000;
  co_out : zlen (interpolation_output c) = 0x8000;
  co_buf : zlen (output_buffer c) = 0x8000
}.

Definition h1 (c : conv) (ch : nat) : list Z := hist (pass1_history c !!! ch).
Definition h2 (c : conv) (ch : nat) : list Z := hist (pass2_history c !!! ch).

(** The memory of the passes after a block [xs]. *)
Definition next1 (oversample : Z) (h xs : list Z) : list Z := if 1 <=? oversample then last5 h xs else h.
Definition next2 (oversample : Z) (h h' xs : list Z) : list Z :=
  if 2 <=? oversample then last5 h' (up2 h xs) else h'.

Lemma hist_at (hs : list (list Z)) (ch : nat) :
  length hs = 8%nat → Forall hist_ok hs → (ch < 8)%nat →
  aget hs (Z.of_nat ch) = Some (hs !!! ch) ∧ hist_ok (hs !!! ch).
Proof.
  intros Hl Hh Hc. destruct (lookup_lt_is_Some_2 hs ch) as [s Hs]; [lia|].
  rewrite (list_lookup_total_correct _ _ _ Hs). split; [|by eapply Forall_lookup_1].
  unfold aget. rewrite (proj2 (Z.leb_le 0 _)) by lia. by rewrite Nat2Z.id.
Qed.

Lemma hist_set (hs : list (list Z)) (ch : nat) s :
  length hs = 8%nat → Forall hist_ok hs → (ch < 8)%nat → hist_ok s →
  aset hs (Z.of_nat ch) s = Some (<[ch := s]> hs) ∧ length (<[ch := s]> hs) = 8%nat ∧ Forall hist_ok (<[ch := s]> hs).
Proof.
  intros Hl Hh Hc Hs. rewrite aset_some, Nat2Z.id, length_insert by (unfold zlen; lia).
  split_and!; [done|done|by apply Forall_insert].
Qed.

(** What the passes leave of a channel. *)
Record passed (oversample : Z) (ch : nat) (xs : list Z) (c c' : conv) : Prop := {
  pa_ok : conv_ok c';
  pa_buf : output_buffer c' = output_buffer c;
  pa_h1 : h1 c' ch = next1 oversample (h1 c ch) xs;
  pa_h2 : h2 c' ch = next2 oversample (h1 c ch) (h2 c ch) xs;
  pa_other ch' : ch' ≠ ch → h1 c' ch' = h1 c ch' ∧ h2 c' ch' = h2 c ch'
}.

Lemma h_set (hs : list (list Z)) (ch ch' : nat) s :
  length hs = 8%nat → (ch < 8)%nat →
  hist (<[ch := s]> hs !!! ch') = if decide (ch' = ch) then hist s else hist (hs !!! ch').
Proof.
  intros Hl Hc. destruct (decide (ch' = ch)) as [->|Hne].
  - by rewrite list_lookup_total_insert_eq by lia.
  - by rewrite list_lookup_total_insert_ne by done.
Qed.

Lemma interpolate_channel_spec o nc src xs (ch : nat) c :
  o = 1 ∨ o = 2 → conv_ok c → (ch < nc)%nat → (nc ≤ 8)%nat → Forall is16 xs →
  (∀ i x, xs !! i = Some x → aget src (Z.of_nat ch + Z.of_nat i * Z.of_nat nc) = Some x) →
  2 * zlen xs * Z.of_nat nc ≤ 0x2000 →
  ∃ c', interpolate_channel o (Z.of_nat nc) (zlen xs) src (Z.of_nat ch) c = Some c' ∧
    passed o ch xs c c' ∧
    strided (interpolation_output c) (interpolation_output c') (Z.of_nat ch) (Z.of_nat nc)
      (chan_conv o (h1 c ch) (h2 c ch) xs).
Proof.
  intros Ho Hc Hch Hnc H16 Hsrc Hn. destruct Hc as [L1 L2 F1 F2 P1 Hout Hbuf].
  destruct (hist_at _ ch L1 F1 ltac:(lia)) as [E1 K1]. destruct (hist_at _ ch L2 F2 ltac:(lia)) as [E2 K2].
  pose proof (zlen_nonneg xs) as Hz. unfold interpolate_channel. rewrite E1. cbn [mbind option_bind].
  replace (Z.to_nat (zlen xs)) with (length xs) by (unfold zlen; lia). destruct Ho as [-> | ->]; cbn [Z.ltb Z.compare Pos.compare Pos.compare_cont].
  - destruct (pass_loop_spec (Z.of_nat nc) src xs (pass1_history c !!! ch) (interpolation_output c) (Z.of_nat ch) (Z.of_nat ch))
      as (s & d & -> & Hs & Eh & Hd); [lia|lia|done|done|done|nia|]. cbn [mbind option_bind].
    destruct (hist_set _ ch s L1 F1 ltac:(lia) Hs) as (-> & L1' & F1'). cbn [mbind option_bind].
    eexists. split; [reflexivity|]. split; [|exact Hd].
    split; [split; cbn; try done; by rewrite (sr_len _ _ _ _ _ Hd)|done| |done|]; unfold h1, h2; cbn.
    + rewrite h_set, decide_True by (done || lia). done.
    + intros ch' Hne. by rewrite h_set, decide_False by (done || lia).
  - destruct (pass_loop_spec (Z.of_nat nc) src xs (pass1_history c !!! ch) (pass1_interpolation_output c) (Z.of_nat ch) (Z.of_nat ch))
      as (s & d & -> & Hs & Eh & Hd); [lia|lia|done|done|done|nia|]. cbn [mbind option_bind].
    destruct (hist_set _ ch s L1 F1 ltac:(lia) Hs) as (-> & L1' & F1'). cbn [mbind option_bind]. rewrite E2. cbn [mbind option_bind].
    pose (ys := up2 (hist (pass1_history c !!! ch)) xs). fold ys in Hd.
    assert (length ys = (2 * length xs)%nat) as Hly by apply up2_length.
    replace (Z.to_nat (zlen xs * 2)) with (length ys) by (unfold zlen; lia).
    destruct (pass_loop_spec (Z.of_nat nc) d ys (pass2_history c !!! ch) (interpolation_output c) (Z.of_nat ch) (Z.of_nat ch))
      as (s2 & d2 & -> & Hs2 & Eh2 & Hd2); [lia|lia|done| |apply (sr_at _ _ _ _ _ Hd)|unfold zlen in *; nia|].
    { apply up2_16; [by apply hist_length|by apply hist_16|done]. }
    cbn [mbind option_bind]. destruct (hist_set _ ch s2 L2 F2 ltac:(lia) Hs2) as (-> & L2' & F2'). cbn [mbind option_bind].
    eexists. split; [reflexivity|]. split; [|exact Hd2].
    split; [split; cbn; try done; [by rewrite (sr_len _ _ _ _ _ Hd)|by rewrite (sr_len _ _ _ _ _ Hd2)]|done| | |]; unfold h1, h2; cbn.
    + rewrite h_set, decide_True by (done || lia). done.
    + rewrite h_set, decide_True by (done || lia). done.
    + intros ch' Hne. by rewrite !h_set, !decide_False by (done || lia).
Qed.

(** ** Two channels *)

Definition weave (L R : list Z) : list Z := flat_map (λ z, [z.1; z.2]) (zip L R).

Lemma weave_cons x y L R : weave (x :: L) (y :: R) = x :: y :: weave L R.
Proof. done. Qed.

Lemma weave_length L R : length L = length R → length (weave L R) = (2 * length L)%nat.
Proof.
  revert R. induction L as [|x L IH]; intros [|y R]; try done. intros [= E]. rewrite weave_cons. cbn [length].
  rewrite IH by done. lia.
Qed.

Lemma weave_app L L' R R' : length L = length R → weave (L ++ L') (R ++ R') = weave L R ++ weave L' R'.
Proof.
  revert R. induction L as [|x L IH]; intros [|y R]; try done. intros [= E]. cbn [app].
  by rewrite !weave_cons, IH by done.
Qed.

Lemma weave_lookup L R m :
  length L = length R → weave L R !! m = if Nat.even m then L !! (m / 2)%nat else R !! (m / 2)%nat.
Proof.
  revert R m. induction L as [|x L IH]; intros [|y R] m; try done; intros E.
  - by destruct (Nat.even m).
  - rewrite weave_cons. destruct m as [|[|m]]; [done..|]. cbn [lookup list_lookup]. injection E as E. rewrite IH by done.
    replace (S (S m) / 2)%nat with (S (m / 2)); [done|].
    replace (S (S m)) with (m + 1 * 2)%nat by lia. rewrite Nat.div_add by lia. lia.
Qed.

Lemma parity (m : nat) : (Nat.even m = true ∧ m = 2 * (m / 2) ∨ Nat.even m = false ∧ m = 2 * (m / 2) + 1)%nat.
Proof.
  pose proof (Nat.div_mod_eq m 2) as H. destruct (Nat.even m) eqn:E; [left|right]; split; try done.
  - apply Nat.even_spec in E as [k ->]. rewrite Nat.mul_comm, Nat.div_mul by lia. lia.
  - rewrite <- Nat.negb_odd, negb_false_iff in E. apply Nat.odd_spec in E as [k ->].
    rewrite Nat.mul_comm, Nat.div_add_l by lia. cbn. lia.
Qed.

(** The first channel on the even places, the second on the odd ones. *)
Lemma strided_weave d d1 d2 L R :
  length L = length R → strided d d1 0 2 L → strided d1 d2 1 2 R → strided d d2 0 1 (weave L R).
Proof.
  intros Hl [A1 A2 A3] [B1 B2 B3]. split; [congruence| |].
  - intros m y. rewrite weave_lookup by done. destruct (parity m) as [[-> Hm]|[-> Hm]]; intros Hy.
    + rewrite B3 by lia. rewrite <- (A2 _ _ Hy). f_equal. lia.
    + rewrite <- (B2 _ _ Hy). f_equal. lia.
  - intros j Hj. rewrite weave_length in Hj by done. rewrite B3, A3; [done| |].
    + intros m Hm. specialize (Hj (2 * m)%nat ltac:(lia)). lia.
    + intros m Hm. specialize (Hj (2 * m + 1)%nat ltac:(lia)). lia.
Qed.

Lemma strided_slice d d' ys : strided d d' 0 1 ys → zlen ys ≤ zlen d → slice d' 0 (zlen ys) = Some ys.
Proof.
  intros [E1 E2 _] Hl. rewrite slice_some by (pose proof (zlen_nonneg ys); lia). cbn [Z.to_nat]. rewrite drop_0.
  f_equal. apply list_eq. intros i. unfold zlen. rewrite Nat2Z.id. destruct (ys !! i) as [y|] eqn:Hy.
  - rewrite lookup_take_lt by (by eapply lookup_lt_Some). specialize (E2 i y Hy). unfold aget in E2.
    rewrite (proj2 (Z.leb_le 0 _)) in E2 by lia. rewrite <- E2. f_equal. lia.
  - apply lookup_take_ge. by apply lookup_ge_None.
Qed.

(** The samples of a channel in the data. *)
Definition chan_at (nc : nat) (ch : nat) (src xs : list Z) : Prop :=
  ∀ i x, xs !! i = Some x → aget src (Z.of_nat ch + Z.of_nat i * Z.of_nat nc) = Some x.

Lemma interpolate_mono o src xs c :
  o = 1 ∨ o = 2 → conv_ok c → Forall is16 xs → chan_at 1 0 src xs → zlen xs ≤ 4096 →
  ∃ c', pcm_interpolation o 1 (zlen xs) src c = Some c' ∧ passed o 0 xs c c' ∧
    let ys := chan_conv o (h1 c 0) (h2 c 0) xs in slice (interpolation_output c') 0 (zlen ys) = Some ys.
Proof.
  intros Ho Hc H16 Hs Hn. destruct (interpolate_channel_spec o 1 src xs 0 c) as (c' & E & Hp & Hst); [done|done|lia|lia|done|done|lia|].
  exists c'. unfold pcm_interpolation. change (Z.to_nat 1) with 1%nat. cbn [interpolate_channels].
  change (Z.of_nat 1) with 1 in *. change (Z.of_nat 0) with 0 in *. cbn [interpolate_channels]. rewrite E. cbn [mbind option_bind].
  split; [done|]. split; [done|]. cbv zeta. apply (strided_slice _ _ _ Hst). rewrite (co_out _ Hc).
  unfold chan_conv. destruct Ho as [-> | ->]; cbn; unfold zlen in *; rewrite ?up2_length; lia.
Qed.

Record passed2 (o : Z) (L R : list Z) (c c' : conv) : Prop := {
  p2_ok : conv_ok c';
  p2_buf : output_buffer c' = output_buffer c;
  p2_h10 : h1 c' 0 = next1 o (h1 c 0) L;
  p2_h20 : h2 c' 0 = next2 o (h1 c 0) (h2 c 0) L;
  p2_h11 : h1 c' 1 = next1 o (h1 c 1) R;
  p2_h21 : h2 c' 1 = next2 o (h1 c 1) (h2 c 1) R
}.

Lemma interpolate_stereo o src L R c :
  o = 1 ∨ o = 2 → conv_ok c → Forall is16 L → Forall is16 R → length L = length R →
  chan_at 2 0 src L → chan_at 2 1 src R → zlen L ≤ 2048 →
  ∃ c', pcm_interpolation o 2 (zlen L) src c = Some c' ∧ passed2 o L R c c' ∧
    let ys := weave (chan_conv o (h1 c 0) (h2 c 0) L) (chan_conv o (h1 c 1) (h2 c 1) R) in
    slice (interpolation_output c') 0 (zlen ys) = Some ys.
Proof.
  intros Ho Hc HL HR Hlen HsL HsR Hn.
  destruct (interpolate_channel_spec o 2 src L 0 c) as (c1 & E1 & P1 & S1); [done|done|lia|lia|done|done|lia|].
  destruct (interpolate_channel_spec o 2 src R 1 c1) as (c2 & E2 & P2 & S2);
    [done|apply P1|lia|lia|done|done|unfold zlen in *; lia|].
  destruct P1 as [K1 B1 X1 Y1 O1], P2 as [K2 B2 X2 Y2 O2]. destruct (O1 1%nat ltac:(lia)) as [V1 V2].
  destruct (O2 0%nat ltac:(lia)) as [W1 W2]. rewrite V1 in X2, Y2, S2. rewrite V2 in Y2, S2.
  exists c2. unfold pcm_interpolation. change (Z.to_nat 2) with 2%nat. cbn [interpolate_channels].
  change (Z.of_nat 2) with 2 in *. change (Z.of_nat 0) with 0 in *. change (Z.of_nat 1) with 1 in *. rewrite E1. cbn [mbind option_bind].
  change (0 + 1) with 1. replace (zlen L) with (zlen R) by (unfold zlen; lia). rewrite E2. cbn [mbind option_bind].
  split; [done|]. split; [split; congruence|]. cbv zeta.
  assert (length (chan_conv o (h1 c 0) (h2 c 0) L) = length (chan_conv o (h1 c 1) (h2 c 1) R)) as Hl.
  { unfold chan_conv. destruct Ho as [-> | ->]; cbn; rewrite !up2_length; lia. }
  apply (strided_slice (interpolation_output c)); [by eapply strided_weave|]. rewrite (co_out _ Hc).
  unfold zlen. rewrite weave_length by done. unfold chan_conv. destruct Ho as [-> | ->]; cbn [Z.eqb Pos.eqb]; unfold zlen in *; rewrite ?up2_length; lia.
Qed.

(** ** A block *)

(** The bytes a call takes are a multiple of this. *)
Definition granule (real_channel oversample : Z) : Z :=
  if real_channel =? 2 then if oversample =? -1 then 128 else if oversample =? 1 then 64 else 32
  else if oversample =? -1 then 128 else if oversample =? 0 then 32 else 16.

(** The conversions there are code for. *)
Definition supported (real_channel oversample : Z) : Prop :=
  real_channel = 2 ∧ (oversample = -1 ∨ oversample = 1 ∨ oversample = 2) ∨
  real_channel = 1 ∧ (oversample = -1 ∨ oversample = 0 ∨ oversample = 1 ∨ oversample = 2).

(** The channel of the history the second channel of the device uses. *)
Definition second (real_channel : Z) : nat := if real_channel =? 1 then 0 else 1.

Definition block_out (real_channel oversample : Z) (c : conv) (xs : list Z) : list Z :=
  let s := second real_channel in
  weave (chan_conv oversample (h1 c 0) (h2 c 0) (chan_of real_channel 0 xs))
        (chan_conv oversample (h1 c s) (h2 c s) (chan_of real_channel 1 xs)).

(** The memory of the passes after a block. *)
Record advanced (real_channel oversample : Z) (xs : list Z) (c c' : conv) : Prop := {
  av_ok : conv_ok c';
  av_h1 (ch : nat) : Z.of_nat ch < real_channel → h1 c' ch = next1 oversample (h1 c ch) (chan_of real_channel ch xs);
  av_h2 (ch : nat) : Z.of_nat ch < real_channel →
    h2 c' ch = next2 oversample (h1 c ch) (h2 c ch) (chan_of real_channel ch xs)
}.

Lemma land_ones_down x k : 0 ≤ k → Z.land x (Z.lnot (Z.ones k)) = x - x mod 2 ^ k.
Proof.
  intros Hk. rewrite <- Z.ldiff_land, Z.ldiff_ones_r, Z.shiftl_mul_pow2, Z.shiftr_div_pow2 by lia.
  pose proof (Z.div_mod x (2 ^ k) ltac:(lia)). lia.
Qed.

(** The frames of [count] bytes of [4] or [2] bytes each. *)
Lemma frames_eq count bpf b k :
  0 ≤ count ≤ 8192 → bpf = 8 * b → 0 < b → 0 ≤ k →
  Z.land (i32 (u32 (count * 8) / bpf)) (Z.lnot (Z.ones k)) = 2 ^ k * (count / (b * 2 ^ k)).
Proof.
  intros Hc -> Hb Hk. rewrite u32_small by lia. rewrite Z.mul_comm, Z.div_mul_cancel_l by lia.
  assert (0 ≤ count / b ≤ 8192) by (split; [apply Z.div_pos|apply Z.div_le_upper_bound]; nia).
  rewrite i32_small, land_ones_down by lia. rewrite <- Z.div_div by lia.
  pose proof (Z.div_mod (count / b) (2 ^ k) ltac:(lia)). lia.
Qed.

Lemma set_buf_advanced rc o xs c c' b :
  advanced rc o xs c c' → zlen b = 0x8000 → advanced rc o xs c (c' <| output_buffer := b |>).
Proof. intros [[] H1 H2] Hb. split; [by split|exact H1|exact H2]. Qed.

Lemma fill_out_spec n a b src X Y c :
  zlen X = n → length Y = length X → conv_ok c →
  (∀ i x, X !! i = Some x → aget src (Z.of_nat i * a) = Some x) →
  (∀ i y, Y !! i = Some y → aget src (Z.of_nat i * a + b) = Some y) →
  2 * n ≤ 0x8000 →
  ∃ o, fill_out n a b src c = Some (c <| output_buffer := o |>) ∧ zlen o = 0x8000 ∧
    slice o 0 (2 * n) = Some (weave X Y).
Proof.
  intros <- HY Hc HX HYs Hn. unfold fill_out. replace (Z.to_nat (zlen X)) with (length X) by (unfold zlen; lia).
  destruct (copy_loop_spec a b src X Y (output_buffer c) 0 0) as (d & -> & Hd);
    [lia|done|by intros; rewrite Z.add_0_l; auto|by intros; rewrite Z.add_0_l; auto|rewrite (co_buf _ Hc); lia|].
  fold (weave X Y) in Hd. exists d. split; [done|]. rewrite (sr_len _ _ _ _ _ Hd), (co_buf _ Hc). split; [done|].
  assert (zlen (weave X Y) = 2 * zlen X) as Hw by (unfold zlen; rewrite weave_length by done; lia).
  rewrite <- Hw. apply (strided_slice _ _ _ Hd). rewrite Hw, (co_buf _ Hc). lia.
Qed.

Lemma copy_out_spec n ys c :
  conv_ok c → slice (interpolation_output c) 0 (zlen ys) = Some ys → n / 2 = zlen ys → zlen ys ≤ 0x8000 →
  ∃ o, copy_out n c = Some (c <| output_buffer := o |>) ∧ zlen o = 0x8000 ∧ slice o 0 (zlen ys) = Some ys.
Proof.
  intros Hc Hs Hn Hy. unfold copy_out. rewrite Hn, Hs. cbn [mbind option_bind].
  destruct (splice (output_buffer c) 0 ys) as [o|] eqn:E.
  2:{ rewrite splice_some in E; [done|lia|rewrite (co_buf _ Hc); lia]. }
  exists o. pose proof (splice_length _ _ _ _ E) as Hl. split; [done|].
  assert (zlen o = 0x8000) as Ho by (rewrite <- (co_buf _ Hc); unfold zlen; by rewrite Hl).
  split; [done|]. rewrite slice_some by (pose proof (zlen_nonneg ys); lia). f_equal. cbn [Z.to_nat]. rewrite drop_0.
  rewrite (take_splice _ _ _ _ _ E) by (unfold zlen; lia). done.
Qed.

(** Samples in the data. *)
Lemma aget_take (src : list Z) (n i : nat) x : take n src !! i = Some x → aget src (Z.of_nat i) = Some x.
Proof.
  intros (Hx & _)%lookup_take_Some. unfold aget. rewrite (proj2 (Z.leb_le 0 _)) by lia. by rewrite Nat2Z.id.
Qed.

Lemma chan_at_mono (src : list Z) n : chan_at 1 0 src (take n src).
Proof. intros i x Hx. rewrite <- (aget_take _ _ _ _ Hx). f_equal. lia. Qed.

Lemma chan_at_stereo (src : list Z) n (ch : nat) : chan_at 2 ch src (evens (drop ch (take n src))).
Proof.
  intros i x. rewrite evens_lookup, lookup_drop. intros Hx. rewrite <- (aget_take _ _ _ _ Hx). f_equal. lia.
Qed.

Lemma evens_16 (l : list Z) : Forall is16 l → Forall is16 (evens l).
Proof.
  intros H. apply Forall_lookup_2. intros i x Hx. rewrite evens_lookup in Hx. by apply (Forall_lookup_1 _ _ _ _ H Hx).
Qed.

Lemma ret_bytes r : 0 ≤ r ≤ 0x10000 → i32 (u64 (u64 (i32 r) * 32) / 8) = 4 * r.
Proof.
  intros Hr. rewrite (i32_small r), (u64_small r), u64_small by lia. replace (r * 32) with (4 * r * 8) by lia.
  rewrite Z.div_mul, i32_small by lia. done.
Qed.

Section block.
Context (count : Z) (src : list Z) (c : conv).
Context (Hcount : 0 ≤ count ≤ 8192) (Hsrc : count / 2 ≤ zlen src) (H16 : Forall is16 src) (Hok : conv_ok c).

(** The samples of [q] granules of [g] bytes. *)
Let samples (g : Z) : list Z := take (Z.to_nat (g * (count / g) / 2)) src.

Record block_done (rc o F : Z) (xs : list Z) (c' : conv) : Prop := {
  bd_adv : advanced rc o xs c c';
  bd_out : slice (output_buffer c') 0 (2 * F) = Some (block_out rc o c xs);
  bd_ret : oversample_ret rc o 32 F = granule rc o * (count / granule rc o);
  bd_some : count / granule rc o ≤ F
}.

Lemma samples_len b : 0 < b → zlen (samples (2 * b)) = b * (count / (2 * b)).
Proof.
  intros Hb. unfold samples. rewrite <- Z.mul_assoc, Z.mul_comm, Z.div_mul by lia. set (q := count / (2 * b)).
  assert (0 ≤ q) by (apply Z.div_pos; lia). assert (2 * b * q ≤ count) by (apply Z.mul_div_le; lia).
  assert (b * q ≤ count / 2) by (apply Z.div_le_lower_bound; lia).
  unfold zlen in *. rewrite length_take. assert (0 ≤ b * q) by nia. lia.
Qed.

Lemma samples_16 g : Forall is16 (samples g).
Proof. by apply Forall_take. Qed.

(** Nothing to remember. *)
Lemma still_advanced rc o xs : o ≤ 0 → advanced rc o xs c c.
Proof. intros Ho. split; [done| |]; intros ch _; unfold next1, next2; zcase; done || lia. Qed.

Lemma half_stereo (xs : list Z) n : zlen xs = 2 * n → 0 ≤ n → ∀ ch, (ch ≤ 1)%nat → zlen (evens (drop ch xs)) = n.
Proof.
  intros Hl Hn ch Hch. unfold zlen in *. rewrite evens_length, length_drop.
  assert (length xs = (Z.to_nat n * 2)%nat) as -> by lia. destruct ch as [|[|]]; [| |lia].
  - rewrite Nat.sub_0_r, Nat.div_add_l by lia. cbn. lia.
  - destruct (Z.to_nat n) as [|m] eqn:E; [cbn; lia|]. replace (S m * 2 - 1 + 1)%nat with (S m * 2)%nat by lia.
    rewrite Nat.div_mul by lia. lia.
Qed.

Lemma block_stereo_down : ∃ F c', oversample_fill 2 (-1) 32 count src c = Some (F, c') ∧
  block_done 2 (-1) F (samples 128) c'.
Proof.
  unfold oversample_fill. cbn [Z.eqb Pos.eqb]. change 31 with (Z.ones 5). rewrite (frames_eq _ _ 4) by lia.
  change (4 * 2 ^ 5) with 128. change (2 ^ 5) with 32. cbv zeta. assert (0 ≤ count / 128 ≤ 64) by dlia.
  replace (c_div (32 * (count / 128) * 2 + 3) 4) with (16 * (count / 128)).
  2:{ unfold c_div. dlia. }
  replace (c_div (32 * (count / 128)) 2) with (16 * (count / 128)) by (unfold c_div; dlia).
  pose proof (samples_len 64 ltac:(lia)) as Hl. change (2 * 64) with 128 in Hl.
  pose (L ch := evens (evens (drop ch (samples 128)))).
  assert (∀ ch, (ch ≤ 1)%nat → zlen (L ch) = 16 * (count / 128)) as HL.
  { intros ch Hch. apply (half_stereo (evens (drop ch (samples 128))) (16 * (count / 128)) ltac:(rewrite (half_stereo _ (32 * (count / 128))); lia) ltac:(lia) 0). lia. }
  assert (∀ ch i x, L ch !! i = Some x → aget src (Z.of_nat i * 4 + Z.of_nat ch) = Some x) as Hat.
  { intros ch i x. unfold L. rewrite evens_lookup. intros Hx. rewrite <- (chan_at_stereo _ _ _ _ _ Hx). f_equal. lia. }
  destruct (fill_out_spec (16 * (count / 128)) 4 1 src (L 0%nat) (L 1%nat) c) as (o & -> & Ho & Hs); try done.
  - by apply HL; lia.
  - pose proof (HL 0%nat ltac:(lia)). pose proof (HL 1%nat ltac:(lia)). unfold zlen in *. lia.
  - intros i x Hx. rewrite <- (Hat 0%nat i x Hx). f_equal. lia.
  - intros i x Hx. by rewrite <- (Hat 1%nat i x Hx).
  - lia.
  - cbn [mbind option_bind]. eexists _, _. split; [reflexivity|]. split.
    + apply set_buf_advanced; [by apply still_advanced|done].
    + exact Hs.
    + unfold oversample_ret, granule. cbn [Z.eqb Pos.eqb]. rewrite ret_bytes by lia. lia.
    + unfold granule. cbn [Z.eqb Pos.eqb]. lia.
Qed.

(** Interpolation of two channels. *)
Lemma stereo_up o n m B :
  o = 1 ∨ o = 2 → zlen (take m src) = 2 * n → 0 ≤ n ≤ 2048 → B / 2 = 4 * o * n →
  ∃ c1 c', pcm_interpolation o 2 n src c = Some c1 ∧ copy_out B c1 = Some c' ∧
    advanced 2 o (take m src) c c' ∧ slice (output_buffer c') 0 (2 * (2 * o * n)) = Some (block_out 2 o c (take m src)).
Proof.
  intros Ho Hl Hn HB. set (xs := take m src) in *.
  pose proof (half_stereo xs n Hl ltac:(lia) 0 ltac:(lia)) as HL. pose proof (half_stereo xs n Hl ltac:(lia) 1 ltac:(lia)) as HR.
  destruct (interpolate_stereo o src (evens (drop 0 xs)) (evens (drop 1 xs)) c) as (c1 & E & Hp & Hs).
  - done.
  - done.
  - by apply evens_16, Forall_drop, Forall_take.
  - by apply evens_16, Forall_drop, Forall_take.
  - unfold zlen in *. lia.
  - apply chan_at_stereo.
  - apply chan_at_stereo.
  - lia.
  - rewrite HL in E. cbv zeta in Hs. fold (block_out 2 o c xs) in Hs. destruct Hp as [K1 K2 K3 K4 K5 K6].
    change (weave _ _) with (block_out 2 o c xs) in Hs.
    assert (zlen (block_out 2 o c xs) = 4 * o * n) as Hz.
    { unfold block_out, zlen in *. cbn [Z.eqb Pos.eqb second]. unfold chan_of. cbn [Z.eqb Pos.eqb].
      rewrite weave_length; unfold chan_conv; destruct Ho as [-> | ->]; cbn [Z.eqb Pos.eqb]; rewrite ?up2_length; lia. }
    destruct (copy_out_spec B (block_out 2 o c xs) c1) as (b & Eb & Hb & Hsb); [done|done|lia|lia|].
    exists c1, (c1 <| output_buffer := b |>). split; [done|]. split; [done|]. split.
    + apply set_buf_advanced; [|done]. split; [done| |]; intros [|[|ch]] Hch; done || lia.
    + rewrite <- Hsb, Hz. f_equal. lia.
Qed.

Lemma block_stereo_up o b k :
  (o = 1 ∧ b = 32 ∧ k = 4) ∨ (o = 2 ∧ b = 16 ∧ k = 3) →
  ∃ F c', oversample_fill 2 o 32 count src c = Some (F, c') ∧ block_done 2 o F (samples (2 * b)) c'.
Proof.
  intros Ho. assert (2 * b = granule 2 o ∧ 4 * 2 ^ k = 2 * b ∧ 0 < b ∧ (o = 1 ∨ o = 2)) as (Hg & Hk & Hb & Ho') by naive_solver.
  pose proof (samples_len b Hb) as Hl. pose (n := 2 ^ k * (count / (2 * b))).
  assert (0 ≤ n ≤ 2048 ∧ b * (count / (2 * b)) = 2 * n) as [Hn Hbn].
  { unfold n. destruct Ho as [(-> & -> & ->)|(-> & -> & ->)]; [change (2 ^ 4) with 16|change (2 ^ 3) with 8]; dlia. }
  rewrite Hbn in Hl. pose proof (frames_eq count 32 4 k Hcount ltac:(lia) ltac:(lia)) as Hf. rewrite Hk in Hf.
  fold n in Hf. destruct (stereo_up o n (Z.to_nat (2 * b * (count / (2 * b)) / 2)) (8 * o * n)) as (c1 & c' & E1 & E2 & Ha & Hs);
    [done|done|done|dlia|].
  exists (2 * o * n), c'. split.
  - unfold oversample_fill. destruct Ho as [(-> & -> & ->)|(-> & -> & ->)]; cbn [Z.eqb Pos.eqb]; cbv zeta.
    + change 15 with (Z.ones 4). rewrite Hf by lia. rewrite E1. cbn [mbind option_bind].
      replace (n * 32 / 4) with (8 * 1 * n) by dlia. rewrite E2. cbn [mbind option_bind]. do 2 f_equal. lia.
    + change 7 with (Z.ones 3). rewrite Hf by lia. rewrite E1. cbn [mbind option_bind].
      replace (n * 32 / 2) with (8 * 2 * n) by dlia. rewrite E2. cbn [mbind option_bind]. do 2 f_equal. lia.
  - split; [exact Ha|exact Hs| |]; rewrite <- Hg; clearbody n.
    + unfold oversample_ret. destruct Ho as [(-> & -> & ->)|(-> & -> & ->)]; cbn [Z.eqb Pos.eqb]; unfold c_div;
        rewrite ret_bytes by lia; rewrite Z.quot_div_nonneg by lia; dlia.
    + destruct Ho as [(-> & -> & ->)|(-> & -> & ->)]; lia.
Qed.

(** One channel: the same loop doubles it. *)
Lemma mono_fill n a X s c1 :
  zlen X = n → conv_ok c1 → (∀ i x, X !! i = Some x → aget s (Z.of_nat i * a) = Some x) → 0 ≤ n ≤ 0x4000 →
  ∃ b, fill_out n a 0 s c1 = Some (c1 <| output_buffer := b |>) ∧ zlen b = 0x8000 ∧
    slice b 0 (2 * n) = Some (weave X X).
Proof.
  intros HX Hc Hat Hn. apply fill_out_spec; [done|done|done|done| |lia]. intros i x Hx. rewrite Z.add_0_r. auto.
Qed.

Lemma mono_up o n m :
  o = 1 ∨ o = 2 → zlen (take m src) = n → 0 ≤ n ≤ 4096 →
  ∃ c1 c', pcm_interpolation o 1 n src c = Some c1 ∧ fill_out (n * (2 * o)) 1 0 (interpolation_output c1) c1 = Some c' ∧
    advanced 1 o (take m src) c c' ∧ slice (output_buffer c') 0 (2 * (n * (2 * o))) = Some (block_out 1 o c (take m src)).
Proof.
  intros Ho Hl Hn. set (xs := take m src) in *.
  destruct (interpolate_mono o src xs c) as (c1 & E & [K1 K2 K3 K4 K5] & Hs);
    [done|done|by apply Forall_take|apply chan_at_mono|lia|]. rewrite Hl in E. cbv zeta in Hs.
  set (ys := chan_conv o _ _ xs) in Hs.
  assert (zlen ys = n * (2 * o)) as Hy.
  { unfold ys, chan_conv, zlen in *. destruct Ho as [-> | ->]; cbn [Z.eqb Pos.eqb]; rewrite !up2_length; lia. }
  destruct (mono_fill (n * (2 * o)) 1 ys (interpolation_output c1) c1) as (b & Eb & Hb & Hsb); [done|done| |lia|].
  { intros i y Hi. rewrite Z.mul_1_r. unfold slice in Hs. destruct (_ && _); [|done]. injection Hs as Hs.
    cbn [Z.to_nat] in Hs. rewrite drop_0 in Hs. rewrite <- Hs in Hi. by eapply aget_take. }
  exists c1, (c1 <| output_buffer := b |>). split; [done|]. split; [done|]. split; [|done].
  apply set_buf_advanced; [|done]. split; [done| |]; intros [|ch] Hch; done || lia.
Qed.

Lemma block_mono_up o :
  o = 1 ∨ o = 2 →
  ∃ F c', oversample_fill 1 o 32 count src c = Some (F, c') ∧ block_done 1 o F (samples 16) c'.
Proof.
  intros Ho. pose proof (samples_len 8 ltac:(lia)) as Hl. change (2 * 8) with 16 in Hl. pose (n := 8 * (count / 16)).
  assert (0 ≤ n ≤ 4096) as Hn by (unfold n; dlia). fold n in Hl.
  pose proof (frames_eq count 16 2 3 Hcount ltac:(lia) ltac:(lia) ltac:(lia)) as Hf.
  change (2 ^ 3 * (count / (2 * 2 ^ 3))) with n in Hf. change (Z.ones 3) with 7 in Hf.
  destruct (mono_up o n (Z.to_nat (16 * (count / 16) / 2))) as (c1 & c' & E1 & E2 & Ha & Hs); [done|done|done|].
  exists (n * (2 * o)), c'. split.
  - unfold oversample_fill. change (Z.shiftr 32 1) with 16. rewrite Hf.
    destruct Ho as [-> | ->]; cbn [Z.eqb Pos.eqb]; cbv zeta; rewrite E1; cbn [mbind option_bind]; [change (2 * 1) with 2 in E2|change (2 * 2) with 4 in E2];
      rewrite E2; done.
  - split; [exact Ha|exact Hs| |]; unfold oversample_ret, granule; destruct Ho as [-> | ->]; cbn [Z.eqb Pos.eqb];
      rewrite ?ret_bytes by lia; unfold c_div, n; dlia.
Qed.

Lemma block_mono_same : ∃ F c', oversample_fill 1 0 32 count src c = Some (F, c') ∧ block_done 1 0 F (samples 32) c'.
Proof.
  pose proof (samples_len 16 ltac:(lia)) as Hl. change (2 * 16) with 32 in Hl.
  pose proof (frames_eq count 16 2 4 Hcount ltac:(lia) ltac:(lia) ltac:(lia)) as Hf.
  change (2 ^ 4 * (count / (2 * 2 ^ 4))) with (16 * (count / 32)) in Hf. change (Z.ones 4) with 15 in Hf.
  assert (0 ≤ count / 32 ≤ 256) by dlia.
  destruct (mono_fill (16 * (count / 32)) 1 (samples 32) src c) as (b & Eb & Hb & Hs); [done|done| |lia|].
  { intros i x Hx. rewrite Z.mul_1_r. by eapply aget_take. }
  unfold oversample_fill. change (Z.shiftr 32 1) with 16. rewrite Hf. cbn [Z.eqb Pos.eqb]. cbv zeta. rewrite Eb.
  cbn [mbind option_bind]. eexists _, _. split; [reflexivity|]. split.
  - apply set_buf_advanced; [by apply still_advanced|done].
  - exact Hs.
  - unfold oversample_ret, granule, c_div. cbn [Z.eqb Pos.eqb]. rewrite ret_bytes by lia. dlia.
  - unfold granule. cbn [Z.eqb Pos.eqb]. lia.
Qed.

Lemma block_mono_down : ∃ F c', oversample_fill 1 (-1) 32 count src c = Some (F, c') ∧
  block_done 1 (-1) F (samples 128) c'.
Proof.
  pose proof (samples_len 64 ltac:(lia)) as Hl. change (2 * 64) with 128 in Hl.
  pose proof (frames_eq count 32 4 5 Hcount ltac:(lia) ltac:(lia) ltac:(lia)) as Hf.
  change (2 ^ 5 * (count / (4 * 2 ^ 5))) with (32 * (count / 128)) in Hf. change (Z.ones 5) with 31 in Hf.
  assert (0 ≤ count / 128 ≤ 64) by dlia.
  destruct (mono_fill (32 * (count / 128)) 2 (evens (samples 128)) src c) as (b & Eb & Hb & Hs).
  { apply (half_stereo (samples 128) (32 * (count / 128)) ltac:(lia) ltac:(lia) 0). lia. }
  { done. }
  { intros i x. rewrite evens_lookup. intros Hx. rewrite <- (aget_take _ _ _ _ Hx). f_equal. lia. }
  { lia. }
  unfold oversample_fill. rewrite Hf. cbn [Z.eqb Pos.eqb]. cbv zeta. rewrite Eb.
  cbn [mbind option_bind]. eexists _, _. split; [reflexivity|]. split.
  - apply set_buf_advanced; [by apply still_advanced|done].
  - exact Hs.
  - unfold oversample_ret, granule, c_div. cbn [Z.eqb Pos.eqb]. rewrite ret_bytes by lia. dlia.
  - unfold granule. cbn [Z.eqb Pos.eqb]. lia.
Qed.

(** Every conversion. *)
Lemma oversample_fill_spec rc o :
  supported rc o →
  ∃ F c', oversample_fill rc o 32 count src c = Some (F, c') ∧
    block_done rc o F (take (Z.to_nat (granule rc o * (count / granule rc o) / 2)) src) c'.
Proof.
  intros [(-> & [-> |[-> | ->]])|(-> & [-> |[-> |[-> | ->]]])].
  - apply block_stereo_down.
  - apply (block_stereo_up 1 32 4). by left.
  - apply (block_stereo_up 2 16 3). by right.
  - apply block_mono_down.
  - apply block_mono_same.
  - apply block_mono_up. by left.
  - apply block_mono_up. by right.
Qed.
End block.

(** ** Streams *)

Definition zero5 : list Z := replicate 5 0.

(** What the device plays of the samples [xs] since the start. *)
Definition out_stream (real_channel oversample : Z) (xs : list Z) : list Z :=
  weave (chan_conv oversample zero5 zero5 (chan_of real_channel 0 xs))
        (chan_conv oversample zero5 zero5 (chan_of real_channel 1 xs)).

(** The passes remember the end of the stream. *)
Record conv_after (real_channel oversample : Z) (c : conv) (xs : list Z) : Prop := {
  ca_ok : conv_ok c;
  ca_h1 (ch : nat) : Z.of_nat ch < real_channel → 1 ≤ oversample → h1 c ch = last5 zero5 (chan_of real_channel ch xs);
  ca_h2 (ch : nat) : Z.of_nat ch < real_channel → 2 ≤ oversample →
    h2 c ch = last5 zero5 (up2 zero5 (chan_of real_channel ch xs))
}.

Lemma evens_cons {A} (x : A) l : evens (x :: l) = x :: evens (drop 1 l).
Proof. by destruct l. Qed.

Lemma evens_drop_app {A} (l1 l2 : list A) (ch : nat) :
  (ch ≤ 1)%nat → Nat.Even (length l1) → evens (drop ch (l1 ++ l2)) = evens (drop ch l1) ++ evens (drop ch l2).
Proof.
  intros Hch [n Hn]. revert l1 Hn. induction n as [|n IH]; intros l1 Hn; [by destruct l1; [destruct ch|cbn in Hn; lia]|].
  destruct l1 as [|x [|y l1]]; cbn in Hn; [lia..|]. specialize (IH l1 ltac:(lia)).
  destruct ch as [|[|]]; [| |lia]; cbn [drop app].
  - cbn. rewrite drop_0 in *. by rewrite IH.
  - rewrite !evens_cons. cbn [app]. by rewrite IH.
Qed.

Lemma chan_of_app rc ch xs ys :
  (ch ≤ 1)%nat → (rc ≠ 1 → Nat.Even (length xs)) → chan_of rc ch (xs ++ ys) = chan_of rc ch xs ++ chan_of rc ch ys.
Proof.
  intros Hch He. unfold chan_of. destruct (Z.eqb_spec rc 1) as [E|E]; [done|]. by apply evens_drop_app; auto.
Qed.

Lemma chan_conv_app o a b xs ys :
  length a = 5%nat → length b = 5%nat → (o = -1 → Nat.Even (length xs)) →
  chan_conv o a b (xs ++ ys) = chan_conv o a b xs ++ chan_conv o (last5 a xs) (last5 b (up2 a xs)) ys.
Proof.
  intros Ha Hb He. unfold chan_conv. destruct (Z.eqb_spec o (-1)); [by apply evens_app; auto|].
  destruct (_ =? 0); [done|]. destruct (_ =? 1); [by apply up2_app|]. by rewrite !up2_app by done.
Qed.

(** Whole frames, and whole pairs of them where every other one is left out. *)
Definition whole (real_channel oversample : Z) (xs : list Z) : Prop :=
  (real_channel ≠ 1 → Nat.Even (length xs)) ∧
  (oversample = -1 → ∀ ch, (ch ≤ 1)%nat → Nat.Even (length (chan_of real_channel ch xs))).

Lemma chan_conv_hist o a b a' b' xs :
  -1 ≤ o ≤ 2 → (1 ≤ o → a = a') → (2 ≤ o → b = b') → chan_conv o a b xs = chan_conv o a' b' xs.
Proof.
  intros Ho Ha Hb. unfold chan_conv. repeat case_match; try done; rewrite ?Z.eqb_neq, ?Z.eqb_eq in *.
  - rewrite Ha by lia. done.
  - rewrite Ha, Hb by lia. done.
Qed.

Lemma conv_length_chans rc o xs :
  whole rc o xs → length (chan_conv o zero5 zero5 (chan_of rc 0 xs)) = length (chan_conv o zero5 zero5 (chan_of rc 1 xs)).
Proof.
  intros [He _]. assert (length (chan_of rc 0 xs) = length (chan_of rc 1 xs)) as Hl.
  { unfold chan_of. destruct (Z.eqb_spec rc 1) as [E|E]; [done|]. destruct (He E) as [n Hn].
    rewrite !evens_length, !length_drop, Hn. destruct n as [|n]; [done|].
    replace (2 * S n - 0 + 1)%nat with (1 + S n * 2)%nat by lia. replace (2 * S n - 1 + 1)%nat with (S n * 2)%nat by lia.
    by rewrite Nat.div_add, Nat.div_mul by lia. }
  unfold chan_conv. repeat case_match; rewrite ?evens_length, ?up2_length, ?Hl; done.
Qed.

(** A block after a stream. *)
Lemma stream_block rc o c xs ys :
  (rc = 1 ∨ rc = 2) → -1 ≤ o ≤ 2 → whole rc o xs → conv_after rc o c xs →
  out_stream rc o (xs ++ ys) = out_stream rc o xs ++ block_out rc o c ys.
Proof.
  intros Hrc Ho Hx [_ H1 H2]. pose proof (conv_length_chans rc o xs Hx) as Hl. destruct Hx as [He Hc].
  assert (∀ ch, (ch ≤ 1)%nat → chan_conv o zero5 zero5 (chan_of rc ch (xs ++ ys)) =
    chan_conv o zero5 zero5 (chan_of rc ch xs) ++
    chan_conv o (last5 zero5 (chan_of rc ch xs)) (last5 zero5 (up2 zero5 (chan_of rc ch xs))) (chan_of rc ch ys)) as Happ.
  { intros ch Hch. rewrite chan_of_app by assumption. apply chan_conv_app; [reflexivity|reflexivity|auto]. }
  unfold out_stream, block_out. rewrite !Happ by lia. rewrite weave_app by exact Hl. f_equal.
  assert (∀ ch, (ch ≤ 1)%nat → chan_of rc ch xs = chan_of rc (if rc =? 1 then 0 else ch) xs) as Hsec.
  { intros ch Hch. unfold chan_of. by destruct (rc =? 1). }
  f_equal; (apply chan_conv_hist; [exact Ho|intros Hlo; symmetry..]).
  - apply H1; lia.
  - apply H2; lia.
  - unfold second. rewrite (Hsec 1%nat) by lia. apply H1; [|lia]. destruct (Z.eqb_spec rc 1); cbn; lia.
  - unfold second. rewrite (Hsec 1%nat) by lia. apply H2; [|lia]. destruct (Z.eqb_spec rc 1); cbn; lia.
Qed.

Lemma stream_advance rc o c c' xs ys :
  (rc = 1 ∨ rc = 2) → whole rc o xs → conv_after rc o c xs → advanced rc o ys c c' → conv_after rc o c' (xs ++ ys).
Proof.
  intros Hrc [He _] [_ H1 H2] [K A1 A2]. split; [done| |]; intros ch Hch Ho.
  - rewrite A1, H1 by done. unfold next1. rewrite (proj2 (Z.leb_le _ _)) by done.
    by rewrite chan_of_app, last5_app by (done || lia).
  - rewrite A2, H1, H2 by (done || lia). unfold next2. rewrite (proj2 (Z.leb_le _ _)) by done.
    by rewrite chan_of_app, up2_app, last5_app by (done || lia).
Qed.

(** ** The conversion of a block *)

(** [C20] The rate conversion of the ALSA output is exact: for every supported
    combination of channels and rates, every block of at most 8192 bytes and
    every history, it stays inside its arrays, takes the largest multiple of
    its granule, and leaves in [output_buffer] the two channels of the closed
    form (every other sample, the samples, or the half-band interpolation
    applied once or twice) after the samples of earlier blocks, whose end the
    histories carry on; the bytes it reports for the frames are those taken. *)
Theorem oversample_exact rc o count src c :
  supported rc o → 0 ≤ count ≤ 8192 → count / 2 ≤ zlen src → Forall is16 src → conv_ok c →
  let used := granule rc o * (count / granule rc o) in
  let xs := take (Z.to_nat (used / 2)) src in
  ∃ F c', oversample_fill rc o 32 count src c = Some (F, c') ∧
    slice (output_buffer c') 0 (2 * F) = Some (block_out rc o c xs) ∧
    oversample_ret rc o 32 F = used ∧ 0 ≤ count - used < granule rc o ∧
    conv_ok c' ∧
    ∀ ch : nat, Z.of_nat ch < rc →
      h1 c' ch = next1 o (h1 c ch) (chan_of rc ch xs) ∧ h2 c' ch = next2 o (h1 c ch) (h2 c ch) (chan_of rc ch xs).
Proof.
  intros Hs Hn Hl H16 Hc. cbv zeta. destruct (oversample_fill_spec count src c Hn Hl H16 Hc rc o Hs) as (F & c' & E & [[] ]).
  exists F, c'. split_and!; try done.
  - pose proof (Z.mul_div_le count (granule rc o)). unfold granule in *. repeat case_match; lia.
  - pose proof (Z.mod_pos_bound count (granule rc o)). pose proof (Z.div_mod count (granule rc o)).
    unfold granule in *. repeat case_match; lia.
  - intros ch Hch. auto.
Qed.

(** The state after [alsa_init]. *)
Definition conv_init : conv :=
  mk_conv (replicate 8 (replicate 8 0)) (replicate 8 (replicate 8 0)) (replicate (Z.to_nat 0x4000) 0)
    (replicate (Z.to_nat 0x8000) 0) (replicate (Z.to_nat 0x8000) 0).

Lemma zlen_replicate (n : Z) (x : Z) : 0 ≤ n → zlen (replicate (Z.to_nat n) x) = n.
Proof. intros Hn. unfold zlen. rewrite length_replicate. lia. Qed.

Lemma zero_hist_ok : hist_ok (replicate 8 0).
Proof. split; [done|]. apply Forall_replicate. by split. Qed.

Lemma conv_init_ok : conv_ok conv_init.
Proof.
  split; [done|done|apply Forall_replicate, zero_hist_ok|apply Forall_replicate, zero_hist_ok| | |]; by apply zlen_replicate.
Qed.

Definition demo_src : list Z := [100; 0; 200; 0; 300; 0; 400; 0; 500; 0; 600; 0; 700; 0; 800; 0; 0; 0].

Lemma oversample_exact_witness :
  ∃ F c', oversample_fill 2 2 32 36 demo_src conv_init = Some (F, c') ∧
    slice (output_buffer c') 0 (2 * F) = Some (block_out 2 2 conv_init (take 16 demo_src)) ∧
    oversample_ret 2 2 32 F = 32 ∧ 0 ≤ 36 - 32 < 32.
Proof.
  destruct (oversample_exact 2 2 36 demo_src conv_init) as (F & c' & E & Hs & Hr & Hb & _).
  - left. auto.
  - lia.
  - by vm_compute.
  - unfold demo_src, is16. repeat constructor; lia.
  - apply conv_init_ok.
  - exists F, c'. split; [exact E|]. split; [exact Hs|]. split; [exact Hr|lia].
Defined.

(** A step of the signal after two passes. *)
Example interpolated_step :
  up2 zero5 (replicate 8 1000) =
  [0; 12; 0; -86; 0; 500; 1000; 1086; 1000; 988; 1000; 1000; 1000; 1000; 1000; 1000].
Proof. vm_compute. reflexivity. Qed.
