(* ===== verification/AlsaOut.v ===== *)
(** The ALSA output, LibAudio/amadec/audio_out/alsa-out.c: its setup, the
    calls of the decoder's thread, and its own thread, which reads PCM data
    from the decoder, converts it (AlsaConv.v) and writes it to the device.

    A step of the thread runs from one call of the outside ([dsp_read],
    [snd_pcm_writei], [snd_pcm_resume], [snd_pcm_prepare]) or look at a flag
    to the next; the calls of the decoder's thread come in between.
    [alsa_stop] is three steps: the two flags, and what follows the join.
    Left out: the volume of the boot player (a float from a property, 1.0
    when it is not set), [adec_refresh_pts], which PtsMgt.v models, the
    functions that only #if 0 code calls, and the retries of
    [snd_pcm_pause]. *)

From S2P Require Import Prelude Audec Rely AlsaConv.

(** ** Data *)

Record alsa_param_t := mk_alsa {
  handle : Z;
  bits_per_sample : Z;
  bits_per_frame : Z;
  buffer_size : Z;
  channelcount : Z;
  rate : Z;
  oversample : Z;
  real_channel : Z;
  flag : Z;
  stop_flag : Z;
  pause_flag : Z;
  wait_flag : Z
}.

#[export] Instance alsa_param_eta : Eta alsa_param_t := λ r,
  mk_alsa (handle r) (bits_per_sample r) (bits_per_frame r) (buffer_size r) (channelcount r) (rate r)
    (oversample r) (real_channel r) (flag r) (stop_flag r) (pause_flag r) (wait_flag r).

(** Where the thread is: waiting for the start, before the test of the outer
    loop and of the loop that reads, in [dsp_read], in the loop of a pause,
    in the three calls of [pcm_write], and after its end. *)
Inductive apc := AtWait | AtTop | AtFill | AtRead | AtPause | AtWrite | AtResume | AtPrepare | AtEnd.

#[export] Instance apc_eq_dec : EqDecision apc.
Proof. solve_decision. Defined.

(** [a_buf]: [decode_buffer] from its aligned start on.  [a_data], [a_count]
    and [a_result] are those of [pcm_write], the data as frames. *)
Record athread := mk_ath {
  a_pc : apc;
  a_params : Z;
  a_buf : list Z;
  a_len : Z;
  a_offset : Z;
  a_data : list (list Z);
  a_count : Z;
  a_result : Z
}.

#[export] Instance athread_eta : Eta athread := λ r,
  mk_ath (a_pc r) (a_params r) (a_buf r) (a_len r) (a_offset r) (a_data r) (a_count r) (a_result r).

(** [blocks] are the blocks of parameters, [handles] the open devices, [cv]
    the static arrays.  [taken] and [used] are the bytes the decoder has
    delivered and those reported as played since the initialisation, [heard]
    the frames the device has accepted. *)
Record aworld := mk_aw {
  blocks : gmap Z alsa_param_t;
  private_data : Z;
  handles : gset Z;
  tv_mode : Z;
  cv : conv;
  ath : option athread;
  joining : bool;
  pcm_bytes : Z;
  taken : list Z;
  used : list Z;
  heard : list (list Z)
}.

#[export] Instance aworld_eta : Eta aworld := λ r,
  mk_aw (blocks r) (private_data r) (handles r) (tv_mode r) (cv r) (ath r) (joining r) (pcm_bytes r)
    (taken r) (used r) (heard r).

Definition OUTPUT_BUFFER_SIZE : Z := 8192.
Definition EINVAL : Z := 22.
Definition ENOMEM : Z := 12.
Definition EINTR : Z := 4.
Definition EAGAIN : Z := 11.
Definition ESTRPIPE : Z := 86.

(** The block behind a pointer, which must be live. *)
Definition blk (p : Z) : CM aworld alsa_param_t := λ w,
  match blocks w !! p with Some a => Some (a, w) | None => None end.
Definition set_blk (p : Z) (f : alsa_param_t → alsa_param_t) : CM aworld unit :=
  a ← blk p; cm_modify (λ w, w <| blocks := <[p := f a]> (blocks w) |>).

(** ** Setup *)

(** The conversion for a sample rate: [flag], [oversample] and [rate]. *)
Definition choose_rate (samplerate channels : Z) : Z * Z * Z :=
  let mono := if channels =? 1 then 1 else 0 in
  if samplerate >=? c_div (88200 + 96000) 2 then (1, -1, 48000)
  else if samplerate >=? c_div (64000 + 88200) 2 then (1, -1, 44100)
  else if samplerate >=? c_div (48000 + 64000) 2 then (1, -1, 32000)
  else if samplerate >=? c_div (44100 + 48000) 2 then (mono, 0, 48000)
  else if samplerate >=? c_div (32000 + 44100) 2 then (mono, 0, 44100)
  else if samplerate >=? c_div (24000 + 32000) 2 then (mono, 0, 32000)
  else if samplerate >=? c_div (22050 + 24000) 2 then (1, 1, 48000)
  else if samplerate >=? c_div (16000 + 22050) 2 then (1, 1, 44100)
  else if samplerate >=? c_div (12000 + 16000) 2 then (1, 1, 32000)
  else if samplerate >=? c_div (11025 + 12000) 2 then (1, 2, 48000)
  else if samplerate >=? c_div (8000 + 11025) 2 then (1, 2, 44100)
  else (1, 2, 32000).

(** [strstr] on the bytes of a string, as an index. *)
Fixpoint find_sub (pat s : list Z) : option nat :=
  if bool_decide (take (length pat) s = pat) then Some 0%nat
  else match s with [] => None | _ :: s => S <$> find_sub pat s end.

(** The string in a buffer; no result when nothing ends it. *)
Fixpoint c_string (buf : list Z) : option (list Z) :=
  match buf with
  | [] => None
  | x :: buf => if x =? 0 then Some [] else cons x <$> c_string buf
  end.

(** The list of sound cards cannot be opened, there is no memory, or it has
    these bytes. *)
Inductive cards_file := CardsClosed | CardsNoMem | CardsText (bytes : list Z).

(** No result: the code follows the NULL of [strstr], or reads before or
    behind its buffer. *)
Definition alsa_get_aml_card (f : cards_file) : option Z :=
  match f with
  | CardsClosed => Some (- EINVAL)
  | CardsNoMem => Some (- ENOMEM)
  | CardsText bytes =>
      let got := take 512 bytes in
      let read_buf := got ++ replicate (512 - length got) 0 in
      s ← c_string read_buf;
      pd ← find_sub [65; 77; 76] s;
      x ← aget read_buf (Z.of_nat pd - 3);
      Some (x - 48)
  end.

(** The answers of the ALSA library to the calls of [set_params], in their
    order, with the rate and the number of frames of the buffer it chooses. *)
Record hw_answer := mk_hw { hw_err : nat → Z; hw_rate : Z; hw_frames : Z }.

Definition set_params (p : Z) (tv : Z) (h : hw_answer) : CM aworld Z :=
  let guard (k : nat) (m : CM aworld Z) : CM aworld Z := if hw_err h k <? 0 then mret (hw_err h k) else m in
  guard 0%nat (guard 1%nat (guard 2%nat (
  (if negb (tv =? 0) then set_blk p (λ a, a <| channelcount := 8 |>) else mret tt);;
  set_blk p (λ a, a <| channelcount := 2 |>);;
  guard 3%nat (
  (if hw_err h 4%nat <? 0 then cm_fail else mret tt);;
  set_blk p (λ a, a <| rate := hw_rate h |>);;
  set_blk p (λ a, a <| bits_per_sample := 16 |> <| bits_per_frame := u64 (16 * channelcount a) |>);;
  guard 5%nat (guard 6%nat (guard 7%nat (guard 8%nat (
  set_blk p (λ a, a <| buffer_size := i32 (u64 (hw_frames h * bits_per_frame a) / 8) |>);;
  guard 9%nat (guard 10%nat (mret 0)))))))))).

(** The outside of an initialisation: the property, the address malloc gives
    (0 for none), the sound cards, the handle [snd_pcm_open] gives (negative:
    its error), the hardware, and whether the thread is created. *)
Record init_answer := mk_ia {
  ia_tv : Z; ia_malloc : Z; ia_cards : cards_file; ia_open : Z; ia_hw : hw_answer; ia_thread : bool; ia_garbage : list Z
}.

(** The result of [set_params] is not looked at, and a failure frees
    nothing. *)
Definition alsa_init (samplerate channels : Z) (x : init_answer) : CM aworld Z :=
  cm_modify (λ w, w <| tv_mode := ia_tv x |>);;
  let p := ia_malloc x in
  if p =? NULL then mret (-1) else
  let '(fl, ov, rt) := choose_rate samplerate channels in
  cm_modify (λ w, w <| blocks := <[p := mk_alsa NULL 0 0 0 2 rt ov channels fl 0 0 0]> (blocks w) |>);;
  cm_modify (λ w, w <| cv := cv w <| pass1_history := replicate 8 (replicate 8 0) |>
                                 <| pass2_history := replicate 8 (replicate 8 0) |> |>);;
  cm_lift (alsa_get_aml_card (ia_cards x));;
  if ia_open x <? 0 then mret (-1) else
  set_blk p (λ a, a <| handle := ia_open x |>);;
  cm_modify (λ w, w <| handles := {[ ia_open x ]} ∪ handles w |>);;
  set_params p (ia_tv x) (ia_hw x);;
  cm_modify (λ w, w <| private_data := p |>);;
  if negb (ia_thread x) then
    a ← blk p; cm_modify (λ w, w <| handles := handles w ∖ {[ handle a ]} |>);; mret (-1)
  else
    cm_modify (λ w, w <| ath := Some (mk_ath AtWait p (ia_garbage x) 0 0 [] 0 0) |>
                      <| taken := [] |> <| used := [] |> <| heard := [] |>);;
    mret 0.

(** ** The calls of the decoder's thread *)

Definition on_private (f : alsa_param_t → alsa_param_t) : CM aworld unit :=
  p ← cm_gets private_data; set_blk p f.

Definition alsa_start : CM aworld Z := on_private (λ a, a <| wait_flag := 1 |>);; mret 0.

(** [res]: the answer of [snd_pcm_pause]. *)
Definition alsa_pause (res : Z) : CM aworld Z := on_private (λ a, a <| pause_flag := 1 |>);; mret res.
Definition alsa_resume (res : Z) : CM aworld Z := on_private (λ a, a <| pause_flag := 0 |>);; mret res.

Definition alsa_stop_pause : CM aworld unit := on_private (λ a, a <| pause_flag := 0 |>).
Definition alsa_stop_flag : CM aworld unit :=
  on_private (λ a, a <| stop_flag := 1 |>);; cm_modify (λ w, w <| joining := true |>).

(** After the join; closing a handle twice, or a block that is gone, has no
    result. *)
Definition alsa_stop_end : CM aworld Z :=
  w ← cm_get;
  (match ath w with
   | Some t => if decide (a_pc t = AtEnd) then mret tt else cm_fail
   | None => cm_fail
   end);;
  let p := private_data w in
  a ← blk p;
  (if decide (handle a ∈ handles w) then mret tt else cm_fail);;
  cm_modify (λ w, w <| handles := handles w ∖ {[ handle a ]} |> <| blocks := delete p (blocks w) |>
                    <| private_data := NULL |> <| ath := None |> <| joining := false |>);;
  mret 0.

(** [avail]: the free frames of the device, negative when there is no
    status. *)
Definition alsa_get_space (a : alsa_param_t) (avail : Z) : Z :=
  if avail <? 0 then 0 else
  let ret := i32 (u64 (avail * bits_per_sample a) / 8) in
  if ret >? buffer_size a then buffer_size a else ret.

Definition alsa_latency (avail : Z) : CM aworld Z :=
  p ← cm_gets private_data;
  a ← blk p;
  tv ← cm_gets tv_mode;
  let bps := if negb (tv =? 0) then i32 (i32 (bits_per_sample a) * 4) else i32 (bits_per_sample a) in
  buffered_data ← cm_lift (int_ok (buffer_size a - alsa_get_space a avail));
  let d := u32 (channelcount a * c_div bps 8) in
  if d =? 0 then cm_fail else
  let sample_num := i32 (u32 buffered_data / d) in
  n ← cm_lift (int_ok (sample_num * 1000));
  if rate a =? 0 then cm_fail else mret (u32 n / rate a).

(** ** Writing *)

(** The frames of two shorts each. *)
Fixpoint frames_of (xs : list Z) : list (list Z) :=
  match xs with
  | l :: r :: xs => [l; r] :: frames_of xs
  | _ => []
  end.

(** The frame of eight 32-bit samples a television gets. *)
Definition tv_frame (f : list Z) : list Z :=
  match f with
  | [l; r] => [l * 2 ^ 16; r * 2 ^ 16; l * 2 ^ 16; r * 2 ^ 16; 0; 0; 0; 0]
  | _ => f
  end.

Definition device_frame (tv : Z) : list Z → list Z := if tv =? 0 then id else tv_frame.

(** The first part of [pcm_write]: the frames to write; [None]: there is no
    memory for them.  The data are [count] frames of the shorts. *)
Definition pcm_write_begin (tv : Z) (alloc : bool) (data : list Z) (count : Z) : option (option (list (list Z))) :=
  xs ← slice data 0 (2 * count);
  Some (if negb (tv =? 0) && negb alloc then None else Some (device_frame tv <$> frames_of xs)).

(** The data [alsa_play] hands to [pcm_write], and its number of frames. *)
Definition alsa_play_begin (a : alsa_param_t) (data : list Z) (len : Z) (c : conv) : option (list Z * Z * conv) :=
  if bits_per_frame a =? 0 then None else
  if flag a =? 0 then
    Some (shorts_of data, Z.land (u32 (len * 8) / bits_per_frame a) (Z.lnot 31), c)
  else
    '(n, c) ← oversample_fill (real_channel a) (oversample a) (bits_per_frame a) (u32 len) (shorts_of data) c;
    Some (output_buffer c, n, c).

(** The bytes it reports. *)
Definition alsa_play_end (a : alsa_param_t) (r : Z) : Z :=
  if flag a =? 0 then i32 (u64 (r * bits_per_frame a) / 8)
  else i32 (u32 (oversample_ret (real_channel a) (oversample a) (bits_per_frame a) r)).

(** ** The thread *)

Inductive answer := ANone | ARead (r : Z) (bytes : list Z) | AAlloc (ok : bool) | ANum (r : Z).

Definition answer_num (x : answer) : CM aworld Z := match x with ANum r => mret r | _ => cm_fail end.

Definition get_ath : CM aworld athread := λ w,
  match ath w with Some t => Some (t, w) | None => None end.
Definition put_ath (t : athread) : CM aworld unit := cm_modify (λ w, w <| ath := Some t |>).
Definition goto (pc : apc) : CM aworld unit := t ← get_ath; put_ath (t <| a_pc := pc |>).

(** [while (!wait_flag && stop_flag == 0)] *)
Definition loop_wait : CM aworld unit :=
  t ← get_ath; a ← blk (a_params t);
  goto (if (wait_flag a =? 0) && (stop_flag a =? 0) then AtWait else AtTop).

(** [while (!stop_flag)] *)
Definition loop_top : CM aworld unit :=
  t ← get_ath; a ← blk (a_params t);
  goto (if stop_flag a =? 0 then AtFill else AtEnd).

(** [while ((len < 256) && (!stop_flag))], up to [dsp_read]; [memcpy] has no
    meaning on ranges that overlap. *)
Definition loop_fill : CM aworld unit :=
  t ← get_ath; a ← blk (a_params t);
  if (a_len t <? 256) && (stop_flag a =? 0) then
    (if a_offset t >? 0 then
       src ← cm_lift (slice (a_buf t) (a_offset t) (a_len t));
       buf ← cm_lift (splice (a_buf t) 0 src);
       if a_offset t <? a_len t then cm_fail else put_ath (t <| a_buf := buf |>)
     else mret tt);;
    goto AtRead
  else
    cm_modify (λ w, w <| pcm_bytes := i64 (pcm_bytes w + a_len t) |>);;
    goto AtPause.

Definition loop_read (x : answer) : CM aworld unit :=
  match x with
  | ARead r bytes =>
      t ← get_ath;
      buf ← cm_lift (splice (a_buf t) (a_len t) bytes);
      len ← cm_lift (int_ok (a_len t + r));
      cm_modify (λ w, w <| taken := taken w ++ bytes |>);;
      put_ath (t <| a_buf := buf |> <| a_len := len |> <| a_offset := 0 |> <| a_pc := AtFill |>)
  | _ => cm_fail
  end.

(** After [alsa_play]. *)
Definition played (r : Z) : CM aworld unit :=
  t ← get_ath; a ← blk (a_params t);
  let len2 := alsa_play_end a r in
  if len2 >=? 0 then
    cm_modify (λ w, w <| used := used w ++ take (Z.to_nat len2) (drop (Z.to_nat (a_offset t)) (a_buf t)) |>);;
    put_ath (t <| a_len := a_len t - len2 |> <| a_offset := a_offset t + len2 |> <| a_pc := AtTop |>)
  else put_ath (t <| a_len := 0 |> <| a_offset := 0 |> <| a_pc := AtTop |>).

(** [while (count > 0)] *)
Definition write_loop : CM aworld unit :=
  t ← get_ath;
  if a_count t >? 0 then goto AtWrite else played (a_result t).

(** [while (pause_flag)], the test for a stop, and [alsa_play]. *)
Definition loop_pause (x : answer) : CM aworld unit :=
  t ← get_ath; a ← blk (a_params t);
  if negb (pause_flag a =? 0) then goto AtPause else
  if negb (stop_flag a =? 0) then goto AtEnd else
  match x with
  | AAlloc alloc =>
      w ← cm_get;
      '(data, n, c) ← cm_lift (alsa_play_begin a (drop (Z.to_nat (a_offset t)) (a_buf t)) (a_len t) (cv w));
      cm_modify (λ w, w <| cv := c |>);;
      f ← cm_lift (pcm_write_begin (tv_mode w) alloc data n);
      match f with
      | None => played (u64 (-1))
      | Some frames => put_ath (t <| a_data := frames |> <| a_count := n |> <| a_result := 0 |>);; write_loop
      end
  | _ => cm_fail
  end.

(** What [pcm_write] does with an answer [r] that is not negative. *)
Definition written (r : Z) : CM aworld unit :=
  t ← get_ath;
  (if r >? 0 then
     cm_modify (λ w, w <| heard := heard w ++ take (Z.to_nat r) (a_data t) |>);;
     put_ath (t <| a_result := u64 (a_result t + r) |> <| a_count := u64 (a_count t - r) |>
                <| a_data := drop (Z.to_nat r) (a_data t) |>)
   else mret tt);;
  write_loop.

Definition loop_write (x : answer) : CM aworld unit :=
  r ← answer_num x;
  let r := if r =? - EINTR then 0 else r in
  if r =? - ESTRPIPE then goto AtResume else
  if r <? 0 then goto AtPrepare else written r.

Definition loop_resume (x : answer) : CM aworld unit :=
  r ← answer_num x;
  if r =? - EAGAIN then goto AtResume else
  if r <? 0 then goto AtPrepare else written r.

(** A device that cannot be prepared ends the call with 0. *)
Definition loop_prepare (x : answer) : CM aworld unit :=
  r ← answer_num x;
  if r <? 0 then played 0 else written r.

Definition alsa_playback_loop (x : answer) : CM aworld unit :=
  t ← get_ath;
  match a_pc t with
  | AtWait => loop_wait
  | AtTop => loop_top
  | AtFill => loop_fill
  | AtRead => loop_read x
  | AtPause => loop_pause x
  | AtWrite => loop_write x
  | AtResume => loop_resume x
  | AtPrepare => loop_prepare x
  | AtEnd => mret tt
  end.
