(* ===== verification/AlsaSession.v ===== *)
(** Schedules of the ALSA output (AlsaOut.v): in every life the decoder's
    thread gives it (Rely.v) it is safe and releases what it took, and the
    device plays the converted stream of the decoder (AlsaConv.v). *)

From S2P Require Import Prelude Audec Rely AlsaConv AlsaOut.

(** ** Schedules *)

(** [ENew]: a new instance of the decoder after the last has stopped. *)
Inductive aevent :=
| ENew
| EInit (samplerate channels : Z) (x : init_answer)
| EStart
| EPause (res : Z)
| EResume (res : Z)
| EStopPause
| EStopFlag
| EStopEnd
| ELatency (avail : Z)
| EThread (x : answer).

Definition aexec (e : aevent) : CM aworld Z :=
  match e with
  | ENew => mret 0
  | EInit sr ch x => alsa_init sr ch x
  | EStart => alsa_start
  | EPause r => alsa_pause r
  | EResume r => alsa_resume r
  | EStopPause => alsa_stop_pause;; mret 0
  | EStopFlag => alsa_stop_flag;; mret 0
  | EStopEnd => alsa_stop_end
  | ELatency n => alsa_latency n
  | EThread x => alsa_playback_loop x;; mret 0
  end.

(** How far a stop is. *)
Inductive stop_stage := NoStop | PauseCleared | FlagSet.

#[export] Instance stop_stage_eq_dec : EqDecision stop_stage.
Proof. solve_decision. Defined.

(** The life of the output, the stage of a stop, and the number of
    initialisations that failed after they had taken memory. *)
Record asys := mk_as { life : dev_state; stage : stop_stage; failed : nat; aw : aworld }.

(** The operation of the output in the life of Rely.v. *)
Definition life_op (e : aevent) : option req :=
  match e with
  | EInit _ _ _ => Some (Aout AoutInit)
  | EStart => Some (Aout AoutStart)
  | EPause _ => Some (Aout AoutPause)
  | EResume _ => Some (Aout AoutResume)
  | EStopPause => Some (Aout AoutStop)
  | _ => None
  end.

Definition next_life (e : aevent) (r : Z) (d : dev_state) : dev_state :=
  match e with
  | ENew => DevClosed
  | _ => match life_op e with Some q => default d (dev_step d q r) | None => d end
  end.
Definition next_stage (e : aevent) (g : stop_stage) : stop_stage :=
  match e with EStopPause => PauseCleared | EStopFlag => FlagSet | EStopEnd => NoStop | _ => g end.
Definition next_failed (e : aevent) (r : Z) (n : nat) : nat :=
  match e with EInit _ _ x => if (r =? 0) || (ia_malloc x =? NULL) then n else S n | _ => n end.

(** What the outside of an initialisation may answer: the AML card is listed,
    the hardware accepts the parameters, and memory and device are new; the
    allocation, the opening of the device and the thread may fail. *)
Record init_ok (channels : Z) (x : init_answer) (w : aworld) : Prop := {
  io_channels : channels = 1 ∨ channels = 2;
  io_malloc : blocks w !! ia_malloc x = None;
  io_cards : is_Some (alsa_get_aml_card (ia_cards x));
  io_open : ia_open x ∉ handles w;
  io_hw k : (k ≤ 4)%nat → 0 ≤ hw_err (ia_hw x) k;
  io_rate : 0 < hw_rate (ia_hw x) < 2 ^ 32;
  io_frames : 0 ≤ hw_frames (ia_hw x) ≤ 2 ^ 20;
  io_garbage : zlen (ia_garbage x) = OUTPUT_BUFFER_SIZE
}.

(** What the outside of the thread may answer: a read of the decoder stores
    and reports at most what was asked for and does not fail, the device
    accepts no more frames than it is offered. *)
Definition answer_ok (t : athread) (x : answer) : Prop :=
  match a_pc t with
  | AtWait | AtTop | AtFill => True
  | AtRead => ∃ bytes, x = ARead (zlen bytes) bytes ∧ a_len t + zlen bytes ≤ OUTPUT_BUFFER_SIZE
  | AtPause => ∃ b, x = AAlloc b
  | AtWrite => ∃ r, x = ANum r ∧ r ≤ a_count t
  | AtResume | AtPrepare => ∃ r, x = ANum r ∧ r ≤ 0
  | AtEnd => False
  end.

Definition alegal (e : aevent) (s : asys) : Prop :=
  match e with
  | ENew => life s = DevStopped ∧ stage s = NoStop
  | EInit _ ch x => life s = DevClosed ∧ init_ok ch x (aw s)
  | EStart => life s = DevReady
  | EPause _ => life s = DevPlaying
  | EResume _ => life s = DevPaused
  | EStopPause => life s ∈ [DevReady; DevPlaying; DevPaused]
  | EStopFlag => stage s = PauseCleared
  | EStopEnd => stage s = FlagSet ∧ (a_pc <$> ath (aw s)) = Some AtEnd
  | ELatency n => life s ∈ [DevReady; DevPlaying; DevPaused] ∧ n ≤ 2 ^ 20
  | EThread x => ∃ t, ath (aw s) = Some t ∧ answer_ok t x
  end.

(** A legal call of the decoder's thread is a step of the output's life. *)
Lemma legal_life e s q r :
  alegal e s → life_op e = Some q → dev_step (life s) q r = Some (next_life e r (life s)).
Proof.
  destruct e; cbn [alegal life_op]; intros Hl [= <-]; unfold next_life; cbn [life_op dev_step];
    rewrite ?elem_of_cons, ?elem_of_nil in Hl; try (by rewrite Hl); try (by destruct Hl as [-> _]).
  by destruct Hl as [->|[->|[->|[]]]].
Qed.

Definition after (e : aevent) (r : Z) (w : aworld) (s : asys) : asys :=
  mk_as (next_life e r (life s)) (next_stage e (stage s)) (next_failed e r (failed s)) w.

(** One event; the world before the first. *)
Definition astep (e : aevent) (s s' : asys) : Prop :=
  alegal e s ∧ ∃ r w', aexec e (aw s) = Some (r, w') ∧ s' = after e r w' s.
Definition alsa_boot : asys :=
  mk_as DevClosed NoStop 0 (mk_aw ∅ NULL ∅ 0 conv_init None false 0 [] [] []).

(** ** Invariant *)

Record param_ok (a : alsa_param_t) : Prop := {
  po_sample : bits_per_sample a = 16;
  po_frame : bits_per_frame a = 32;
  po_count : channelcount a = 2;
  po_rate : 0 < rate a < 2 ^ 32;
  po_size : 0 ≤ buffer_size a ≤ 2 ^ 22;
  po_mode : (flag a = 0 ∧ real_channel a = 2 ∧ oversample a = 0) ∨
            (flag a ≠ 0 ∧ supported (real_channel a) (oversample a))
}.

(** The bytes a call of [alsa_play] takes are a multiple of this. *)
Definition gran (a : alsa_param_t) : Z :=
  if flag a =? 0 then 128 else granule (real_channel a) (oversample a).

(** The thread is inside [pcm_write]. *)
Definition writing (pc : apc) : bool :=
  match pc with AtWrite | AtResume | AtPrepare => true | _ => false end.

Record thread_ok (a : alsa_param_t) (t : athread) : Prop := {
  to_buf : zlen (a_buf t) = OUTPUT_BUFFER_SIZE;
  to_len : 0 ≤ a_len t;
  to_offset : 0 ≤ a_offset t;
  to_fits : a_offset t + a_len t ≤ OUTPUT_BUFFER_SIZE;
  to_top : a_pc t = AtTop ∨ a_pc t = AtWait ∨ a_pc t = AtFill →
    (a_len t ≤ a_offset t ∨ a_offset t = 0) ∧ (256 ≤ a_len t → a_offset t = 0);
  to_read : a_pc t = AtRead → a_len t < 256;
  to_pause : a_pc t = AtPause → (256 ≤ a_len t ∧ a_offset t = 0) ∨ stop_flag a ≠ 0;
  to_write : writing (a_pc t) = true →
    a_offset t = 0 ∧ 256 ≤ a_len t ∧ 0 < a_count t ∧ 0 ≤ a_result t ∧
    a_count t = zlen (a_data t) ∧ a_result t + a_count t ≤ 0x4000 ∧
    alsa_play_end a (a_result t + a_count t) = gran a * (a_len t / gran a);
  to_end : a_pc t = AtEnd → stop_flag a ≠ 0
}.

(** The part of the world the thread works on. *)
Record tinv (a : alsa_param_t) (t : athread) (w : aworld) : Prop := {
  ti_thr : ath w = Some t;
  ti_blk : blocks w !! a_params t = Some a;
  ti_param : param_ok a;
  ti_thread : thread_ok a t;
  ti_conv : conv_ok (cv w)
}.

Definition same_env (w w' : aworld) : Prop :=
  blocks w' = blocks w ∧ private_data w' = private_data w ∧ handles w' = handles w ∧
  tv_mode w' = tv_mode w ∧ joining w' = joining w.

(** The bytes the thread holds. *)
Definition pend (t : athread) : list Z :=
  match a_pc t with
  | AtRead => take (Z.to_nat (a_len t)) (a_buf t)
  | _ => take (Z.to_nat (a_len t)) (drop (Z.to_nat (a_offset t)) (a_buf t))
  end.

(** The bytes [pcm_write] is about. *)
Definition in_work (a : alsa_param_t) (t : athread) : list Z :=
  if writing (a_pc t) then take (Z.to_nat (alsa_play_end a (a_result t + a_count t))) (a_buf t) else [].
Definition unwritten (t : athread) : list (list Z) := if writing (a_pc t) then a_data t else [].

(** What the device plays for the bytes [bs] since the start. *)
Definition device_stream (tv : Z) (a : alsa_param_t) (bs : list Z) : list (list Z) :=
  device_frame tv <$> frames_of (out_stream (real_channel a) (oversample a) (shorts_of bs)).

Record in_tune (a : alsa_param_t) (t : athread) (w : aworld) : Prop := {
  it_bytes : taken w = used w ++ pend t;
  it_even : Nat.Even (length (used w));
  it_whole : whole (real_channel a) (oversample a) (shorts_of (used w));
  it_conv : conv_after (real_channel a) (oversample a) (cv w) (shorts_of (used w ++ in_work a t));
  it_heard : heard w ++ unwritten t = device_stream (tv_mode w) a (used w ++ in_work a t)
}.

(** The device can be prepared, and there is memory for the frames. *)
Definition smooth (t : athread) (x : answer) : Prop :=
  match a_pc t, x with
  | AtPrepare, ANum r => 0 ≤ r
  | AtPause, AAlloc b => b = true
  | _, _ => True
  end.

(** The post-condition of a piece of the thread's code that begins with the
    thread [t] in the world [w]. *)
Record moved (a : alsa_param_t) (t : athread) (w : aworld) (clean : Prop) (w' : aworld) (t' : athread) : Prop := {
  mv_inv : tinv a t' w';
  mv_env : same_env w w';
  mv_ptr : a_params t' = a_params t;
  mv_tune : clean → in_tune a t w → in_tune a t' w'
}.
Definition moves a t w clean w' : Prop := ∃ t', moved a t w clean w' t'.

(** ** Rules *)

Section thread.
Context (a : alsa_param_t) (t0 : athread) (w0 : aworld) (clean : Prop).

Lemma cwp_get_ath t Q w : tinv a t w → Q t w → cwp get_ath Q w.
Proof. intros Hw HQ. unfold cwp, get_ath. by rewrite (ti_thr _ _ _ Hw). Qed.

Lemma cwp_blk t Q w : tinv a t w → Q a w → cwp (blk (a_params t)) Q w.
Proof. intros Hw HQ. unfold cwp, blk. by rewrite (ti_blk _ _ _ Hw). Qed.

Lemma same_env_refl w : same_env w w.
Proof. done. Qed.
#[local] Hint Resolve same_env_refl : core.

(** The end of a piece: the thread becomes [t']. *)
Lemma put_moves t' w :
  blocks w !! a_params t' = Some a → param_ok a → conv_ok (cv w) → thread_ok a t' → same_env w0 w →
  a_params t' = a_params t0 → (clean → in_tune a t0 w0 → in_tune a t' (w <| ath := Some t' |>)) →
  cwp (put_ath t') (λ _, moves a t0 w0 clean) w.
Proof. intros Hb Hp Hc Ht He Hq Hi. unfold put_ath. cwp_steps. exists t'. by split. Qed.

Lemma goto_moves t pc w :
  tinv a t w → same_env w0 w → a_params t = a_params t0 → thread_ok a (t <| a_pc := pc |>) →
  (clean → in_tune a t0 w0 → in_tune a (t <| a_pc := pc |>) (w <| ath := Some (t <| a_pc := pc |>) |>)) →
  cwp (goto pc) (λ _, moves a t0 w0 clean) w.
Proof.
  intros Hw He Hq Ht Hi. unfold goto. cwp_step. eapply cwp_get_ath; [done|]. destruct Hw. by apply put_moves.
Qed.

(** Bytes, frames and history stay. *)
Lemma tune_same t t' w w' :
  in_tune a t w → pend t' = pend t → in_work a t' = in_work a t → unwritten t' = unwritten t →
  taken w' = taken w → used w' = used w → cv w' = cv w → heard w' = heard w → tv_mode w' = tv_mode w →
  in_tune a t' w'.
Proof. intros [] E1 E2 E3 E4 E5 E6 E7 E8. split; rewrite ?E1, ?E2, ?E3, ?E4, ?E5, ?E6, ?E7, ?E8; done. Qed.

Lemma in_work_none t : writing (a_pc t) = false → in_work a t = [] ∧ unwritten t = [].
Proof. unfold in_work, unwritten. by intros ->. Qed.
End thread.

(** ** Reading *)

Section reading.
Context (a : alsa_param_t) (t : athread) (w : aworld).
Context (Hw : tinv a t w).

Lemma wait_moves clean : a_pc t = AtWait → cwp loop_wait (λ _, moves a t w clean) w.
Proof.
  intros Hpc. unfold loop_wait. cwp_step. eapply cwp_get_ath; [done|]. cwp_step. eapply cwp_blk; [done|].
  pose proof (ti_thread _ _ _ Hw) as [T1 T2 T3 T4 T5 T6 T7 T8 T9].
  assert (∀ pc, pc = AtWait ∨ pc = AtTop → cwp (goto pc) (λ _, moves a t w clean) w) as Hgo; [|destruct (_ && _); by apply Hgo; auto].
  intros pc Hp. eapply goto_moves; [done|done|done| |].
  { split; cbn; try done; destruct Hp as [-> | ->]; try done; intros _; apply T5; auto. }
  intros _ Hi. eapply tune_same; [exact Hi|..]; try done; unfold pend, in_work, unwritten; rewrite Hpc; by destruct Hp as [-> | ->].
Qed.

Lemma loop_top_moves clean : a_pc t = AtTop → cwp loop_top (λ _, moves a t w clean) w.
Proof.
  intros Hpc. unfold loop_top. cwp_step. eapply cwp_get_ath; [done|]. cwp_step. eapply cwp_blk; [done|].
  pose proof (ti_thread _ _ _ Hw) as [T1 T2 T3 T4 T5 T6 T7 T8 T9].
  destruct (Z.eqb_spec (stop_flag a) 0) as [Hs|Hs]; eapply goto_moves; try done.
  - split; cbn; try done. intros _. apply T5. auto.
  - intros _ Hi. eapply tune_same; [exact Hi|..]; try done; unfold pend, in_work, unwritten; by rewrite Hpc.
  - split; cbn; try done. by intros [|[]].
  - intros _ Hi. eapply tune_same; [exact Hi|..]; try done; unfold pend, in_work, unwritten; by rewrite Hpc.
Qed.

(** The rest of the data is at the start. *)
Lemma fill_read clean t1 w1 :
  a_pc t = AtFill → tinv a t1 w1 → same_env w w1 → a_params t1 = a_params t → a_len t1 = a_len t → a_len t < 256 →
  take (Z.to_nat (a_len t)) (a_buf t1) = take (Z.to_nat (a_len t)) (drop (Z.to_nat (a_offset t)) (a_buf t)) →
  (taken w1, used w1, cv w1, heard w1) = (taken w, used w, cv w, heard w) →
  cwp (goto AtRead) (λ _, moves a t w clean) w1.
Proof.
  intros Hpc Hw1 He Hq Hl Hlt Hd [= E1 E2 E3 E4]. pose proof (ti_thread _ _ _ Hw1) as [T1 T2 T3 T4 T5 T6 T7 T8 T9].
  eapply goto_moves; [exact Hw1|done|done| |].
  { split; cbn; try done; [by intros [|[]]|lia]. }
  intros _ Hi. eapply tune_same; [exact Hi|..]; try done; try apply He; unfold pend, in_work, unwritten; rewrite Hpc; try done.
  cbn. by rewrite Hl.
Qed.

Lemma fill_pause clean :
  a_pc t = AtFill → (256 ≤ a_len t ∧ a_offset t = 0) ∨ stop_flag a ≠ 0 →
  cwp (cm_modify (λ w, w <| pcm_bytes := i64 (pcm_bytes w + a_len t) |>);; goto AtPause) (λ _, moves a t w clean) w.
Proof.
  intros Hpc Hp. cwp_step. cwp_step. pose proof (ti_thread _ _ _ Hw) as [T1 T2 T3 T4 T5 T6 T7 T8 T9].
  eapply (goto_moves a t w clean t); [by destruct Hw|done|done| |].
  { split; cbn; try done. by intros [|[]]. }
  intros _ Hi. eapply tune_same; [exact Hi|..]; try done; unfold pend, in_work, unwritten; by rewrite Hpc.
Qed.

Lemma fill_moves clean : a_pc t = AtFill → cwp loop_fill (λ _, moves a t w clean) w.
Proof.
  intros Hpc. unfold loop_fill. cwp_step. eapply cwp_get_ath; [done|]. cwp_step. eapply cwp_blk; [done|].
  pose proof (ti_thread _ _ _ Hw) as [T1 T2 T3 T4 T5 T6 T7 T8 T9]. destruct T5 as [To Tz]; [auto|].
  destruct (Z.ltb_spec (a_len t) 256) as [Hl|Hl]; destruct (Z.eqb_spec (stop_flag a) 0) as [Hs|Hs]; cbn [andb].
  2-4: apply fill_pause; [done|by auto].
  rewrite Z.gtb_ltb. destruct (Z.ltb_spec 0 (a_offset t)) as [Ho|Ho]; cwp_step.
  - assert (a_len t ≤ a_offset t) as Hle by lia.
    cwp_step. eapply cwp_lift; [apply slice_some; lia|]. cwp_step. set (src := take _ _).
    assert (length src = Z.to_nat (a_len t)) as Hsrc by (unfold src, zlen in *; rewrite length_take, length_drop; lia).
    destruct (splice (a_buf t) 0 src) as [buf|] eqn:E.
    2:{ rewrite splice_some in E; [done|done|]. unfold zlen in *. lia. }
    eapply cwp_lift; [done|]. rewrite (proj2 (Z.ltb_ge _ _)) by lia. unfold put_ath. cwp_step.
    eapply (fill_read clean (t <| a_buf := buf |>)); try done.
    + destruct Hw. split; cbn; try done. split; cbn; try done; [|by rewrite Hpc..].
      unfold zlen in *. by rewrite (splice_length _ _ _ _ E).
    + cbn. by rewrite (take_splice _ _ _ _ _ E) by (rewrite Hsrc; lia).
  - cwp_step. eapply (fill_read clean t w); try done. by replace (a_offset t) with 0 by lia.
Qed.

Lemma loop_read_moves clean x : a_pc t = AtRead → answer_ok t x → cwp (loop_read x) (λ _, moves a t w clean) w.
Proof.
  intros Hpc Hx. unfold answer_ok in Hx. rewrite Hpc in Hx. destruct Hx as (bytes & -> & Hfit).
  unfold loop_read. cwp_step. eapply cwp_get_ath; [done|]. cwp_step.
  pose proof (ti_thread _ _ _ Hw) as [T1 T2 T3 T4 T5 T6 T7 T8 T9]. pose proof (zlen_nonneg bytes) as Hz.
  destruct (splice (a_buf t) (a_len t) bytes) as [buf|] eqn:E; [|by rewrite splice_some in E by lia].
  eapply cwp_lift; [done|]. pose proof (splice_length _ _ _ _ E) as El. cwp_step.
  eapply cwp_lift; [apply int_ok_some; unfold INT_MIN, INT_MAX, OUTPUT_BUFFER_SIZE in *; lia|]. do 2 cwp_step.
  apply put_moves; try done; try (destruct Hw; done).
  - split; cbn; try done; try lia. unfold zlen in *. by rewrite El.
  - intros _ [I1 I2 I3 I4 I5]. unfold in_work, unwritten, pend in *. rewrite Hpc in *. cbn in *.
    split; try done. cbn. rewrite I1, drop_0, <- app_assoc. f_equal.
    symmetry. apply (take_splice _ _ _ _ _ E). unfold zlen. lia.
Qed.
End reading.

(** ** Playing a block *)

Lemma shorts_take bs k : shorts_of (take (2 * k) bs) = take k (shorts_of bs).
Proof.
  revert bs. induction k as [|k IH]; intros bs; [by destruct bs|]. replace (2 * S k)%nat with (S (S (2 * k))) by lia.
  destruct bs as [|lo [|hi bs]]; [done..|]. cbn [take shorts_of]. f_equal. apply IH.
Qed.

Lemma weave_evens (xs : list Z) : Nat.Even (length xs) → weave (evens xs) (evens (drop 1 xs)) = xs.
Proof.
  intros [n Hn]. revert xs Hn. induction n as [|n IH]; intros xs Hn; [by destruct xs; [|cbn in Hn; lia]|].
  destruct xs as [|x [|y xs]]; cbn in Hn; [lia..|]. change (drop 1 (x :: y :: xs)) with (y :: xs).
  rewrite (evens_cons y xs). change (evens (x :: y :: xs)) with (x :: evens xs). by rewrite weave_cons, IH by lia.
Qed.

Lemma frames_of_app xs ys : Nat.Even (length xs) → frames_of (xs ++ ys) = frames_of xs ++ frames_of ys.
Proof.
  intros [n Hn]. revert xs Hn. induction n as [|n IH]; intros xs Hn; [by destruct xs; [|cbn in Hn; lia]|].
  destruct xs as [|x [|y xs]]; cbn in Hn; [lia..|]. cbn. by rewrite IH by lia.
Qed.

Lemma frames_of_length xs n : length xs = (2 * n)%nat → length (frames_of xs) = n.
Proof.
  revert xs. induction n as [|n IH]; intros xs Hn; [by destruct xs|].
  destruct xs as [|x [|y xs]]; cbn in Hn; [lia..|]. cbn. by rewrite IH by lia.
Qed.

Lemma gran_cases a : param_ok a → gran a = 128 ∨ gran a = 64 ∨ gran a = 32 ∨ gran a = 16.
Proof. intros _. unfold gran, granule. repeat case_match; auto. Qed.

Lemma gran_bounds a len :
  param_ok a → 256 ≤ len → len - gran a < gran a * (len / gran a) ≤ len ∧ 1 ≤ len / gran a ∧ 128 < gran a * (len / gran a).
Proof. intros Hp Hl. destruct (gran_cases a Hp) as [-> |[-> |[-> | ->]]]; dlia. Qed.

Lemma gran_even a len : param_ok a → ∃ k, gran a * (len / gran a) = 2 * k.
Proof.
  intros Hp. exists (gran a / 2 * (len / gran a)). rewrite Z.mul_assoc. f_equal.
  by destruct (gran_cases a Hp) as [-> |[-> |[-> | ->]]].
Qed.

Definition block_shorts (a : alsa_param_t) (buf : list Z) (len : Z) : list Z :=
  shorts_of (take (Z.to_nat (gran a * (len / gran a))) buf).

Lemma play_end_exact a n : param_ok a → flag a = 0 → 0 ≤ n ≤ 0x4000 → alsa_play_end a n = 4 * n.
Proof.
  intros Hp Hf Hn. unfold alsa_play_end. rewrite Hf, (po_frame _ Hp). cbn [Z.eqb]. rewrite u64_small by lia.
  replace (n * 32) with (4 * n * 8) by lia. rewrite Z.div_mul, i32_small by lia. done.
Qed.

Lemma play_begin_spec a buf len c :
  param_ok a → zlen buf = OUTPUT_BUFFER_SIZE → 256 ≤ len ≤ OUTPUT_BUFFER_SIZE → conv_ok c →
  ∃ data n c', alsa_play_begin a buf len c = Some (data, n, c') ∧ 0 < n ≤ 0x4000 ∧
    alsa_play_end a n = gran a * (len / gran a) ∧
    slice data 0 (2 * n) = Some (block_out (real_channel a) (oversample a) c (block_shorts a buf len)) ∧
    advanced (real_channel a) (oversample a) (block_shorts a buf len) c c'.
Proof.
  intros Hp Hb Hl Hc. unfold OUTPUT_BUFFER_SIZE in *. destruct (shorts_of_16 buf) as [H16 Hsl]. rewrite Hb in Hsl.
  change (8192 / 2) with 4096 in Hsl. pose proof (gran_bounds a len Hp ltac:(lia)) as (Hg1 & Hg2 & Hg3).
  unfold alsa_play_begin. rewrite (po_frame _ Hp). cbn [Z.eqb].
  destruct (Z.eqb_spec (flag a) 0) as [Hf|Hf].
  - destruct (po_mode _ Hp) as [(_ & Hr & Ho)|[? _]]; [|done]. rewrite Hr, Ho.
    assert (gran a = 128) as Hg by (unfold gran; by rewrite Hf). pose (n := 32 * (len / 128)).
    assert (Z.land (u32 (len * 8) / 32) (Z.lnot 31) = n) as ->.
    { change 31 with (Z.ones 5). rewrite u32_small, land_ones_down by lia. unfold n. dlia. }
    assert (0 < n ≤ 2048) by (unfold n; dlia). exists (shorts_of buf), n, c. split; [done|]. split; [lia|].
    rewrite play_end_exact by (done || lia). split; [rewrite Hg; unfold n; lia|].
    assert (block_shorts a buf len = take (Z.to_nat (2 * n)) (shorts_of buf)) as ->.
    { unfold block_shorts. rewrite Hg, <- shorts_take. do 2 f_equal. unfold n. lia. }
    split; [|by split]. rewrite slice_some by lia. cbn [Z.to_nat]. rewrite drop_0. f_equal. unfold block_out.
    cbn [chan_of second Z.eqb Pos.eqb]. unfold chan_conv, chan_of. cbn [Z.eqb Pos.eqb]. rewrite drop_0, weave_evens; [done|].
    exists (Z.to_nat n). unfold zlen in Hsl. rewrite length_take. lia.
  - destruct (po_mode _ Hp) as [(? & _)|[_ Hs]]; [done|]. assert (gran a = granule (real_channel a) (oversample a)) as Hg.
    { unfold gran. by rewrite (proj2 (Z.eqb_neq _ _) Hf). }
    rewrite (u32_small len) by lia.
    destruct (oversample_fill_spec len (shorts_of buf) c ltac:(lia) ltac:(dlia) H16 Hc _ _ Hs) as (F & c' & -> & [Ha Hsl' Hr Hm]).
    rewrite <- Hg in *. cbn [mbind option_bind]. exists (output_buffer c'), F, c'. split; [done|].
    assert (0 < F ≤ 0x4000) as HF.
    { split; [lia|]. unfold slice in Hsl'. rewrite (co_buf _ (av_ok _ _ _ _ _ Ha)) in Hsl'.
      destruct (Z.leb_spec (0 + 2 * F) 32768); [lia|]. by rewrite andb_false_r in Hsl'. }
    split; [done|]. destruct (gran_even a len Hp) as [k Hk].
    assert (block_shorts a buf len = take (Z.to_nat (gran a * (len / gran a) / 2)) (shorts_of buf)) as ->.
    { unfold block_shorts. rewrite Hk, <- shorts_take. do 2 f_equal. replace (2 * k / 2) with k by dlia. lia. }
    split; [|done]. unfold alsa_play_end. rewrite (proj2 (Z.eqb_neq _ _) Hf), (po_frame _ Hp), Hr.
    rewrite u32_small, i32_small by lia. done.
Qed.

Lemma whole_app rc o xs ys : whole rc o xs → whole rc o ys → whole rc o (xs ++ ys).
Proof.
  intros [E1 C1] [E2 C2]. split.
  - intros Hr. rewrite length_app. by apply Nat.Even_Even_add; auto.
  - intros Ho ch Hch. rewrite chan_of_app, length_app by auto. by apply Nat.Even_Even_add; auto.
Qed.

Lemma shorts_length bs k : length bs = (2 * k)%nat → length (shorts_of bs) = k.
Proof.
  revert bs. induction k as [|k IH]; intros bs Hn; [by destruct bs|].
  destruct bs as [|x [|y bs]]; cbn in Hn; [lia..|]. cbn. by rewrite IH by lia.
Qed.

Lemma block_shorts_whole a buf len :
  param_ok a → 256 ≤ len → len ≤ zlen buf → whole (real_channel a) (oversample a) (block_shorts a buf len).
Proof.
  intros Hp Hl Hb. pose proof (gran_bounds a len Hp Hl) as (Hg1 & Hg2 & _).
  assert (∃ k, gran a = 4 * k ∧ 0 < k ∧ (oversample a = -1 → k = 32)) as (k & Hk & Hk0 & Hk1).
  { destruct (po_mode _ Hp) as [(Hf & _ & Ho)|[Hf _]]; unfold gran, granule.
    - rewrite Hf. exists 32. split; [done|]. split; [lia|done].
    - rewrite (proj2 (Z.eqb_neq _ _) Hf). repeat case_match; rewrite ?Z.eqb_eq, ?Z.eqb_neq in *;
        [exists 32|exists 16|exists 8|exists 32|exists 8|exists 4]; lia. }
  set (q := len / gran a) in *. assert (length (block_shorts a buf len) = Z.to_nat (2 * k * q)) as Hs.
  { unfold block_shorts. apply shorts_length. rewrite length_take. fold q. unfold zlen in *. nia. }
  split.
  - intros _. exists (Z.to_nat (k * q)). rewrite Hs. nia.
  - intros Ho ch Hch. specialize (Hk1 Ho) as ->. unfold chan_of. destruct (_ =? 1).
    + exists (Z.to_nat (32 * q)). rewrite Hs. nia.
    + rewrite evens_length, length_drop, Hs. exists (Z.to_nat (16 * q)).
      assert ((Z.to_nat (2 * 32 * q) - ch + 1) / 2 = Z.to_nat (32 * q))%nat as ->; [|nia].
      destruct ch as [|[|]]; [| |lia].
      * replace (Z.to_nat (2 * 32 * q) - 0 + 1)%nat with (1 + Z.to_nat (32 * q) * 2)%nat by nia.
        by rewrite Nat.div_add by lia.
      * replace (Z.to_nat (2 * 32 * q) - 1 + 1)%nat with (Z.to_nat (32 * q) * 2)%nat by nia. by rewrite Nat.div_mul by lia.
Qed.

Section writing.
Context (a : alsa_param_t) (t0 : athread) (w0 : aworld) (clean : Prop).

(** A thread inside [alsa_play], before its end. *)
Record playing (t : athread) (w : aworld) : Prop := {
  pl_thr : ath w = Some t;
  pl_blk : blocks w !! a_params t = Some a;
  pl_param : param_ok a;
  pl_conv : conv_ok (cv w);
  pl_env : same_env w0 w;
  pl_ptr : a_params t = a_params t0;
  pl_buf : zlen (a_buf t) = OUTPUT_BUFFER_SIZE;
  pl_offset : a_offset t = 0;
  pl_len : 256 ≤ a_len t ≤ OUTPUT_BUFFER_SIZE
}.

(** The bytes of the block, and what is in tune once [frames] are heard. *)
Definition block_bytes (t : athread) : list Z := take (Z.to_nat (gran a * (a_len t / gran a))) (a_buf t).
Record tuned (t : athread) (w : aworld) (frames : list (list Z)) : Prop := {
  tu_bytes : taken w = used w ++ take (Z.to_nat (a_len t)) (a_buf t);
  tu_even : Nat.Even (length (used w));
  tu_whole : whole (real_channel a) (oversample a) (shorts_of (used w));
  tu_conv : conv_after (real_channel a) (oversample a) (cv w) (shorts_of (used w ++ block_bytes t));
  tu_heard : heard w ++ frames = device_stream (tv_mode w) a (used w ++ block_bytes t)
}.

Lemma block_bytes_even t : param_ok a → zlen (a_buf t) = OUTPUT_BUFFER_SIZE → 256 ≤ a_len t ≤ OUTPUT_BUFFER_SIZE →
  Nat.Even (length (block_bytes t)) ∧ length (block_bytes t) = Z.to_nat (gran a * (a_len t / gran a)).
Proof.
  intros Hp Hb Hl. pose proof (gran_bounds a (a_len t) Hp ltac:(lia)) as (Hg1 & Hg2 & _).
  destruct (gran_even a (a_len t) Hp) as [k Hk].
  assert (length (block_bytes t) = Z.to_nat (gran a * (a_len t / gran a))) as E.
  { unfold block_bytes. rewrite length_take. unfold zlen in *. lia. }
  split; [|done]. rewrite E, Hk. exists (Z.to_nat k). lia.
Qed.

(** The end of [alsa_play]. *)
Lemma played_moves t w r :
  playing t w → alsa_play_end a r ≤ 0 ∨ alsa_play_end a r = gran a * (a_len t / gran a) →
  (clean → in_tune a t0 w0 → alsa_play_end a r = gran a * (a_len t / gran a) ∧ tuned t w []) →
  cwp (played r) (λ _, moves a t0 w0 clean) w.
Proof.
  intros [P1 P2 P3 P4 P5 P6 P7 P8 P9] Hr Ht. unfold played. cwp_step. unfold cwp at 1, get_ath. rewrite P1.
  cwp_step. unfold cwp at 1, blk. rewrite P2. cbv zeta. rewrite Z.geb_leb.
  pose proof (gran_bounds a (a_len t) P3 ltac:(lia)) as (Hg1 & Hg2 & Hg3).
  assert (gran a ≤ 128) as Hg by (destruct (gran_cases a P3) as [-> |[-> |[-> | ->]]]; lia).
  destruct (Z.leb_spec 0 (alsa_play_end a r)) as [Hn|Hn].
  - cwp_step. cwp_step. apply put_moves; try done.
    { split; cbn; try done; try lia; try (by intros; split; lia). }
    intros Hc Hi. destruct (Ht Hc Hi) as [Hu [I1 I2 I3 I4 I5]].
    destruct (block_bytes_even t P3 P7 ltac:(lia)) as [Be Bl].
    rewrite Hu, P8, drop_0. fold (block_bytes t). unfold in_work, unwritten. split; cbn.
    + rewrite I1, <- app_assoc. f_equal. unfold pend, block_bytes. cbn. rewrite ?P8, ?Z.add_0_l.
      rewrite take_take_drop. f_equal. lia.
    + rewrite length_app. by apply Nat.Even_Even_add.
    + rewrite shorts_of_app by done. apply whole_app; [done|]. apply block_shorts_whole; [done|lia|lia].
    + by rewrite app_nil_r.
    + rewrite app_nil_r in I5. by rewrite !app_nil_r.
  - apply put_moves; try done.
    { split; cbn; try done; try lia. }
    intros Hc Hi. destruct (Ht Hc Hi) as [Hu _]. lia.
Qed.

(** The loop of [pcm_write]. *)
Record wr_ok (t : athread) : Prop := {
  wo_result : 0 ≤ a_result t;
  wo_count : a_count t = zlen (a_data t);
  wo_max : a_result t + a_count t ≤ 0x4000;
  wo_end : alsa_play_end a (a_result t + a_count t) = gran a * (a_len t / gran a)
}.

Lemma write_loop_moves t w :
  playing t w → wr_ok t → (clean → in_tune a t0 w0 → tuned t w (a_data t)) →
  cwp write_loop (λ _, moves a t0 w0 clean) w.
Proof.
  intros Hp [W1 W2 W3 W4] Ht. pose proof Hp as [P1 P2 P3 P4 P5 P6 P7 P8 P9]. unfold write_loop. cwp_step.
  unfold cwp at 1, get_ath. rewrite P1. pose proof (zlen_nonneg (a_data t)) as Hz. rewrite Z.gtb_ltb.
  destruct (Z.ltb_spec 0 (a_count t)) as [Hc|Hc].
  - unfold goto. cwp_step. unfold cwp at 1, get_ath. rewrite P1. apply put_moves; try done.
    { split; cbn; try done; lia. }
    intros Hcl Hi. destruct (Ht Hcl Hi) as [I1 I2 I3 I4 I5]. split; unfold in_work, unwritten, pend; cbn; rewrite ?W4; try done.
    by rewrite P8, drop_0.
  - assert (a_count t = 0) as E by lia. rewrite E, Z.add_0_r in W4. apply (played_moves t); [done|by right|].
    intros Hcl Hi. split; [done|]. destruct (Ht Hcl Hi) as [I1 I2 I3 I4 I5]. split; try done.
    rewrite E in W2. by destruct (a_data t); [|unfold zlen in W2; cbn in W2; lia].
Qed.

(** Answers in [pcm_write]. *)
Lemma writing_playing : writing (a_pc t0) = true → tinv a t0 w0 → playing t0 w0 ∧ wr_ok t0 ∧ 0 < a_count t0.
Proof.
  intros Hpc [H1 H2 H3 [T1 T2 T3 T4 T5 T6 T7 T8 T9] H5]. destruct (T8 Hpc) as (K1 & K2 & K3 & K4 & K5 & K6 & K7).
  split; [|split; [by split|done]]. split; try done. unfold OUTPUT_BUFFER_SIZE in *. lia.
Qed.

Lemma writing_tuned : writing (a_pc t0) = true → tinv a t0 w0 → in_tune a t0 w0 → tuned t0 w0 (a_data t0).
Proof.
  intros Hpc Hw [I1 I2 I3 I4 I5]. destruct (writing_playing Hpc Hw) as ([] & [] & _).
  unfold in_work, unwritten, pend in *. rewrite Hpc, wo_end0 in *. split; try done.
  rewrite I1. f_equal. rewrite pl_offset0, drop_0. by destruct (a_pc t0).
Qed.

Lemma written_moves r :
  writing (a_pc t0) = true → tinv a t0 w0 → 0 ≤ r ≤ a_count t0 → cwp (written r) (λ _, moves a t0 w0 clean) w0.
Proof.
  intros Hpc Hw Hr. destruct (writing_playing Hpc Hw) as (Hp & [W1 W2 W3 W4] & Hc).
  pose proof Hp as [P1 P2 P3 P4 P5 P6 P7 P8 P9]. unfold written. cwp_step. unfold cwp at 1, get_ath. rewrite P1.
  cwp_step. rewrite Z.gtb_ltb. destruct (Z.ltb_spec 0 r) as [Hr0|Hr0].
  - cwp_step. cwp_step. unfold put_ath. cwp_step. eapply (write_loop_moves (t0 <| a_result := _ |> <| a_count := _ |> <| a_data := _ |>)).
    + split; cbn; done.
    + rewrite !u64_small by lia. split; cbn.
      * lia.
      * rewrite W2. unfold zlen. rewrite length_drop. unfold zlen in *. lia.
      * lia.
      * by replace (a_result t0 + r + (a_count t0 - r)) with (a_result t0 + a_count t0) by lia.
    + intros _ Hi. destruct (writing_tuned Hpc Hw Hi) as [I1 I2 I3 I4 I5]. split; try done. cbn.
      by rewrite <- app_assoc, take_drop.
  - cwp_step. apply (write_loop_moves t0); [done|done|]. intros _ Hi. by apply writing_tuned.
Qed.

Lemma other_call pc : writing (a_pc t0) = true → writing pc = true → tinv a t0 w0 → cwp (goto pc) (λ _, moves a t0 w0 clean) w0.
Proof.
  intros H1 H2 Hw. pose proof (ti_thread _ _ _ Hw) as [T1 T2 T3 T4 T5 T6 T7 T8 T9].
  eapply goto_moves; [done|done|done| |].
  { split; cbn; try done; try (by intros ->); try (by intros [->|[->| ->]]). intros _. by apply T8. }
  intros _ Hi. eapply tune_same; [exact Hi|..]; try done; unfold pend, in_work, unwritten; cbn; rewrite ?H1, ?H2; try done.
  by destruct (a_pc t0), pc.
Qed.
End writing.

Section calls.
Context (a : alsa_param_t) (t : athread) (w : aworld) (x : answer).
Context (Hw : tinv a t w) (Hx : answer_ok t x).

Lemma write_moves clean : a_pc t = AtWrite → cwp (loop_write x) (λ _, moves a t w clean) w.
Proof.
  intros Hpc. unfold answer_ok in Hx. rewrite Hpc in Hx. destruct Hx as (r & -> & Hr).
  destruct (writing_playing a t w ltac:(by rewrite Hpc) Hw) as (_ & _ & Hc).
  unfold loop_write. cbn [answer_num]. cwp_step. cwp_step. destruct (Z.eqb_spec r (- EINTR)) as [E|E].
  - change (0 =? - ESTRPIPE) with false. change (0 <? 0) with false. cbv iota. apply written_moves; [by rewrite Hpc|done|lia].
  - destruct (r =? - ESTRPIPE); [apply other_call; [by rewrite Hpc|done|done]|].
    destruct (Z.ltb_spec r 0); [apply other_call; [by rewrite Hpc|done|done]|].
    apply written_moves; [by rewrite Hpc|done|lia].
Qed.

Lemma resume_moves clean : a_pc t = AtResume → cwp (loop_resume x) (λ _, moves a t w clean) w.
Proof.
  intros Hpc. unfold answer_ok in Hx. rewrite Hpc in Hx. destruct Hx as (r & -> & Hr).
  destruct (writing_playing a t w ltac:(by rewrite Hpc) Hw) as (_ & _ & Hc).
  unfold loop_resume. cbn [answer_num]. cwp_step. cwp_step.
  destruct (r =? - EAGAIN); [apply other_call; [by rewrite Hpc|done|done]|].
  destruct (Z.ltb_spec r 0); [apply other_call; [by rewrite Hpc|done|done]|].
  apply written_moves; [by rewrite Hpc|done|lia].
Qed.

Lemma play_end_0 : param_ok a → alsa_play_end a 0 = 0.
Proof.
  intros Hp. unfold alsa_play_end. rewrite (po_frame _ Hp). unfold oversample_ret. repeat case_match; done.
Qed.

Lemma play_end_fail : param_ok a → alsa_play_end a (u64 (-1)) ≤ 0.
Proof.
  intros Hp. unfold alsa_play_end. rewrite (po_frame _ Hp). unfold oversample_ret. repeat case_match; by vm_compute.
Qed.

Lemma prepare_moves : a_pc t = AtPrepare → cwp (loop_prepare x) (λ _, moves a t w (smooth t x)) w.
Proof.
  intros Hpc. unfold answer_ok in Hx. rewrite Hpc in Hx. destruct Hx as (r & -> & Hr).
  destruct (writing_playing a t w ltac:(by rewrite Hpc) Hw) as (Hp & _ & Hc).
  unfold loop_prepare. cbn [answer_num]. cwp_step. cwp_step. destruct (Z.ltb_spec r 0).
  - apply (played_moves a t w (smooth t (ANum r)) t); [done|left; rewrite play_end_0; [lia|apply Hw]|].
    unfold smooth. rewrite Hpc. intros; lia.
  - apply written_moves; [by rewrite Hpc|done|lia].
Qed.

(** The block of a call goes on with the stream. *)
Lemma begin_tuned c' t' :
  a_pc t = AtPause → a_offset t = 0 → in_tune a t w →
  a_buf t' = a_buf t → a_len t' = a_len t →
  advanced (real_channel a) (oversample a) (block_shorts a (a_buf t) (a_len t)) (cv w) c' →
  tuned a t' (w <| cv := c' |> <| ath := Some t' |>)
    (device_frame (tv_mode w) <$>
       frames_of (block_out (real_channel a) (oversample a) (cv w) (block_shorts a (a_buf t) (a_len t)))).
Proof.
  intros Hpc Ho [I1 I2 I3 I4 I5] Eb El Ha. pose proof (ti_param _ _ _ Hw) as Hp.
  assert ((real_channel a = 1 ∨ real_channel a = 2) ∧ -1 ≤ oversample a ≤ 2) as [Hrc Hov].
  { destruct (po_mode _ Hp) as [(_ & -> & ->)|[_ [[-> H]|[-> H]]]]; lia. }
  destruct (in_work_none a t ltac:(by rewrite Hpc)) as [Ew Eu]. rewrite Ew, app_nil_r in I4, I5.
  rewrite Eu, app_nil_r in I5. unfold pend in I1. rewrite Hpc, Ho in I1. cbn [Z.to_nat] in I1. rewrite drop_0 in I1.
  assert (shorts_of (used w ++ block_bytes a t') = shorts_of (used w) ++ block_shorts a (a_buf t) (a_len t)) as Es.
  { rewrite shorts_of_app by done. unfold block_bytes, block_shorts. by rewrite Eb, El. }
  split; cbn [taken used cv heard tv_mode set_field]; [by rewrite Eb, El|exact I2|exact I3|..].
  - rewrite Es. by eapply stream_advance.
  - change (heard (w <| cv := c' |> <| ath := Some t' |>)) with (heard w). rewrite I5. unfold device_stream.
    change (tv_mode (w <| cv := c' |> <| ath := Some t' |>)) with (tv_mode w).
    change (used (w <| cv := c' |> <| ath := Some t' |>)) with (used w). rewrite Es.
    rewrite (stream_block _ _ (cv w)) by done. rewrite frames_of_app, fmap_app; [done|].
    unfold out_stream. rewrite weave_length by (by apply conv_length_chans). by eexists.
Qed.

Lemma pause_moves : a_pc t = AtPause → cwp (loop_pause x) (λ _, moves a t w (smooth t x)) w.
Proof.
  intros Hpc. unfold answer_ok in Hx. rewrite Hpc in Hx. destruct Hx as (b & ->).
  pose proof (ti_thread _ _ _ Hw) as [T1 T2 T3 T4 T5 T6 T7 T8 T9]. pose proof (ti_param _ _ _ Hw) as Hp.
  assert (∀ pc, pc = AtPause ∨ (pc = AtEnd ∧ stop_flag a ≠ 0) → cwp (goto pc) (λ _, moves a t w (smooth t (AAlloc b))) w) as Hgo.
  { intros pc Hpp. eapply goto_moves; [done|done|done| |].
    - split; cbn; try done; destruct Hpp as [->|[-> ?]]; try done; try (by intros [|[]]). intros _. by apply T7.
    - intros _ Hi. eapply tune_same; [exact Hi|..]; try done; unfold pend, in_work, unwritten; rewrite Hpc; by destruct Hpp as [->|[-> ?]]. }
  unfold loop_pause. cwp_step. eapply cwp_get_ath; [done|]. cwp_step. eapply cwp_blk; [done|].
  destruct (pause_flag a =? 0); cbn [negb]; [|apply Hgo; by left].
  destruct (Z.eqb_spec (stop_flag a) 0) as [Hs|Hs]; cbn [negb]; [|apply Hgo; by right].
  destruct (T7 Hpc) as [[Hl Ho]|?]; [|done]. do 3 cwp_step. rewrite Ho. cbn [Z.to_nat]. rewrite drop_0.
  destruct (play_begin_spec a (a_buf t) (a_len t) (cv w)) as (data & n & c' & E & Hn & He & Hsl & Ha);
    [done|done|lia|apply Hw|]. eapply cwp_lift; [exact E|]. cbv beta iota. do 3 cwp_step. unfold pcm_write_begin.
  rewrite Hsl. cbn [mbind option_bind]. eapply cwp_lift; [reflexivity|].
  destruct (negb (tv_mode w =? 0) && negb b) eqn:Etv.
  - apply (played_moves a t w (smooth t (AAlloc b)) t).
    + destruct Hw. split; try done; [apply Ha|lia].
    + left. by apply play_end_fail.
    + unfold smooth. rewrite Hpc. intros ->. by rewrite andb_false_r in Etv.
  - cwp_step. unfold put_ath. cwp_step. set (out := block_out _ _ _ _) in *.
    assert (length out = (2 * Z.to_nat n)%nat) as Hlen.
    { unfold slice in Hsl. destruct (_ && _) eqn:Eb; [|done]. injection Hsl as <-. rewrite length_take, length_drop.
      apply andb_true_iff in Eb as [_ Eb%Z.leb_le]. unfold zlen in Eb. lia. }
    eapply (write_loop_moves a t w (smooth t (AAlloc b)) (t <| a_data := _ |> <| a_count := n |> <| a_result := 0 |>)).
    + destruct Hw. split; cbn; try done; [apply Ha|lia].
    + split; cbn; [lia| |lia|exact He]. unfold zlen. rewrite length_fmap, (frames_of_length _ (Z.to_nat n)) by done. lia.
    + intros _ Hi. by apply begin_tuned.
Qed.
End calls.

Lemma alsa_loop_moves a t x w :
  tinv a t w → answer_ok t x → cwp (alsa_playback_loop x) (λ _, moves a t w (smooth t x)) w.
Proof.
  intros Hw Hx. unfold alsa_playback_loop. cwp_step. eapply cwp_get_ath; [done|]. destruct (a_pc t) eqn:Hpc.
  - by apply wait_moves.
  - by apply loop_top_moves.
  - by apply fill_moves.
  - by apply loop_read_moves.
  - by apply pause_moves.
  - by apply write_moves.
  - by apply resume_moves.
  - by apply prepare_moves.
  - unfold answer_ok in Hx. by rewrite Hpc in Hx.
Qed.

(** ** The output between its calls *)

Record idle (s : asys) : Prop := {
  id_life : life s = DevClosed ∨ life s = DevStopped;
  id_stage : stage s = NoStop;
  id_thr : ath (aw s) = None;
  id_join : joining (aw s) = false;
  id_handles : handles (aw s) = ∅;
  id_blocks : size (blocks (aw s)) = failed s;
  id_conv : conv_ok (cv (aw s))
}.

Record alive (a : alsa_param_t) (t : athread) (s : asys) : Prop := {
  al_inv : tinv a t (aw s);
  al_ptr : a_params t = private_data (aw s);
  al_handles : handles (aw s) = {[ handle a ]};
  al_blocks : size (blocks (aw s)) = S (failed s);
  al_life : (life s = DevReady ∨ life s = DevPlaying ∨ life s = DevPaused) ∧ stage s = NoStop ∨
            life s = DevStopped ∧ stage s ≠ NoStop;
  al_stop : stop_flag a ≠ 0 ↔ stage s = FlagSet;
  al_pause : stage s ≠ NoStop → pause_flag a = 0
}.

Definition ainv (s : asys) : Prop := idle s ∨ ∃ a t, alive a t s.

(** A change of flags by a call. *)
Lemma thread_ok_flags a a' t :
  thread_ok a t → (stop_flag a ≠ 0 → stop_flag a' ≠ 0) →
  alsa_play_end a' (a_result t + a_count t) = alsa_play_end a (a_result t + a_count t) → gran a' = gran a →
  thread_ok a' t.
Proof.
  intros [T1 T2 T3 T4 T5 T6 T7 T8 T9] Hs He Hg. split; try done.
  - intros Hpc. destruct (T7 Hpc); auto.
  - rewrite He, Hg. exact T8.
  - auto.
Qed.

(** A call that only changes flags. *)
Definition flag_call (f : alsa_param_t → alsa_param_t) : Prop :=
  ∀ a, (handle (f a), bits_per_sample (f a), bits_per_frame (f a), buffer_size (f a), channelcount (f a),
        rate (f a), oversample (f a), real_channel (f a), flag (f a)) =
       (handle a, bits_per_sample a, bits_per_frame a, buffer_size a, channelcount a,
        rate a, oversample a, real_channel a, flag a) ∧ (stop_flag a ≠ 0 → stop_flag (f a) ≠ 0).

Record same_music (w w' : aworld) : Prop := {
  sm_thr : ath w' = ath w;
  sm_data : (taken w', used w', heard w', cv w', tv_mode w') = (taken w, used w, heard w, cv w, tv_mode w);
  sm_blk p a : blocks w !! p = Some a → ∃ a', blocks w' !! p = Some a' ∧
    (real_channel a', oversample a', flag a', bits_per_frame a') =
    (real_channel a, oversample a, flag a, bits_per_frame a)
}.

Lemma flags_ok f a t s :
  flag_call f → alive a t s →
  cwp (on_private f) (λ _ w', same_music (aw s) w' ∧ tinv (f a) t w' ∧ private_data w' = private_data (aw s) ∧
    handles w' = handles (aw s) ∧ size (blocks w') = size (blocks (aw s)) ∧ joining w' = joining (aw s)) (aw s).
Proof.
  intros Hf [Hw Hp _ _ _ _ _]. destruct (Hf a) as [[= F1 F2 F3 F4 F5 F6 F7 F8 F9] F10]. destruct Hw as [H1 H2 H3 H4 H5].
  rewrite Hp in H2. unfold on_private, set_blk. cwp_step. cwp_step. cwp_step. unfold cwp at 1, blk. rewrite H2. cwp_step.
  split_and!; try done.
  - split; [done|done|]. intros p b Hb. cbn. destruct (decide (p = private_data (aw s))) as [->|Hne].
    + exists (f a). rewrite lookup_insert_eq. assert (b = a) as -> by congruence. by rewrite F7, F8, F9, F3.
    + exists b. by rewrite lookup_insert_ne.
  - split; cbn; try done.
    + by rewrite Hp, lookup_insert_eq.
    + destruct H3. split; congruence.
    + apply (thread_ok_flags a); [done|done| |]; unfold alsa_play_end, gran; by rewrite ?F9, ?F8, ?F7, ?F3.
  - cbn. by apply map_size_insert_Some.
Qed.

(** The thread keeps the rest of the output. *)
Lemma thread_event_ok x s a t :
  alive a t s → answer_ok t x →
  cwp (aexec (EThread x)) (λ r w', ∃ t', alive a t' (after (EThread x) r w' s) ∧ moved a t (aw s) (smooth t x) w' t') (aw s).
Proof.
  intros [Hw Hp Hh Hb Hl Hs Hpa] Hx. cbn [aexec]. cwp_step. eapply cwp_mono; [|by eapply alsa_loop_moves].
  intros _ w' [t' Hm]. cwp_steps. exists t'. split; [|done]. destruct Hm as [M1 (E1 & E2 & E3 & E4 & E5) M3 M4].
  split; cbn [after life stage failed aw next_life life_op next_stage next_failed]; try done; congruence.
Qed.

(** ** Initialisation *)

Definition with_blk (w : aworld) (p : Z) (a : alsa_param_t) : aworld := w <| blocks := <[p := a]> (blocks w) |>.

Lemma cwp_set_blk w p a f Q :
  Q tt (with_blk w p (f a)) → cwp (set_blk p f) Q (with_blk w p a).
Proof.
  intros HQ. unfold set_blk. cwp_step. eapply (cwp_intro _ _ _ a); [unfold blk; cbn; by rewrite lookup_insert_eq|].
  cwp_step. unfold with_blk in *. cbn in *. by rewrite insert_insert_eq.
Qed.

(** The block after [set_params] when the first five calls succeed. *)
Record set_up (a a' : alsa_param_t) (h : hw_answer) : Prop := {
  su_same : (handle a', oversample a', real_channel a', flag a', stop_flag a', pause_flag a', wait_flag a') =
            (handle a, oversample a, real_channel a, flag a, stop_flag a, pause_flag a, wait_flag a);
  su_sample : bits_per_sample a' = 16;
  su_frame : bits_per_frame a' = 32;
  su_count : channelcount a' = 2;
  su_rate : rate a' = hw_rate h;
  su_size : buffer_size a' = buffer_size a ∨ buffer_size a' = 4 * hw_frames h
}.

Lemma set_params_ok p tv h a w :
  (∀ k, (k ≤ 4)%nat → 0 ≤ hw_err h k) → 0 ≤ hw_frames h ≤ 2 ^ 20 →
  cwp (set_params p tv h) (λ _ w', ∃ a', w' = with_blk w p a' ∧ set_up a a' h) (with_blk w p a).
Proof.
  intros Hk Hf. unfold set_params. assert (∀ k, (k ≤ 4)%nat → (hw_err h k <? 0) = false) as Hn.
  { intros k Hle. apply Z.ltb_ge. auto. }
  rewrite !Hn by lia. cwp_step.
  assert (∀ Q, (∀ a1, set_field channelcount (λ _, 2) a1 = a <| channelcount := 2 |> → Q tt (with_blk w p a1)) →
    cwp (if negb (tv =? 0) then set_blk p (λ a, a <| channelcount := 8 |>) else mret tt) Q (with_blk w p a)) as Htv.
  { intros Q HQ. destruct (negb _); [apply cwp_set_blk|cwp_step]; by apply HQ. }
  apply Htv. intros a1 E1. cwp_step. apply cwp_set_blk. cbv beta. rewrite E1, (Hn 4%nat) by lia. do 3 cwp_step.
  apply cwp_set_blk. cbv beta. cwp_step. apply cwp_set_blk. cbv beta. set (a2 := set_field _ _ _).
  assert (set_up a a2 h) as H2 by (split; try done; by left).
  assert (∃ a', with_blk w p a2 = with_blk w p a' ∧ set_up a a' h) as Hdone by eauto.
  do 4 (destruct (hw_err h _ <? 0); [by cwp_steps|]). cwp_step. apply cwp_set_blk. cbv beta.
  set (a3 := set_field _ _ a2). assert (set_up a a3 h) as H3.
  { destruct H2. split; try done. right. change (buffer_size a3) with (i32 (u64 (hw_frames h * 32) / 8)). rewrite u64_small by lia.
    replace (hw_frames h * 32) with (4 * hw_frames h * 8) by lia. rewrite Z.div_mul by lia. by rewrite i32_small by lia. }
  do 2 (destruct (hw_err h _ <? 0); [cwp_steps; by eauto|]). cwp_steps. by eauto.
Qed.

Lemma choose_rate_ok samplerate channels fl ov rt :
  channels = 1 ∨ channels = 2 → choose_rate samplerate channels = (fl, ov, rt) →
  (fl = 0 ∧ channels = 2 ∧ ov = 0) ∨ (fl ≠ 0 ∧ supported channels ov).
Proof.
  intros Hc. unfold choose_rate, supported. destruct Hc as [-> | ->]; cbn [Z.eqb Pos.eqb];
    repeat (case_match; [intros [= <- <- <-]; lia|]); intros [= <- <- <-]; lia.
Qed.

(** The arrays with empty histories. *)
Definition cleared (c : conv) : conv :=
  c <| pass1_history := replicate 8 (replicate 8 0) |> <| pass2_history := replicate 8 (replicate 8 0) |>.

Lemma cleared_ok c rc o : conv_ok c → rc = 1 ∨ rc = 2 → conv_after rc o (cleared c) [].
Proof.
  intros [] Hr. assert (conv_ok (cleared c)) as Hok.
  { split; try done; apply (Forall_replicate hist_ok 8), zero_hist_ok. }
  split; [done| |]; intros [|[|ch]] Hch _; try lia; unfold chan_of; by destruct (rc =? 1).
Qed.

(** A fresh output. *)
Lemma fresh_alive samplerate channels x s :
  idle s → alegal (EInit samplerate channels x) s →
  cwp (alsa_init samplerate channels x)
    (λ r w', let s' := after (EInit samplerate channels x) r w' s in
       if decide (r = 0) then ∃ a t, alive a t s' ∧ in_tune a t w' else idle s' ∧ r = -1) (aw s).
Proof.
  intros [_ Hst Hth Hj Hh Hbl Hcv] [Hlife [Hch Hm Hcards Ho Hhw Hrate Hframes Hg]].
  unfold alsa_init. do 2 cwp_step. destruct (Z.eqb_spec (ia_malloc x) NULL) as [Hp|Hp].
  { cwp_steps. split; [|done]. split; cbn; rewrite ?Hlife; try done; [by left|]. by rewrite Hp. }
  destruct (choose_rate samplerate channels) as [[fl ov] rt] eqn:Er. set (a0 := mk_alsa _ _ _ _ _ _ _ _ _ _ _ _).
  set (p := ia_malloc x) in *. set (w1 := aw s <| tv_mode := ia_tv x |>). cbv beta iota.
  do 4 cwp_step. fold (with_blk w1 p a0). change (_ <| cv := _ |>) with (with_blk (w1 <| cv := cleared (cv w1) |>) p a0).
  set (w2 := w1 <| cv := cleared (cv w1) |>). cwp_step. destruct Hcards as [card Hcard]. eapply cwp_lift; [exact Hcard|].
  assert (size (blocks (with_blk w2 p a0)) = S (failed s)) as Hsz.
  { unfold with_blk. cbn. rewrite map_size_insert_None by done. by rewrite Hbl. }
  destruct (cleared_ok (cv (aw s)) channels ov Hcv Hch) as [Hcok Hc1 Hc2].
  destruct (Z.ltb_spec (ia_open x) 0) as [Hop|Hop].
  { cwp_steps. split; [|done]. split; cbn; rewrite ?Hlife; try done; [by left|].
    fold p. rewrite (proj2 (Z.eqb_neq _ _) Hp). exact Hsz. }
  cwp_step. apply cwp_set_blk. cbv beta. do 2 cwp_step.
  set (w3 := w2 <| handles := {[ ia_open x ]} ∪ handles (aw s) |>).
  match goal with |- cwp _ _ ?W => change W with (with_blk w3 p (a0 <| handle := ia_open x |>)) end.
  cwp_step. eapply cwp_mono; [|by apply set_params_ok]. intros r w4 (a & -> & Hset). destruct Hset as [[= S1 S2 S3 S4 S5 S6 S7] S8 S9 S10 S11 S12].
  do 2 cwp_step. destruct (ia_thread x); cbn [negb].
  - do 2 cwp_step. cwp_step. rewrite decide_True by done.
    exists a, (mk_ath AtWait p (ia_garbage x) 0 0 [] 0 0). split.
    + split; cbn; rewrite ?Hlife; try done.
      * split; cbn; try done; [by apply lookup_insert_eq| |].
        { split; try done; [by rewrite S11|destruct S12 as [-> | ->]; cbn; lia|]. rewrite S4, S3, S2. cbn.
          by eapply choose_rate_ok. }
        { split; cbn; try done; lia. }
      * rewrite Hh, S1. set_solver.
      * rewrite map_size_insert_None by done. by rewrite Hbl.
      * left. split; [by left|done].
      * rewrite S5, Hst. done.
    + split; cbn; try done; [by exists 0%nat| | |].
      * split; [by exists 0%nat|]. intros _ ch Hle. unfold chan_of. by destruct (_ =? 1), ch as [|[|]]; exists 0%nat.
      * rewrite S3, S2. cbn. by split.
      * unfold device_stream. cbn. unfold out_stream, chan_of, chan_conv. by repeat case_match.
  - cwp_step. unfold cwp at 1, blk. cbn. rewrite lookup_insert_eq. do 3 cwp_step. split; [|done].
    split; cbn; rewrite ?Hlife; try done; [by left| |].
    + rewrite Hh, S1. cbn. set_solver.
    + fold p. rewrite (proj2 (Z.eqb_neq _ _) Hp), map_size_insert_None by done. by rewrite Hbl.
Qed.

(** ** Every event *)

(** The stream is in tune. *)
Definition tuned_sys (s : asys) : Prop := ∀ a t, alive a t s → in_tune a t (aw s).

Lemma alive_unique a t a' t' s : alive a t s → alive a' t' s → a' = a ∧ t' = t.
Proof. intros [[] ? _ _ _ _ _] [[] ? _ _ _ _ _]. split; congruence. Qed.

Lemma tuned_alive a t s : alive a t s → in_tune a t (aw s) → tuned_sys s.
Proof. intros Ha Hi a' t' Ha'. by destruct (alive_unique _ _ _ _ _ Ha Ha') as [-> ->]. Qed.

Lemma idle_alive a t s : idle s → alive a t s → False.
Proof. intros Hi Ha. pose proof (id_thr _ Hi). pose proof (ti_thr _ _ _ (al_inv _ _ _ Ha)). congruence. Qed.

Lemma tune_flags f a t w w' : flag_call f → same_music w w' → in_tune a t w → in_tune (f a) t w'.
Proof.
  intros Hf [M1 [= E1 E2 E3 E4 E5] _] [I1 I2 I3 I4 I5]. destruct (Hf a) as [[= F1 F2 F3 F4 F5 F6 F7 F8 F9] _].
  assert (in_work (f a) t = in_work a t) as Ew by (unfold in_work, alsa_play_end; by rewrite F9, F8, F7, F3).
  assert (∀ tv bs, device_stream tv (f a) bs = device_stream tv a bs) as Ed by (intros; unfold device_stream; by rewrite F8, F7).
  split; rewrite ?Ew, ?Ed, ?E1, ?E2, ?E3, ?E4, ?E5, ?F7, ?F8; done.
Qed.

(** What an event owes. *)
Definition event_ok (e : aevent) (s : asys) (clean : Prop) : Prop :=
  cwp (aexec e) (λ r w', let s' := after e r w' s in ainv s' ∧ (clean → tuned_sys s → tuned_sys s')) (aw s).

(** An event that changes flags of the block. *)
Lemma flag_event f a t s e r (k : aworld → aworld) clean :
  flag_call f → alive a t s → (∀ w, ∃ b, k w = w <| joining := b |>) →
  (∀ Q w, cwp (on_private f) (λ _ w', Q r (k w')) w → cwp (aexec e) Q w) → next_failed e r (failed s) = failed s →
  ((next_life e r (life s) = DevReady ∨ next_life e r (life s) = DevPlaying ∨ next_life e r (life s) = DevPaused) ∧
     next_stage e (stage s) = NoStop ∨ next_life e r (life s) = DevStopped ∧ next_stage e (stage s) ≠ NoStop) →
  (stop_flag (f a) ≠ 0 ↔ next_stage e (stage s) = FlagSet) →
  (next_stage e (stage s) ≠ NoStop → pause_flag (f a) = 0) →
  event_ok e s clean.
Proof.
  intros Hf Ha Hk He Hn Hl Hs Hp. unfold event_ok. apply He. eapply cwp_mono; [|by eapply (flags_ok f a t s)].
  intros _ w (Hm & [H1 H2 H3 H4 H5] & E1 & E2 & E3 & _). destruct (Hk w) as [b ->].
  assert (alive (f a) t (after e r (w <| joining := b |>) s)) as Ha'.
  { destruct (Hf a) as [[= F1 F2 F3 F4 F5 F6 F7 F8 F9] _]. destruct Ha as [Hw Hq Hh Hb _ _ _].
    split; cbn [after life stage failed aw]; try done; cbn; congruence. }
  split; [right; by eauto|]. intros _ Hi. eapply tuned_alive; [exact Ha'|].
  eapply (tune_flags f a t (aw s)); [done|by destruct Hm|by apply Hi].
Qed.

Lemma same_joining (w : aworld) : ∃ b, w = w <| joining := b |>.
Proof. exists (joining w). by destruct w. Qed.

Lemma life_in (d d1 d2 d3 : dev_state) : d ∈ [d1; d2; d3] → d = d1 ∨ d = d2 ∨ d = d3.
Proof. rewrite !elem_of_cons, elem_of_nil. tauto. Qed.

(** A live output that plays has no stop under way. *)
Lemma alive_playing a t s :
  alive a t s → life s = DevReady ∨ life s = DevPlaying ∨ life s = DevPaused →
  stage s = NoStop ∧ stop_flag a = 0.
Proof.
  intros Ha Hl. assert (stage s = NoStop) as E.
  { destruct (al_life _ _ _ Ha) as [[_ ?]|[E _]]; [done|]. rewrite E in Hl. by destruct Hl as [|[|]]. }
  split; [done|]. destruct (Z.eq_dec (stop_flag a) 0) as [|Hne]; [done|]. apply (al_stop _ _ _ Ha) in Hne. congruence.
Qed.

Lemma legal_alive e s :
  ainv s → alegal e s → (∀ sr ch x, e ≠ EInit sr ch x) → e ≠ ENew → ∃ a t, alive a t s.
Proof.
  intros [[Hc Hst Hth _ _ _ _]|Ha] Hl Hne Hnn; [|done]. exfalso.
  assert (life s = DevReady ∨ life s = DevPlaying ∨ life s = DevPaused → False) as Hno.
  { destruct Hc as [-> | ->]; by intros [|[|]]. }
  destruct e; cbn [alegal] in Hl; [done|by destruct (Hne _ _ _ eq_refl)|by auto..|apply Hno; by apply life_in|congruence| | |].
  - destruct Hl. congruence.
  - apply Hno. destruct Hl as [Hl _]. by apply life_in.
  - destruct Hl as (t & Ht & _). congruence.
Qed.

(** A call that is [on_private f], up to what follows the change. *)
Lemma exec_call f (r : Z) (Q : Z → aworld → Prop) w : cwp (on_private f) (λ _ w', Q r w') w → cwp (on_private f;; mret r) Q w.
Proof. intros HQ. cwp_step. eapply cwp_mono; [|exact HQ]. intros ? ? ?. by cwp_step. Qed.

(** A call on an output that plays on. *)
Lemma play_event f e r s a t clean :
  flag_call f → stop_flag (f a) = stop_flag a → alive a t s →
  life s = DevReady ∨ life s = DevPlaying ∨ life s = DevPaused →
  (∀ Q w, cwp (on_private f) (λ _ w', Q r w') w → cwp (aexec e) Q w) →
  next_life e r (life s) = DevReady ∨ next_life e r (life s) = DevPlaying ∨ next_life e r (life s) = DevPaused →
  next_stage e (stage s) = stage s → next_failed e r (failed s) = failed s →
  event_ok e s clean.
Proof.
  intros Hf Hst Ha Hl He Hn Hg Hfl. destruct (alive_playing _ _ _ Ha Hl) as [Hs H0].
  eapply (flag_event f a t s e r id); [done|done|apply same_joining|done|done|..]; rewrite Hg, Hs, ?Hst, ?H0; [by left|done..].
Qed.

Lemma start_event s a t clean : alive a t s → alegal EStart s → event_ok EStart s clean.
Proof.
  intros Ha Hl. cbn in Hl. eapply (play_event (λ a, a <| wait_flag := 1 |>) EStart 0); try done; [by auto| |].
  - intros ? ? ?. by apply exec_call.
  - rewrite Hl. by auto.
Qed.

Lemma pause_event r s a t clean : alive a t s → alegal (EPause r) s → event_ok (EPause r) s clean.
Proof.
  intros Ha Hl. cbn in Hl. eapply (play_event (λ a, a <| pause_flag := 1 |>) (EPause r) r); try done; [by auto| |].
  - intros ? ? ?. by apply exec_call.
  - rewrite Hl. by auto.
Qed.

Lemma resume_event r s a t clean : alive a t s → alegal (EResume r) s → event_ok (EResume r) s clean.
Proof.
  intros Ha Hl. cbn in Hl. eapply (play_event (λ a, a <| pause_flag := 0 |>) (EResume r) r); try done; [by auto| |].
  - intros ? ? ?. by apply exec_call.
  - rewrite Hl. by auto.
Qed.

Lemma stop_pause_event s a t clean : alive a t s → alegal EStopPause s → event_ok EStopPause s clean.
Proof.
  intros Ha Hl. apply life_in in Hl. destruct (alive_playing _ _ _ Ha) as [Hs Hf]; [done|].
  eapply (flag_event (λ a, a <| pause_flag := 0 |>) a t s EStopPause 0 id);
    [by intros []|done|apply same_joining|intros ? ? ?; by apply exec_call|done|..]; cbn; rewrite ?Hs, ?Hf; [|done..].
  right. split; [|done]. unfold next_life. cbn. by destruct Hl as [-> |[-> | ->]].
Qed.

Lemma stop_flag_event s a t clean : alive a t s → alegal EStopFlag s → event_ok EStopFlag s clean.
Proof.
  intros Ha Hl. cbn in Hl. pose proof (al_pause _ _ _ Ha) as Hp.
  eapply (flag_event (λ a, a <| stop_flag := 1 |>) a t s EStopFlag 0 (λ w, w <| joining := true |>));
    [by intros []|done|by eauto| |done|..]; cbn.
  - intros Q w HQ. cbn. unfold alsa_stop_flag. do 2 cwp_step. eapply cwp_mono; [|exact HQ]. intros ? ? ?. by cwp_steps.
  - right. split; [|done]. destruct (al_life _ _ _ Ha) as [[_ ?]|[? _]]; [congruence|done].
  - done.
  - intros _. apply Hp. by rewrite Hl.
Qed.

Lemma stop_end_event s a t clean : alive a t s → alegal EStopEnd s → event_ok EStopEnd s clean.
Proof.
  intros [[H1 H2 H3 H4 H5] Hq Hh Hb Hl Hs Hp] [Hst Hpc]. rewrite H1 in Hpc. injection Hpc as Hpc. rewrite Hq in H2.
  unfold event_ok. cbn [aexec]. unfold alsa_stop_end. do 3 cwp_step. rewrite H1, decide_True by done. do 2 cwp_step.
  unfold cwp at 1, blk. rewrite H2. cwp_step. rewrite decide_True by (rewrite Hh; set_solver). do 4 cwp_step.
  assert (idle (after EStopEnd 0 (aw s <| handles := handles (aw s) ∖ {[ handle a ]} |>
    <| blocks := delete (private_data (aw s)) (blocks (aw s)) |> <| private_data := NULL |> <| ath := None |> <| joining := false |>) s)) as Hi.
  { destruct Hl as [[_ E]|[E _]]; [congruence|]. split; cbn; try done; [by right|rewrite Hh; set_solver|].
    rewrite map_size_delete, H2, Hb. cbn. lia. }
  split; [by left|]. intros _ _ a' t' Ha. by destruct (idle_alive _ _ _ Hi Ha).
Qed.

Lemma space_bounds a avail : param_ok a → avail ≤ 2 ^ 20 → 0 ≤ alsa_get_space a avail ≤ buffer_size a.
Proof.
  intros [P1 _ _ _ P5 _] Hv. unfold alsa_get_space. destruct (Z.ltb_spec avail 0); [lia|]. rewrite P1.
  rewrite u64_small, i32_small by dlia. cbv zeta. rewrite Z.gtb_ltb. case_match; rewrite ?Z.ltb_lt, ?Z.ltb_ge in *; dlia.
Qed.

(** The latency in milliseconds of the frames the formula counts. *)
Definition latency_ms (tv : Z) (a : alsa_param_t) (space : Z) : Z :=
  (buffer_size a - space) / (if tv =? 0 then 4 else 16) * 1000 / rate a.

Lemma latency_runs avail a w (Q : Z → aworld → Prop) :
  param_ok a → blocks w !! private_data w = Some a → avail ≤ 2 ^ 20 →
  Q (latency_ms (tv_mode w) a (alsa_get_space a avail)) w → cwp (alsa_latency avail) Q w.
Proof.
  intros Hp Hb Hv HQ. pose proof (space_bounds a avail Hp Hv) as Hsp. destruct Hp as [P1 P2 P3 P4 P5 _].
  unfold alsa_latency. do 3 cwp_step. unfold cwp at 1, blk. rewrite Hb. do 3 cwp_step.
  set (sp := alsa_get_space a avail) in *. rewrite P1, P3.
  eapply cwp_lift; [apply int_ok_some; unfold INT_MIN, INT_MAX; lia|]. cbv zeta.
  unfold latency_ms in HQ. set (d := if tv_mode w =? 0 then 4 else 16) in *.
  assert (u32 (2 * c_div (if negb (tv_mode w =? 0) then i32 (i32 16 * 4) else i32 16) 8) = d) as ->.
  { unfold d. by destruct (tv_mode w =? 0). }
  assert (d = 4 ∨ d = 16) as Hd by (unfold d; case_match; auto).
  assert (0 ≤ (buffer_size a - sp) / d ≤ 2 ^ 20) as Hn.
  { destruct Hd as [-> | ->]; dlia. }
  rewrite (proj2 (Z.eqb_neq d 0)) by lia. rewrite (u32_small (buffer_size a - sp)), i32_small by lia. cwp_step.
  eapply cwp_lift; [apply int_ok_some; unfold INT_MIN, INT_MAX; lia|].
  rewrite (proj2 (Z.eqb_neq (rate a) 0)) by lia. cwp_step. by rewrite u32_small by lia.
Qed.

Lemma latency_event n s a t clean : alive a t s → alegal (ELatency n) s → event_ok (ELatency n) s clean.
Proof.
  intros Ha [_ Hv]. pose proof Ha as [[H1 H2 H3 H4 H5] Hq Hh Hb Hl Hs Hp]. rewrite Hq in H2.
  eapply latency_runs; [exact H3|exact H2|done|]. set (s' := after _ _ _ _).
  assert (alive a t s') as Ha' by (by destruct Ha). split; [right; by eauto|]. intros _ Hi. eapply tuned_alive; [done|by apply Hi].
Qed.

(** The new instance, and the initialisation. *)
Lemma new_event s clean : ainv s → alegal ENew s → event_ok ENew s clean.
Proof.
  intros [Hi|(a & t & Ha)] [Hl Hst].
  - unfold event_ok. cbn [aexec]. cwp_step. assert (idle (after ENew 0 (aw s) s)) as Hi'.
    { destruct Hi. split; cbn; try done. by left. }
    split; [by left|]. intros _ _ a t Ha. by destruct (idle_alive _ _ _ Hi' Ha).
  - destruct (al_life _ _ _ Ha) as [[[|[|]] _]|[_ ?]]; congruence.
Qed.

Lemma init_event sr ch x s clean : ainv s → alegal (EInit sr ch x) s → event_ok (EInit sr ch x) s clean.
Proof.
  intros [Hi|(a & t & Ha)] Hl.
  - unfold event_ok. cbn [aexec]. eapply cwp_mono; [|by eapply fresh_alive]. cbv beta zeta. intros r w'. case_match.
    + intros (a & t & Ha & Ht). split; [right; by eauto|]. intros _ _. by eapply tuned_alive.
    + intros [Hi' _]. split; [by left|]. intros _ _ a t Ha. by destruct (idle_alive _ _ _ Hi' Ha).
  - destruct Hl as [Hc _]. destruct (al_life _ _ _ Ha) as [[[|[|]] _]|[? _]]; congruence.
Qed.

(** The events on which the stream stays in tune. *)
Definition smooth_event (e : aevent) (s : asys) : Prop :=
  match e with EThread x => ∀ t, ath (aw s) = Some t → smooth t x | _ => True end.

Lemma thread_event x s a t : alive a t s → alegal (EThread x) s → event_ok (EThread x) s (smooth_event (EThread x) s).
Proof.
  intros Ha (t1 & Ht1 & Hx). pose proof (ti_thr _ _ _ (al_inv _ _ _ Ha)) as Ht. rewrite Ht in Ht1. injection Ht1 as <-.
  unfold event_ok. eapply cwp_mono; [|by eapply thread_event_ok]. cbv zeta. intros r w' (t' & Ha' & Hm).
  split; [right; by eauto|]. intros Hsm Hi. eapply tuned_alive; [done|]. by apply (mv_tune _ _ _ _ _ _ Hm); auto.
Qed.

Lemma event_step e s : ainv s → alegal e s → event_ok e s (smooth_event e s).
Proof.
  intros Hi Hl. destruct e; try (by apply new_event); try (by apply init_event);
    destruct (legal_alive _ _ Hi Hl) as (a & t & Ha); try done.
  - by eapply start_event.
  - by eapply pause_event.
  - by eapply resume_event.
  - by eapply stop_pause_event.
  - by eapply stop_flag_event.
  - by eapply stop_end_event.
  - by eapply latency_event.
  - by eapply thread_event.
Qed.

(** ** Runs *)

Definition reached : asys → Prop := rtc (λ s s', ∃ e, astep e s s') alsa_boot.
Definition reached_smoothly : asys → Prop := rtc (λ s s', ∃ e, smooth_event e s ∧ astep e s s') alsa_boot.

Lemma boot_idle : idle alsa_boot.
Proof. split; try done; [by left|apply conv_init_ok]. Qed.

Lemma legal_runs e s : ainv s → alegal e s → ∃ s', astep e s s'.
Proof.
  intros Hi Hl. destruct (cwp_elim _ _ _ (event_step e s Hi Hl)) as (r & w' & E & _). exists (after e r w' s).
  split; [done|]. by exists r, w'.
Qed.

Lemma astep_inv e s s' : ainv s → astep e s s' → ainv s' ∧ (smooth_event e s → tuned_sys s → tuned_sys s').
Proof.
  intros Hi (Hl & r & w' & E & ->). destruct (cwp_elim _ _ _ (event_step e s Hi Hl)) as (r1 & w1 & E1 & H).
  rewrite E in E1. by injection E1 as <- <-.
Qed.

Lemma rtc_ind_inv {A} (R : A → A → Prop) (P : A → Prop) a b :
  P a → (∀ x y, P x → R x y → P y) → rtc R a b → P b.
Proof. intros Ha Hs Hr. induction Hr; eauto. Qed.

Lemma reached_inv s : reached s → ainv s.
Proof. apply rtc_ind_inv; [left; apply boot_idle|]. intros x y Hx [e He]. by eapply astep_inv. Qed.

Lemma smoothly_inv s : reached_smoothly s → ainv s ∧ tuned_sys s.
Proof.
  apply (rtc_ind_inv _ (λ s, ainv s ∧ tuned_sys s)).
  - split; [left; apply boot_idle|]. intros a t Ha. by destruct (idle_alive _ _ _ boot_idle Ha).
  - intros x y [Hx Ht] (e & Hsm & He). destruct (astep_inv _ _ _ Hx He). by auto.
Qed.

(** [C19] The ALSA output is well formed in every schedule in which the reads
    of the decoder do not fail, the AML card is listed and the hardware
    accepts the parameters ([answer_ok], [init_ok]; without them the code does
    leave its arrays or divide by zero, see AlsaRuns.v): after any sequence
    of legal calls of the decoder's thread, steps of the output's thread and
    such answers, every further legal step has a result (no pointer
    is followed that is not live, no index leaves its array, no division is by
    zero, no [int] overflows, no two ranges of a memcpy overlap); while there
    is a thread it works on the live block of the output and exactly one
    device is open, and without one no device is open and the only blocks
    left are those of initialisations that failed. *)
Theorem alsa_session_safe s :
  reached s →
  (∀ e, alegal e s → ∃ s', astep e s s') ∧
  match ath (aw s) with
  | Some t => ∃ a, a_params t = private_data (aw s) ∧ blocks (aw s) !! a_params t = Some a ∧
      handles (aw s) = {[ handle a ]} ∧ size (blocks (aw s)) = S (failed s)
  | None => handles (aw s) = ∅ ∧ size (blocks (aw s)) = failed s
  end.
Proof.
  intros Hr%reached_inv. split; [intros e; by apply legal_runs|]. destruct Hr as [[]|(a & t & [[] ])].
  - by rewrite id_thr0.
  - rewrite ti_thr0. by eauto.
Qed.

(** [C18] The device plays the stream: while no allocation of a conversion
    block fails, the device can always be prepared again and the reads of the
    decoder do not fail, whatever the sizes of the reads, the frames a write
    accepts, its interruptions and the calls that come between, the bytes
    delivered by the decoder are those played followed by those the thread
    holds, and the frames the device has accepted, with those still to be
    written, are the conversion of the whole stream of bytes played and in
    work, by the reference filter that knows nothing of blocks. *)
Theorem alsa_plays_stream s t :
  reached_smoothly s → ath (aw s) = Some t →
  ∃ a, blocks (aw s) !! private_data (aw s) = Some a ∧
    taken (aw s) = used (aw s) ++ pend t ∧
    heard (aw s) ++ unwritten t = device_stream (tv_mode (aw s)) a (used (aw s) ++ in_work a t).
Proof.
  intros [Hi Ht]%smoothly_inv Hth. destruct Hi as [[]|(a & t' & Ha)]; [congruence|].
  assert (t' = t) as -> by (pose proof (ti_thr _ _ _ (al_inv _ _ _ Ha)); congruence).
  exists a. rewrite <- (al_ptr _ _ _ Ha). destruct (Ht a t Ha). by destruct Ha as [[] _ _ _ _ _ _].
Qed.

(** ** The end of the thread *)

(** The device takes a frame, or comes back. *)
Definition eager (t : athread) (x : answer) : Prop :=
  match a_pc t, x with
  | AtWrite, ANum r => 0 < r
  | AtResume, ANum r => r ≠ - EAGAIN
  | _, _ => True
  end.

(** The steps left to a thread that has been told to stop. *)
Definition rank (t : athread) : Z :=
  match a_pc t with
  | AtEnd => 0
  | AtTop | AtPause => 1
  | AtWait | AtFill => 2
  | AtRead => 3
  | AtWrite => 2 + 3 * a_count t
  | AtPrepare => 3 + 3 * a_count t
  | AtResume => 4 + 3 * a_count t
  end.

Definition falls (t : athread) (_ : unit) (w' : aworld) : Prop := ∃ t', ath w' = Some t' ∧ rank t' < rank t.

Section falling.
Context (a : alsa_param_t) (t : athread) (x : answer).
Context (Hstop : stop_flag a ≠ 0) (Hpause : pause_flag a = 0).

Lemma cwp_some_ath t1 Q w : ath w = Some t1 → Q t1 w → cwp get_ath Q w.
Proof. unfold cwp, get_ath. by intros ->. Qed.

Lemma goto_falls pc t1 w : ath w = Some t1 → rank (t1 <| a_pc := pc |>) < rank t → cwp (goto pc) (falls t) w.
Proof. intros Ht Hr. unfold goto, put_ath. cwp_step. eapply cwp_some_ath; [done|]. cwp_step. by eexists. Qed.

Lemma played_falls t1 r w :
  ath w = Some t1 → blocks w !! a_params t1 = Some a → 1 < rank t → cwp (played r) (falls t) w.
Proof.
  intros Ht Hb Hr. unfold played, put_ath. cwp_step. eapply cwp_some_ath; [done|]. cwp_step. unfold cwp at 1, blk. rewrite Hb.
  cbv zeta. case_match; cwp_steps; by eexists.
Qed.

Lemma write_falls t1 w :
  ath w = Some t1 → blocks w !! a_params t1 = Some a → 1 < rank t → 2 + 3 * a_count t1 < rank t →
  cwp write_loop (falls t) w.
Proof.
  intros Ht Hb Hr Hc. unfold write_loop. cwp_step. eapply cwp_some_ath; [done|]. case_match.
  - by eapply goto_falls.
  - by eapply played_falls.
Qed.

Lemma written_falls r w :
  tinv a t w → writing (a_pc t) = true → a_pc t ≠ AtWrite ∨ 0 < r → 0 ≤ r ≤ a_count t → cwp (written r) (falls t) w.
Proof.
  intros [H1 H2 H3 H4 H5] Hpc Hw Hr. destruct (to_write _ _ H4 Hpc) as (_ & _ & Hc & _ & _ & Hfit & _).
  destruct (to_write _ _ H4 Hpc) as (_ & _ & _ & Hres & _).
  unfold written, put_ath. cwp_step. eapply cwp_some_ath; [done|]. rewrite Z.gtb_ltb.
  assert (1 < rank t) as Hrk by (unfold rank; destruct (a_pc t); cbn in Hpc; try done; lia).
  destruct (Z.ltb_spec 0 r) as [Hp|Hp]; do 2 cwp_step.
  - cwp_step. eapply write_falls; [done|done|done|]. cbn. rewrite u64_small by lia.
    unfold rank. destruct (a_pc t); try done; lia.
  - eapply write_falls; [done|done|done|]. unfold rank. destruct Hw as [Hw|]; [|lia]. destruct (a_pc t); try done; lia.
Qed.

Lemma thread_falls w :
  tinv a t w → answer_ok t x → eager t x → cwp (alsa_playback_loop x) (falls t) w.
Proof.
  intros Hw Hx He. unfold alsa_playback_loop, answer_ok, eager in *. cwp_step. eapply cwp_get_ath; [done|].
  pose proof Hw as [H1 H2 H3 H4 H5]. destruct (a_pc t) eqn:Hpc; try done.
  - unfold loop_wait. cwp_step. eapply cwp_get_ath; [done|]. cwp_step. eapply cwp_blk; [done|].
    rewrite (proj2 (Z.eqb_neq _ _) Hstop), andb_false_r. eapply goto_falls; [done|]. unfold rank. by rewrite Hpc.
  - unfold loop_top. cwp_step. eapply cwp_get_ath; [done|]. cwp_step. eapply cwp_blk; [done|].
    rewrite (proj2 (Z.eqb_neq _ _) Hstop). eapply goto_falls; [done|]. unfold rank. by rewrite Hpc.
  - unfold loop_fill. cwp_step. eapply cwp_get_ath; [done|]. cwp_step. eapply cwp_blk; [done|].
    rewrite (proj2 (Z.eqb_neq _ _) Hstop), andb_false_r. do 2 cwp_step. eapply goto_falls; [done|]. unfold rank. by rewrite Hpc.
  - destruct Hx as (bytes & -> & Hfit). pose proof (zlen_nonneg bytes) as Hz. pose proof (to_len _ _ H4) as Hl0.
    unfold loop_read, put_ath. cwp_step. eapply cwp_get_ath; [done|]. cwp_step.
    destruct (splice (a_buf t) (a_len t) bytes) eqn:E; [|by rewrite splice_some in E by (rewrite ?(to_buf _ _ H4); lia)].
    eapply cwp_lift; [done|]. cwp_step.
    eapply cwp_lift; [apply int_ok_some; unfold INT_MIN, INT_MAX, OUTPUT_BUFFER_SIZE in *; lia|]. cwp_steps.
    eexists. split; [done|]. unfold rank. by rewrite Hpc.
  - unfold loop_pause. cwp_step. eapply cwp_get_ath; [done|]. cwp_step. eapply cwp_blk; [done|].
    rewrite Hpause, (proj2 (Z.eqb_neq _ _) Hstop). eapply goto_falls; [done|]. unfold rank. by rewrite Hpc.
  - destruct Hx as (r & -> & Hr). unfold loop_write. cwp_step. cbn [answer_num]. cwp_step.
    rewrite (proj2 (Z.eqb_neq r (- EINTR))), (proj2 (Z.eqb_neq r (- ESTRPIPE))), (proj2 (Z.ltb_ge _ _)) by (unfold EINTR, ESTRPIPE; lia).
    apply written_falls; [done|by rewrite Hpc|auto|lia].
  - destruct (to_write _ _ H4 ltac:(by rewrite Hpc)) as (_ & _ & Hc & _).
    destruct Hx as (r & -> & Hr). unfold loop_resume. cwp_step. cbn [answer_num]. cwp_step. rewrite (proj2 (Z.eqb_neq _ _)) by done.
    destruct (Z.ltb_spec r 0); [eapply goto_falls; [done|]; unfold rank; rewrite Hpc; cbn; lia|].
    apply written_falls; [done|by rewrite Hpc|left; by rewrite Hpc|lia].
  - destruct (to_write _ _ H4 ltac:(by rewrite Hpc)) as (_ & _ & Hc & _).
    destruct Hx as (r & -> & Hr). unfold loop_prepare. cwp_step. cbn [answer_num]. cwp_step.
    destruct (Z.ltb_spec r 0); [eapply played_falls; [done..|]; unfold rank; rewrite Hpc; lia|].
    apply written_falls; [done|by rewrite Hpc|left; by rewrite Hpc|lia].
Qed.
End falling.

(** A step of the thread with a device that goes on. *)
Definition eager_step (s s' : asys) : Prop :=
  ∃ t x, ath (aw s) = Some t ∧ eager t x ∧ astep (EThread x) s s'.

Definition MAX_STEPS : nat := Z.to_nat 49156.

Lemma rank_bound a t : thread_ok a t → 0 ≤ rank t ≤ 49156.
Proof.
  intros Ht. pose proof (to_write _ _ Ht) as Hw. unfold rank. destruct (a_pc t); try lia;
    destruct (Hw eq_refl) as (_ & _ & ? & ? & _ & ? & _); lia.
Qed.

(** A thread that has been told to stop. *)
Definition told (s : asys) (n : Z) : Prop := ∃ a t, alive a t s ∧ stage s = FlagSet ∧ rank t ≤ n.

Lemma eager_falls s s' n : told s n → eager_step s s' → told s' (n - 1).
Proof.
  intros (a & t & Ha & Hst & Hr) (t1 & x & Ht1 & He & (t2 & Ht2 & Hx) & r & w' & E & ->).
  pose proof Ha as [Hw Hq Hh Hb Hl Hs Hp]. pose proof (ti_thr _ _ _ Hw) as Ht.
  assert (t1 = t) as -> by congruence. assert (t2 = t) as -> by congruence.
  destruct (cwp_elim _ _ _ (thread_event_ok x s a t Ha Hx)) as (r1 & w1 & E1 & t' & Ha' & _).
  rewrite E in E1. injection E1 as <- <-. exists a, t'. split; [done|]. split; [done|].
  assert (cwp (aexec (EThread x)) (λ _, falls t tt) (aw s)) as Hf.
  { cbn [aexec]. cwp_step. eapply cwp_mono; [|eapply (thread_falls a t x); try done].
    - intros [] w1 H1. by cwp_step.
    - by apply Hs.
    - apply Hp. by rewrite Hst. }
  destruct (cwp_elim _ _ _ Hf) as (r2 & w2 & E2 & t2 & Ht2' & Hlt). rewrite E in E2. injection E2 as <- <-.
  assert (t2 = t') as -> by (pose proof (ti_thr _ _ _ (al_inv _ _ _ Ha')); cbn in *; congruence). lia.
Qed.

Lemma eager_run n s s' m : nsteps eager_step n s s' → told s m → told s' (m - Z.of_nat n).
Proof.
  intros Hn. revert m. induction Hn as [s|n s s1 s' H1 Hn IH]; intros m Ht; [by rewrite Z.sub_0_r|].
  replace (m - Z.of_nat (S n)) with (m - 1 - Z.of_nat n) by lia. apply IH. by eapply eager_falls.
Qed.

(** The thread has an answer to go on with. *)
Lemma eager_goes a t s : alive a t s → a_pc t ≠ AtEnd → ∃ s', eager_step s s'.
Proof.
  intros Ha Hne. assert (∃ x, answer_ok t x ∧ eager t x) as (x & Hx & He).
  { pose proof (ti_thread _ _ _ (al_inv _ _ _ Ha)) as T. unfold answer_ok, eager. destruct (a_pc t) eqn:Hpc; try done.
    - by exists ANone.
    - by exists ANone.
    - by exists ANone.
    - exists (ARead 0 []). split; [|done]. exists []. split; [done|]. unfold zlen. cbn.
      pose proof (to_fits _ _ T). pose proof (to_offset _ _ T). lia.
    - exists (AAlloc true). by eauto.
    - exists (ANum 1). destruct (to_write _ _ T ltac:(by rewrite Hpc)) as (_ & _ & Hc & _). split; [|done]. exists 1. split; [done|lia].
    - exists (ANum 0). split; [by exists 0|done].
    - exists (ANum 0). split; [by exists 0|done]. }
  pose proof (ti_thr _ _ _ (al_inv _ _ _ Ha)) as Ht.
  destruct (legal_runs (EThread x) s) as [s' Hs']; [right; by eauto|exists t; by auto|].
  exists s', t, x. by auto.
Qed.

(** [C21] A stop comes to its end: once [alsa_stop] has set both flags, the
    thread of the output takes at most 49156 further steps on a device that
    takes a frame per write, whatever it was doing; until its end it can always
    go on, and after its end the join succeeds and [alsa_stop] closes the
    device, frees the block and leaves no thread behind. *)
Theorem alsa_stop_ends s n s' :
  reached s → stage s = FlagSet → nsteps eager_step n s s' →
  (n ≤ MAX_STEPS)%nat ∧ ∃ t, ath (aw s') = Some t ∧
    if decide (a_pc t = AtEnd)
    then ∃ s'', astep EStopEnd s' s'' ∧ ath (aw s'') = None ∧ handles (aw s'') = ∅ ∧ size (blocks (aw s'')) = failed s''
    else ∃ s'', eager_step s' s''.
Proof.
  intros Hr%reached_inv Hst Hn. destruct Hr as [Hi|(a & t & Ha)]; [pose proof (id_stage _ Hi); congruence|].
  pose proof (rank_bound a t (ti_thread _ _ _ (al_inv _ _ _ Ha))) as Hb.
  destruct (eager_run n s s' 49156 Hn) as (a' & t' & Ha' & Hst' & Hr'); [exists a, t; split_and!; [done|done|lia]|].
  pose proof (rank_bound a' t' (ti_thread _ _ _ (al_inv _ _ _ Ha'))) as Hb'. split; [unfold MAX_STEPS; lia|].
  pose proof (ti_thr _ _ _ (al_inv _ _ _ Ha')) as Ht'. exists t'. split; [done|]. case_decide as Hpc.
  - destruct (legal_runs EStopEnd s') as [s'' Hs'']; [right; by eauto|split; [done|by rewrite Ht', <- Hpc]|].
    exists s''. split; [done|]. destruct (astep_inv EStopEnd s' s'') as [[[]|(a2 & t2 & Ha2)] _]; [right; by eauto|done|done|].
    destruct Hs'' as (_ & r & w' & _ & ->). destruct (al_life _ _ _ Ha2) as [[Hl _]|[_ []]]; [|done]. cbn in Hl.
    destruct (al_life _ _ _ Ha') as [[_ ?]|[E _]]; [congruence|]. rewrite E in Hl. by destruct Hl as [|[|]].
  - by eapply eager_goes.
Qed.
