(* ===== verification/AlsaRuns.v ===== *)
(** Concrete schedules of the ALSA output (AlsaOut.v, AlsaSession.v): schedules
    that are checked while they run, witnesses, and behaviours of the code
    worth knowing. *)

From S2P Require Import Prelude Audec Rely AlsaConv AlsaOut AlsaSession.

(** ** Concrete runs *)

Definition answer_okb (t : athread) (x : answer) : bool :=
  match a_pc t, x with
  | (AtWait | AtTop | AtFill), _ => true
  | AtRead, ARead r bytes => (r =? zlen bytes) && (a_len t + zlen bytes <=? OUTPUT_BUFFER_SIZE)
  | AtPause, AAlloc _ => true
  | AtWrite, ANum r => r <=? a_count t
  | (AtResume | AtPrepare), ANum r => r <=? 0
  | _, _ => false
  end.

Definition init_okb (channels : Z) (x : init_answer) (w : aworld) : bool :=
  ((channels =? 1) || (channels =? 2)) && bool_decide (blocks w !! ia_malloc x = None) &&
  bool_decide (is_Some (alsa_get_aml_card (ia_cards x))) && bool_decide (ia_open x ∉ handles w) &&
  forallb (λ k, 0 <=? hw_err (ia_hw x) k) [0; 1; 2; 3; 4]%nat &&
  (0 <? hw_rate (ia_hw x)) && (hw_rate (ia_hw x) <? 2 ^ 32) &&
  (0 <=? hw_frames (ia_hw x)) && (hw_frames (ia_hw x) <=? 2 ^ 20) && (zlen (ia_garbage x) =? OUTPUT_BUFFER_SIZE).

Definition alegalb (e : aevent) (s : asys) : bool :=
  match e with
  | ENew => bool_decide (life s = DevStopped) && bool_decide (stage s = NoStop)
  | EInit _ ch x => bool_decide (life s = DevClosed) && init_okb ch x (aw s)
  | EStart => bool_decide (life s = DevReady)
  | EPause _ => bool_decide (life s = DevPlaying)
  | EResume _ => bool_decide (life s = DevPaused)
  | EStopPause => bool_decide (life s ∈ [DevReady; DevPlaying; DevPaused])
  | EStopFlag => bool_decide (stage s = PauseCleared)
  | EStopEnd => bool_decide (stage s = FlagSet) && bool_decide ((a_pc <$> ath (aw s)) = Some AtEnd)
  | ELatency n => bool_decide (life s ∈ [DevReady; DevPlaying; DevPaused]) && (n <=? 2 ^ 20)
  | EThread x => match ath (aw s) with Some t => answer_okb t x | None => false end
  end.

Definition smoothb (e : aevent) (s : asys) : bool :=
  match e, ath (aw s) with
  | EThread x, Some t => match a_pc t, x with AtPrepare, ANum r => 0 <=? r | AtPause, AAlloc b => b | _, _ => true end
  | _, _ => true
  end.

Lemma alsa_answer_sound t x : answer_okb t x = true → answer_ok t x.
Proof.
  unfold answer_okb, answer_ok. destruct (a_pc t), x; try done; rewrite ?andb_true_iff, ?Z.leb_le, ?Z.eqb_eq; try (by eauto).
  intros [-> ?]. by eauto.
Qed.

Lemma init_okb_sound ch x w : init_okb ch x w = true → init_ok ch x w.
Proof.
  unfold init_okb. rewrite !andb_true_iff, orb_true_iff, !bool_decide_eq_true, !Z.eqb_eq, !Z.ltb_lt, !Z.leb_le.
  intros (((((((((H1 & H2) & H3) & H4) & H5) & H6) & H7) & H8) & H9) & H10). split; try done.
  intros k Hk. rewrite forallb_forall in H5. apply Z.leb_le, H5. do 5 (destruct k as [|k]; [cbn; tauto|]). lia.
Qed.

Lemma alegalb_sound e s : alegalb e s = true → alegal e s.
Proof.
  destruct e; cbn [alegalb alegal]; rewrite ?andb_true_iff, ?bool_decide_eq_true, ?Z.leb_le; try done.
  - intros [? ?%init_okb_sound]. done.
  - destruct (ath (aw s)) as [t|]; [|done]. intros H%alsa_answer_sound. by eauto.
Qed.

Lemma smoothb_sound e s : smoothb e s = true → smooth_event e s.
Proof.
  destruct e; cbn; try done. intros H t Ht. rewrite Ht in H. unfold smooth. destruct (a_pc t), x; try done. by apply Z.leb_le.
Qed.

(** One event, and a schedule. *)
Definition act (e : aevent) (s : asys) : option asys :=
  match aexec e (aw s) with Some (r, w') => Some (after e r w' s) | None => None end.

Fixpoint schedule (ok : aevent → asys → bool) (es : list aevent) (s : asys) : option asys :=
  match es with
  | [] => Some s
  | e :: es => if alegalb e s && ok e s then s' ← act e s; schedule ok es s' else None
  end.

Lemma act_step e s s' : alegalb e s = true → act e s = Some s' → astep e s s'.
Proof.
  intros Hl%alegalb_sound. unfold act. destruct (aexec e (aw s)) as [[r w']|] eqn:E; [|done]. intros [= <-].
  split; [done|]. by exists r, w'.
Qed.

Lemma schedule_rtc ok (R : asys → asys → Prop) es s s' :
  (∀ e s s', ok e s = true → astep e s s' → R s s') → schedule ok es s = Some s' → rtc R s s'.
Proof.
  intros HR. revert s. induction es as [|e es IH]; intros s; cbn; [intros [= <-]; apply rtc_refl|].
  destruct (alegalb e s) eqn:El; [|done]. destruct (ok e s) eqn:Eo; [|done]. cbn [andb].
  destruct (act e s) as [s1|] eqn:E; [|done]. cbn. intros Hs. eapply rtc_l; [|by apply IH]. eapply HR; [done|]. by eapply act_step.
Qed.

Lemma schedule_reached es s : schedule (λ _ _, true) es alsa_boot = Some s → reached s.
Proof. apply schedule_rtc. by eauto. Qed.

Lemma schedule_smoothly es s : schedule smoothb es alsa_boot = Some s → reached_smoothly s.
Proof. apply schedule_rtc. intros e s1 s2 ?%smoothb_sound ?. by eauto. Qed.

(** A card, a stereo stream of 24 kHz, which is played at 48 kHz, and a
    schedule with two short reads, three writes and a suspended device. *)
Definition demo_hw : hw_answer := mk_hw (λ _, 0) 48000 1024.
Definition demo_cards : cards_file := CardsText [32; 48; 32; 91; 65; 77; 76; 10].
Definition demo_init : init_answer := mk_ia 0 100 demo_cards 7 demo_hw true (replicate (Z.to_nat 8192) 0).
Definition demo_bytes (n k : Z) : list Z := (λ i, (i * 37 + k) mod 256) <$> seqZ 0 n.
Definition demo_read (n k : Z) : aevent := EThread (ARead n (demo_bytes n k)).
Definition quiet : aevent := EThread ANone.
Definition demo_block (n m : Z) : list aevent :=
  [quiet; quiet; demo_read n 1; quiet; demo_read m 2; quiet; EThread (AAlloc true)].
Definition demo_play : list aevent :=
  EInit 24000 2 demo_init :: EStart :: quiet :: demo_block 100 200 ++
  [EThread (ANum 50); ELatency 100; EThread (ANum (-86)); EThread (ANum (-11)); EThread (ANum (-38));
   EThread (ANum 0); EPause 0; EThread (ANum 30)].

(** The check of a state. *)
Definition passes (o : option asys) (f : asys → bool) : bool := match o with Some s => f s | None => false end.

Lemma passes_some o f : passes o f = true → ∃ s, o = Some s ∧ f s = true.
Proof. destruct o as [s|]; [|done]. by eauto. Qed.

Definition at_pc (pc : apc) (s : asys) : bool := bool_decide ((a_pc <$> ath (aw s)) = Some pc).
Definition counts (s : asys) : nat * nat * nat := (length (taken (aw s)), length (used (aw s)), length (heard (aw s))).

Lemma alsa_session_safe_witness :
  ∃ s s', schedule (λ _ _, true) demo_play alsa_boot = Some s ∧ counts s = (300, 0, 80)%nat ∧
    astep (EThread (ANum 48)) s s' ∧ handles (aw s) ≠ ∅.
Proof.
  destruct (passes_some (schedule (λ _ _, true) demo_play alsa_boot)
    (λ s, bool_decide (counts s = (300, 0, 80)%nat) && alegalb (EThread (ANum 48)) s && at_pc AtWrite s)) as (s & E & Hc);
    [by vm_compute|]. rewrite !andb_true_iff, bool_decide_eq_true in Hc. destruct Hc as ((Hn & Hl) & Hp).
  destruct (alsa_session_safe s (schedule_reached _ _ E)) as [Hgo Hres].
  destruct (Hgo _ (alegalb_sound _ _ Hl)) as [s' Hs']. exists s, s'. split; [exact E|]. split; [exact Hn|]. split; [exact Hs'|].
  apply bool_decide_eq_true in Hp. destruct (ath (aw s)) as [t|]; [|discriminate Hp].
  destruct Hres as (a & _ & _ & -> & _). apply non_empty_singleton_L.
Defined.

Lemma alsa_plays_stream_witness :
  ∃ s t a, schedule smoothb demo_play alsa_boot = Some s ∧ counts s = (300, 0, 80)%nat ∧
    blocks (aw s) !! private_data (aw s) = Some a ∧ (real_channel a, oversample a) = (2, 1) ∧
    heard (aw s) ++ unwritten t = device_stream 0 a (take 256 (demo_bytes 100 1 ++ demo_bytes 200 2)).
Proof.
  destruct (passes_some (schedule smoothb demo_play alsa_boot)
    (λ s, bool_decide (counts s = (300, 0, 80)%nat) && bool_decide (tv_mode (aw s) = 0) &&
       match ath (aw s), blocks (aw s) !! private_data (aw s) with
       | Some t, Some a => bool_decide ((real_channel a, oversample a) = (2, 1)) &&
           bool_decide (used (aw s) ++ in_work a t = take 256 (demo_bytes 100 1 ++ demo_bytes 200 2))
       | _, _ => false
       end)) as (s & E & Hc); [by vm_compute|].
  rewrite !andb_true_iff, !bool_decide_eq_true in Hc. destruct Hc as ((Hn & Htv) & Hc).
  destruct (ath (aw s)) as [t|] eqn:Et; [|discriminate Hc].
  destruct (alsa_plays_stream s t (schedule_smoothly _ _ E) Et) as (a & Hb & _ & Hh). rewrite Hb in Hc.
  rewrite andb_true_iff, !bool_decide_eq_true in Hc. destruct Hc as [Hm Hw].
  exists s, t, a. split; [exact E|]. split; [exact Hn|]. split; [exact Hb|]. split; [exact Hm|]. by rewrite Hh, Htv, Hw.
Defined.

(** ** A stop *)

Definition eagerb (t : athread) (x : answer) : bool :=
  match a_pc t, x with
  | AtWrite, ANum r => 0 <? r
  | AtResume, ANum r => negb (r =? - EAGAIN)
  | _, _ => true
  end.

Lemma eagerb_sound t x : eagerb t x = true → eager t x.
Proof. unfold eagerb, eager. destruct (a_pc t), x; try done; rewrite ?Z.ltb_lt, ?negb_true_iff, ?Z.eqb_neq; done. Qed.

Definition eager_ok (e : aevent) (s : asys) : bool :=
  match e, ath (aw s) with EThread x, Some t => eagerb t x | _, _ => false end.

Lemma schedule_eager es s s' : schedule eager_ok es s = Some s' → nsteps eager_step (length es) s s'.
Proof.
  revert s. induction es as [|e es IH]; intros s; cbn; [intros [= <-]; constructor|].
  destruct (alegalb e s) eqn:El; [|done]. destruct (eager_ok e s) eqn:Eo; [|done]. cbn [andb].
  destruct (act e s) as [s1|] eqn:E; [|done]. cbn. intros Hs. econstructor; [|by apply IH].
  unfold eager_ok in Eo. destruct e; try done. destruct (ath (aw s)) as [t|] eqn:Et; [|done].
  exists t, x. split; [done|]. split; [by apply eagerb_sound|by apply act_step].
Qed.

Definition demo_stop : list aevent := demo_play ++ [EStopPause; EStopFlag].
Definition demo_last : list aevent := [EThread (ANum 40); EThread (ANum 8); quiet].

Lemma alsa_stop_ends_witness :
  ∃ s s' s'', schedule (λ _ _, true) demo_stop alsa_boot = Some s ∧ nsteps eager_step 3 s s' ∧ counts s' = (300, 256, 128)%nat ∧
    astep EStopEnd s' s'' ∧ ath (aw s'') = None ∧ handles (aw s'') = ∅ ∧ size (blocks (aw s'')) = failed s''.
Proof.
  destruct (passes_some (schedule (λ _ _, true) demo_stop alsa_boot)
    (λ s, bool_decide (stage s = FlagSet) && passes (schedule eager_ok demo_last s)
       (λ s', at_pc AtEnd s' && bool_decide (counts s' = (300, 256, 128)%nat)))) as (s & E & Hc); [by vm_compute|].
  rewrite andb_true_iff, bool_decide_eq_true in Hc. destruct Hc as [Hst Hp].
  destruct (passes_some _ _ Hp) as (s' & E' & Hc'). rewrite andb_true_iff, bool_decide_eq_true in Hc'. destruct Hc' as [Hend Hn].
  pose proof (schedule_eager _ _ _ E') as Hrun.
  destruct (alsa_stop_ends s 3 s' (schedule_reached _ _ E) Hst Hrun) as (_ & t & Ht & Hres).
  unfold at_pc in Hend. apply bool_decide_eq_true in Hend. rewrite Ht in Hend. injection Hend as Hpc.
  rewrite decide_True in Hres by exact Hpc.
  destruct Hres as (s'' & Hs & Hrest). exists s, s', s''. split; [exact E|]. split; [exact Hrun|]. split; [exact Hn|]. split; [exact Hs|exact Hrest].
Defined.

(** ** Behaviours worth knowing *)

(** The rates the code is written for are converted exactly. *)
Lemma choose_rate_exact :
  Forall (λ sr, ∀ ch, let '(_, ov, rt) := choose_rate sr ch in
            if ov =? -1 then 2 * rt = sr else rt = sr * 2 ^ ov)
    [96000; 88200; 64000; 48000; 44100; 32000; 24000; 22050; 16000; 12000; 11025; 8000].
Proof. repeat constructor; intros ch; unfold choose_rate; cbn; reflexivity. Qed.

(** The events without a look at their legality, and without an answer of
    the thread after the first that has no result. *)
Fixpoint raw_run (es : list aevent) (s : asys) : option asys :=
  match es with [] => Some s | e :: es => s' ← act e s; raw_run es s' end.

(** A read that fails while the buffer is empty makes its fill level negative,
    and the next read stores in front of the buffer. *)
Example failed_read_leaves_buffer :
  let es := EInit 48000 2 demo_init :: EStart :: quiet :: [quiet; quiet; EThread (ARead (-1) []); quiet] in
  (passes (raw_run es alsa_boot) (λ s, bool_decide ((a_len <$> ath (aw s)) = Some (-1)) && at_pc AtRead s),
   bool_decide (is_Some (raw_run (es ++ [demo_read 100 1]) alsa_boot))) = (true, false).
Proof. by vm_compute. Qed.

(** The result of [set_params] is not looked at: when the first call fails,
    [bits_per_frame] stays 0, and the first block divides by it. *)
Example set_params_failure_divides_by_zero :
  let bad := mk_ia 0 100 demo_cards 7 (mk_hw (λ _, -1) 48000 1024) true (replicate (Z.to_nat 8192) 0) in
  let es := EInit 48000 2 bad :: EStart :: quiet :: take 6 (demo_block 100 200) in
  (bool_decide (is_Some (raw_run es alsa_boot)), bool_decide (is_Some (raw_run (es ++ [EThread (AAlloc true)]) alsa_boot))) =
  (true, false).
Proof. by vm_compute. Qed.

(** Without an AML card the code follows the NULL of [strstr]. *)
Example no_aml_card_no_result :
  alsa_get_aml_card (CardsText [32; 48; 32; 91; 85; 83; 66; 10]) = None ∧
  alsa_get_aml_card demo_cards = Some 0.
Proof. by vm_compute. Qed.

(** A device that does not open leaves the block behind. *)
Example failed_init_keeps_block :
  let bad := mk_ia 0 100 demo_cards (-2) demo_hw true (replicate (Z.to_nat 8192) 0) in
  (λ s, (failed s, size (blocks (aw s)))) <$> schedule (λ _ _, true) [EInit 48000 2 bad] alsa_boot = Some (1, 1)%nat.
Proof. by vm_compute. Qed.

(** A device that cannot be prepared after half a block: [pcm_write] says 0,
    the block is converted and played once more from its start. *)
Example prepare_failure_replays :
  let es := EInit 48000 2 demo_init :: EStart :: quiet :: demo_block 100 200 ++
    [EThread (ANum 32); EThread (ANum (-32)); EThread (ANum (-5)); quiet; quiet; EThread (AAlloc true); EThread (ANum 64)] in
  passes (schedule (λ _ _, true) es alsa_boot) (λ s, bool_decide (counts s = (300, 256, 96)%nat) &&
    bool_decide (take 32 (heard (aw s)) = take 32 (drop 32 (heard (aw s))))) = true.
Proof. by vm_compute. Qed.

(** [alsa_get_space] multiplies frames by the bits of a sample: an empty
    device of 1024 frames (21 ms at 48 kHz) has 10 ms of latency. *)
Example empty_device_latency :
  (s ← schedule (λ _ _, true) [EInit 48000 2 demo_init] alsa_boot;
   fst <$> alsa_latency 1024 (aw s)) = Some 10.
Proof. by vm_compute. Qed.

(** [pcm_bytes_readed] counts the bytes that are left in the buffer with
    every block: 600 bytes are read, 644 are counted. *)
Example leftover_bytes_counted_twice :
  let es := EInit 48000 2 demo_init :: EStart :: quiet :: demo_block 100 200 ++ [EThread (ANum 64)] ++ demo_block 100 200 in
  passes (schedule smoothb es alsa_boot) (λ s, bool_decide (counts s = (600, 256, 64)%nat) && (pcm_bytes (aw s) =? 644)) = true.
Proof. by vm_compute. Qed.
