(* ===== verification/ArmPts.v ===== *)
(** The clock of the software decoders: [armdec_get_pts] with its helpers in
    LibAudio/amadec/adec-ffmpeg-mgt.c, and [wfd_dec_get_pts] of adec-wfd.c.

    The decoder asks the demultiplexer for the pts of the byte it has decoded
    up to, and takes off the time of the PCM data that still waits in the ring
    (PcmBuffer.v).  The build is the one with USE_AOUT_IN_ADEC, without the
    software check of pts. *)

From S2P Require Import Prelude PcmBuffer.

(** ** The code *)

Record pts_world := mk_pw {
  dsp_file_fd : Z;
  g_bst : buffer_stream_t;
  decode_offset : Z;
  last_valid_pts : Z;
  first_apts_lookup_over : Z;
  out_len_after_last_valid_pts : Z;
  use_sw_check_apts : Z
}.

#[export] Instance pts_world_eta : Eta pts_world := λ r,
  mk_pw (dsp_file_fd r) (g_bst r) (decode_offset r) (last_valid_pts r) (first_apts_lookup_over r)
    (out_len_after_last_valid_pts r) (use_sw_check_apts r).

Definition AV_SAMPLE_FMT_U8 : Z := 0.
Definition AV_SAMPLE_FMT_S16 : Z := 1.
Definition AV_SAMPLE_FMT_S32 : Z := 2.

(** [-1] as an [unsigned long]. *)
Definition NO_PTS : Z := 2 ^ 64 - 1.

(** The outside of a call: the property of the delta, that of the check by
    tsync, the number the lookup node shows after an offset was written to it
    (no number when a call fails or shows none), and the answer of the ioctl
    for an offset (the number it stores). *)
Record pts_answer := mk_pa {
  pa_delta : option Z;
  pa_tsync : bool;
  pa_lookup : Z → option Z;
  pa_ioctl : Z → Z
}.

Definition adec_apts_lookup (node : Z → option Z) (offset : Z) : Z :=
  let pts := match node (i32 offset) with Some v => u32 v | None => 0 end in
  if pts =? 2 ^ 32 - 1 then 0 else pts.

Definition width_bits (data_width : Z) : Z :=
  if data_width =? AV_SAMPLE_FMT_U8 then 8
  else if data_width =? AV_SAMPLE_FMT_S16 then 16
  else if data_width =? AV_SAMPLE_FMT_S32 then 32
  else 16.

Definition known_channels (ch : Z) : Z := if u32 ch =? 0 then 2 else u32 ch.
Definition known_rate (sr : Z) : Z := if u32 sr =? 0 then 48000 else u32 sr.

(** The pts of the lookup.  With an open descriptor the code asks the driver,
    or waits for the decoder, and puts the answer into [offset]. *)
Definition lookup_pts (x : pts_answer) (w : pts_world) : Z :=
  if dsp_file_fd w >=? 0 then 0
  else
    let offset := if first_apts_lookup_over w =? 0 then 0 else decode_offset w in
    if negb (use_sw_check_apts w =? 0) && negb (pa_tsync x) then 0
    else adec_apts_lookup (pa_lookup x) offset.

(** [data_width * channels] is an unsigned product, which must not be 0. *)
Definition cache_pts (bs : buffer_stream_t) : option Z :=
  let d := u32 (width_bits (data_width bs) * known_channels (channels bs)) in
  if d =? 0 then None
  else
    let frame_nums := u64 (buf_level bs * 8) / d in
    Some (u64 (frame_nums * 90000) / known_rate (samplerate bs)).

Definition armdec_get_pts (x : pts_answer) : CM pts_world Z :=
  w ← cm_get;
  let pts := lookup_pts x w in
  if first_apts_lookup_over w =? 0 then
    cm_modify (λ w, w <| last_valid_pts := pts |> <| first_apts_lookup_over := 1 |>);; mret pts
  else if (pts =? 0) || (last_valid_pts w =? pts) then mret NO_PTS
  else
    cm_modify (λ w, w <| last_valid_pts := pts |>);;
    cache ← cm_lift (cache_pts (g_bst w));
    if pts >=? cache then
      cm_modify (λ w, w <| out_len_after_last_valid_pts := 0 |>);;
      d ← cm_lift (int_ok (90000 / 1000 * default 0 (pa_delta x)));
      mret (u64 (pts - cache + d))
    else mret NO_PTS.

(** The wifi display decoder goes on from the last pts by what it has played
    since; a stereo stream of 48 kHz. *)
Definition wfd_dec_get_pts (x : pts_answer) : CM pts_world Z :=
  w ← cm_get;
  let pts := if dsp_file_fd w >=? 0 then pa_ioctl x (decode_offset w) else decode_offset w in
  if pts =? 0 then
    let pts := if negb (last_valid_pts w =? 0) then u64 (last_valid_pts w) else pts in
    n ← cm_lift (int_ok (out_len_after_last_valid_pts w * 8));
    let frame_nums := u64 (c_div n (16 * 2)) in
    mret (u64 (pts + u64 (frame_nums * 90000) / 48000))
  else
    cm_modify (λ w, w <| last_valid_pts := pts |> <| out_len_after_last_valid_pts := 0 |>);; mret pts.

(** ** The clock of a stream *)

(** The duration of [n] bytes in ticks of 90 kHz, whole frames and whole
    ticks. *)
Definition frame_bytes (bs : buffer_stream_t) : Z := width_bits (data_width bs) / 8 * channels bs.
Definition ticks (bs : buffer_stream_t) (frames : Z) : Z := frames * 90000 / samplerate bs.
Definition duration (bs : buffer_stream_t) (n : Z) : Z := ticks bs (n / frame_bytes bs).

Record format_ok (bs : buffer_stream_t) : Prop := {
  fo_channels : 1 ≤ channels bs ≤ 8;
  fo_rate : 1 ≤ samplerate bs ≤ INT_MAX
}.

Lemma width_bits_cases dw : width_bits dw = 8 ∨ width_bits dw = 16 ∨ width_bits dw = 32.
Proof. unfold width_bits. repeat case_match; auto. Qed.

Lemma frame_bytes_bounds bs : format_ok bs → 1 ≤ frame_bytes bs ≤ 32 ∧ width_bits (data_width bs) * channels bs = frame_bytes bs * 8.
Proof.
  intros [Hc _]. unfold frame_bytes. destruct (width_bits_cases (data_width bs)) as [-> |[-> | ->]].
  - change (8 / 8) with 1. lia.
  - change (16 / 8) with 2. lia.
  - change (32 / 8) with 4. lia.
Qed.

(** What the code takes off is the duration of the ring. *)
Lemma cache_pts_exact bs :
  format_ok bs → 0 ≤ buf_level bs ≤ INT_MAX → cache_pts bs = Some (duration bs (buf_level bs)).
Proof.
  intros Hf Hl. destruct (frame_bytes_bounds bs Hf) as [Hb Hbits]. destruct Hf as [Hc Hr]. unfold INT_MAX in *.
  unfold cache_pts, known_channels, known_rate. rewrite (u32_small (channels bs)), (u32_small (samplerate bs)) by lia.
  rewrite (proj2 (Z.eqb_neq (channels bs) 0)), (proj2 (Z.eqb_neq (samplerate bs) 0)), Hbits by lia.
  cbv zeta. rewrite (u32_small (frame_bytes bs * 8)) by lia.
  rewrite (proj2 (Z.eqb_neq _ 0)) by lia. rewrite (u64_small (buf_level bs * 8)) by lia.
  rewrite Z.div_mul_cancel_r by lia. rewrite u64_small; [done|].
  split; [apply Z.mul_nonneg_nonneg; [apply Z.div_pos|]; lia|].
  assert (buf_level bs / frame_bytes bs ≤ buf_level bs) by (apply Z.div_le_upper_bound; nia). lia.
Qed.

(** Whole parts of a difference. *)
Lemma div_sub_bounds a b c : 0 < c → a / c - b / c - 1 ≤ (a - b) / c ≤ a / c - b / c.
Proof.
  intros Hc. pose proof (Z.div_mod a c ltac:(lia)). pose proof (Z.div_mod b c ltac:(lia)).
  pose proof (Z.mod_pos_bound a c Hc). pose proof (Z.mod_pos_bound b c Hc).
  split; [apply Z.div_le_lower_bound|apply Z.lt_succ_r, Z.div_lt_upper_bound]; nia.
Qed.

Lemma duration_mono bs m n : format_ok bs → m ≤ n → duration bs m ≤ duration bs n.
Proof.
  intros Hf Hn. destruct (frame_bytes_bounds bs Hf) as [Hb _]. destruct Hf as [_ Hr]. unfold duration, ticks.
  apply Z.div_le_mono; [lia|]. apply Z.mul_le_mono_nonneg_r; [lia|]. apply Z.div_le_mono; lia.
Qed.

Lemma duration_nonneg bs n : format_ok bs → 0 ≤ n → 0 ≤ duration bs n.
Proof.
  intros Hf Hn. replace 0 with (duration bs 0); [by apply duration_mono|]. destruct (frame_bytes_bounds bs Hf) as [Hb _].
  unfold duration, ticks. by rewrite (Z.div_0_l (frame_bytes bs)) by lia.
Qed.

(** The time of the data made, less that of the data in the ring, is the time
    of the data heard, up to a frame and a tick. *)
Lemma duration_heard bs made heard :
  format_ok bs → 0 ≤ heard ≤ made →
  duration bs heard ≤ duration bs made - duration bs (made - heard) ≤ ticks bs (heard / frame_bytes bs + 1) + 1.
Proof.
  intros Hf Hh. destruct (frame_bytes_bounds bs Hf) as [Hb _]. destruct Hf as [_ Hr]. unfold duration, ticks.
  set (F := frame_bytes bs) in *. set (R := samplerate bs) in *.
  pose proof (div_sub_bounds made (made - heard) F ltac:(lia)) as H1. replace (made - (made - heard)) with heard in H1 by lia.
  set (m := made / F) in *. set (l := (made - heard) / F) in *. set (h := heard / F) in *.
  pose proof (div_sub_bounds (m * 90000) (l * 90000) R ltac:(lia)) as H2. rewrite <- Z.mul_sub_distr_r in H2.
  assert (h * 90000 / R ≤ (m - l) * 90000 / R) by (apply Z.div_le_mono; lia).
  assert ((m - l) * 90000 / R ≤ (h + 1) * 90000 / R) by (apply Z.div_le_mono; lia). lia.
Qed.

(** ** A playing decoder *)

(** [outbuf] is the PCM the decoding thread has not written yet; [made] and
    [heard] count the PCM the decoder made and the PCM the output took. *)
Record clock_sys := mk_cs { cw : pts_world; outbuf : list Z; made : Z; heard : Z }.

(** [CDecode]: the decoder has used the stream up to [offset] and made PCM
    data; [CWrite]: a round of the loop that writes it, once there is room in
    the ring; [CHear]: the output reads; [CPts]: the decoder's thread asks for
    the pts.  The decoder is only called again when its PCM is written. *)
Inductive clock_event :=
| CDecode (pcm : list Z) (offset : Z)
| CWrite
| CHear (size : Z)
| CPts (x : pts_answer).

Definition clock_step (e : clock_event) (s : clock_sys) : option clock_sys :=
  match e with
  | CDecode pcm offset =>
      if zlen (outbuf s) =? 0 then
        Some (mk_cs (cw s <| decode_offset := offset |>) pcm (made s + zlen pcm) (heard s))
      else None
  | CWrite =>
      let n := zlen (outbuf s) in
      if u64 (buf_length (g_bst (cw s)) - buf_level (g_bst (cw s))) <? n then Some s
      else
        '(wlen, bs) ← write_pcm_buffer (outbuf s) n (g_bst (cw s));
        Some (mk_cs (cw s <| g_bst := bs |>) (take (Z.to_nat (n - wlen)) (outbuf s)) (made s) (heard s))
  | CHear size =>
      '((n, _), bs) ← read_pcm_buffer size (g_bst (cw s));
      Some (mk_cs (cw s <| g_bst := bs |>) (outbuf s) (made s) (heard s + n))
  | CPts x =>
      '(_, w) ← armdec_get_pts x (cw s);
      Some (mk_cs w (outbuf s) (made s) (heard s))
  end.

Fixpoint clock_run (es : list clock_event) (s : clock_sys) : option clock_sys :=
  match es with [] => Some s | e :: es => s ← clock_step e s; clock_run es s end.

(** A decoder without a descriptor, a ring of [L] bytes of storage [b]. *)
Definition clock_boot (dw ch sr : Z) (b : list Z) : clock_sys :=
  mk_cs (mk_pw (-1) (init_buff (mk_bs 0 0 None 0 0 0 0 dw ch sr 0) (zlen b) (Some b)).2 0 0 0 0 0) [] 0 0.

Definition same_format (bs bs' : buffer_stream_t) : Prop :=
  (data_width bs', channels bs', samplerate bs') = (data_width bs, channels bs, samplerate bs).

Lemma read_keeps_format size bs r bs' : read_pcm_buffer size bs = Some (r, bs') → same_format bs bs'.
Proof.
  unfold read_pcm_buffer, read_data, mbind, option_bind. intros E. repeat (case_match; simplify_eq); done.
Qed.

Lemma write_keeps_format inb size bs r bs' : write_pcm_buffer inb size bs = Some (r, bs') → same_format bs bs'.
Proof.
  unfold write_pcm_buffer, write_data, mbind, option_bind. intros E. repeat (case_match; simplify_eq); done.
Qed.

Record clock_inv (fmt : Z * Z * Z) (s : clock_sys) : Prop := {
  ci_ring : ∃ L q, ring_rep (g_bst (cw s)) L q ∧ zlen q = made s - zlen (outbuf s) - heard s;
  ci_heard : 0 ≤ heard s;
  ci_format : (data_width (g_bst (cw s)), channels (g_bst (cw s)), samplerate (g_bst (cw s))) = fmt;
  ci_fd : dsp_file_fd (cw s) = -1;
  ci_sw : use_sw_check_apts (cw s) = 0
}.

Lemma pts_keeps x w r w' :
  armdec_get_pts x w = Some (r, w') →
  (g_bst w', dsp_file_fd w', use_sw_check_apts w', decode_offset w') =
  (g_bst w, dsp_file_fd w, use_sw_check_apts w, decode_offset w).
Proof.
  unfold armdec_get_pts, mbind, cm_bind, cm_get, cm_gets, cm_modify, cm_lift, mret, cm_ret. intros E.
  repeat (case_match; simplify_eq); done.
Qed.

Lemma moved_le size (q : list Z) : (moved size (zlen q) ≤ length q)%nat ∧ Z.of_nat (moved size (zlen q)) ≤ zlen q.
Proof. unfold moved, zlen. lia. Qed.

Lemma clock_step_inv fmt e s s' : clock_inv fmt s → clock_step e s = Some s' → clock_inv fmt s'.
Proof.
  intros [(L & q & Hr & Hq) Hh Hf Hfd Hsw] Hs. destruct e as [pcm offset| |size|x]; cbn [clock_step] in Hs.
  - destruct (Z.eqb_spec (zlen (outbuf s)) 0) as [H0|]; [|done]. injection Hs as <-.
    split; cbn; try done. exists L, q. split; [done|lia].
  - pose proof (zlen_nonneg (outbuf s)) as H0. destruct (_ <? _); [by injection Hs as <-; split; try done; exists L, q|].
    destruct (write_sim _ _ _ (outbuf s) (zlen (outbuf s)) Hr) as (bs & E & Hr'); [lia|].
    rewrite E in Hs. injection Hs as <-. apply write_keeps_format in E. unfold same_format in E.
    split; cbn; try done; [|congruence]. eexists L, _. split; [exact Hr'|]. pose proof (rr_fits _ _ _ Hr) as Hfit.
    assert (u64 (zlen (outbuf s)) ≤ zlen (outbuf s)) as Hu by (apply Z.mod_le; lia).
    pose proof (u64_range (zlen (outbuf s))). unfold moved, zlen in *. rewrite length_app, !length_take. lia.
  - destruct (read_sim _ _ _ size Hr) as (bs & E & Hr'). rewrite E in Hs. injection Hs as <-.
    apply read_keeps_format in E. unfold same_format in E. pose proof (moved_le size q) as [Hm1 Hm2].
    split; cbn; try done; [|lia|congruence]. eexists L, _. split; [exact Hr'|]. unfold zlen in *. rewrite length_drop. lia.
  - destruct (armdec_get_pts x (cw s)) as [[r w]|] eqn:E; [|done]. injection Hs as <-.
    apply pts_keeps in E as [= E1 E2 E3 E4]. split; cbn; rewrite ?E1, ?E2, ?E3; try done. by exists L, q.
Qed.

Lemma clock_run_inv fmt es s s' : clock_inv fmt s → clock_run es s = Some s' → clock_inv fmt s'.
Proof.
  revert s. induction es as [|e es IH]; intros s Hi; cbn; [by intros [= <-]|].
  destruct (clock_step e s) as [s1|] eqn:E; [|done]. cbn. apply IH. by eapply clock_step_inv.
Qed.

Lemma boot_clock_inv dw ch sr b : 0 < zlen b ≤ INT_MAX → clock_inv (dw, ch, sr) (clock_boot dw ch sr b).
Proof.
  intros Hb. split; try done. exists (length b), []. split; [|done].
  by apply (init_buff_rep (mk_bs 0 0 None 0 0 0 0 dw ch sr 0) (length b) b).
Qed.

(** The demultiplexer knows the pts of the byte the decoder has come to:
    [base] ticks and the time of the PCM made so far; the property of the
    delta is not set. *)
Record exact_lookup (base : Z) (x : pts_answer) (s : clock_sys) : Prop := {
  el_base : 0 < base;
  el_fits : base + duration (g_bst (cw s)) (made s) < 2 ^ 32 - 1;
  el_value : pa_lookup x (i32 (decode_offset (cw s))) = Some (base + duration (g_bst (cw s)) (made s));
  el_delta : pa_delta x = None
}.

(** [C22] The clock of the software decoder follows what is heard, for a
    decoder without a descriptor of the dsp ([dsp_file_fd] = -1; with one the
    code answers -1 for ever, [open_descriptor_no_pts]) and a stream of a
    fixed format: after any run of decoding, waiting for room in the ring and
    writing it, reading from it (in any sizes) and earlier queries, a query
    with an exact lookup answers -1 when the lookup shows the pts of the last
    query once more, and otherwise the pts of the byte that leaves the ring
    next, ahead by the PCM the decoding thread still holds outside the ring
    and by no more than one frame and one tick of 90 kHz besides: errors do
    not add up over the run, and no intermediate product overflows. *)
Theorem arm_clock_tracks dw ch sr b es s base x :
  1 ≤ ch ≤ 8 → 1 ≤ sr ≤ INT_MAX → 0 < zlen b ≤ INT_MAX →
  clock_run es (clock_boot dw ch sr b) = Some s → first_apts_lookup_over (cw s) ≠ 0 → exact_lookup base x s →
  let bs := g_bst (cw s) in
  ∃ r w', armdec_get_pts x (cw s) = Some (r, w') ∧
    if decide (last_valid_pts (cw s) = base + duration bs (made s)) then r = NO_PTS
    else
      let next := heard s + zlen (outbuf s) in
      base + duration bs next ≤ r ≤ base + ticks bs (next / frame_bytes bs + 1) + 1.
Proof.
  intros Hch Hsr Hb Hrun Hfirst [Hb0 Hfit Hval Hdel]. cbv zeta. set (bs := g_bst (cw s)) in *.
  destruct (clock_run_inv _ _ _ _ (boot_clock_inv dw ch sr b Hb) Hrun) as [(L & q & Hr & Hq) Hh Hf Hfd Hsw].
  fold bs in Hr, Hf. injection Hf as F1 F2 F3. assert (format_ok bs) as Hok by (split; [by rewrite F2|by rewrite F3]).
  pose proof (zlen_nonneg q) as Hq0. pose proof (rr_level _ _ _ Hr) as Hlev. pose proof (rr_fits _ _ _ Hr) as Hql.
  pose proof (rr_bound _ _ _ Hr) as HL. set (v := base + duration bs (made s)) in *.
  pose proof (zlen_nonneg (outbuf s)). pose proof (duration_nonneg bs (made s) Hok ltac:(lia)) as Hd0.
  assert (lookup_pts x (cw s) = v) as Hl.
  { unfold lookup_pts, adec_apts_lookup. rewrite Hfd, Hsw, (proj2 (Z.eqb_neq _ _) Hfirst). cbn. rewrite Hval, u32_small by lia.
    by rewrite (proj2 (Z.eqb_neq _ _)) by lia. }
  apply (cwp_elim (armdec_get_pts x) (λ r w', if decide _ then _ else _)). unfold armdec_get_pts. do 2 cwp_step.
  rewrite Hl, (proj2 (Z.eqb_neq _ _) Hfirst), (proj2 (Z.eqb_neq v 0)) by lia. cbn [orb].
  destruct (Z.eqb_spec (last_valid_pts (cw s)) v) as [He|He].
  { cwp_step. by rewrite decide_True by done. }
  do 3 cwp_step. fold bs. eapply cwp_lift; [apply cache_pts_exact; [done|unfold zlen in *; lia]|].
  set (next := heard s + zlen (outbuf s)). pose proof (zlen_nonneg (outbuf s)) as Hout.
  rewrite Hlev, Hq. replace (made s - zlen (outbuf s) - heard s) with (made s - next) by (unfold next; lia).
  pose proof (duration_heard bs (made s) next Hok ltac:(unfold next; lia)) as [Hlo Hhi].
  pose proof (duration_nonneg bs next Hok ltac:(unfold next; lia)) as Hdh.
  pose proof (duration_nonneg bs (made s - next) Hok ltac:(unfold next; lia)) as Hdl.
  rewrite Z.geb_leb, (proj2 (Z.leb_le _ _)) by lia. rewrite Hdel. do 3 cwp_step. apply (cwp_lift _ 0); [reflexivity|].
  cwp_step. rewrite decide_False by done. subst v. rewrite u64_small by lia. lia.
Qed.

Definition demo_node (v : Z) : pts_answer := mk_pa None false (λ _, Some v) (λ _, 0).
Definition demo_clock : list clock_event :=
  [CPts (demo_node 1000); CDecode (replicate 40 7) 100; CWrite; CHear 12; CDecode (replicate 40 8) 200; CWrite].


Lemma arm_clock_tracks_witness :
  ∃ s r w', clock_run demo_clock (clock_boot 1 2 48000 (replicate 64 0)) = Some s ∧
    armdec_get_pts (demo_node 1037) (cw s) = Some (r, w') ∧ outbuf s = replicate 40 8 ∧ 1024 ≤ r ≤ 1027.
Proof.
  eexists. destruct (arm_clock_tracks 1 2 48000 (replicate 64 0) demo_clock
    (default (clock_boot 1 2 48000 []) (clock_run demo_clock (clock_boot 1 2 48000 (replicate 64 0)))) 1000 (demo_node 1037))
    as (r & w' & E & Hr).
  - lia.
  - unfold INT_MAX. lia.
  - vm_compute. split; congruence.
  - vm_compute. reflexivity.
  - vm_compute. congruence.
  - split; vm_compute; reflexivity.
  - exists r, w'. split; [vm_compute; reflexivity|]. split; [exact E|].
    split; [vm_compute; reflexivity|]. vm_compute in Hr. destruct Hr as [H1 H2].
    split; [exact H1|exact H2].
Defined.

(** ** Behaviours worth knowing *)

(** While the decoding thread waits for room its PCM is not taken off: 12
    bytes of 48 kHz were heard, which is 5 ticks, and the clock shows 24. *)
Example clock_runs_ahead :
  (s ← clock_run demo_clock (clock_boot 1 2 48000 (replicate 64 0));
   '(r, _) ← armdec_get_pts (demo_node 1037) (cw s);
   Some (heard s, duration (g_bst (cw s)) (heard s), r - 1000)) = Some (12, 5, 24).
Proof. vm_compute. reflexivity. Qed.

(** With an open descriptor the answer of the driver is put into [offset] and
    never becomes the pts: after the first call every call answers -1. *)
Lemma open_descriptor_no_pts x w :
  0 ≤ dsp_file_fd w → first_apts_lookup_over w ≠ 0 → armdec_get_pts x w = Some (NO_PTS, w).
Proof.
  intros Hfd Hf. assert (lookup_pts x w = 0) as Hl.
  { unfold lookup_pts. by rewrite Z.geb_leb, (proj2 (Z.leb_le _ _) Hfd). }
  unfold armdec_get_pts, mbind, cm_bind, cm_get. cbv beta iota zeta. by rewrite Hl, (proj2 (Z.eqb_neq _ _) Hf).
Qed.

(** The wifi display clock between two pts: the last one and the time of what
    was played since, as long as that is less than 256 MB. *)
Lemma wfd_clock_extrapolates x w :
  0 ≤ dsp_file_fd w → pa_ioctl x (decode_offset w) = 0 → 0 < last_valid_pts w < 2 ^ 33 →
  0 ≤ out_len_after_last_valid_pts w < 2 ^ 28 →
  wfd_dec_get_pts x w = Some (last_valid_pts w + out_len_after_last_valid_pts w / 4 * 90000 / 48000, w).
Proof.
  intros Hfd H0 Hl Ho. unfold wfd_dec_get_pts. unfold mbind, cm_bind, cm_get, cm_lift. cbv beta iota zeta.
  rewrite Z.geb_leb, (proj2 (Z.leb_le _ _) Hfd), H0. cbn [Z.eqb]. rewrite (proj2 (Z.eqb_neq _ 0)) by lia.
  rewrite int_ok_some by (unfold INT_MIN, INT_MAX; lia). cbn [negb]. unfold c_div. change (16 * 2) with 32.
  rewrite Z.quot_div_nonneg by lia. set (n := out_len_after_last_valid_pts w) in *.
  replace (n * 8 / 32) with (n / 4) by dlia. rewrite (u64_small (last_valid_pts w)), (u64_small (n / 4)) by dlia.
  rewrite (u64_small (n / 4 * 90000)) by dlia. rewrite u64_small by dlia. done.
Qed.

Example wfd_clock_overflows :
  wfd_dec_get_pts (demo_node 0) (mk_pw 3 fresh_stream 100 5000 1 (2 ^ 28) 0) = None.
Proof. reflexivity. Qed.
